(** * TRM_MAPF: trajectory statistics, aggregation and export

    A shallow embedding of the heat-map pipeline of the repository:

    - [src/praw/stats_wait_collision.py]: [read_movingai_map], [_bfs_dist],
      [_first_reach_times], [compute_wait_collision_heatmaps],
      [summarize_run_metrics];
    - [src/praw/parse_paths.py]: [parse_output_txt];
    - [scripts/02_run_pypibt_collect.py]: the chain of these calls in [main];
    - [scripts/03_aggregate_p_raw.py]: the folding loop of [main];
    - [scripts/04_export_heatmap_bin.py]: [export_one];
    - [scripts/04_summarize_phase2.py]: [compute_metrics].

    Python exceptions are modelled by the error monad [result]; numpy
    arrays by a shape and a row-major list of cells; [int32]/[int64] cells
    by [Z] with the wrap-around written out. *)

From Stdlib Require Import ZArith Lia Bool List Permutation QArith Ascii String.
From stdpp Require Import base option list gmap strings.

Local Open Scope Z_scope.

(** ** Exceptions and the error monad *)

Inductive exn : Type :=
  | IndexError
  | KeyError
  | ValueError_NoObstacles
  | ValueError_EmptyPaths
  | ValueError_GoalsSize (ngoals nagents : Z)
  | ValueError_NegativeDims
  | ValueError_AgentCountMismatch (t got expected : Z) (line : string)
  | ValueError_NoSolutionLines
  | ValueError_NonIncreasing (prev cur : Z)
  | ValueError_InconsistentAgentCount (first now : Z)
  | ValueError_IntMaxStrDigits
  | ValueError_ShapeMismatch (h w eh ew : Z)
  | ValueError_Not2D
  | ValueError_CannotLoad
  | ValueError_JSONDecode
  | ValueError_ZeroSize
  | FileNotFoundError (path : string)
  | FileExistsError
  | NotADirectoryError
  | IsADirectoryError
  | RuntimeError_SizeMismatch (got expected : Z)
  | RuntimeError_Roundtrip
  | LoopBoundExceeded.
  (* [LoopBoundExceeded] is not a Python exception: it is what the model of
     a [while] loop answers when its iteration bound runs out. *)

Inductive result (A : Type) : Type :=
  | Ok (a : A)
  | Raise (e : exn).
Arguments Ok {A} a.
Arguments Raise {A} e.

#[global] Instance result_ret : MRet result := @Ok.
#[global] Instance result_bind : MBind result := λ A B f m,
  match m with
  | Ok a => f a
  | Raise e => Raise e
  end.

Definition of_option {A} (e : exn) (o : option A) : result A :=
  match o with
  | Some a => Ok a
  | None => Raise e
  end.

(** [for x in xs: st = body(x, st)], stopping at the first exception. *)
Fixpoint for_each {A S : Type} (body : A → S → result S) (xs : list A) (st : S)
  : result S :=
  match xs with
  | [] => Ok st
  | x :: xs' => st' ← body x st; for_each body xs' st'
  end.

(** [range(n)] as a list of naturals. *)
Definition range (n : nat) : list nat := seq 0 n.

(** ** numpy arrays *)

Definition XY : Type := (Z * Z)%type.   (* (x, y) *)

Record ndarray : Type := NdArray {
  nd_H : Z;
  nd_W : Z;
  nd_data : list Z      (* row-major: cell [y, x] is at y * W + x *)
}.

Definition nd_wf (a : ndarray) : Prop :=
  0 ≤ nd_H a ∧ 0 ≤ nd_W a ∧ Z.of_nat (length (nd_data a)) = nd_H a * nd_W a.

Definition wrap32 (v : Z) : Z := (v + 2 ^ 31) mod 2 ^ 32 - 2 ^ 31.
Definition wrap64 (v : Z) : Z := (v + 2 ^ 63) mod 2 ^ 64 - 2 ^ 63.

(** [np.full((H, W), v)] and [np.zeros((H, W))]; a negative dimension is a
    [ValueError]. *)
Definition np_full (H W v : Z) : result ndarray :=
  if (H <? 0) || (W <? 0) then Raise ValueError_NegativeDims
  else Ok (NdArray H W (replicate (Z.to_nat (H * W)) v)).

Definition np_zeros (H W : Z) : result ndarray := np_full H W 0.

(** numpy index normalisation along an axis of length [n]: an index in
    [-n, 0) counts from the end, anything outside [-n, n) raises. *)
Definition norm_index (n i : Z) : result Z :=
  if (0 <=? i) && (i <? n) then Ok i
  else if (- n <=? i) && (i <? 0) then Ok (i + n)
  else Raise IndexError.

Definition flat (W y x : Z) : nat := Z.to_nat (y * W + x).

(** [a[y, x]] *)
Definition nd_get (a : ndarray) (y x : Z) : result Z :=
  y' ← norm_index (nd_H a) y;
  x' ← norm_index (nd_W a) x;
  of_option IndexError (nd_data a !! flat (nd_W a) y' x').

(** [a[y, x] = v] on an [int32] array *)
Definition nd_set (a : ndarray) (y x v : Z) : result ndarray :=
  y' ← norm_index (nd_H a) y;
  x' ← norm_index (nd_W a) x;
  if decide (flat (nd_W a) y' x' < length (nd_data a))%nat
  then Ok (NdArray (nd_H a) (nd_W a) (<[flat (nd_W a) y' x' := wrap32 v]> (nd_data a)))
  else Raise IndexError.

(** [a[y, x] += 1] on an [int32] array *)
Definition nd_incr (a : ndarray) (y x : Z) : result ndarray :=
  v ← nd_get a y x;
  nd_set a y x (v + 1).

(** The mathematical sum of the cells. *)
Definition nd_sum (a : ndarray) : Z := foldr Z.add 0 (nd_data a).

Definition in_bounds (H W : Z) (c : XY) : bool :=
  (0 <=? c.1) && (c.1 <? W) && (0 <=? c.2) && (c.2 <? H).

(** ** [_bfs_dist] *)

Definition INF : Z := 10 ^ 9.

(** One of the four guarded relaxations in the body of the [while] loop:
    [if <guard> and not obstacles[ny, nx] and dist[ny, nx] > d: ...]. *)
Definition relax (obstacles : ndarray) (d : Z) (guard : bool) (nx ny : Z)
    (st : ndarray * list XY) : result (ndarray * list XY) :=
  let '(dist, q) := st in
  if guard then
    o ← nd_get obstacles ny nx;
    if o =? 0 then
      dv ← nd_get dist ny nx;
      if dv >? d then
        dist' ← nd_set dist ny nx d;
        Ok (dist', q ++ [(nx, ny)])
      else Ok st
    else Ok st
  else Ok st.

(** The body of the [while q:] loop after [x, y = q.popleft()]. *)
Definition bfs_body (obstacles : ndarray) (x y : Z) (st : ndarray * list XY)
  : result (ndarray * list XY) :=
  let H := nd_H obstacles in
  let W := nd_W obstacles in
  dxy ← nd_get st.1 y x;
  let d := dxy + 1 in
  st1 ← relax obstacles d (x >? 0) (x - 1) y st;
  st2 ← relax obstacles d (x + 1 <? W) (x + 1) y st1;
  st3 ← relax obstacles d (y >? 0) x (y - 1) st2;
  relax obstacles d (y + 1 <? H) x (y + 1) st3.

Fixpoint bfs_loop (fuel : nat) (obstacles dist : ndarray) (q : list XY)
  : result ndarray :=
  match q with
  | [] => Ok dist
  | (x, y) :: q' =>
    match fuel with
    | O => Raise LoopBoundExceeded
    | S fuel' =>
      '(dist', q'') ← bfs_body obstacles x y (dist, q');
      bfs_loop fuel' obstacles dist' q''
    end
  end.

Definition _bfs_dist (obstacles : ndarray) (goal : XY) : result ndarray :=
  let H := nd_H obstacles in
  let W := nd_W obstacles in
  let '(gx, gy) := goal in
  dist ← np_full H W INF;
  if negb ((0 <=? gx) && (gx <? W) && (0 <=? gy) && (gy <? H)) then Ok dist
  else
    o ← nd_get obstacles gy gx;
    if negb (o =? 0) then Ok dist
    else
      dist0 ← nd_set dist gy gx 0;
      bfs_loop (Z.to_nat (H * W)) obstacles dist0 [(gx, gy)].

(** ** [_first_reach_times] *)

(** The inner loop [for t in range(T): if paths[t][i] == gi: ...; break],
    entered at timestep [t] with the rows still to visit: [Some t] when it
    breaks, [None] when it runs to the end. *)
Fixpoint first_reach_scan (rows : list (list XY)) (gi : XY) (i : nat) (t : Z)
  : result (option Z) :=
  match rows with
  | [] => Ok None
  | row :: rows' =>
    p ← of_option IndexError (row !! i);
    if bool_decide (p = gi) then Ok (Some t)
    else first_reach_scan rows' gi i (t + 1)
  end.

Definition num_agents_of (paths : list (list XY)) : nat :=
  match paths with
  | [] => 0%nat
  | row0 :: _ => length row0
  end.

Definition _first_reach_times (paths : list (list XY)) (goals : list XY)
  : result (list Z) :=
  let N := num_agents_of paths in
  let inf := 10 ^ 9 in
  for_each (λ i reach,
      gi ← of_option IndexError (goals !! i);
      r ← first_reach_scan paths gi i 0;
      match r with
      | Some t => Ok (<[i := t]> reach)
      | None => Ok reach
      end)
    (range N) (replicate N inf).

(** ** [compute_wait_collision_heatmaps] *)

Record details : Type := Details {
  d_T : Z;
  d_N : Z;
  d_reach_t : list Z;
  d_total_wait : Z;
  d_total_blocked : Z
}.

(** [dist_cache]: one distance field per distinct goal. *)
Definition build_dist_cache (obstacles : ndarray) (goals : list XY)
  : result (gmap XY ndarray) :=
  for_each (λ g cache, d ← _bfs_dist obstacles g; Ok (<[g := d]> cache))
    (elements (list_to_set goals : gset XY)) ∅.

(** Fixed neighbor order (R, L, D, U). *)
Definition nbs : list (Z * Z) := [(1, 0); (-1, 0); (0, 1); (0, -1)].

(** Body of the occupancy loop at [(t, i)]. *)
Definition occ_body (paths : list (list XY)) (reach_t : list Z) (H W : Z)
    (t i : nat) (occupancy_map : ndarray) : result ndarray :=
  r ← of_option IndexError (reach_t !! i);
  if Z.of_nat t >? r then Ok occupancy_map
  else
    row ← of_option IndexError (paths !! t);
    p ← of_option IndexError (row !! i);
    if in_bounds H W p then nd_incr occupancy_map p.2 p.1
    else Ok occupancy_map.

(** Body of [for dx, dy in nbs] on the pair [(intend, best_d)]. *)
Definition intend_body (obstacles dist : ndarray) (H W : Z) (cur : XY)
    (dxy : Z * Z) (acc : XY * Z) : result (XY * Z) :=
  let '(intend, best_d) := acc in
  let nx := cur.1 + dxy.1 in
  let ny := cur.2 + dxy.2 in
  if in_bounds H W (nx, ny) then
    o ← nd_get obstacles ny nx;
    if o =? 0 then
      d_nb ← nd_get dist ny nx;
      if d_nb <? best_d then Ok ((nx, ny), d_nb) else Ok acc
    else Ok acc
  else Ok acc.

Definition intend_loop (obstacles dist : ndarray) (H W : Z) (cur : XY)
    (d_cur : Z) : result (XY * Z) :=
  for_each (intend_body obstacles dist H W cur) nbs (cur, d_cur).

(** State of the wait / blocking-pressure loop:
    [(wait_map, collision_map, total_wait, total_blocked)]. *)
Definition wc_state : Type := (ndarray * ndarray * Z * Z)%type.

(** The part of the body after the wait accounting: intention via BFS and
    blocking pressure.  [st] already holds the updated wait counters. *)
Definition pressure_part (goals : list XY) (dist_cache : gmap XY ndarray)
    (obstacles : ndarray) (H W : Z) (i : nat) (cur nxt : XY) (st : wc_state)
  : result wc_state :=
  let '(wait_map, collision_map, total_wait, total_blocked) := st in
  g ← of_option IndexError (goals !! i);
  dist ← of_option KeyError (dist_cache !! g);
  if negb (in_bounds H W cur) then Ok st
  else
    o ← nd_get obstacles cur.2 cur.1;
    if negb (o =? 0) then Ok st
    else
      d_cur ← nd_get dist cur.2 cur.1;
      if d_cur >=? 10 ^ 9 then Ok st
      else
        '(intend, _) ← intend_loop obstacles dist H W cur d_cur;
        if negb (bool_decide (intend = cur)) && bool_decide (nxt = cur) then
          collision_map' ← nd_incr collision_map intend.2 intend.1;
          Ok (wait_map, collision_map', total_wait, total_blocked + 1)
        else Ok st.

(** Body of the wait / blocking-pressure loop at [(t, i)]. *)
Definition wc_body (paths : list (list XY)) (goals : list XY)
    (reach_t : list Z) (dist_cache : gmap XY ndarray) (obstacles : ndarray)
    (H W : Z) (t i : nat) (st : wc_state) : result wc_state :=
  let '(wait_map, collision_map, total_wait, total_blocked) := st in
  r ← of_option IndexError (reach_t !! i);
  if Z.of_nat t >=? r then Ok st
  else
    row ← of_option IndexError (paths !! t);
    cur ← of_option IndexError (row !! i);
    row' ← of_option IndexError (paths !! S t);
    nxt ← of_option IndexError (row' !! i);
    st1 ← (if bool_decide (nxt = cur) then
             wait_map' ← (if in_bounds H W cur
                          then nd_incr wait_map cur.2 cur.1
                          else Ok wait_map);
             Ok (wait_map', collision_map, total_wait + 1, total_blocked)
           else Ok st);
    pressure_part goals dist_cache obstacles H W i cur nxt st1.

Definition compute_wait_collision_heatmaps (paths : list (list XY))
    (goals : list XY) (H W : Z) (obstacles : option ndarray)
  : result (ndarray * ndarray * ndarray * details) :=
  match obstacles with
  | None => Raise ValueError_NoObstacles
  | Some obstacles =>
    let T := length paths in
    if decide (T = 0%nat) then Raise ValueError_EmptyPaths
    else
      let N := num_agents_of paths in
      if decide (length goals ≠ N)
      then Raise (ValueError_GoalsSize (Z.of_nat (length goals)) (Z.of_nat N))
      else
        reach_t ← _first_reach_times paths goals;
        wait_map ← np_zeros H W;
        collision_map ← np_zeros H W;
        occupancy_map ← np_zeros H W;
        dist_cache ← build_dist_cache obstacles goals;
        occupancy_map ←
          for_each (λ t occ, for_each (occ_body paths reach_t H W t) (range N) occ)
            (range T) occupancy_map;
        '(wait_map, collision_map, total_wait, total_blocked) ←
          for_each (λ t st,
              for_each (wc_body paths goals reach_t dist_cache obstacles H W t)
                (range N) st)
            (range (T - 1)) (wait_map, collision_map, 0, 0);
        Ok (wait_map, collision_map, occupancy_map,
            Details (Z.of_nat T) (Z.of_nat N) reach_t total_wait total_blocked)
  end.

(** ** [summarize_run_metrics] *)

Record metrics (F : Type) : Type := Metrics {
  m_num_agents : Z;
  m_makespan : Z;
  m_solved : Z;
  m_reached_agents : Z;
  m_total_wait : Z;
  m_total_collision : Z;
  m_runtime_s : F;
  m_solver_rc : Z
}.
Arguments Metrics {F}.
Arguments m_num_agents {F}.
Arguments m_makespan {F}.
Arguments m_solved {F}.
Arguments m_reached_agents {F}.
Arguments m_total_wait {F}.
Arguments m_total_collision {F}.
Arguments m_runtime_s {F}.
Arguments m_solver_rc {F}.

(** [F] stands for Python's [float]; [np.sum] of an [int32] array
    accumulates in [int64]. *)
Definition summarize_run_metrics {F : Type} (paths : list (list XY))
    (goals : list XY) (wait_map collision_map : ndarray) (runtime_s : F)
    (solver_rc : Z) : result (metrics F) :=
  let T := Z.of_nat (length paths) in
  let N := Z.of_nat (num_agents_of paths) in
  reach_t ← _first_reach_times paths goals;
  let reached_agents :=
    Z.of_nat (length (filter (λ t, t < 10 ^ 9) reach_t)) in
  let solved :=
    if bool_decide (reached_agents = N) && bool_decide (solver_rc = 0)
    then 1 else 0 in
  let makespan := T - 1 in
  Ok (Metrics N makespan solved reached_agents
        (wrap64 (nd_sum wait_map)) (wrap64 (nd_sum collision_map))
        runtime_s solver_rc).

(** ** [parse_output_txt] ([src/praw/parse_paths.py]) *)

Module ParsePaths.

(** The text is ASCII here: [\s] is the ASCII white space of Python's
    [str] patterns (codes 9-13, 28-31 and 32) and [\d] is [0-9]. *)
Definition is_space (c : ascii) : bool :=
  let n := nat_of_ascii c in
  ((9 <=? n) && (n <=? 13) || (28 <=? n) && (n <=? 31) || (n =? 32))%nat.

Definition is_digit (c : ascii) : bool :=
  let n := nat_of_ascii c in ((48 <=? n) && (n <=? 57))%nat.

Definition digit_val (c : ascii) : Z := Z.of_nat (nat_of_ascii c) - 48.

(** [\s*] *)
Fixpoint skip_spaces (s : string) : string :=
  match s with
  | String c s' => if is_space c then skip_spaces s' else s
  | EmptyString => s
  end.

(** [\d*], greedy: the value of the digits read after [acc], how many
    were read, and the rest. *)
Fixpoint take_digits (acc : Z) (n : nat) (s : string) : Z * nat * string :=
  match s with
  | String c s' =>
    if is_digit c then take_digits (10 * acc + digit_val c) (S n) s'
    else (acc, n, s)
  | EmptyString => (acc, n, s)
  end.

(** A group matched by [\d+] or [-?\d+]: the value of the literal and
    the number of its digits. *)
Definition group : Type := (Z * nat)%type.

(** [(\d+)] *)
Definition match_nat (s : string) : option (group * string) :=
  let '(v, n, rest) := take_digits 0 0 s in
  if decide (n = 0%nat) then None else Some ((v, n), rest).

(** [(-?\d+)] *)
Definition match_int (s : string) : option (group * string) :=
  match s with
  | String "-" s' => '((v, n), rest) ← match_nat s'; Some ((- v, n), rest)
  | _ => match_nat s
  end.

(** [int(g)] for a matched group [g].  CPython refuses to convert a
    decimal literal of more than 4300 digits ([sys.int_info]'s
    [default_max_str_digits]; leading zeros count, the sign does not) and
    raises a [ValueError]. *)
Definition max_str_digits : Z := 4300.

Definition int_group (g : group) : result Z :=
  if max_str_digits <? Z.of_nat g.2 then Raise ValueError_IntMaxStrDigits
  else Ok g.1.

(** [_TLINE_RE.match(ln)]: groups 1 and 2. *)
Definition tline_match (ln : string) : option (group * string) :=
  '(t, s1) ← match_nat (skip_spaces ln);
  match skip_spaces s1 with
  | String ":" s2 => Some (t, skip_spaces s2)
  | _ => None
  end.

(** [_XY_RE] tried at the head of [s]: its two groups and what follows
    the match. *)
Definition match_xy (s : string) : option (group * group * string) :=
  match s with
  | String "(" s1 =>
    '(a, s2) ← match_int (skip_spaces s1);
    match skip_spaces s2 with
    | String "," s3 =>
      '(b, s4) ← match_int (skip_spaces s3);
      match skip_spaces s4 with
      | String ")" s5 => Some (a, b, s5)
      | _ => None
      end
    | _ => None
    end
  | _ => None
  end.

(** [_XY_RE.findall(rest)]: leftmost matches, not overlapping; each step
    consumes at least one character, so [fuel] = length suffices. *)
Fixpoint findall_xy (fuel : nat) (s : string) : list (group * group) :=
  match fuel with
  | O => []
  | S fuel' =>
    match s with
    | EmptyString => []
    | String _ s' =>
      match match_xy s with
      | Some (a, b, rest) => (a, b) :: findall_xy fuel' rest
      | None => findall_xy fuel' s'
      end
    end
  end.

Definition findall (s : string) : list (group * group) :=
  findall_xy (String.length s) s.

(** [[(int(a), int(b)) for (a, b) in pairs]] *)
Fixpoint int_pairs (pairs : list (group * group)) : result (list XY) :=
  match pairs with
  | [] => Ok []
  | (a, b) :: pairs' =>
    x ← int_group a; y ← int_group b;
    xy ← int_pairs pairs'; Ok ((x, y) :: xy)
  end.

(** Body of [for ln in lines] on [(timesteps, pos_by_t)]. *)
Definition line_body (expected_num_agents : option Z) (ln : string)
    (st : list Z * list (list XY)) : result (list Z * list (list XY)) :=
  let '(timesteps, pos_by_t) := st in
  match tline_match ln with
  | None => Ok st
  | Some (g, rest) =>
    t ← int_group g;
    xy ← int_pairs (findall rest);
    if decide (xy = []) then Ok st
    else
      match expected_num_agents with
      | Some n =>
        if decide (Z.of_nat (length xy) ≠ n)
        then Raise (ValueError_AgentCountMismatch t (Z.of_nat (length xy)) n
                      (String.substring 0 120 ln))
        else Ok (timesteps ++ [t], pos_by_t ++ [xy])
      | None => Ok (timesteps ++ [t], pos_by_t ++ [xy])
      end
  end.

(** [for i in range(1, len(timesteps)): if timesteps[i] <= timesteps[i-1]] *)
Fixpoint check_increasing (timesteps : list Z) : result unit :=
  match timesteps with
  | a :: (b :: _) as rest =>
    if b <=? a then Raise (ValueError_NonIncreasing a b)
    else check_increasing rest
  | _ => Ok tt
  end.

(** [for xy in pos_by_t]: the count check, then one position appended to
    each agent's path. *)
Definition transpose_body (num_agents : Z) (xy : list XY)
    (paths : list (list XY)) : result (list (list XY)) :=
  if decide (Z.of_nat (length xy) ≠ num_agents)
  then Raise (ValueError_InconsistentAgentCount num_agents
                (Z.of_nat (length xy)))
  else Ok (zip_with (λ path p, path ++ [p]) paths xy).

Record parsed : Type := Parsed {
  timesteps : list Z;
  positions_by_t : list (list XY);
  paths : list (list XY);
  num_agents : Z;
  makespan : Z
}.

(** [lines] is [output_txt.read_text(...).splitlines()]. *)
Definition parse_output_txt (lines : list string)
    (expected_num_agents : option Z) : result parsed :=
  '(timesteps, pos_by_t) ← for_each (line_body expected_num_agents) lines ([], []);
  if decide (timesteps = []) then Raise ValueError_NoSolutionLines
  else
    _ ← check_increasing timesteps;
    let num_agents :=
      match expected_num_agents with
      | Some n => n
      | None => Z.of_nat (length (default [] (head pos_by_t)))
      end in
    paths ← for_each (transpose_body num_agents) pos_by_t
              (replicate (Z.to_nat num_agents) []);
    Ok (Parsed timesteps pos_by_t paths num_agents
          (default 0 (last timesteps))).

End ParsePaths.

(** ** The folding loop of [main] ([scripts/03_aggregate_p_raw.py]) *)

Module Aggregate.

(** What [load_npz] returns: the three count arrays as [int64], the mask
    and the scalars stored with them. *)
Record npz : Type := Npz {
  wait : ndarray;
  pressure : ndarray;
  occ : ndarray;
  obstacles : ndarray;
  H : Z;
  W : Z;
  makespan : Z
}.

(** One [instance_*.npz] of the input directory, with the [solved] entry
    of its [.meta.json] sidecar when that file exists. *)
Record instance : Type := Instance {
  name : string;
  content : npz;
  meta_solved : option Z
}.

(** [a += b] on [int64] arrays of one shape.  numpy would also broadcast
    a [b] with an axis of length 1; such a [b] is an error here. *)
Definition nd_iadd64 (a b : ndarray) : result ndarray :=
  if decide (nd_H b = nd_H a ∧ nd_W b = nd_W a
             ∧ length (nd_data b) = length (nd_data a))
  then Ok (NdArray (nd_H a) (nd_W a)
             (zip_with (λ u v, wrap64 (u + v)) (nd_data a) (nd_data b)))
  else Raise (ValueError_ShapeMismatch (nd_H b) (nd_W b) (nd_H a) (nd_W a)).

Record acc : Type := Acc {
  wait_sum : ndarray;
  pressure_sum : ndarray;
  occ_sum : ndarray;
  makespans : list Z;
  used : list string;
  solved_cnt : Z
}.

(** Body of [for f in npz_files]. *)
Definition fold_body (only_solved : bool) (H0 W0 : Z) (f : instance)
    (st : acc) : result acc :=
  let cnt :=
    match meta_solved f with
    | Some solved => if solved =? 1 then solved_cnt st + 1 else solved_cnt st
    | None => solved_cnt st
    end in
  let skip :=
    match meta_solved f with
    | Some solved => only_solved && negb (solved =? 1)
    | None => false
    end in
  if skip
  then Ok (Acc (wait_sum st) (pressure_sum st) (occ_sum st)
             (makespans st) (used st) cnt)
  else
    let d := content f in
    if negb (H d =? H0) || negb (W d =? W0)
    then Raise (ValueError_ShapeMismatch (H d) (W d) H0 W0)
    else
      ws ← nd_iadd64 (wait_sum st) (wait d);
      ps ← nd_iadd64 (pressure_sum st) (pressure d);
      os ← nd_iadd64 (occ_sum st) (occ d);
      Ok (Acc ws ps os (makespans st ++ [makespan d]) (used st ++ [name f]) cnt).

Record stats : Type := Stats {
  num_instances_total : Z;
  num_instances_used : Z;
  solved_rate : Q;
  avg_makespan_used : option Q;
  sum_wait_total : Z;
  sum_pressure_total : Z;
  sum_occ_total : Z;
  used_instances : list string
}.

(** [main] up to the statistics; the weighted field [P_raw] (floating
    point) is left out.  Divisions are exact rationals. *)
Definition main (only_solved : bool) (npz_files : list instance)
  : result (acc * stats) :=
  match npz_files with
  | [] => Raise (FileNotFoundError "No npz found")
  | first :: _ =>
    let H0 := H (content first) in
    let W0 := W (content first) in
    wait_sum ← np_zeros H0 W0;
    pressure_sum ← np_zeros H0 W0;
    occ_sum ← np_zeros H0 W0;
    let total := Z.of_nat (length npz_files) in
    st ← for_each (fold_body only_solved H0 W0) npz_files
           (Acc wait_sum pressure_sum occ_sum [] [] 0);
    Ok (st,
        Stats total (Z.of_nat (length (used st)))
          (Qmake (solved_cnt st) (Z.to_pos total))
          (match makespans st with
           | [] => None
           | ms => Some (Qmake (foldr Z.add 0 ms) (Pos.of_nat (length ms)))
           end)
          (wrap64 (nd_sum (Aggregate.wait_sum st)))
          (wrap64 (nd_sum (Aggregate.pressure_sum st)))
          (wrap64 (nd_sum (Aggregate.occ_sum st)))
          (take 200 (used st)))
  end.

End Aggregate.

(** ** [export_one] ([scripts/04_export_heatmap_bin.py]) *)

Module ExportBin.

(** A path is the list of its components; [[]] is the directory that
    relative paths start from. *)
Abbreviation path := (list string).

(** A [float32] array: its shape and the 32 bits of each cell, row-major. *)
Record f32array : Type := F32Array {
  f_shape : list Z;
  f_bits : list Z
}.

(** The dictionary [meta] of [export_one]; [J] is the type of JSON
    values, for the entry [aggregate_meta]. *)
Record meta_of (J : Type) : Type := Meta {
  map_name : string;
  variant : string;
  format : string;
  endianness : string;
  layout : string;
  indexing : string;
  shape_height : Z;
  shape_width : Z;
  source_npy : path;
  source_map : option path;
  map_header : option (Z * Z);
  aggregate_meta : option J
}.
(* the [stats] entry (min, max, mean: floating point) is left out *)
Arguments Meta {J}.
Arguments map_name {J}.
Arguments variant {J}.
Arguments format {J}.
Arguments endianness {J}.
Arguments layout {J}.
Arguments indexing {J}.
Arguments shape_height {J}.
Arguments shape_width {J}.
Arguments source_npy {J}.
Arguments source_map {J}.
Arguments map_header {J}.
Arguments aggregate_meta {J}.

(** What [json.load] returns: a document known by its text, or one that
    [export_one] wrote. *)
#[warnings="-register-all"]
Inductive json : Type :=
  | JsonText (text : string)
  | JsonMeta (m : meta_of json).

Abbreviation meta := (meta_of json).

(** A regular file, by what its readers make of it. *)
Inductive file : Type :=
  | NpyFile (a : f32array)             (* what [np.load] and [ensure_c_f32] give *)
  | MapFile (dims : option (Z * Z))    (* what [parse_movingai_map_dims] reads: (height, width) *)
  | JsonFile (text : string)           (* a JSON document *)
  | BinFile (bytes : list Z)
  | MetaFile (m : meta).               (* the JSON document [json.dumps(meta)] *)

(** The file system: the regular files and the directories. *)
Record fs : Type := Fs {
  files : gmap path file;
  dirs : gset path
}.

Inductive entry : Type :=
  | Missing
  | Directory
  | Regular (f : file).

(** What is at a path. *)
Definition stat (σ : fs) (p : path) : entry :=
  match files σ !! p with
  | Some f => Regular f
  | None => if bool_decide (p = [] ∨ p ∈ dirs σ) then Directory else Missing
  end.

(** [p.tobytes(order="C")] for little-endian [float32]. *)
Definition le_bytes (b : Z) : list Z :=
  [Z.land b 255; Z.land (Z.shiftr b 8) 255;
   Z.land (Z.shiftr b 16) 255; Z.land (Z.shiftr b 24) 255].

Definition tobytes (bits : list Z) : list Z := concat (map le_bytes bits).

(** [np.fromfile(bin_path, dtype="<f4")]: whole items only. *)
Fixpoint fromfile_f4 (bytes : list Z) : list Z :=
  match bytes with
  | b0 :: b1 :: b2 :: b3 :: rest =>
    Z.lor b0 (Z.lor (Z.shiftl b1 8) (Z.lor (Z.shiftl b2 16) (Z.shiftl b3 24)))
      :: fromfile_f4 rest
  | _ => []
  end.

(** IEEE-754 single precision on bit patterns. *)
Definition is_nan (b : Z) : bool := Z.land b 2147483647 >? 2139095040.
Definition is_zero (b : Z) : bool := Z.land b 2147483647 =? 0.
Definition is_finite (b : Z) : bool := Z.land b 2147483647 <? 2139095040.

(** One cell of [np.allclose(p, p2, rtol=0, atol=0)]: with both
    tolerances zero, [|a - b| <= 0] for finite cells and [a == b] for
    the others, which is the IEEE equality of the two cells. *)
Definition close0 (a b : Z) : bool :=
  negb (is_nan a) && negb (is_nan b) && ((a =? b) || is_zero a && is_zero b).

Fixpoint allclose0 (p p2 : list Z) : bool :=
  match p, p2 with
  | a :: p', b :: p2' => close0 a b && allclose0 p' p2'
  | _, _ => true
  end.

Definition parent (p : path) : path := removelast p.
Definition name (p : path) : string := List.last p "".
Definition child (p : path) (s : string) : path := p ++ [s].
Definition show (p : path) : string := String.concat "/" p.

(** [p.exists()] *)
Definition path_exists (σ : fs) (p : path) : bool :=
  match stat σ p with
  | Missing => false
  | _ => true
  end.

(** [p.mkdir(parents=True, exist_ok=True)], from the directory [base]
    down the components [todo]: the missing directories are made; a
    regular file on the way is an error, [FileExistsError] at [p] itself
    and [NotADirectoryError] above it. *)
Fixpoint mkdir_from (base : path) (todo : list string) (σ : fs) : result fs :=
  match todo with
  | [] => Ok σ
  | c :: todo' =>
    let q := base ++ [c] in
    match stat σ q with
    | Directory => mkdir_from q todo' σ
    | Missing => mkdir_from q todo' (Fs (files σ) ({[ q ]} ∪ dirs σ))
    | Regular _ =>
      match todo' with
      | [] => Raise FileExistsError
      | _ => Raise NotADirectoryError
      end
    end
  end.

Definition mkdir_parents (p : path) (σ : fs) : result fs := mkdir_from [] p σ.

(** [np.load(p)] followed by [ensure_c_f32]; a file that holds no array
    is refused. *)
Definition np_load (p : path) (σ : fs) : result f32array :=
  match stat σ p with
  | Regular (NpyFile a) => Ok a
  | Regular _ => Raise ValueError_CannotLoad
  | Directory => Raise IsADirectoryError
  | Missing => Raise (FileNotFoundError (show p))
  end.

(** [p.open("wb")] and [p.write_text(...)] with the whole content: the
    file is created or replaced; a directory at [p] is an error. *)
Definition write_file (p : path) (f : file) (σ : fs) : result fs :=
  match stat σ p with
  | Directory => Raise IsADirectoryError
  | _ => Ok (Fs (<[p := f]> (files σ)) (dirs σ))
  end.

(** [read_json_if_exists]: [json.load] raises a [ValueError]
    ([JSONDecodeError], [UnicodeDecodeError]) on a file that holds no
    JSON document, and opening a directory is an error. *)
Definition read_json_if_exists (p : path) (σ : fs) : result (option json) :=
  match stat σ p with
  | Missing => Ok None
  | Directory => Raise IsADirectoryError
  | Regular (JsonFile text) => Ok (Some (JsonText text))
  | Regular (MetaFile m) => Ok (Some (JsonMeta m))
  | Regular _ => Raise ValueError_JSONDecode
  end.

(** [np.fromfile(p, dtype="<f4")].  Only a [BinFile] has its bytes in
    the model; [export_one] reads back the file it has just written. *)
Definition np_fromfile (p : path) (σ : fs) : result (list Z) :=
  match stat σ p with
  | Regular (BinFile bytes) => Ok (fromfile_f4 bytes)
  | Regular _ => Raise ValueError_CannotLoad
  | Directory => Raise IsADirectoryError
  | Missing => Raise (FileNotFoundError (show p))
  end.

(** [parse_movingai_map_dims]: [None] when the path does not exist and
    when reading it fails ([except Exception]). *)
Definition parse_movingai_map_dims (map_path : path) (σ : fs)
  : option (Z * Z) :=
  match stat σ map_path with
  | Regular (MapFile dims) => dims
  | _ => None
  end.

(** [export_one]: the file system after the call is returned also when
    the call raises. *)
Definition export_one (npy_path : path) (map_path : option path)
    (out_dir : path) (variant : string) (σ : fs) : result unit * fs :=
  if negb (path_exists σ npy_path)
  then (Raise (FileNotFoundError (show npy_path)), σ)
  else
  match mkdir_parents out_dir σ with
  | Raise e => (Raise e, σ)
  | Ok σ0 =>
  match np_load npy_path σ0 with
  | Raise e => (Raise e, σ0)
  | Ok p =>
  match f_shape p with
  | [H; W] =>
    let map_dims :=
      match map_path with
      | Some mp => parse_movingai_map_dims mp σ0
      | None => None
      end in
    let mismatch :=
      match map_dims with
      | Some (h, w) => negb (h =? H) || negb (w =? W)
      | None => false
      end in
    if mismatch
    then (Raise (ValueError_ShapeMismatch H W
                   (default 0 (fst <$> map_dims))
                   (default 0 (snd <$> map_dims))), σ0)
    else
    match read_json_if_exists
            (child (parent npy_path) "aggregate_meta.json") σ0 with
    | Raise e => (Raise e, σ0)
    | Ok agg_meta =>
    let bin_path := child out_dir "heatmap.f32.bin" in
    match write_file bin_path (BinFile (tobytes (f_bits p))) σ0 with
    | Raise e => (Raise e, σ0)
    | Ok σ1 =>
    (* [np.min(p)], [np.max(p)], [np.mean(p)]: a zero-size array has no
       minimum *)
    if H * W =? 0 then (Raise ValueError_ZeroSize, σ1)
    else
    let meta :=
      Meta (name (parent npy_path)) variant "f32.bin" "little"
        "row-major" "P[y,x] where y=row, x=col" H W npy_path map_path
        map_dims agg_meta in
    let meta_path := child out_dir "heatmap.meta.json" in
    match write_file meta_path (MetaFile meta) σ1 with
    | Raise e => (Raise e, σ1)
    | Ok σ2 =>
    match np_fromfile bin_path σ2 with
    | Raise e => (Raise e, σ2)
    | Ok raw =>
      if negb (Z.of_nat (length raw) =? H * W)
      then (Raise (RuntimeError_SizeMismatch (Z.of_nat (length raw)) (H * W)), σ2)
      else if negb (allclose0 (f_bits p) raw)
      then (Raise RuntimeError_Roundtrip, σ2)
      else (Ok tt, σ2)
    end end end end
  | _ => (Raise ValueError_Not2D, σ0)
  end end end.

End ExportBin.

(** ** [read_movingai_map] ([src/praw/stats_wait_collision.py]) *)

Module MovingAI.

(** The [ValueError]s of [read_movingai_map] itself and of [int(token)]
    ([ValueError_InvalidLiteral token]); [Builtin] carries what indexing
    and numpy raise. *)
Inductive error : Type :=
  | ValueError_InvalidLiteral (token : string)
  | ValueError_InvalidHeader
  | ValueError_InvalidBody (H : Z)
  | ValueError_RowTooShort (y : Z)
  | Builtin (e : exn).

Inductive outcome (A : Type) : Type :=
  | Returned (a : A)
  | Raised (e : error).
Arguments Returned {A} a.
Arguments Raised {A} e.

#[global] Instance outcome_ret : MRet outcome := @Returned.
#[global] Instance outcome_bind : MBind outcome := λ A B f m,
  match m with
  | Returned a => f a
  | Raised e => Raised e
  end.

Definition lift {A} (r : result A) : outcome A :=
  match r with
  | Ok a => Returned a
  | Raise e => Raised (Builtin e)
  end.

(** [for x in xs] with the exceptions of this module. *)
Fixpoint for_each_o {A S : Type} (body : A → S → outcome S) (xs : list A)
    (st : S) : outcome S :=
  match xs with
  | [] => Returned st
  | x :: xs' => st' ← body x st; for_each_o body xs' st'
  end.

(** The text is ASCII, as in [ParsePaths]: [str.lower] maps [A-Z] to
    [a-z] and leaves the other characters alone. *)
Definition lower_char (c : ascii) : ascii :=
  let n := nat_of_ascii c in
  if ((65 <=? n) && (n <=? 90))%nat then ascii_of_nat (n + 32) else c.

Fixpoint lower (s : string) : string :=
  match s with
  | EmptyString => EmptyString
  | String c s' => String (lower_char c) (lower s')
  end.

(** [s.startswith(p)] *)
Fixpoint startswith (p s : string) : bool :=
  match p with
  | EmptyString => true
  | String a p' =>
    match s with
    | EmptyString => false
    | String b s' => Ascii.eqb a b && startswith p' s'
    end
  end.

(** [str.split()]: the maximal runs of characters that are not white
    space; [tok] holds the run being read. *)
Fixpoint split_from (tok : string) (s : string) : list string :=
  match s with
  | EmptyString =>
    match tok with
    | EmptyString => []
    | _ => [tok]
    end
  | String c s' =>
    if ParsePaths.is_space c then
      match tok with
      | EmptyString => split_from EmptyString s'
      | _ => tok :: split_from EmptyString s'
      end
    else split_from (tok ++ String c EmptyString) s'
  end.

Definition split (s : string) : list string := split_from EmptyString s.

(** The digits of an integer literal: decimal digits, with single
    underscores allowed between two digits.  [after_digit] tells whether
    the previous character was a digit; the result is the value read
    after [acc] and the number of digits after the [n] already read. *)
Fixpoint digits (acc : Z) (n : nat) (after_digit : bool) (s : string)
  : option (Z * nat) :=
  match s with
  | EmptyString => if after_digit then Some (acc, n) else None
  | String c s' =>
    if ParsePaths.is_digit c
    then digits (10 * acc + ParsePaths.digit_val c) (S n) true s'
    else if Ascii.eqb c "_" && after_digit then
      match s' with
      | String c' _ => if ParsePaths.is_digit c' then digits acc n false s' else None
      | EmptyString => None
      end
    else None
  end.

(** [int(token)] for a token without white space.  [int] raises a
    [ValueError] for a token that is not an integer literal, and also for
    a literal of more than 4300 digits (underscores and the sign are not
    counted); [ValueError_InvalidLiteral token] stands for both. *)
Definition int (token : string) : outcome Z :=
  let r :=
    match token with
    | String "-" s' =>
      (λ g : Z * nat, (- g.1, g.2)) <$> digits 0 0 false s'
    | String "+" s' => digits 0 0 false s'
    | _ => digits 0 0 false token
    end in
  match r with
  | Some (v, n) =>
    if ParsePaths.max_str_digits <? Z.of_nat n
    then Raised (ValueError_InvalidLiteral token)
    else Returned v
  | None => Raised (ValueError_InvalidLiteral token)
  end.

(** [int(ln.split()[-1])] *)
Definition last_int (ln : string) : outcome Z :=
  token ← lift (of_option IndexError (last (split ln)));
  int token.

(** The header loop on the lines from index [i] on: the values of [H],
    [W] and [idx_map] when the loop ends, by [break] or at the end. *)
Fixpoint scan_header (lines : list string) (i : Z) (H W : option Z)
  : outcome (option Z * option Z * option Z) :=
  match lines with
  | [] => Returned (H, W, None)
  | ln :: rest =>
    let low := lower ln in
    if startswith "height" low then
      h ← last_int ln; scan_header rest (i + 1) (Some h) W
    else if startswith "width" low then
      w ← last_int ln; scan_header rest (i + 1) H (Some w)
    else if String.eqb low "map" then Returned (H, W, Some (i + 1))
    else scan_header rest (i + 1) H W
  end.

(** [l[start:stop]] *)
Definition slice {A} (l : list A) (start stop : Z) : list A :=
  let n := Z.of_nat (length l) in
  let norm i := if i <? 0 then Z.max 0 (i + n) else Z.min i n in
  take (Z.to_nat (norm stop - norm start)) (drop (Z.to_nat (norm start)) l).

Definition obs_chars : list ascii := ["@"; "T"; "O"; "W"]%char.

Definition is_obstacle (ch : ascii) : bool :=
  bool_decide (ch ∈ obs_chars).

(** [obstacles[y, x] = 1] on the [uint8] mask *)
Definition mark (a : ndarray) (y x : Z) : result ndarray :=
  y' ← norm_index (nd_H a) y;
  x' ← norm_index (nd_W a) x;
  if decide (flat (nd_W a) y' x' < length (nd_data a))%nat
  then Ok (NdArray (nd_H a) (nd_W a) (<[flat (nd_W a) y' x' := 1]> (nd_data a)))
  else Raise IndexError.

(** Body of [for x in range(W)] *)
Definition cell_body (row : string) (y x : nat) (obstacles : ndarray)
  : result ndarray :=
  ch ← of_option IndexError (String.get x row);
  if is_obstacle ch then mark obstacles (Z.of_nat y) (Z.of_nat x)
  else Ok obstacles.

(** Body of [for y in range(H)] *)
Definition row_body (grid : list string) (W : Z) (y : nat)
    (obstacles : ndarray) : outcome ndarray :=
  row ← lift (of_option IndexError (grid !! y));
  if Z.of_nat (String.length row) <? W
  then Raised (ValueError_RowTooShort (Z.of_nat y))
  else lift (for_each (cell_body row y) (range (Z.to_nat W)) obstacles).

(** [lines] is the text of the file, one entry per line, without the
    newline characters. *)
Definition read_movingai_map (lines : list string)
  : outcome (list string * Z * Z * ndarray) :=
  '(H, W, idx_map) ← scan_header lines 0 None None;
  match H, W, idx_map with
  | Some H, Some W, Some idx_map =>
    let grid := slice lines idx_map (idx_map + H) in
    if decide (Z.of_nat (length grid) ≠ H)
    then Raised (ValueError_InvalidBody H)
    else
      obstacles ← lift (np_zeros H W);
      obstacles ← for_each_o (row_body grid W) (range (Z.to_nat H)) obstacles;
      Returned (grid, H, W, obstacles)
  | _, _, _ => Raised ValueError_InvalidHeader
  end.

End MovingAI.

(** ** [compute_metrics] ([scripts/04_summarize_phase2.py]) *)

Module Phase2.

Record metrics : Type := Metrics {
  num_agents : Z;
  makespan : Z;
  num_steps : Z;
  reached_agents : Z;
  solved : Z;
  total_wait : Z
}.

(** One term of [sum(1 for i in range(num_agents) if last[i] == goals[i])] *)
Definition reached_body (last : list XY) (goals : list XY) (i : nat) (cnt : Z)
  : result Z :=
  p ← of_option IndexError (last !! i);
  g ← of_option IndexError (goals !! i);
  Ok (if bool_decide (p = g) then cnt + 1 else cnt).

(** Body of the loop that fills [reached_time]; [and] does not look at
    the position of an agent whose time is already set. *)
Definition reached_time_body (paths : list (list XY)) (goals : list XY)
    (t i : nat) (reached_time : list (option Z)) : result (list (option Z)) :=
  rt ← of_option IndexError (reached_time !! i);
  match rt with
  | Some _ => Ok reached_time
  | None =>
    row ← of_option IndexError (paths !! t);
    p ← of_option IndexError (row !! i);
    g ← of_option IndexError (goals !! i);
    if bool_decide (p = g) then Ok (<[i := Some (Z.of_nat t)]> reached_time)
    else Ok reached_time
  end.

(** Body of the loop that counts the waits. *)
Definition wait_body (paths : list (list XY)) (reached_time : list (option Z))
    (t i : nat) (total_wait : Z) : result Z :=
  rt ← of_option IndexError (reached_time !! i);
  if match rt with
     | Some r => Z.of_nat t >=? r
     | None => false
     end
  then Ok total_wait
  else
    row' ← of_option IndexError (paths !! S t);
    nxt ← of_option IndexError (row' !! i);
    row ← of_option IndexError (paths !! t);
    cur ← of_option IndexError (row !! i);
    Ok (if bool_decide (nxt = cur) then total_wait + 1 else total_wait).

(** [None] is the [None] the function returns for an empty trajectory. *)
Definition compute_metrics (paths : list (list XY)) (goals : list XY)
  : result (option metrics) :=
  let num_steps := length paths in
  if decide (num_steps = 0%nat) then Ok None
  else
    let num_agents := num_agents_of paths in
    let goals := take num_agents goals in
    last ← of_option IndexError (last paths);
    reached ← for_each (reached_body last goals) (range num_agents) 0;
    let solved := if bool_decide (reached = Z.of_nat num_agents) then 1 else 0 in
    reached_time ←
      for_each (λ t rt,
          for_each (reached_time_body paths goals t) (range num_agents) rt)
        (range num_steps) (replicate num_agents None);
    total_wait ←
      for_each (λ t tw,
          for_each (wait_body paths reached_time t) (range num_agents) tw)
        (range (num_steps - 1)) 0;
    Ok (Some (Metrics (Z.of_nat num_agents) (Z.of_nat num_steps - 1)
                (Z.of_nat num_steps) reached solved total_wait)).

End Phase2.

(** * Vocabulary of the statements *)

Definition inb (H W : Z) (c : XY) : Prop := 0 ≤ c.1 < W ∧ 0 ≤ c.2 < H.

(** The cell of [a] at the position [(x, y)], for positions inside. *)
Definition at_ (a : ndarray) (c : XY) : Z :=
  default 0 (nd_data a !! flat (nd_W a) c.2 c.1).

Definition same_shape (a b : ndarray) : Prop :=
  nd_H a = nd_H b ∧ nd_W a = nd_W b.

(** A cell is free when the mask is falsy there. *)
Definition free (obstacles : ndarray) (c : XY) : Prop := at_ obstacles c = 0.

(** The four neighbours of a cell. *)
Definition adj4 (c n : XY) : Prop :=
  n = (c.1 - 1, c.2) ∨ n = (c.1 + 1, c.2)
  ∨ n = (c.1, c.2 - 1) ∨ n = (c.1, c.2 + 1).

(** Cells joined to the goal by a 4-connected chain of free cells of the
    grid; the others are separated from it by obstacles. *)
Inductive reachable (obstacles : ndarray) (goal : XY) : XY → Prop :=
  | reach_goal :
      inb (nd_H obstacles) (nd_W obstacles) goal → free obstacles goal →
      reachable obstacles goal goal
  | reach_step c n :
      reachable obstacles goal c → adj4 c n →
      inb (nd_H obstacles) (nd_W obstacles) n → free obstacles n →
      reachable obstacles goal n.

(** The queue holds cells of non-decreasing distance. *)
Fixpoint qsorted (dist : ndarray) (q : list XY) : Prop :=
  match q with
  | [] => True
  | c :: q' => (∀ c', c' ∈ q' → at_ dist c ≤ at_ dist c') ∧ qsorted dist q'
  end.

(** All free neighbours of [c] are at most one step further than [c]. *)
Definition closed (obstacles dist : ndarray) (c : XY) : Prop :=
  ∀ n, adj4 c n → inb (nd_H obstacles) (nd_W obstacles) n →
       free obstacles n → at_ dist n ≤ at_ dist c + 1.

Definition count_inf (dist : ndarray) : nat :=
  length (filter (λ v, v = INF) (nd_data dist)).

(** Invariant of the [while q:] loop.  [lo] is the distance of the cell
    being expanded (or of the head of the queue) and [pending] holds the
    cell being expanded while its neighbours are relaxed. *)
Record bfs_inv (obstacles : ndarray) (goal : XY) (lo : Z) (pending : list XY)
    (dist : ndarray) (q : list XY) : Prop := BfsInv {
  inv_wf : nd_wf dist;
  inv_shape : same_shape dist obstacles;
  inv_range : ∀ c, inb (nd_H obstacles) (nd_W obstacles) c →
                   0 ≤ at_ dist c ≤ INF;
  inv_goal : at_ dist goal = 0;
  inv_queue : ∀ c, c ∈ q →
                inb (nd_H obstacles) (nd_W obstacles) c
                ∧ at_ dist c < INF ∧ lo ≤ at_ dist c;
  inv_sorted : qsorted dist q;
  inv_upper : ∀ c, inb (nd_H obstacles) (nd_W obstacles) c →
                at_ dist c < INF → at_ dist c ≤ lo + 1;
  inv_reach : ∀ c, inb (nd_H obstacles) (nd_W obstacles) c →
                at_ dist c < INF → reachable obstacles goal c;
  inv_parent : ∀ c, inb (nd_H obstacles) (nd_W obstacles) c →
                at_ dist c < INF → c ≠ goal →
                ∃ n, adj4 c n ∧ inb (nd_H obstacles) (nd_W obstacles) n
                     ∧ at_ dist n + 1 = at_ dist c;
  inv_closed : ∀ c, inb (nd_H obstacles) (nd_W obstacles) c →
                at_ dist c < INF →
                c ∈ q ∨ c ∈ pending ∨ closed obstacles dist c
}.

(** The intended cell in the words of the specification: the first
    neighbour, in the fixed order, whose distance to the goal is strictly
    less than the distance of the current cell; a neighbour outside the
    grid has no distance.  [None] when no neighbour is strictly closer. *)
Definition first_closer (dist : ndarray) (H W : Z) (cur : XY) : option XY :=
  List.find (λ n, in_bounds H W n && (at_ dist n <? at_ dist cur))
    (map (λ dxy : Z * Z, (cur.1 + dxy.1, cur.2 + dxy.2)) nbs).

Definition sumZ (l : list Z) : Z := foldr Z.add 0 l.

(** [paths[t][i]] *)
Definition position (paths : list (list XY)) (t i : nat) : option XY :=
  paths !! t ≫= (.!! i).

(** Agent [i] is on its goal at timestep [t]. *)
Definition reaches_at (paths : list (list XY)) (goals : list XY) (i t : nat)
  : Prop :=
  ∃ g, goals !! i = Some g ∧ position paths t i = Some g.

Definition first_reaches_at (paths : list (list XY)) (goals : list XY)
    (i t : nat) : Prop :=
  reaches_at paths goals i t
  ∧ ∀ t', (t' < t)%nat → ¬ reaches_at paths goals i t'.

(** Every agent is on its goal at the final timestep. *)
Definition final_positions_at_goal (paths : list (list XY)) (goals : list XY)
  : Prop :=
  ∀ i, (i < num_agents_of paths)%nat →
       reaches_at paths goals i (length paths - 1).

(** Every agent is on its goal at some timestep. *)
Definition all_agents_reach (paths : list (list XY)) (goals : list XY) : Prop :=
  ∀ i, (i < num_agents_of paths)%nat → ∃ t, reaches_at paths goals i t.

(** An [int32] count array of shape [H x W] whose cells are non-negative
    and sum to [s]. *)
Definition counts_ok (H W : Z) (a : ndarray) (s : Z) : Prop :=
  nd_wf a ∧ nd_H a = H ∧ nd_W a = W
  ∧ Forall (λ v, 0 ≤ v) (nd_data a) ∧ nd_sum a = s.

(** Every position of the trajectory is inside the grid. *)
Definition all_in_bounds (paths : list (list XY)) (H W : Z) : Prop :=
  ∀ t i p, position paths t i = Some p → inb H W p.

(** The occupancy the specification expects after the rows before [t] and
    the first [i] agents of row [t]. *)
Definition occ_partial (reach : list Z) (t : Z) (i : nat) : Z :=
  sumZ (map (λ r, Z.min (r + 1) t) reach)
  + sumZ (map (λ r, if t <=? r then 1 else 0) (take i reach)).

(** Invariant of the wait / blocking-pressure loop after [k] iterations of
    its body; [B] says whether all positions are inside the grid. *)
Definition wc_inv (B : Prop) (H W : Z) (k : Z) (st : wc_state) : Prop :=
  let '(wait_map, collision_map, total_wait, total_blocked) := st in
  counts_ok H W collision_map total_blocked ∧ 0 ≤ total_blocked ≤ k
  ∧ nd_wf wait_map ∧ nd_H wait_map = H ∧ nd_W wait_map = W
  ∧ 0 ≤ total_wait ≤ k
  ∧ (B → counts_ok H W wait_map total_wait).

(** What one line of the file is to the parser: [None] when the line is
    skipped (no timestep and colon at its head, or no pair after them),
    else the value of its timestep and of its pairs. *)
Definition solution_line (ln : string) : option (Z * list XY) :=
  '(g, rest) ← ParsePaths.tline_match ln;
  let xy := (λ p : ParsePaths.group * ParsePaths.group, (p.1.1, p.2.1))
              <$> ParsePaths.findall rest in
  if decide (xy = []) then None else Some (g.1, xy).

(** A literal that [int] accepts: at most 4300 digits. *)
Definition digits_ok (g : ParsePaths.group) : bool :=
  Z.of_nat g.2 <=? ParsePaths.max_str_digits.

(** No integer literal the parser converts on this line (the timestep
    and the coordinates of the pairs of a line that has a timestep and a
    colon at its head) has more than 4300 digits. *)
Definition literals_ok (ln : string) : bool :=
  match ParsePaths.tline_match ln with
  | None => true
  | Some (g, rest) =>
    digits_ok g
    && forallb (λ p : ParsePaths.group * ParsePaths.group,
                  digits_ok p.1 && digits_ok p.2) (ParsePaths.findall rest)
  end.

(** [int] converts every literal the parser meets in the text. *)
Definition literals_convert (lines : list string) : Prop :=
  ∀ l, l ∈ lines → literals_ok l = true.

(** The solution lines of a text, in order, as the parser reads them. *)
Definition solution_lines (lines : list string) : list (Z * list XY) :=
  omap solution_line lines.

(** Two consecutive solution lines whose timesteps do not increase. *)
Definition has_order_violation (lines : list string) : Prop :=
  ∃ k a b, solution_lines lines !! k = Some a
           ∧ solution_lines lines !! S k = Some b ∧ b.1 ≤ a.1.

(** A solution line whose number of pairs is not [n]. *)
Definition has_count_mismatch (lines : list string) (n : Z) : Prop :=
  ∃ s, s ∈ solution_lines lines ∧ Z.of_nat (length s.2) ≠ n.

(** The two failures of the read-back verification of [export_one]. *)
Definition verification_error (e : exn) : Prop :=
  e = RuntimeError_Roundtrip ∨ ∃ got expected, e = RuntimeError_SizeMismatch got expected.

(** Cells of a [float32] array are 32-bit patterns. *)
Definition bits_wf (bits : list Z) : Prop := Forall (λ b, 0 ≤ b < 2 ^ 32) bits.

Definition finite_valued (bits : list Z) : Prop :=
  Forall (λ b, ExportBin.is_finite b = true) bits.

(** The declared dimensions of the map, when there are any, are those of
    the array. *)
Definition map_dims_agree (map_path : option ExportBin.path) (σ : ExportBin.fs)
    (H W : Z) : Prop :=
  ∀ mp h w, map_path = Some mp →
            ExportBin.parse_movingai_map_dims mp σ = Some (h, w) → h = H ∧ w = W.

(** Cell-wise [int64] addition of two flattened arrays. *)
Definition add64 (a b : list Z) : list Z :=
  zip_with (λ u v, wrap64 (u + v)) a b.

(** [b] has been added to [a] cell by cell, in [int64], giving [a']. *)
Definition added_to (a b a' : ndarray) : Prop :=
  nd_H a' = nd_H a ∧ nd_W a' = nd_W a
  ∧ length (nd_data a') = length (nd_data a)
  ∧ length (nd_data b) = length (nd_data a)
  ∧ ∀ k u v, nd_data a !! k = Some u → nd_data b !! k = Some v →
             nd_data a' !! k = Some (wrap64 (u + v)).

(** The runs the loop folds in: all of them, except those whose sidecar
    exists and says "not solved" while [only_solved] is set. *)
Definition accepted (only_solved : bool) (f : Aggregate.instance) : bool :=
  match Aggregate.meta_solved f with
  | Some solved => negb (only_solved && negb (solved =? 1))
  | None => true
  end.


Definition arr_ok (H0 W0 : Z) (a : ndarray) : Prop :=
  nd_H a = H0 ∧ nd_W a = W0 ∧ length (nd_data a) = Z.to_nat (H0 * W0).

(** A run whose three arrays have the shape [H0 x W0] it declares. *)
Definition run_ok (H0 W0 : Z) (f : Aggregate.instance) : Prop :=
  Aggregate.H (Aggregate.content f) = H0
  ∧ Aggregate.W (Aggregate.content f) = W0
  ∧ arr_ok H0 W0 (Aggregate.wait (Aggregate.content f))
  ∧ arr_ok H0 W0 (Aggregate.pressure (Aggregate.content f))
  ∧ arr_ok H0 W0 (Aggregate.occ (Aggregate.content f)).

Definition acc_ok (H0 W0 : Z) (st : Aggregate.acc) : Prop :=
  arr_ok H0 W0 (Aggregate.wait_sum st)
  ∧ arr_ok H0 W0 (Aggregate.pressure_sum st)
  ∧ arr_ok H0 W0 (Aggregate.occ_sum st).

(** The sum of one of the three arrays over the accepted runs, folded
    from the left like the loop does. *)
Definition agg_total (H0 W0 : Z) (sel : Aggregate.npz → ndarray)
    (only_solved : bool) (runs : list Aggregate.instance) : ndarray :=
  NdArray H0 W0
    (foldl add64 (replicate (Z.to_nat (H0 * W0)) 0)
       (map (λ f, nd_data (sel (Aggregate.content f)))
          (List.filter (accepted only_solved) runs))).

(** Runs whose sidecar exists and says "solved". *)
Definition counted_solved (f : Aggregate.instance) : bool :=
  match Aggregate.meta_solved f with
  | Some solved => solved =? 1
  | None => false
  end.

Definition count_of {A} (p : A → bool) (l : list A) : Z :=
  Z.of_nat (length (List.filter p l)).

(** What [reach_t] holds for the agents already visited and for the others. *)
Definition reach_inv (paths : list (list XY)) (goals : list XY) (k : nat)
    (reach : list Z) : Prop :=
  length reach = num_agents_of paths
  ∧ (∀ i, (i < k)%nat →
       ∃ gi r, goals !! i = Some gi ∧ first_reach_scan paths gi i 0 = Ok r
               ∧ reach !! i = Some (default INF r))
  ∧ (∀ i, (k ≤ i < num_agents_of paths)%nat → reach !! i = Some INF).

(** Both maps of a loop state are well-formed arrays of shape [H x W]. *)
Definition maps_wf (H W : Z) (st : wc_state) : Prop :=
  nd_wf st.1.1.1 ∧ nd_H st.1.1.1 = H ∧ nd_W st.1.1.1 = W
  ∧ nd_wf st.1.1.2 ∧ nd_H st.1.1.2 = H ∧ nd_W st.1.1.2 = W.

(** A walk of [k] steps from the goal to a cell, through free cells of
    the grid, each step to one of the four neighbours. *)
Inductive walk (obstacles : ndarray) (goal : XY) : nat → XY → Prop :=
  | walk_start :
      inb (nd_H obstacles) (nd_W obstacles) goal → free obstacles goal →
      walk obstacles goal 0 goal
  | walk_step k c n :
      walk obstacles goal k c → adj4 c n →
      inb (nd_H obstacles) (nd_W obstacles) n → free obstacles n →
      walk obstacles goal (S k) n.

(** Counting the iterations [(t, i)] of a double loop that hit a cell:
    [hit_row] over the first [n] agents of row [t], [hit_count] over the
    first [T] rows of [N] agents. *)
Definition hit_row (hit : nat → nat → option XY) (t n : nat) (c : XY) : Z :=
  sumZ (map (λ i, if bool_decide (hit t i = Some c) then 1 else 0) (range n)).

Definition hit_count (hit : nat → nat → option XY) (T N : nat) (c : XY) : Z :=
  sumZ (map (λ t, hit_row hit t N c) (range T)).

(** The same for a number added at each iteration. *)
Definition ind_row (ind : nat → nat → Z) (t n : nat) : Z :=
  sumZ (map (ind t) (range n)).

Definition ind_count (ind : nat → nat → Z) (T N : nat) : Z :=
  sumZ (map (λ t, ind_row ind t N) (range T)).

(** A well-formed array of shape [H x W] whose cells are given by [f]. *)
Definition cells_inv (H W : Z) (a : ndarray) (f : XY → Z) : Prop :=
  nd_wf a ∧ nd_H a = H ∧ nd_W a = W ∧ ∀ c, inb H W c → at_ a c = f c.

(** The cell the occupancy loop increments at [(t, i)], if any. *)
Definition occ_hit (paths : list (list XY)) (reach : list Z) (H W : Z)
    (t i : nat) : option XY :=
  r ← reach !! i;
  p ← position paths t i;
  if (Z.of_nat t <=? r) && in_bounds H W p then Some p else None.

(** Agent [i] has not reached its goal at [t] and stays in place. *)
Definition stays (paths : list (list XY)) (reach : list Z) (t i : nat) : bool :=
  match reach !! i, position paths t i, position paths (S t) i with
  | Some r, Some cur, Some nxt => (Z.of_nat t <? r) && bool_decide (nxt = cur)
  | _, _, _ => false
  end.

(** The cell of [wait_map] incremented at [(t, i)], if any. *)
Definition wait_hit (paths : list (list XY)) (reach : list Z) (H W : Z)
    (t i : nat) : option XY :=
  cur ← position paths t i;
  if stays paths reach t i && in_bounds H W cur then Some cur else None.

(** The cell of [collision_map] incremented at [(t, i)], if any: the first
    strictly closer neighbour of the current cell, for an agent that stays
    on a free cell of the grid from which its goal can be reached. *)
Definition blocked_hit (paths : list (list XY)) (goals : list XY)
    (reach : list Z) (obstacles : ndarray) (t i : nat) : option XY :=
  cur ← position paths t i;
  g ← goals !! i;
  match _bfs_dist obstacles g with
  | Ok dist =>
    if stays paths reach t i
       && in_bounds (nd_H obstacles) (nd_W obstacles) cur
       && (at_ obstacles cur =? 0) && (at_ dist cur <? INF)
    then first_closer dist (nd_H obstacles) (nd_W obstacles) cur
    else None
  | Raise _ => None
  end.

(** The timesteps increase strictly from one solution line to the next. *)
Definition strictly_increasing (ts : list Z) : Prop :=
  ∀ k a b, ts !! k = Some a → ts !! S k = Some b → a < b.

(** Every solution line has [n] pairs. *)
Definition uniform_count (lines : list string) (n : Z) : Prop :=
  ∀ s, s ∈ solution_lines lines → Z.of_nat (length s.2) = n.

(** The agent count the parser holds the lines to: the expected one when
    it is given, else the number of pairs of the first solution line. *)
Definition required_count (lines : list string) (expected : option Z) : Z :=
  match expected with
  | Some n => n
  | None => Z.of_nat (length (default [] (head (snd <$> solution_lines lines))))
  end.

(** No cell of a [float32] array is a NaN. *)
Definition no_nan (bits : list Z) : Prop :=
  Forall (λ b, ExportBin.is_nan b = false) bits.

(** The errors [export_one] raises before it writes anything: of the
    source, of [mkdir], of the map header, of the sidecar, and of a
    directory in the place of the binary file. *)
Definition early_error (e : exn) : Prop :=
  (∃ s, e = FileNotFoundError s) ∨ e = FileExistsError
  ∨ e = NotADirectoryError ∨ e = IsADirectoryError
  ∨ e = ValueError_CannotLoad ∨ e = ValueError_Not2D
  ∨ (∃ h w eh ew, e = ValueError_ShapeMismatch h w eh ew)
  ∨ e = ValueError_JSONDecode.

(** The metadata [export_one] composes. *)
Definition meta_for (npy_path : ExportBin.path)
    (map_path : option ExportBin.path)
    (variant : string) (H W : Z) (σ : ExportBin.fs) (agg : option ExportBin.json)
  : ExportBin.meta :=
  ExportBin.Meta (ExportBin.name (ExportBin.parent npy_path)) variant "f32.bin" "little" "row-major"
    "P[y,x] where y=row, x=col" H W npy_path map_path
    match map_path with
    | Some mp => ExportBin.parse_movingai_map_dims mp σ
    | None => None
    end agg.


(** The sum of all cells of one of the three arrays over the accepted
    runs, as a mathematical integer. *)
Definition run_total (sel : Aggregate.npz → ndarray) (only_solved : bool)
    (runs : list Aggregate.instance) : Z :=
  sumZ (map (λ f, nd_sum (sel (Aggregate.content f)))
          (List.filter (accepted only_solved) runs)).

(** The makespans of the accepted runs, in order. *)
Definition accepted_makespans (only_solved : bool)
    (runs : list Aggregate.instance) : list Z :=
  map (λ f, Aggregate.makespan (Aggregate.content f))
    (List.filter (accepted only_solved) runs).

Definition accepted_names (only_solved : bool)
    (runs : list Aggregate.instance) : list string :=
  map Aggregate.name (List.filter (accepted only_solved) runs).


(** The character of the grid at column [x] of row [y]. *)
Definition grid_char (grid : list string) (c : XY) : option ascii :=
  row ← grid !! Z.to_nat c.2; String.get (Z.to_nat c.1) row.

(** Line [k] is the first line of the text that reads "map", in any
    letter case. *)
Definition first_map_line (lines : list string) (k : nat) : Prop :=
  MovingAI.lower <$> lines !! k = Some "map"%string
  ∧ ∀ j ln, (j < k)%nat → lines !! j = Some ln →
            MovingAI.lower ln ≠ "map"%string.

(** [v] is the integer at the end of the last line before line [k] that
    begins with [key], in any letter case. *)
Definition header_value (key : string) (lines : list string) (k : nat) (v : Z)
  : Prop :=
  ∃ j ln, (j < k)%nat ∧ lines !! j = Some ln
    ∧ MovingAI.startswith key (MovingAI.lower ln) = true
    ∧ MovingAI.last_int ln = MovingAI.Returned v
    ∧ ∀ j' ln', (j < j' < k)%nat → lines !! j' = Some ln' →
                MovingAI.startswith key (MovingAI.lower ln') = false.

(** Every line before line [k] that begins with "height" or "width" ends
    with an integer literal. *)
Definition header_parses (lines : list string) (k : nat) : Prop :=
  ∀ j ln, (j < k)%nat → lines !! j = Some ln →
    MovingAI.startswith "height" (MovingAI.lower ln) = true
    ∨ MovingAI.startswith "width" (MovingAI.lower ln) = true →
    ∃ v, MovingAI.last_int ln = MovingAI.Returned v.

(** What the header loop leaves in [H] (or [W]) when it stops at line
    [k], having started with [init]. *)
Definition header_result (key : string) (lines : list string) (k : nat)
    (init res : option Z) : Prop :=
  (∃ v, res = Some v ∧ header_value key lines k v)
  ∨ (res = init
     ∧ ∀ j ln, (j < k)%nat → lines !! j = Some ln →
               MovingAI.startswith key (MovingAI.lower ln) = false).

(** The value a cell of the mask should have. *)
Definition cell_value (grid : list string) (c : XY) : Z :=
  match grid_char grid c with
  | Some ch => if MovingAI.is_obstacle ch then 1 else 0
  | None => 0
  end.

(** The mask while it is filled: the cells before [(x, y)] in row-major
    order have their value, the others are still zero. *)
Definition mask_upto (grid : list string) (H W y x : Z) (a : ndarray) : Prop :=
  nd_wf a ∧ nd_H a = H ∧ nd_W a = W
  ∧ ∀ c, inb H W c →
      at_ a c = if (c.2 <? y) || ((c.2 =? y) && (c.1 <? x))
                then cell_value grid c else 0.

(** Row [y] of the grid has at least [W] characters. *)
Definition row_long (grid : list string) (W : Z) (y : nat) : Prop :=
  ∃ row, grid !! y = Some row ∧ W ≤ Z.of_nat (String.length row).


(** What an entry of [reached_time] says after the rows before [n]: the
    agent was on its goal at none of them, or first at the one recorded. *)
Definition reached_time_ok (paths : list (list XY)) (goals : list XY)
    (n j : nat) (e : option Z) : Prop :=
  (e = None ∧ ∀ t, (t < n)%nat → ¬ reaches_at paths goals j t)
  ∨ (∃ t0 : nat, (t0 < n)%nat ∧ e = Some (Z.of_nat t0)
                 ∧ first_reaches_at paths goals j t0).

(** * Verification *)

(** ** The error monad and [for_each] *)

Lemma bind_Ok {A B} (m : result A) (f : A → result B) (b : B) :
  m ≫= f = Ok b → ∃ a, m = Ok a ∧ f a = Ok b.
Proof. destruct m as [a|e]; simpl; [eauto | discriminate]. Qed.

Lemma bind_Ok_l {A B} (a : A) (f : A → result B) : Ok a ≫= f = f a.
Proof. reflexivity. Qed.

Lemma of_option_Ok {A} e (o : option A) a : of_option e o = Ok a → o = Some a.
Proof. destruct o; simpl; congruence. Qed.

(** Inversion of a successful monadic computation, one bind at a time. *)
Ltac inv_ok H :=
  repeat match type of H with
  | Ok _ = Ok _ => injection H as H
  | Raise _ = Ok _ => discriminate H
  | (_ ≫= _) = Ok _ =>
      let a := fresh "a" in let Ha := fresh "Ha" in
      apply bind_Ok in H as (a & Ha & H)
  end.

Lemma for_each_app {A S} (body : A → S → result S) xs ys st :
  for_each body (xs ++ ys) st = for_each body xs st ≫= for_each body ys.
Proof.
  revert st. induction xs as [|x xs IH]; intros st; simpl; [done|].
  destruct (body x st); simpl; auto.
Qed.

(** Partial correctness of a [for i in range(n)] loop from an invariant
    indexed by the number of iterations done. *)
Lemma for_range_inv {S} (P : nat → S → Prop) (body : nat → S → result S) n st st' :
  P 0%nat st →
  (∀ k s s', (k < n)%nat → P k s → body k s = Ok s' → P (Datatypes.S k) s') →
  for_each body (range n) st = Ok st' → P n st'.
Proof.
  unfold range. revert st'. induction n as [|n IH]; intros st' H0 Hstep Hrun.
  - simpl in Hrun. congruence.
  - rewrite seq_S, for_each_app in Hrun. simpl in Hrun.
    apply bind_Ok in Hrun as (s & Hs & Hlast).
    apply bind_Ok in Hlast as (s2 & Hb & Hlast). injection Hlast as <-.
    apply (Hstep n s); [lia | | done].
    apply IH; auto. intros k s0 s0' Hk. apply Hstep. lia.
Qed.

(** Total correctness: the loop returns when every iteration does. *)
Lemma for_range_total {S} (P : nat → S → Prop) (body : nat → S → result S) n st :
  P 0%nat st →
  (∀ k s, (k < n)%nat → P k s → ∃ s', body k s = Ok s' ∧ P (Datatypes.S k) s') →
  ∃ st', for_each body (range n) st = Ok st' ∧ P n st'.
Proof.
  unfold range. induction n as [|n IH]; intros H0 Hstep.
  - exists st. done.
  - destruct IH as (s & Hs & HP); [done | intros k s0 Hk; apply Hstep; lia |].
    destruct (Hstep n s) as (s' & Hb & HP'); [lia | done |].
    exists s'. rewrite seq_S, for_each_app, Hs. simpl. rewrite Hb. done.
Qed.

(** ** Arrays *)

Lemma in_bounds_inb H W c : in_bounds H W c = true ↔ inb H W c.
Proof. unfold in_bounds, inb. rewrite !andb_true_iff. lia. Qed.

Lemma in_bounds_false H W c : in_bounds H W c = false ↔ ¬ inb H W c.
Proof. rewrite <- in_bounds_inb. destruct (in_bounds H W c); naive_solver. Qed.

Lemma norm_index_in n i : 0 ≤ i < n → norm_index n i = Ok i.
Proof.
  intros Hi. unfold norm_index.
  destruct (Z.leb_spec 0 i), (Z.ltb_spec i n); simpl; try lia. done.
Qed.

Lemma flat_lt (a : ndarray) c :
  nd_wf a → inb (nd_H a) (nd_W a) c →
  (flat (nd_W a) c.2 c.1 < length (nd_data a))%nat.
Proof. intros (HH & HW & Hlen) [Hx Hy]. unfold flat. nia. Qed.

Lemma flat_inj H W c1 c2 :
  inb H W c1 → inb H W c2 → flat W c1.2 c1.1 = flat W c2.2 c2.1 → c1 = c2.
Proof.
  destruct c1 as [x1 y1], c2 as [x2 y2]. unfold inb, flat. simpl.
  intros [Hx1 Hy1] [Hx2 Hy2] Heq.
  assert (y1 * W + x1 = y2 * W + x2) as E by nia.
  assert (y1 = y2) by nia. subst. f_equal. lia.
Qed.

Lemma nd_get_in a c :
  nd_wf a → inb (nd_H a) (nd_W a) c → nd_get a c.2 c.1 = Ok (at_ a c).
Proof.
  intros Hwf Hin. pose proof (flat_lt a c Hwf Hin) as Hlt.
  destruct Hin as [Hx Hy]. unfold nd_get, at_.
  rewrite !norm_index_in by done. simpl.
  destruct (lookup_lt_is_Some_2 _ _ Hlt) as [v ->]. done.
Qed.

Lemma nd_set_in a c v :
  nd_wf a → inb (nd_H a) (nd_W a) c →
  ∃ a', nd_set a c.2 c.1 v = Ok a' ∧ nd_wf a' ∧ same_shape a' a
        ∧ nd_data a' = <[flat (nd_W a) c.2 c.1 := wrap32 v]> (nd_data a)
        ∧ at_ a' c = wrap32 v
        ∧ ∀ c', inb (nd_H a) (nd_W a) c' → c' ≠ c → at_ a' c' = at_ a c'.
Proof.
  intros Hwf Hin. pose proof (flat_lt a c Hwf Hin) as Hlt.
  pose proof Hin as [Hx Hy]. unfold nd_set.
  rewrite !norm_index_in by done. simpl.
  destruct (decide _) as [_|]; [|lia].
  eexists. split; [done|]. unfold nd_wf, same_shape, at_. simpl.
  rewrite length_insert. repeat split; try apply Hwf.
  - by rewrite list_lookup_insert_eq.
  - intros c' Hin' Hne. rewrite list_lookup_insert_ne; [done|].
    intros Heq. apply Hne. symmetry. by apply (flat_inj (nd_H a) (nd_W a)).
Qed.

Lemma wrap32_id v : - 2 ^ 31 ≤ v < 2 ^ 31 → wrap32 v = v.
Proof. intros Hv. unfold wrap32. rewrite Z.mod_small; lia. Qed.

Lemma np_full_wf H W v :
  0 ≤ H → 0 ≤ W →
  ∃ a, np_full H W v = Ok a ∧ nd_wf a ∧ nd_H a = H ∧ nd_W a = W
       ∧ nd_data a = replicate (Z.to_nat (H * W)) v.
Proof.
  intros HH HW. unfold np_full.
  destruct (Z.ltb_spec H 0), (Z.ltb_spec W 0); try lia. simpl.
  eexists. split; [done|]. unfold nd_wf. simpl. rewrite length_replicate.
  repeat split; auto; nia.
Qed.

Lemma at_replicate H W v c :
  inb H W c → at_ (NdArray H W (replicate (Z.to_nat (H * W)) v)) c = v.
Proof.
  intros [Hx Hy]. unfold at_. simpl.
  rewrite lookup_replicate_2; [done|]. unfold flat. nia.
Qed.

(** ** Breadth-first search *)

Lemma adj4_sym c n : adj4 c n → adj4 n c.
Proof.
  destruct c as [x y], n as [x' y']. unfold adj4. simpl.
  intros [H|[H|[H|H]]]; injection H as -> ->;
    [right; left | left | do 3 right | do 2 right; left]; f_equal; lia.
Qed.

Lemma reachable_inb_free obstacles goal c :
  reachable obstacles goal c →
  inb (nd_H obstacles) (nd_W obstacles) c ∧ free obstacles c.
Proof. destruct 1; auto. Qed.

Lemma qsorted_ext dist dist' q :
  (∀ c, c ∈ q → at_ dist' c = at_ dist c) → qsorted dist q → qsorted dist' q.
Proof.
  induction q as [|c q IH]; simpl; [done|]. intros Heq [Hc Hq]. split.
  - intros c' Hc'. rewrite !Heq by set_solver. auto.
  - apply IH; [|done]. intros; apply Heq. set_solver.
Qed.

Lemma qsorted_snoc dist q n :
  qsorted dist q → (∀ c, c ∈ q → at_ dist c ≤ at_ dist n) →
  qsorted dist (q ++ [n]).
Proof.
  induction q as [|c q IH]; simpl; intros Hs Hle.
  - split; [|done]. intros c' Hc'. set_solver.
  - destruct Hs as [Hc Hq]. split.
    + intros c' [Hc'| ->%list_elem_of_singleton]%elem_of_app; [auto|].
      apply Hle. set_solver.
    + apply IH; [done|]. intros; apply Hle. set_solver.
Qed.

Lemma count_inf_insert (l : list Z) i v :
  l !! i = Some INF → v ≠ INF →
  (length (filter (λ v, v = INF) (<[i := v]> l)) + 1
   = length (filter (λ v, v = INF) l))%nat.
Proof.
  revert i. induction l as [|a l IH]; intros [|i] Hl Hv; simpl in *; try done.
  - injection Hl as ->. rewrite !filter_cons.
    destruct (decide (v = INF)); [done|]. destruct (decide (INF = INF)); [|done].
    simpl. lia.
  - rewrite !filter_cons. specialize (IH i Hl Hv).
    destruct (decide (a = INF)); simpl; lia.
Qed.

Section bfs.
Variable obstacles : ndarray.
Variable goal : XY.
Hypothesis obstacles_wf : nd_wf obstacles.
Hypothesis goal_inb : inb (nd_H obstacles) (nd_W obstacles) goal.

Abbreviation H := (nd_H obstacles).
Abbreviation W := (nd_W obstacles).

Lemma inv_get lo pend dist q c :
  bfs_inv obstacles goal lo pend dist q → inb H W c →
  nd_get dist c.2 c.1 = Ok (at_ dist c).
Proof.
  intros I Hc. destruct (inv_shape _ _ _ _ _ _ I) as [EH EW].
  apply nd_get_in; [apply I | by rewrite EH, EW].
Qed.

(** One guarded relaxation of a neighbour [n] of the expanded cell [x]. *)
Lemma relax_spec lo x dist q n guard :
  bfs_inv obstacles goal lo [x] dist q →
  inb H W x → at_ dist x = lo → lo < INF →
  adj4 x n → (guard = true ↔ inb H W n) →
  ∃ dist' q',
    relax obstacles (lo + 1) guard n.1 n.2 (dist, q) = Ok (dist', q')
    ∧ bfs_inv obstacles goal lo [x] dist' q'
    ∧ at_ dist' x = lo
    ∧ (∀ c, inb H W c → at_ dist' c ≤ at_ dist c)
    ∧ (inb H W n → free obstacles n → at_ dist' n ≤ lo + 1)
    ∧ (length q' + count_inf dist' = length q + count_inf dist)%nat.
Proof.
  intros I Hx Hlo Hfin Hadj Hguard.
  assert (n = (n.1, n.2)) as En by (by destruct n).
  unfold relax. destruct guard.
  2:{ exists dist, q. split_and!; auto; try lia.
      intros Hn. apply Hguard in Hn. done. }
  assert (inb H W n) as Hn by (by apply Hguard).
  rewrite (nd_get_in obstacles n) by done. simpl.
  destruct (Z.eqb_spec (at_ obstacles n) 0) as [Hfree|Hobs].
  2:{ exists dist, q. split_and!; auto; try lia. intros _ Hf. done. }
  rewrite (inv_get _ _ _ _ _ I Hn). simpl.
  destruct (Z.gtb_spec (at_ dist n) (lo + 1)) as [Hgt|Hle].
  2:{ exists dist, q. split_and!; auto; try lia. }
  (* the neighbour is still at INF and receives lo + 1 *)
  pose proof (inv_range _ _ _ _ _ _ I n Hn) as Hrn.
  assert (at_ dist n = INF) as HnINF.
  { destruct (decide (at_ dist n < INF)) as [Hf|]; [|lia].
    pose proof (inv_upper _ _ _ _ _ _ I n Hn Hf). lia. }
  pose proof (inv_range _ _ _ _ _ _ I x Hx) as Hrx.
  destruct (inv_shape _ _ _ _ _ _ I) as [EH EW].
  destruct (nd_set_in dist n (lo + 1)) as (dist' & Hset & Hwf' & [EH' EW'] & Hdata & Hatn & Hoth).
  { apply I. } { by rewrite EH, EW. }
  rewrite Hset. simpl. rewrite EH, EW in Hoth.
  rewrite wrap32_id in Hatn by (unfold INF in *; lia).
  assert (∀ c, inb H W c → at_ dist c < INF → at_ dist' c = at_ dist c) as Hfin_same.
  { intros c Hc Hcf. apply Hoth; [done|]. intros ->. lia. }
  assert (∀ c, inb H W c → at_ dist' c < INF → c ≠ n → at_ dist c < INF) as Hfin_old.
  { intros c Hc Hcf Hne. rewrite Hoth in Hcf; done. }
  exists dist', (q ++ [n]). split; [by rewrite <- En|]. split; [|split_and!].
  - constructor.
    + done.
    + split; congruence.
    + intros c Hc. destruct (decide (c = n)) as [->|Hne].
      * rewrite Hatn. lia.
      * rewrite Hoth by done. by apply I.
    + rewrite Hfin_same; [apply I | done |]. rewrite (inv_goal _ _ _ _ _ _ I).
      unfold INF. lia.
    + intros c [Hc| ->%list_elem_of_singleton]%elem_of_app.
      * destruct (inv_queue _ _ _ _ _ _ I c Hc) as (Hci & Hcf & Hcl).
        rewrite Hfin_same by done. done.
      * rewrite Hatn. repeat split; try apply Hn; lia.
    + apply qsorted_snoc.
      * apply (qsorted_ext dist); [|apply I].
        intros c Hc. destruct (inv_queue _ _ _ _ _ _ I c Hc) as (Hci & Hcf & Hcl).
        by apply Hfin_same.
      * intros c Hc. destruct (inv_queue _ _ _ _ _ _ I c Hc) as (Hci & Hcf & Hcl).
        rewrite Hfin_same, Hatn by done.
        pose proof (inv_upper _ _ _ _ _ _ I c Hci Hcf). lia.
    + intros c Hc Hcf. destruct (decide (c = n)) as [->|Hne].
      * rewrite Hatn. lia.
      * rewrite Hoth by done. apply I; [done|]. by apply Hfin_old.
    + intros c Hc Hcf. destruct (decide (c = n)) as [->|Hne].
      * apply (reach_step _ _ x); auto.
        apply (inv_reach _ _ _ _ _ _ I); [done | lia].
      * apply (inv_reach _ _ _ _ _ _ I); [done|]. by apply Hfin_old.
    + intros c Hc Hcf Hcg. destruct (decide (c = n)) as [->|Hne].
      * exists x. split; [by apply adj4_sym|]. split; [done|].
        rewrite Hatn, Hfin_same; [lia | done | lia].
      * pose proof (Hfin_old c Hc Hcf Hne) as Hcf'.
        destruct (inv_parent _ _ _ _ _ _ I c Hc Hcf' Hcg) as (m & Hm1 & Hm2 & Hm3).
        exists m. split; [done|]. split; [done|].
        rewrite (Hoth c) by done. rewrite Hfin_same; [done | done | lia].
    + intros c Hc Hcf. destruct (decide (c = n)) as [->|Hne].
      * left. set_solver.
      * pose proof (Hfin_old c Hc Hcf Hne) as Hcf'.
        destruct (inv_closed _ _ _ _ _ _ I c Hc Hcf') as [Hq|[Hp|Hcl]].
        -- left. set_solver.
        -- right; left. done.
        -- right; right. intros m Hm1 Hm2 Hm3. rewrite (Hoth c) by done.
           specialize (Hcl m Hm1 Hm2 Hm3).
           destruct (decide (m = n)) as [->|Hmn].
           ++ rewrite Hatn.
              pose proof (inv_queue _ _ _ _ _ _ I) as _.
              lia.
           ++ rewrite Hoth by done. done.
  - rewrite Hfin_same; [done | done | lia].
  - intros c Hc. destruct (decide (c = n)) as [->|Hne].
    + rewrite Hatn. lia.
    + rewrite Hoth by done. lia.
  - intros _ _. lia.
  - rewrite length_app. simpl. unfold count_inf. rewrite Hdata.
    pose proof (count_inf_insert (nd_data dist) (flat (nd_W dist) n.2 n.1) (wrap32 (lo + 1))) as Hcnt.
    rewrite wrap32_id in Hcnt by (unfold INF in *; lia).
    rewrite wrap32_id by (unfold INF in *; lia).
    assert (nd_data dist !! flat (nd_W dist) n.2 n.1 = Some INF) as Hl.
    { pose proof (flat_lt dist n) as Hlt.
      destruct (lookup_lt_is_Some_2 (nd_data dist) (flat (nd_W dist) n.2 n.1)) as [v Hv].
      { apply Hlt; [apply I | by rewrite EH, EW]. }
      unfold at_ in HnINF. rewrite Hv in HnINF. simpl in HnINF. by subst. }
    specialize (Hcnt Hl). lia.
Qed.

Lemma bfs_body_spec lo0 x dist q :
  bfs_inv obstacles goal lo0 [] dist (x :: q) →
  ∃ dist' q',
    bfs_body obstacles x.1 x.2 (dist, q) = Ok (dist', q')
    ∧ bfs_inv obstacles goal (at_ dist x) [] dist' q'
    ∧ (length q' + count_inf dist' = length q + count_inf dist)%nat.
Proof.
  intros I0.
  destruct (inv_queue _ _ _ _ _ _ I0 x) as (Hx & Hxf & Hxlo); [set_solver|].
  set (lo := at_ dist x) in *.
  assert (bfs_inv obstacles goal lo [x] dist q) as I1.
  { destruct I0 as [? ? ? ? Hq [Hs1 Hs2] Hu ? ? Hc]. constructor; auto.
    - intros c Hc'. destruct (Hq c) as (? & ? & ?); [set_solver|].
      split_and!; auto.
    - intros c Hc1 Hc2. specialize (Hu c Hc1 Hc2). lia.
    - intros c Hc1 Hc2. destruct (Hc c Hc1 Hc2) as [Hin|[Hin|Hcl]]; [|set_solver|auto].
      apply elem_of_cons in Hin as [->|Hin]; [right; left; set_solver | by left]. }
  pose proof Hx as [Hx1 Hx2].
  unfold bfs_body. simpl. rewrite (inv_get _ _ _ _ _ I0 Hx). simpl. fold lo.
  destruct (relax_spec lo x dist q (x.1 - 1, x.2) (x.1 >? 0))
    as (d1 & q1 & R1 & J1 & E1 & M1 & C1 & P1); auto.
  { unfold adj4. auto. }
  { unfold inb. simpl. destruct (Z.gtb_spec x.1 0); split; intros; try done; lia. }
  simpl in R1. rewrite R1. simpl.
  destruct (relax_spec lo x d1 q1 (x.1 + 1, x.2) (x.1 + 1 <? W))
    as (d2 & q2 & R2 & J2 & E2 & M2 & C2 & P2); auto.
  { unfold adj4. auto. }
  { unfold inb. simpl. destruct (Z.ltb_spec (x.1 + 1) W); split; intros; try done; lia. }
  simpl in R2. rewrite R2. simpl.
  destruct (relax_spec lo x d2 q2 (x.1, x.2 - 1) (x.2 >? 0))
    as (d3 & q3 & R3 & J3 & E3 & M3 & C3 & P3); auto.
  { unfold adj4. auto. }
  { unfold inb. simpl. destruct (Z.gtb_spec x.2 0); split; intros; try done; lia. }
  simpl in R3. rewrite R3. simpl.
  destruct (relax_spec lo x d3 q3 (x.1, x.2 + 1) (x.2 + 1 <? H))
    as (d4 & q4 & R4 & J4 & E4 & M4 & C4 & P4); auto.
  { unfold adj4. auto 6. }
  { unfold inb. simpl. destruct (Z.ltb_spec (x.2 + 1) H); split; intros; try done; lia. }
  simpl in R4. rewrite R4.
  exists d4, q4. split; [done|]. split; [|lia].
  assert (closed obstacles d4 x) as Hclosed.
  { intros n Hadj Hn Hf. rewrite E4.
    destruct Hadj as [-> | [-> | [-> | ->]]].
    - specialize (C1 Hn Hf). pose proof (M2 _ Hn). pose proof (M3 _ Hn).
      pose proof (M4 _ Hn). lia.
    - specialize (C2 Hn Hf). pose proof (M3 _ Hn). pose proof (M4 _ Hn). lia.
    - specialize (C3 Hn Hf). pose proof (M4 _ Hn). lia.
    - specialize (C4 Hn Hf). lia. }
  destruct J4 as [? ? ? ? ? ? ? ? ? Hc]. constructor; auto.
  intros c Hc1 Hc2. destruct (Hc c Hc1 Hc2) as [Hin|[Hin|Hcl]]; auto.
  apply list_elem_of_singleton in Hin as ->. auto.
Qed.

(** The loop ends within [length q + count_inf dist] iterations: every
    iteration takes one cell off the queue and every cell put on it
    leaves the cells still at [INF]. *)
Lemma bfs_loop_spec fuel : ∀ lo dist q,
  bfs_inv obstacles goal lo [] dist q →
  (length q + count_inf dist ≤ fuel)%nat →
  ∃ dist' lo',
    bfs_loop fuel obstacles dist q = Ok dist'
    ∧ bfs_inv obstacles goal lo' [] dist' [].
Proof.
  induction fuel as [|fuel IH]; intros lo dist q I Hfuel.
  - destruct q as [|x q]; [|simpl in Hfuel; lia].
    exists dist, lo. done.
  - destruct q as [|[x y] q]; [exists dist, lo; done|].
    destruct (bfs_body_spec lo (x, y) dist q I) as (d' & q' & Hb & I' & Hp).
    simpl in Hb. simpl. rewrite Hb. simpl.
    apply (IH (at_ dist (x, y))); [done|]. simpl in Hfuel. lia.
Qed.
End bfs.

Lemma count_inf_replicate n :
  length (filter (λ v, v = INF) (replicate n INF)) = n.
Proof.
  induction n as [|n IH]; [done|]. cbn [replicate]. rewrite filter_cons.
  destruct (decide (INF = INF)); [|done]. simpl. by rewrite IH.
Qed.

(** What [_bfs_dist] returns: it always returns, and its field is either
    all [INF] (goal outside or on an obstacle) or satisfies the loop
    invariant with an empty queue. *)
Lemma bfs_dist_cases obstacles goal :
  nd_wf obstacles →
  ∃ dist, _bfs_dist obstacles goal = Ok dist
    ∧ nd_wf dist ∧ same_shape dist obstacles
    ∧ ((inb (nd_H obstacles) (nd_W obstacles) goal ∧ free obstacles goal
        ∧ ∃ lo, bfs_inv obstacles goal lo [] dist [])
       ∨ (¬ (inb (nd_H obstacles) (nd_W obstacles) goal ∧ free obstacles goal)
          ∧ ∀ c, inb (nd_H obstacles) (nd_W obstacles) c → at_ dist c = INF)).
Proof.
  intros Hwf. pose proof Hwf as (HH & HW & Hlen).
  destruct goal as [gx gy]. unfold _bfs_dist.
  destruct (np_full_wf (nd_H obstacles) (nd_W obstacles) INF HH HW)
    as (full & Hfull & Hfwf & EH & EW & Hdata).
  rewrite Hfull. simpl.
  assert (∀ c, inb (nd_H obstacles) (nd_W obstacles) c → at_ full c = INF) as Hall.
  { intros c Hc. destruct full as [h w l]. simpl in *. subst.
    by apply at_replicate. }
  destruct (in_bounds (nd_H obstacles) (nd_W obstacles) (gx, gy)) eqn:Hgb.
  2:{ pose proof Hgb as Hg. apply in_bounds_false in Hg.
      unfold in_bounds in Hgb. simpl in Hgb. rewrite Hgb. simpl.
      exists full. split_and!; try done. right.
      split; [|done]. tauto. }
  pose proof Hgb as Hg. apply in_bounds_inb in Hg.
  unfold in_bounds in Hgb. simpl in Hgb. rewrite Hgb. simpl.
  pose proof (nd_get_in obstacles (gx, gy) Hwf Hg) as Hgo. simpl in Hgo.
  rewrite Hgo. simpl.
  destruct (Z.eqb_spec (at_ obstacles (gx, gy)) 0) as [Hfree|Hobs]; simpl.
  2:{ exists full. split_and!; try done. right. split; [|done].
      unfold free. tauto. }
  destruct (nd_set_in full (gx, gy) 0) as (d0 & Hset & Hwf0 & [EH0 EW0] & Hd0 & Hat0 & Hoth);
    [done | by rewrite EH, EW |].
  simpl in Hset. rewrite Hset. simpl. rewrite EH, EW in Hoth.
  rewrite wrap32_id in Hat0 by lia.
  assert (∀ c, inb (nd_H obstacles) (nd_W obstacles) c → c ≠ (gx, gy) →
            at_ d0 c = INF) as Hinf.
  { intros c Hc Hne. rewrite Hoth by done. by apply Hall. }
  assert (∀ c, inb (nd_H obstacles) (nd_W obstacles) c → at_ d0 c < INF →
            c = (gx, gy)) as Hfin.
  { intros c Hc Hcf. destruct (decide (c = (gx, gy))); [done|].
    rewrite Hinf in Hcf by done. lia. }
  assert (bfs_inv obstacles (gx, gy) 0 [] d0 [(gx, gy)]) as I.
  { constructor.
    - done.
    - split; congruence.
    - intros c Hc. destruct (decide (c = (gx, gy))) as [->|Hne].
      + rewrite Hat0. unfold INF. lia.
      + rewrite Hinf by done. unfold INF. lia.
    - done.
    - intros c ->%list_elem_of_singleton. rewrite Hat0. unfold INF.
      split_and!; try apply Hg; lia.
    - simpl. split; [|done]. intros c' Hc'. by apply elem_of_nil in Hc'.
    - intros c Hc Hcf. rewrite (Hfin c) by done. lia.
    - intros c Hc Hcf. rewrite (Hfin c) by done. by constructor.
    - intros c Hc Hcf Hne. by apply Hfin in Hcf.
    - intros c Hc Hcf. left. rewrite (Hfin c) by done. by apply list_elem_of_singleton. }
  destruct (bfs_loop_spec obstacles (gx, gy) Hwf Hg
              (Z.to_nat (nd_H obstacles * nd_W obstacles)) 0 d0 [(gx, gy)] I)
    as (dist & lo & Hloop & Ifin).
  { simpl. unfold count_inf. simpl in Hd0. rewrite Hd0, Hdata.
    pose proof (flat_lt full (gx, gy) Hfwf) as Hlt. simpl in Hlt.
    rewrite Hdata, length_replicate, EH, EW in Hlt.
    pose proof (count_inf_insert
                  (replicate (Z.to_nat (nd_H obstacles * nd_W obstacles)) INF)
                  (flat (nd_W full) gy gx) (wrap32 0)) as Hcnt.
    rewrite count_inf_replicate, EW in Hcnt. rewrite EW.
    assert (wrap32 0 ≠ INF) as Hne by (rewrite wrap32_id; unfold INF; lia).
    specialize (Hcnt (lookup_replicate_2 _ _ _ (Hlt Hg)) Hne). lia. }
  exists dist. split; [done|].
  split; [apply Ifin|]. split; [apply Ifin|]. left. eauto.
Qed.

(** C4.  [_bfs_dist] always returns a field of the shape of the mask.  When
    the goal is inside the grid and free, the goal cell holds 0; when the
    goal is outside the grid or on an obstacle, every cell holds [INF]
    (10^9) and nothing is raised.  In every case each cell other than the
    goal with a distance below [INF] has a 4-neighbour whose distance is
    exactly one less, and each cell that no chain of free cells joins to
    the goal holds [INF]. *)
Theorem bfs_dist_field (obstacles : ndarray) (goal : XY) :
  nd_wf obstacles →
  ∃ dist, _bfs_dist obstacles goal = Ok dist
    ∧ nd_wf dist ∧ same_shape dist obstacles
    ∧ (inb (nd_H obstacles) (nd_W obstacles) goal → free obstacles goal →
       at_ dist goal = 0)
    ∧ (¬ inb (nd_H obstacles) (nd_W obstacles) goal
       ∨ (inb (nd_H obstacles) (nd_W obstacles) goal ∧ at_ obstacles goal ≠ 0) →
       ∀ c, inb (nd_H obstacles) (nd_W obstacles) c → at_ dist c = INF)
    ∧ (∀ c, inb (nd_H obstacles) (nd_W obstacles) c →
         at_ dist c < INF → c ≠ goal →
         ∃ n, adj4 c n ∧ inb (nd_H obstacles) (nd_W obstacles) n
              ∧ at_ dist n = at_ dist c - 1)
    ∧ (∀ c, inb (nd_H obstacles) (nd_W obstacles) c →
         ¬ reachable obstacles goal c → at_ dist c = INF).
Proof.
  intros Hwf.
  destruct (bfs_dist_cases obstacles goal Hwf)
    as (dist & Hrun & Hdwf & Hshape & [(Hg & Hf & lo & I)|(Hbad & Hall)]).
  - exists dist. split_and!; try done.
    + intros _ _. apply I.
    + intros [Hout|[_ Hobs]]; done.
    + intros c Hc Hcf Hne.
      destruct (inv_parent _ _ _ _ _ _ I c Hc Hcf Hne) as (n & Hn1 & Hn2 & Hn3).
      exists n. split_and!; try done. lia.
    + intros c Hc Hnr. pose proof (inv_range _ _ _ _ _ _ I c Hc).
      destruct (decide (at_ dist c < INF)) as [Hcf|]; [|lia].
      destruct Hnr. by apply (inv_reach _ _ _ _ _ _ I).
  - exists dist. split_and!; try done.
    + intros Hg Hf. destruct Hbad. done.
    + intros c Hc Hcf. rewrite Hall in Hcf by done. lia.
    + intros c Hc _. by apply Hall.
Qed.

Lemma bfs_dist_field_witness :
  nd_wf (NdArray 2 3 [0; 1; 0; 0; 0; 0])
  ∧ ∃ dist, _bfs_dist (NdArray 2 3 [0; 1; 0; 0; 0; 0]) (0, 0) = Ok dist
      ∧ at_ dist (2, 0) = 4.
Proof.
  assert (nd_wf (NdArray 2 3 [0; 1; 0; 0; 0; 0])) as Hwf.
  { unfold nd_wf. simpl. lia. }
  split; [exact Hwf|].
  destruct (bfs_dist_field (NdArray 2 3 [0; 1; 0; 0; 0; 0]) (0, 0) Hwf)
    as (dist & Hrun & _).
  exists dist. split; [exact Hrun|].
  vm_compute in Hrun. injection Hrun as <-. reflexivity.
Defined.

(** ** The intended cell *)

Section intention.
Variable obstacles : ndarray.
Variable goal : XY.
Variable dist : ndarray.
Variable cur : XY.
Hypothesis obstacles_wf : nd_wf obstacles.
Hypothesis dist_run : _bfs_dist obstacles goal = Ok dist.
Hypothesis cur_inb : inb (nd_H obstacles) (nd_W obstacles) cur.
Hypothesis cur_free : free obstacles cur.
Hypothesis cur_finite : at_ dist cur < INF.

Abbreviation H := (nd_H obstacles).
Abbreviation W := (nd_W obstacles).

Lemma dist_facts :
  nd_wf dist ∧ same_shape dist obstacles
  ∧ ∃ lo, bfs_inv obstacles goal lo [] dist [].
Proof.
  destruct (bfs_dist_cases obstacles goal obstacles_wf)
    as (dist' & Hrun & Hdwf & Hshape & [(Hg & Hf & lo & I)|(Hbad & Hall)]);
    rewrite dist_run in Hrun; injection Hrun as <-.
  - eauto.
  - pose proof cur_finite as Hc. rewrite Hall in Hc by done. lia.
Qed.

(** A strictly closer neighbour inside the grid is free and exactly one
    step closer. *)
Lemma closer_neighbour n :
  adj4 cur n → inb H W n → at_ dist n < at_ dist cur →
  at_ obstacles n = 0 ∧ at_ dist n = at_ dist cur - 1.
Proof.
  intros Hadj Hn Hlt. destruct dist_facts as (_ & _ & lo & I).
  assert (at_ dist n < INF) as Hnf by (pose proof cur_finite; lia).
  destruct (reachable_inb_free _ _ _ (inv_reach _ _ _ _ _ _ I n Hn Hnf)) as [_ Hfree].
  split; [done|].
  destruct (inv_closed _ _ _ _ _ _ I n Hn Hnf) as [Hq|[Hq|Hcl]];
    [by apply elem_of_nil in Hq | by apply elem_of_nil in Hq |].
  specialize (Hcl cur (adj4_sym _ _ Hadj) cur_inb cur_free). lia.
Qed.

Lemma dist_get c : inb H W c → nd_get dist c.2 c.1 = Ok (at_ dist c).
Proof.
  intros Hc. destruct dist_facts as (Hwf & [EH EW] & _).
  apply nd_get_in; [done | by rewrite EH, EW].
Qed.

(** Once a strictly closer neighbour is held, no later one replaces it. *)
Lemma intend_loop_found (l : list (Z * Z)) m :
  Forall (λ dxy, adj4 cur (cur.1 + dxy.1, cur.2 + dxy.2)) l →
  for_each (intend_body obstacles dist H W cur) l (m, at_ dist cur - 1)
  = Ok (m, at_ dist cur - 1).
Proof.
  induction 1 as [|dxy l Hadj _ IH]; [done|]. cbn [for_each].
  assert (intend_body obstacles dist H W cur dxy (m, at_ dist cur - 1)
          = Ok (m, at_ dist cur - 1)) as ->; [|exact IH].
  unfold intend_body.
  destruct (in_bounds H W _) eqn:Hb; [|done]. apply in_bounds_inb in Hb.
  pose proof (nd_get_in obstacles _ obstacles_wf Hb) as Ho. simpl in Ho.
  rewrite Ho. simpl.
  destruct (Z.eqb_spec (at_ obstacles (cur.1 + dxy.1, cur.2 + dxy.2)) 0); [|done].
  pose proof (dist_get _ Hb) as Hd. simpl in Hd. rewrite Hd. simpl.
  destruct (Z.ltb_spec (at_ dist (cur.1 + dxy.1, cur.2 + dxy.2)) (at_ dist cur - 1))
    as [Hlt|]; [|done].
  destruct (closer_neighbour _ Hadj Hb); lia.
Qed.

(** The loop over the neighbours returns the first strictly closer one,
    or the current cell when there is none. *)
Lemma intend_loop_first (l : list (Z * Z)) :
  Forall (λ dxy, adj4 cur (cur.1 + dxy.1, cur.2 + dxy.2)) l →
  ∃ best,
    for_each (intend_body obstacles dist H W cur) l (cur, at_ dist cur)
    = Ok (default cur
            (List.find (λ n, in_bounds H W n && (at_ dist n <? at_ dist cur))
               (map (λ dxy : Z * Z, (cur.1 + dxy.1, cur.2 + dxy.2)) l)),
          best).
Proof.
  induction 1 as [|dxy l Hadj Hl IH]; [by eexists|].
  cbn [for_each map List.find].
  set (n := (cur.1 + dxy.1, cur.2 + dxy.2)) in *.
  assert (intend_body obstacles dist H W cur dxy (cur, at_ dist cur)
          = Ok (if in_bounds H W n && (at_ dist n <? at_ dist cur)
                then (n, at_ dist cur - 1) else (cur, at_ dist cur))) as ->.
  { unfold intend_body. fold n.
    destruct (in_bounds H W n) eqn:Hb; [|done]. apply in_bounds_inb in Hb.
    pose proof (nd_get_in obstacles _ obstacles_wf Hb) as Ho.
    pose proof (dist_get _ Hb) as Hd. pose proof (closer_neighbour _ Hadj Hb) as Hcl.
    simpl in Ho, Hd. rewrite Ho. simpl.
    destruct (Z.ltb_spec (at_ dist n) (at_ dist cur)) as [Hlt|Hge].
    - destruct (Hcl Hlt) as [Hfree Hval]. rewrite Hfree. simpl. rewrite Hd. simpl.
      destruct (Z.ltb_spec (at_ dist n) (at_ dist cur)); [|lia]. by rewrite Hval.
    - destruct (Z.eqb_spec (at_ obstacles n) 0); [|done]. rewrite Hd. simpl.
      destruct (Z.ltb_spec (at_ dist n) (at_ dist cur)); [lia|done]. }
  destruct (in_bounds H W n && (at_ dist n <? at_ dist cur)); simpl.
  - rewrite intend_loop_found by done. by eexists.
  - exact IH.
Qed.

Lemma nbs_adjacent :
  Forall (λ dxy : Z * Z, adj4 cur (cur.1 + dxy.1, cur.2 + dxy.2)) nbs.
Proof.
  apply List.Forall_forall. intros dxy Hin. unfold adj4. simpl in Hin.
  destruct Hin as [<-|[<-|[<-|[<-|[]]]]]; simpl.
  - right; left. f_equal; lia.
  - left. f_equal; lia.
  - do 3 right. f_equal; lia.
  - do 2 right; left. f_equal; lia.
Qed.

Lemma intend_loop_spec :
  ∃ best, intend_loop obstacles dist H W cur (at_ dist cur)
          = Ok (default cur (first_closer dist H W cur), best).
Proof. apply intend_loop_first, nbs_adjacent. Qed.

Lemma first_closer_Some n :
  first_closer dist H W cur = Some n →
  n ≠ cur ∧ adj4 cur n ∧ inb H W n ∧ at_ dist n < at_ dist cur.
Proof.
  intros Hfind. apply find_some in Hfind as [Hin Hp].
  apply andb_true_iff in Hp as [Hb Hlt]. apply in_bounds_inb in Hb.
  apply Z.ltb_lt in Hlt. split_and!; try done.
  - intros ->. lia.
  - apply in_map_iff in Hin as (dxy & <- & Hd).
    pose proof nbs_adjacent as Hall. rewrite List.Forall_forall in Hall.
    by apply Hall.
Qed.
End intention.

Lemma nd_incr_in a c :
  nd_wf a → inb (nd_H a) (nd_W a) c →
  ∃ a', nd_incr a c.2 c.1 = Ok a' ∧ nd_wf a' ∧ same_shape a' a
        ∧ nd_data a' = <[flat (nd_W a) c.2 c.1 := wrap32 (at_ a c + 1)]> (nd_data a)
        ∧ at_ a' c = wrap32 (at_ a c + 1)
        ∧ ∀ c', inb (nd_H a) (nd_W a) c' → c' ≠ c → at_ a' c' = at_ a c'.
Proof.
  intros Hwf Hc. unfold nd_incr. rewrite nd_get_in by done. simpl.
  apply nd_set_in; done.
Qed.

(** ** The distance cache *)

Lemma dist_cache_loop obstacles (l : list XY) : ∀ m0 m : gmap XY ndarray,
  for_each (λ g cache, d ← _bfs_dist obstacles g; Ok (<[g := d]> cache)) l m0 = Ok m →
  (∀ g d, m0 !! g = Some d → _bfs_dist obstacles g = Ok d) →
  (∀ g d, m !! g = Some d → _bfs_dist obstacles g = Ok d)
  ∧ (∀ g, g ∈ l ∨ is_Some (m0 !! g) → is_Some (m !! g)).
Proof.
  induction l as [|g0 l IH]; intros m0 m Hrun Hm0; simpl in Hrun.
  - injection Hrun as <-. split; [done|]. intros g [Hg|Hg]; [|done].
    by apply elem_of_nil in Hg.
  - apply bind_Ok in Hrun as (m1 & Hb & Hrun).
    apply bind_Ok in Hb as (d0 & Hd0 & Hb). injection Hb as <-.
    destruct (IH _ _ Hrun) as [IH1 IH2].
    { intros g d. rewrite lookup_insert. case_decide; [|by apply Hm0].
      intros [= <-]. by subst. }
    split; [done|]. intros g Hg. apply IH2.
    rewrite lookup_insert. case_decide; [right; by eexists|].
    destruct Hg as [Hg|Hg]; [|by right]. left.
    apply elem_of_cons in Hg as [->|Hg]; done.
Qed.

Lemma build_dist_cache_lookup obstacles goals cache g :
  build_dist_cache obstacles goals = Ok cache → g ∈ goals →
  ∃ dist, cache !! g = Some dist ∧ _bfs_dist obstacles g = Ok dist.
Proof.
  intros Hrun Hg. apply dist_cache_loop in Hrun as [H1 H2]; [|done].
  destruct (H2 g) as [d Hd].
  { left. apply elem_of_elements, elem_of_list_to_set. done. }
  exists d. split; [done|]. by apply H1.
Qed.

Lemma build_dist_cache_total obstacles goals :
  nd_wf obstacles → ∃ cache, build_dist_cache obstacles goals = Ok cache.
Proof.
  intros Hwf. unfold build_dist_cache.
  generalize (∅ : gmap XY ndarray).
  induction (elements (list_to_set goals : gset XY)) as [|g l IH]; intros m0.
  - by eexists.
  - simpl. destruct (bfs_dist_cases obstacles g Hwf) as (d & -> & _). simpl.
    apply IH.
Qed.

(** ** First-reach times *)

Lemma first_reach_scan_spec (rows : list (list XY)) gi i : ∀ t0 r,
  first_reach_scan rows gi i t0 = Ok r →
  match r with
  | Some t =>
    ∃ k : nat, t = t0 + Z.of_nat k
      ∧ rows !! k ≫= (.!! i) = Some gi
      ∧ ∀ k', (k' < k)%nat → rows !! k' ≫= (.!! i) ≠ Some gi
  | None => ∀ k, rows !! k ≫= (.!! i) ≠ Some gi
  end.
Proof.
  induction rows as [|row rows IH]; intros t0 r Hrun; simpl in Hrun.
  - injection Hrun as <-. intros k. by rewrite lookup_nil.
  - apply bind_Ok in Hrun as (p & Hp%of_option_Ok & Hrun).
    case_bool_decide as Hpg.
    + injection Hrun as <-. exists 0%nat. split_and!; [lia | by subst | lia].
    + specialize (IH _ _ Hrun). destruct r as [t|].
      * destruct IH as (k & -> & Hk & Hbefore). exists (S k).
        split_and!; [lia | done |]. intros [|k'] Hk'; simpl.
        -- rewrite Hp. congruence.
        -- apply Hbefore. lia.
      * intros [|k]; simpl; [rewrite Hp; congruence | apply IH].
Qed.

Lemma first_reach_scan_total (rows : list (list XY)) gi i : ∀ t0,
  (∀ row, row ∈ rows → is_Some (row !! i)) →
  ∃ r, first_reach_scan rows gi i t0 = Ok r.
Proof.
  induction rows as [|row rows IH]; intros t0 Hrows; simpl; [by eexists|].
  destruct (Hrows row) as [p ->]; [set_solver|]. simpl.
  case_bool_decide; [by eexists|]. apply IH. intros; apply Hrows. set_solver.
Qed.

Lemma reach_inv_step paths goals k reach gi r :
  (k < num_agents_of paths)%nat →
  reach_inv paths goals k reach →
  goals !! k = Some gi → first_reach_scan paths gi k 0 = Ok r →
  reach_inv paths goals (S k)
    (match r with Some t => <[k := t]> reach | None => reach end).
Proof.
  intros Hk (Hlen & Hdone & Hrest) Hg Hscan. split_and!.
  - destruct r; [by rewrite length_insert | done].
  - intros i Hi. destruct (decide (i = k)) as [->|Hne].
    + exists gi, r. split_and!; try done. destruct r as [t|]; simpl.
      * apply list_lookup_insert_eq. lia.
      * apply Hrest. lia.
    + destruct (Hdone i) as (gi' & r' & ? & ? & ?); [lia|].
      exists gi', r'. split_and!; try done.
      destruct r; [by rewrite list_lookup_insert_ne | done].
  - intros i Hi. destruct r; [rewrite list_lookup_insert_ne by lia|];
      apply Hrest; lia.
Qed.

Lemma reach_inv_init paths goals :
  reach_inv paths goals 0 (replicate (num_agents_of paths) (10 ^ 9)).
Proof.
  split_and!; [by rewrite length_replicate | lia |].
  intros i Hi. apply lookup_replicate_2. lia.
Qed.

Lemma first_reach_times_spec paths goals reach :
  _first_reach_times paths goals = Ok reach →
  reach_inv paths goals (num_agents_of paths) reach.
Proof.
  unfold _first_reach_times. intros Hrun.
  apply (for_range_inv (reach_inv paths goals)) in Hrun;
    [done | apply reach_inv_init |].
  intros k s s' Hk Hinv Hbody.
  apply bind_Ok in Hbody as (gi & Hg%of_option_Ok & Hbody).
  apply bind_Ok in Hbody as (r & Hscan & Hbody).
  pose proof (reach_inv_step _ _ _ _ _ _ Hk Hinv Hg Hscan) as Hstep.
  destruct r; injection Hbody as <-; done.
Qed.

Lemma first_reach_times_total paths goals :
  (∀ row, row ∈ paths → length row = num_agents_of paths) →
  (num_agents_of paths ≤ length goals)%nat →
  ∃ reach, _first_reach_times paths goals = Ok reach.
Proof.
  intros Hrect Hgoals. unfold _first_reach_times.
  destruct (for_range_total (λ _ _, True)
    (λ i reach,
      gi ← of_option IndexError (goals !! i);
      r ← first_reach_scan paths gi i 0;
      match r with
      | Some t => Ok (<[i := t]> reach)
      | None => Ok reach
      end)
    (num_agents_of paths) (replicate (num_agents_of paths) (10 ^ 9)))
    as (reach & Hrun & _); [done | | by exists reach].
  intros k s Hk _.
  destruct (lookup_lt_is_Some_2 goals k) as [gi ->]; [lia|]. simpl.
  destruct (first_reach_scan_total paths gi k 0) as [r ->].
  { intros row Hrow. apply lookup_lt_is_Some_2. rewrite Hrect by done. lia. }
  simpl. destruct r; by eexists.
Qed.

(** The entry of [reach_t] for an agent, in terms of the trajectory. *)
Lemma reach_entry paths goals reach i r :
  _first_reach_times paths goals = Ok reach → reach !! i = Some r →
  (r = INF ∧ ∀ t, ¬ reaches_at paths goals i t)
  ∨ (∃ t : nat, r = Z.of_nat t ∧ (t < length paths)%nat
                ∧ first_reaches_at paths goals i t).
Proof.
  intros Hrun Hr. apply first_reach_times_spec in Hrun as (Hlen & Hdone & _).
  destruct (Hdone i) as (gi & r' & Hg & Hscan & Hr').
  { rewrite <- Hlen. by eapply lookup_lt_Some. }
  rewrite Hr in Hr'. injection Hr' as ->.
  apply first_reach_scan_spec in Hscan. destruct r' as [t|]; simpl.
  - right. destruct Hscan as (k & -> & Hk & Hbefore). exists k.
    split_and!; [lia | |].
    + destruct (paths !! k) eqn:E; [|done]. by eapply lookup_lt_Some.
    + split.
      * exists gi. done.
      * intros t' Ht' (g & Hg' & Hpos). rewrite Hg in Hg'. injection Hg' as <-.
        by apply (Hbefore t').
  - left. split; [done|]. intros t (g & Hg' & Hpos).
    rewrite Hg in Hg'. injection Hg' as <-. by apply (Hscan t).
Qed.

(** ** [summarize_run_metrics] *)

Lemma filter_length_all {A} (P : A → Prop) `{∀ x, Decision (P x)} (l : list A) :
  length (filter P l) = length l ↔ Forall P l.
Proof.
  induction l as [|a l IH]; [by split|]. rewrite filter_cons, Forall_cons.
  pose proof (length_filter P l) as Hle.
  destruct (decide (P a)); simpl.
  - rewrite <- IH. split; [intros [= ?]; done | intros [_ ->]; done].
  - split; [lia | tauto].
Qed.

(** C1, as the code has it.  When [summarize_run_metrics] returns on a
    trajectory of at most 10^9 timesteps, [solved] is 0 or 1, and it is 1
    iff every agent is on its goal at some timestep (its first-reach time
    is finite) and [solver_rc] is 0. *)
Theorem solved_iff_all_reached {F : Type} (paths : list (list XY))
    (goals : list XY) (wait_map collision_map : ndarray) (runtime_s : F)
    (solver_rc : Z) (m : metrics F) :
  summarize_run_metrics paths goals wait_map collision_map runtime_s solver_rc
  = Ok m →
  Z.of_nat (length paths) ≤ 10 ^ 9 →
  (m_solved m = 1 ∨ m_solved m = 0)
  ∧ (m_solved m = 1 ↔ all_agents_reach paths goals ∧ solver_rc = 0).
Proof.
  unfold summarize_run_metrics. intros Hrun HT.
  apply bind_Ok in Hrun as (reach & Hreach & Hrun). injection Hrun as <-. simpl.
  pose proof (first_reach_times_spec _ _ _ Hreach) as (Hlen & _ & _).
  assert (Z.of_nat (length (filter (λ t, t < 10 ^ 9) reach))
          = Z.of_nat (num_agents_of paths) ↔ all_agents_reach paths goals) as Hall.
  { rewrite <- Hlen, Nat2Z.inj_iff, filter_length_all, Forall_lookup. split.
    - intros Hfin i Hi. destruct (lookup_lt_is_Some_2 reach i) as [r Hr]; [lia|].
      specialize (Hfin i r Hr). simpl in Hfin.
      destruct (reach_entry _ _ _ _ _ Hreach Hr) as [[-> _]|(t & -> & _ & [Ht _])].
      + unfold INF in Hfin. lia.
      + by exists t.
    - intros Hreachall i r Hr. simpl.
      assert (i < num_agents_of paths)%nat as Hi.
      { rewrite <- Hlen. by eapply lookup_lt_Some. }
      destruct (reach_entry _ _ _ _ _ Hreach Hr) as [[-> Hnever]|(t & -> & Ht & _)].
      + destruct (Hreachall i Hi) as [t Ht]. by destruct (Hnever t).
      + lia. }
  case_bool_decide as Hcnt; case_bool_decide as Hrc; simpl;
    (split; [auto|]); rewrite <- Hall; split; try done; try lia; tauto.
Qed.

Lemma solved_iff_all_reached_witness :
  summarize_run_metrics [[(0, 0)]; [(1, 0)]] [(0, 0)]
    (NdArray 1 2 [0; 0]) (NdArray 1 2 [0; 0]) tt 0
  = Ok (Metrics 1 1 1 1 0 0 tt 0)
  ∧ all_agents_reach [[(0, 0)]; [(1, 0)]] [(0, 0)].
Proof.
  assert (summarize_run_metrics [[(0, 0)]; [(1, 0)]] [(0, 0)]
            (NdArray 1 2 [0; 0]) (NdArray 1 2 [0; 0]) tt 0
          = Ok (Metrics 1 1 1 1 0 0 tt 0)) as Hrun by (vm_compute; reflexivity).
  split; [exact Hrun|].
  assert (Z.of_nat (length [[(0, 0)]; [(1, 0)]]) ≤ 10 ^ 9) as HT
    by (simpl; lia).
  destruct (solved_iff_all_reached _ _ _ _ _ _ _ Hrun HT) as [_ [Hall _]].
  apply Hall. reflexivity.
Defined.

(** C1 as stated fails: an agent that stands on its goal at [t = 0] and
    has left it at the final timestep still counts as reached, so the run
    is reported solved. *)
Lemma solved_final_position_counterexample :
  summarize_run_metrics [[(0, 0)]; [(1, 0)]] [(0, 0)]
    (NdArray 1 2 [0; 0]) (NdArray 1 2 [0; 0]) tt 0
  = Ok (Metrics 1 1 1 1 0 0 tt 0)
  ∧ ¬ (final_positions_at_goal [[(0, 0)]; [(1, 0)]] [(0, 0)] ∧ 0 = 0).
Proof.
  split; [vm_compute; reflexivity|].
  intros [Hfinal _]. destruct (Hfinal 0%nat) as (g & Hg & Hpos); [simpl; lia|].
  vm_compute in Hg, Hpos. congruence.
Qed.

(** ** Sums of count arrays *)

Lemma sumZ_insert (l : list Z) i v v' :
  l !! i = Some v → sumZ (<[i := v']> l) = sumZ l - v + v'.
Proof.
  revert i. induction l as [|a l IH]; intros [|i] Hl; simpl in *; try done.
  - injection Hl as ->. lia.
  - rewrite (IH i Hl). lia.
Qed.

Lemma sumZ_lookup_le (l : list Z) i v :
  Forall (λ v, 0 ≤ v) l → l !! i = Some v → 0 ≤ v ≤ sumZ l.
Proof.
  intros Hall. revert i. induction Hall as [|a l Ha Hall IH]; intros [|i] Hl;
    simpl in *; try done.
  - injection Hl as ->. assert (0 ≤ sumZ l); [|lia].
    clear IH. induction Hall; simpl; lia.
  - specialize (IH i Hl). lia.
Qed.

Lemma sumZ_app l1 l2 : sumZ (l1 ++ l2) = sumZ l1 + sumZ l2.
Proof. induction l1 as [|a l1 IH]; simpl; [done|]. rewrite IH. lia. Qed.

Lemma sumZ_map_add {A} (f g : A → Z) l :
  sumZ (map f l) + sumZ (map g l) = sumZ (map (λ x, f x + g x) l).
Proof. induction l as [|a l IH]; simpl; [done|]. lia. Qed.

Lemma sumZ_map_le {A} (f : A → Z) c l :
  0 ≤ c → (∀ x, f x ≤ c) → sumZ (map f l) ≤ c * Z.of_nat (length l).
Proof.
  intros Hc Hf. induction l as [|a l IH]; [simpl; lia|].
  change (sumZ (map f (a :: l))) with (f a + sumZ (map f l)).
  specialize (Hf a). rewrite length_cons, Nat2Z.inj_succ. nia.
Qed.

Lemma counts_ok_zeros H W a : np_zeros H W = Ok a → counts_ok H W a 0.
Proof.
  unfold np_zeros, np_full. destruct (Z.ltb_spec H 0), (Z.ltb_spec W 0);
    simpl; try done.
  intros [= <-]. unfold counts_ok, nd_wf, nd_sum. simpl.
  rewrite length_replicate. split_and!; try done; try nia.
  - apply Forall_replicate. lia.
  - induction (Z.to_nat (H * W)) as [|n IH]; simpl; [done|]. by rewrite IH.
Qed.

Lemma counts_ok_incr H W a s c a' :
  counts_ok H W a s → inb H W c → s + 1 < 2 ^ 31 →
  nd_incr a c.2 c.1 = Ok a' → counts_ok H W a' (s + 1).
Proof.
  intros (Hwf & EH & EW & Hnn & Hsum) Hc Hs Hincr.
  destruct (nd_incr_in a c Hwf) as (a'' & Hincr' & Hwf' & [EH' EW'] & Hdata & _);
    [by rewrite EH, EW|].
  rewrite Hincr in Hincr'. injection Hincr' as <-.
  pose proof (flat_lt a c Hwf) as Hlt. rewrite EH, EW in Hlt. specialize (Hlt Hc).
  destruct (lookup_lt_is_Some_2 _ _ Hlt) as [v Hv].
  assert (at_ a c = v) as Hat by (unfold at_; by rewrite EW, Hv).
  pose proof (sumZ_lookup_le _ _ _ Hnn Hv) as Hvs. unfold nd_sum in Hsum.
  fold (sumZ (nd_data a)) in Hsum.
  rewrite Hat, EW, wrap32_id in Hdata by lia.
  split_and!; try congruence.
  - rewrite Hdata. apply Forall_insert; [done | lia].
  - unfold nd_sum. fold (sumZ (nd_data a')).
    rewrite Hdata, (sumZ_insert _ _ v) by done. lia.
Qed.

Lemma nd_incr_wf H W a c a' :
  nd_wf a → nd_H a = H → nd_W a = W → inb H W c →
  nd_incr a c.2 c.1 = Ok a' → nd_wf a' ∧ nd_H a' = H ∧ nd_W a' = W.
Proof.
  intros Hwf EH EW Hc Hincr.
  destruct (nd_incr_in a c Hwf) as (a'' & Hincr' & Hwf' & [EH' EW'] & _);
    [by rewrite EH, EW|].
  rewrite Hincr in Hincr'. injection Hincr' as <-. split_and!; congruence.
Qed.

(** ** The occupancy loop *)

Lemma occ_partial_S reach t i r :
  reach !! i = Some r →
  occ_partial reach t (S i)
  = occ_partial reach t i + (if t <=? r then 1 else 0).
Proof.
  intros Hr. unfold occ_partial. rewrite (take_S_r _ _ _ Hr), map_app, sumZ_app.
  simpl. lia.
Qed.

Lemma occ_partial_row reach t :
  occ_partial reach t (length reach) = occ_partial reach (t + 1) 0.
Proof.
  unfold occ_partial. rewrite take_ge by lia. rewrite take_0. simpl.
  rewrite sumZ_map_add, Z.add_0_r. f_equal. apply map_ext. intros r.
  destruct (Z.leb_spec t r); lia.
Qed.

Lemma occ_partial_le reach t i :
  0 ≤ t → occ_partial reach t i ≤ t * Z.of_nat (length reach) + Z.of_nat i.
Proof.
  intros Ht. unfold occ_partial.
  pose proof (sumZ_map_le (λ r, Z.min (r + 1) t) t reach Ht) as H1.
  pose proof (sumZ_map_le (λ r, if t <=? r then 1 else 0) 1 (take i reach)) as H2.
  rewrite length_take in H2.
  assert (sumZ (map (λ r, Z.min (r + 1) t) reach) ≤ t * Z.of_nat (length reach))
    by (apply H1; intros; lia).
  assert (sumZ (map (λ r, if t <=? r then 1 else 0) (take i reach))
          ≤ 1 * Z.of_nat (i `min` length reach)).
  { apply H2; [lia|]. intros r. destruct (t <=? r); lia. }
  lia.
Qed.

Lemma occ_partial_begin reach t :
  occ_partial reach t 0 = sumZ (map (λ r, Z.min (r + 1) t) reach).
Proof. unfold occ_partial. rewrite take_0. simpl. lia. Qed.

Lemma occ_partial_zero reach :
  Forall (λ r, 0 ≤ r) reach → occ_partial reach (Z.of_nat 0) 0 = 0.
Proof.
  intros Hnn. rewrite occ_partial_begin.
  induction Hnn as [|r reach Hr _ IH]; [done|].
  change (sumZ (map (λ r, Z.min (r + 1) (Z.of_nat 0)) (r :: reach)))
    with (Z.min (r + 1) (Z.of_nat 0)
          + sumZ (map (λ r, Z.min (r + 1) (Z.of_nat 0)) reach)).
  lia.
Qed.

Lemma occ_body_step paths reach H W (T N t i : nat) occ occ' :
  all_in_bounds paths H W → length reach = N →
  (t < T)%nat → (i < N)%nat → Z.of_nat T * Z.of_nat N < 2 ^ 31 →
  counts_ok H W occ (occ_partial reach (Z.of_nat t) i) →
  occ_body paths reach H W t i occ = Ok occ' →
  counts_ok H W occ' (occ_partial reach (Z.of_nat t) (S i)).
Proof.
  intros Hinb Hlen Ht Hi Hsmall Hok Hbody. unfold occ_body in Hbody.
  apply bind_Ok in Hbody as (r & Hr%of_option_Ok & Hbody).
  rewrite (occ_partial_S _ _ _ _ Hr).
  destruct (Z.gtb_spec (Z.of_nat t) r) as [Hgt|Hle].
  - injection Hbody as <-. destruct (Z.leb_spec (Z.of_nat t) r); [lia|].
    by rewrite Z.add_0_r.
  - apply bind_Ok in Hbody as (row & Hrow%of_option_Ok & Hbody).
    apply bind_Ok in Hbody as (p & Hp%of_option_Ok & Hbody).
    assert (inb H W p) as Hpin.
    { apply (Hinb t i). unfold position. rewrite Hrow. done. }
    apply in_bounds_inb in Hpin as Hb. rewrite Hb in Hbody.
    destruct (Z.leb_spec (Z.of_nat t) r); [|lia].
    apply (counts_ok_incr H W occ _ p); try done.
    pose proof (occ_partial_le reach (Z.of_nat t) i). nia.
Qed.

Lemma occ_loop_spec paths reach H W (T N : nat) occ occ' :
  all_in_bounds paths H W → length reach = N →
  Forall (λ r, 0 ≤ r) reach →
  Z.of_nat T * Z.of_nat N < 2 ^ 31 →
  counts_ok H W occ 0 →
  for_each (λ t occ, for_each (occ_body paths reach H W t) (range N) occ)
    (range T) occ = Ok occ' →
  counts_ok H W occ' (sumZ (map (λ r, Z.min (r + 1) (Z.of_nat T)) reach)).
Proof.
  intros Hinb Hlen Hnn Hsmall H0 Hrun.
  apply (for_range_inv
           (λ t occ, counts_ok H W occ (occ_partial reach (Z.of_nat t) 0)))
    in Hrun.
  - by rewrite occ_partial_begin in Hrun.
  - by rewrite occ_partial_zero.
  - intros t s s' Ht Hs Hinner.
    apply (for_range_inv
             (λ i occ, counts_ok H W occ (occ_partial reach (Z.of_nat t) i)))
      in Hinner.
    + rewrite <- Hlen, occ_partial_row in Hinner.
      by replace (Z.of_nat (S t)) with (Z.of_nat t + 1) by lia.
    + done.
    + intros i o o' Hi Ho Hb. by eapply occ_body_step.
Qed.

(** ** The wait / blocking-pressure loop *)

Lemma intend_loop_inb obstacles dist H W cur d res :
  intend_loop obstacles dist H W cur d = Ok res →
  res.1 = cur ∨ inb H W res.1.
Proof.
  unfold intend_loop.
  assert (∀ l acc, acc.1 = cur ∨ inb H W acc.1 →
            for_each (intend_body obstacles dist H W cur) l acc = Ok res →
            res.1 = cur ∨ inb H W res.1) as Hgen.
  { induction l as [|dxy l IH]; intros acc Hacc Hrun; simpl in Hrun.
    - by injection Hrun as <-.
    - apply bind_Ok in Hrun as (acc' & Hbody & Hrun).
      apply (IH acc'); [|done]. clear IH Hrun.
      unfold intend_body in Hbody. destruct acc as [intend best].
      destruct (in_bounds H W _) eqn:Hb; [|by injection Hbody as <-].
      apply in_bounds_inb in Hb.
      apply bind_Ok in Hbody as (o & _ & Hbody).
      destruct (o =? 0); [|by injection Hbody as <-].
      apply bind_Ok in Hbody as (d_nb & _ & Hbody).
      destruct (d_nb <? best); injection Hbody as <-; [by right | done]. }
  apply Hgen. by left.
Qed.

Lemma wc_inv_mono (B : Prop) H W k k' st :
  k ≤ k' → wc_inv B H W k st → wc_inv B H W k' st.
Proof.
  destruct st as [[[w c] tw] tb]. unfold wc_inv.
  intros Hk (? & ? & ? & ? & ? & ? & ?). split_and!; try done; lia.
Qed.

Lemma pressure_part_step (B : Prop) goals cache obstacles H W i cur nxt k st st' :
  k + 1 < 2 ^ 31 →
  (let '(w, c, tw, tb) := st in
   counts_ok H W c tb ∧ 0 ≤ tb ≤ k ∧ nd_wf w ∧ nd_H w = H ∧ nd_W w = W
   ∧ 0 ≤ tw ≤ k + 1 ∧ (B → counts_ok H W w tw)) →
  pressure_part goals cache obstacles H W i cur nxt st = Ok st' →
  wc_inv B H W (k + 1) st'.
Proof.
  destruct st as [[[w c] tw] tb]. intros Hk (Hc & Htb & Hw & EH & EW & Htw & HB) Hrun.
  assert (wc_inv B H W (k + 1) (w, c, tw, tb)) as Hsame.
  { unfold wc_inv. split_and!; try done; lia. }
  unfold pressure_part in Hrun.
  apply bind_Ok in Hrun as (g & _ & Hrun).
  apply bind_Ok in Hrun as (dist & _ & Hrun).
  destruct (in_bounds H W cur) eqn:Hb; simpl in Hrun; [|by injection Hrun as <-].
  apply bind_Ok in Hrun as (o & _ & Hrun).
  destruct (o =? 0); simpl in Hrun; [|by injection Hrun as <-].
  apply bind_Ok in Hrun as (d_cur & _ & Hrun).
  destruct (d_cur >=? 10 ^ 9); [by injection Hrun as <-|].
  apply bind_Ok in Hrun as ([intend best] & Hloop & Hrun).
  apply intend_loop_inb in Hloop. simpl in Hloop.
  case_bool_decide as Hic; simpl in Hrun; [by injection Hrun as <-|].
  case_bool_decide as Hstay; simpl in Hrun; [|by injection Hrun as <-].
  apply bind_Ok in Hrun as (c' & Hincr & Hrun). injection Hrun as <-.
  destruct Hloop as [?|Hin]; [done|].
  unfold wc_inv. split_and!; try done; try lia.
  apply (counts_ok_incr H W c tb intend); try done. lia.
Qed.

Lemma wc_body_step (B : Prop) paths goals reach cache obstacles H W
    (t i : nat) k st st' :
  (B → all_in_bounds paths H W) →
  0 ≤ k → k + 1 < 2 ^ 31 →
  wc_inv B H W k st →
  wc_body paths goals reach cache obstacles H W t i st = Ok st' →
  wc_inv B H W (k + 1) st'.
Proof.
  intros HBin Hk0 Hk Hinv Hrun.
  pose proof (wc_inv_mono B H W k (k + 1) st ltac:(lia) Hinv) as Hmono.
  destruct st as [[[w c] tw] tb]. unfold wc_body in Hrun.
  apply bind_Ok in Hrun as (r & _ & Hrun).
  destruct (Z.of_nat t >=? r); [by injection Hrun as <-|].
  apply bind_Ok in Hrun as (row & Hrow%of_option_Ok & Hrun).
  apply bind_Ok in Hrun as (cur & Hcur%of_option_Ok & Hrun).
  apply bind_Ok in Hrun as (row' & _ & Hrun).
  apply bind_Ok in Hrun as (nxt & _ & Hrun).
  apply bind_Ok in Hrun as (st1 & Hst1 & Hrun).
  apply (pressure_part_step B _ _ _ _ _ _ _ _ k) in Hrun; [done | done |].
  destruct st1 as [[[w1 c1] tw1] tb1].
  destruct Hinv as (Hc & Htb & Hw & EH & EW & Htw & HB).
  case_bool_decide as Hstay.
  2:{ injection Hst1 as <- <- <- <-. split_and!; try done; lia. }
  apply bind_Ok in Hst1 as (w' & Hw' & Hst1). injection Hst1 as <- <- <- <-.
  destruct (in_bounds H W cur) eqn:Hb.
  - apply in_bounds_inb in Hb.
    destruct (nd_incr_wf H W w cur w' Hw EH EW Hb Hw') as (? & ? & ?).
    split_and!; try done; try lia.
    intros HBt. apply (counts_ok_incr H W w tw cur); auto. lia.
  - injection Hw' as <-. split_and!; try done; try lia.
    intros HBt. apply in_bounds_false in Hb. destruct Hb.
    apply (HBin HBt t i). unfold position. rewrite Hrow. done.
Qed.

Lemma wc_loop_spec (B : Prop) paths goals reach cache obstacles H W
    (T1 N : nat) st st' :
  (B → all_in_bounds paths H W) →
  Z.of_nat T1 * Z.of_nat N < 2 ^ 31 →
  wc_inv B H W 0 st →
  for_each (λ t st,
      for_each (wc_body paths goals reach cache obstacles H W t) (range N) st)
    (range T1) st = Ok st' →
  wc_inv B H W (Z.of_nat T1 * Z.of_nat N) st'.
Proof.
  intros HBin Hsmall H0 Hrun.
  apply (for_range_inv
           (λ t st, wc_inv B H W (Z.of_nat t * Z.of_nat N) st)) in Hrun;
    [done | done |].
  intros t s s' Ht Hs Hinner.
  apply (for_range_inv
           (λ i st, wc_inv B H W (Z.of_nat t * Z.of_nat N + Z.of_nat i) st))
    in Hinner.
  - replace (Z.of_nat (S t) * Z.of_nat N)
      with (Z.of_nat t * Z.of_nat N + Z.of_nat N) by lia. done.
  - by rewrite Z.add_0_r.
  - intros i o o' Hi Ho Hb.
    replace (Z.of_nat t * Z.of_nat N + Z.of_nat (S i))
      with (Z.of_nat t * Z.of_nat N + Z.of_nat i + 1) by lia.
    eapply wc_body_step; try done; nia.
Qed.

(** ** [compute_wait_collision_heatmaps] as a whole *)

Lemma compute_inv paths goals H W obstacles w c o d :
  compute_wait_collision_heatmaps paths goals H W obstacles = Ok (w, c, o, d) →
  ∃ obs reach cache w0 c0 o0 tw tb,
    obstacles = Some obs
    ∧ (0 < length paths)%nat ∧ length goals = num_agents_of paths
    ∧ _first_reach_times paths goals = Ok reach
    ∧ np_zeros H W = Ok w0 ∧ np_zeros H W = Ok c0 ∧ np_zeros H W = Ok o0
    ∧ build_dist_cache obs goals = Ok cache
    ∧ for_each (λ t occ,
          for_each (occ_body paths reach H W t) (range (num_agents_of paths)) occ)
        (range (length paths)) o0 = Ok o
    ∧ for_each (λ t st,
          for_each (wc_body paths goals reach cache obs H W t)
            (range (num_agents_of paths)) st)
        (range (length paths - 1)) (w0, c0, 0, 0) = Ok (w, c, tw, tb)
    ∧ d = Details (Z.of_nat (length paths)) (Z.of_nat (num_agents_of paths))
            reach tw tb.
Proof.
  unfold compute_wait_collision_heatmaps. intros Hrun.
  destruct obstacles as [obs|]; [|done].
  destruct (decide (length paths = 0%nat)); [done|].
  destruct (decide (length goals ≠ num_agents_of paths)) as [|Hg%dec_stable]; [done|].
  apply bind_Ok in Hrun as (reach & Hreach & Hrun).
  apply bind_Ok in Hrun as (w0 & Hw0 & Hrun).
  apply bind_Ok in Hrun as (c0 & Hc0 & Hrun).
  apply bind_Ok in Hrun as (o0 & Ho0 & Hrun).
  apply bind_Ok in Hrun as (cache & Hcache & Hrun).
  apply bind_Ok in Hrun as (o' & Hocc & Hrun).
  apply bind_Ok in Hrun as ([[[w' c'] tw] tb] & Hwc & Hrun).
  injection Hrun as <- <- <- <-.
  exists obs, reach, cache, w0, c0, o0, tw, tb. split_and!; try done. lia.
Qed.

Lemma reach_nonneg paths goals reach :
  _first_reach_times paths goals = Ok reach → Forall (λ r, 0 ≤ r) reach.
Proof.
  intros Hrun. apply Forall_lookup. intros i r Hr.
  destruct (reach_entry _ _ _ _ _ Hrun Hr) as [[-> _]|(t & -> & _)];
    [unfold INF|]; lia.
Qed.

(** C3, as the code has it.  For every run that
    [compute_wait_collision_heatmaps] processes (with fewer than 2^31
    agent-steps, so that no [int32] count wraps), the cells of
    [collision_map] sum to [total_blocked]; and when every position of the
    trajectory is inside the grid, the cells of [wait_map] sum to
    [total_wait]. *)
Theorem heatmap_sums_match_totals (paths : list (list XY)) (goals : list XY)
    (H W : Z) (obstacles : option ndarray)
    (wait_map collision_map occupancy_map : ndarray) (d : details) :
  compute_wait_collision_heatmaps paths goals H W obstacles
  = Ok (wait_map, collision_map, occupancy_map, d) →
  Z.of_nat (length paths) * Z.of_nat (num_agents_of paths) < 2 ^ 31 →
  nd_sum collision_map = d_total_blocked d
  ∧ (all_in_bounds paths H W → nd_sum wait_map = d_total_wait d).
Proof.
  intros Hrun Hsmall.
  apply compute_inv in Hrun
    as (obs & reach & cache & w0 & c0 & o0 & tw & tb & -> & HT & Hg & Hreach
        & Hw0 & Hc0 & Ho0 & Hcache & Hocc & Hwc & ->).
  apply (wc_loop_spec (all_in_bounds paths H W)) in Hwc.
  - destruct Hwc as (Hc & _ & _ & _ & _ & _ & Hw). simpl. split.
    + apply Hc.
    + intros Hin. apply (Hw Hin).
  - done.
  - nia.
  - pose proof (counts_ok_zeros _ _ _ Hw0) as Hw0ok.
    pose proof (counts_ok_zeros _ _ _ Hc0) as Hc0ok.
    unfold wc_inv. split_and!; try done; try apply Hw0ok.
Qed.

Lemma heatmap_sums_match_totals_witness :
  compute_wait_collision_heatmaps [[(0, 0)]; [(0, 0)]; [(1, 0)]] [(1, 0)] 1 2
    (Some (NdArray 1 2 [0; 0]))
  = Ok (NdArray 1 2 [1; 0], NdArray 1 2 [0; 1], NdArray 1 2 [2; 1],
        Details 3 1 [2] 1 1)
  ∧ nd_sum (NdArray 1 2 [0; 1]) = 1.
Proof.
  assert (compute_wait_collision_heatmaps [[(0, 0)]; [(0, 0)]; [(1, 0)]]
            [(1, 0)] 1 2 (Some (NdArray 1 2 [0; 0]))
          = Ok (NdArray 1 2 [1; 0], NdArray 1 2 [0; 1], NdArray 1 2 [2; 1],
                Details 3 1 [2] 1 1)) as Hrun by (vm_compute; reflexivity).
  split; [exact Hrun|].
  assert (Z.of_nat (length [[(0, 0)]; [(0, 0)]; [(1, 0)]])
          * Z.of_nat (num_agents_of [[(0, 0)]; [(0, 0)]; [(1, 0)]]) < 2 ^ 31)
    as Hsmall by (simpl; lia).
  exact (proj1 (heatmap_sums_match_totals _ _ _ _ _ _ _ _ _ Hrun Hsmall)).
Defined.

(** C3 as stated fails: a wait at a position outside the grid is counted
    in [total_wait] but in no cell of [wait_map]. *)
Lemma wait_sum_out_of_bounds_counterexample :
  compute_wait_collision_heatmaps [[(5, 5)]; [(5, 5)]] [(0, 0)] 1 1
    (Some (NdArray 1 1 [0]))
  = Ok (NdArray 1 1 [0], NdArray 1 1 [0], NdArray 1 1 [0],
        Details 2 1 [INF] 1 0)
  ∧ nd_sum (NdArray 1 1 [0]) ≠ d_total_wait (Details 2 1 [INF] 1 0).
Proof. split; [vm_compute; reflexivity | vm_compute; discriminate]. Qed.

(** C8.  For every run that [compute_wait_collision_heatmaps] processes
    whose positions are all inside the grid (and with fewer than 2^31
    agent-steps), the cells of [occupancy_map] sum to the sum over the
    agents of [min (reach_t + 1) T]; an agent that never stands on its
    goal has [reach_t = INF] and contributes [T] (for [T] up to 10^9), an
    agent that first stands on its goal at [r] contributes [r + 1]. *)
Theorem occupancy_sum (paths : list (list XY)) (goals : list XY)
    (H W : Z) (obstacles : option ndarray)
    (wait_map collision_map occupancy_map : ndarray) (d : details) :
  compute_wait_collision_heatmaps paths goals H W obstacles
  = Ok (wait_map, collision_map, occupancy_map, d) →
  all_in_bounds paths H W →
  Z.of_nat (length paths) * Z.of_nat (num_agents_of paths) < 2 ^ 31 →
  nd_sum occupancy_map = sumZ (map (λ r, Z.min (r + 1) (d_T d)) (d_reach_t d))
  ∧ d_T d = Z.of_nat (length paths)
  ∧ length (d_reach_t d) = num_agents_of paths
  ∧ ∀ i r, d_reach_t d !! i = Some r →
      (r = INF ∧ (∀ t, ¬ reaches_at paths goals i t)
       ∧ (d_T d ≤ 10 ^ 9 → Z.min (r + 1) (d_T d) = d_T d))
      ∨ (∃ t : nat, r = Z.of_nat t ∧ first_reaches_at paths goals i t
                    ∧ Z.min (r + 1) (d_T d) = r + 1).
Proof.
  intros Hrun Hin Hsmall.
  apply compute_inv in Hrun
    as (obs & reach & cache & w0 & c0 & o0 & tw & tb & -> & HT & Hg & Hreach
        & Hw0 & Hc0 & Ho0 & Hcache & Hocc & Hwc & ->).
  simpl. pose proof (first_reach_times_spec _ _ _ Hreach) as (Hlen & _ & _).
  split_and!; try done.
  - apply (occ_loop_spec paths reach H W _ _ o0 occupancy_map) in Hocc;
      try done.
    + apply Hocc.
    + by eapply reach_nonneg.
    + by apply counts_ok_zeros.
  - intros i r Hr.
    destruct (reach_entry _ _ _ _ _ Hreach Hr) as [[-> Hnever]|(t & -> & Ht & Hfirst)].
    + left. split_and!; try done. unfold INF. lia.
    + right. exists t. split_and!; try done. lia.
Qed.

Lemma occupancy_sum_witness :
  compute_wait_collision_heatmaps [[(0, 0)]; [(0, 0)]; [(1, 0)]] [(1, 0)] 1 2
    (Some (NdArray 1 2 [0; 0]))
  = Ok (NdArray 1 2 [1; 0], NdArray 1 2 [0; 1], NdArray 1 2 [2; 1],
        Details 3 1 [2] 1 1)
  ∧ all_in_bounds [[(0, 0)]; [(0, 0)]; [(1, 0)]] 1 2
  ∧ nd_sum (NdArray 1 2 [2; 1]) = 3.
Proof.
  assert (compute_wait_collision_heatmaps [[(0, 0)]; [(0, 0)]; [(1, 0)]]
            [(1, 0)] 1 2 (Some (NdArray 1 2 [0; 0]))
          = Ok (NdArray 1 2 [1; 0], NdArray 1 2 [0; 1], NdArray 1 2 [2; 1],
                Details 3 1 [2] 1 1)) as Hrun by (vm_compute; reflexivity).
  assert (all_in_bounds [[(0, 0)]; [(0, 0)]; [(1, 0)]] 1 2) as Hin.
  { intros [|[|[|t]]] [|i] p Hp; vm_compute in Hp; try discriminate;
      injection Hp as <-; unfold inb; simpl; lia. }
  assert (Z.of_nat (length [[(0, 0)]; [(0, 0)]; [(1, 0)]])
          * Z.of_nat (num_agents_of [[(0, 0)]; [(0, 0)]; [(1, 0)]]) < 2 ^ 31)
    as Hsmall by (simpl; lia).
  split; [exact Hrun|]. split; [exact Hin|].
  exact (proj1 (occupancy_sum _ _ _ _ _ _ _ _ _ Hrun Hin Hsmall)).
Defined.

(** ** [compute_wait_collision_heatmaps] returns on well-formed input *)

Lemma bfs_dist_shape obstacles g dist :
  nd_wf obstacles → _bfs_dist obstacles g = Ok dist →
  nd_wf dist ∧ same_shape dist obstacles.
Proof.
  intros Hwf Hrun.
  destruct (bfs_dist_cases obstacles g Hwf) as (dist' & Hrun' & ? & ? & _).
  rewrite Hrun in Hrun'. injection Hrun' as <-. done.
Qed.

Lemma intend_loop_total obstacles dist cur d :
  nd_wf obstacles → nd_wf dist → same_shape dist obstacles →
  ∃ res, intend_loop obstacles dist (nd_H obstacles) (nd_W obstacles) cur d
         = Ok res.
Proof.
  intros Hwf Hdwf [EH EW]. unfold intend_loop. generalize (cur, d).
  induction nbs as [|dxy l IH]; intros acc; simpl; [by eexists|].
  assert (∃ acc', intend_body obstacles dist (nd_H obstacles) (nd_W obstacles)
                    cur dxy acc = Ok acc') as [acc' ->]; [|apply IH].
  unfold intend_body. destruct acc as [intend best].
  destruct (in_bounds _ _ _) eqn:Hb; [|by eexists]. apply in_bounds_inb in Hb.
  pose proof (nd_get_in obstacles _ Hwf Hb) as Ho. simpl in Ho. rewrite Ho. simpl.
  destruct (_ =? 0); [|by eexists].
  pose proof (nd_get_in dist (cur.1 + dxy.1, cur.2 + dxy.2) Hdwf) as Hd.
  rewrite EH, EW in Hd. specialize (Hd Hb). simpl in Hd. rewrite Hd. simpl.
  destruct (_ <? best); by eexists.
Qed.

Section returns.
Variables (paths : list (list XY)) (goals : list XY) (obs : ndarray).
Hypothesis obs_wf : nd_wf obs.
Hypothesis paths_nonempty : (0 < length paths)%nat.
Hypothesis paths_rect : ∀ row, row ∈ paths → length row = num_agents_of paths.
Hypothesis goals_len : length goals = num_agents_of paths.

Abbreviation N := (num_agents_of paths).
Abbreviation H := (nd_H obs).
Abbreviation W := (nd_W obs).

Lemma position_total t i :
  (t < length paths)%nat → (i < N)%nat →
  ∃ row p, paths !! t = Some row ∧ row !! i = Some p.
Proof.
  intros Ht Hi. destruct (lookup_lt_is_Some_2 paths t Ht) as [row Hrow].
  destruct (lookup_lt_is_Some_2 row i) as [p Hp].
  { rewrite paths_rect; [done|]. by eapply list_elem_of_lookup_2. }
  by exists row, p.
Qed.

Lemma occ_body_total reach t i occ :
  length reach = N → (t < length paths)%nat → (i < N)%nat →
  nd_wf occ → nd_H occ = H → nd_W occ = W →
  ∃ occ', occ_body paths reach H W t i occ = Ok occ'
          ∧ nd_wf occ' ∧ nd_H occ' = H ∧ nd_W occ' = W.
Proof.
  intros Hlen Ht Hi Hwf EH EW. unfold occ_body.
  destruct (lookup_lt_is_Some_2 reach i) as [r ->]; [lia|]. simpl.
  destruct (_ >? r); [by eexists|].
  destruct (position_total t i Ht Hi) as (row & p & -> & Hp). simpl.
  rewrite Hp. simpl.
  destruct (in_bounds H W p) eqn:Hb; [|by eexists]. apply in_bounds_inb in Hb.
  destruct (nd_incr_in occ p Hwf) as (occ' & Hincr & Hwf' & [EH' EW'] & _);
    [by rewrite EH, EW|].
  exists occ'. split_and!; congruence.
Qed.

Lemma pressure_part_total cache i cur nxt w c tw tb :
  build_dist_cache obs goals = Ok cache → (i < N)%nat →
  nd_wf c → nd_H c = H → nd_W c = W →
  ∃ c' tb', pressure_part goals cache obs H W i cur nxt (w, c, tw, tb)
            = Ok (w, c', tw, tb')
            ∧ nd_wf c' ∧ nd_H c' = H ∧ nd_W c' = W.
Proof.
  intros Hcache Hi Hwf EH EW. unfold pressure_part.
  destruct (lookup_lt_is_Some_2 goals i) as [g Hg]; [lia|]. rewrite Hg. simpl.
  destruct (build_dist_cache_lookup _ _ _ g Hcache) as (dist & -> & Hdist);
    [by eapply list_elem_of_lookup_2|]. simpl.
  destruct (bfs_dist_shape _ _ _ obs_wf Hdist) as [Hdwf [EHd EWd]].
  destruct (in_bounds H W cur) eqn:Hb; simpl; [|by eexists _, _].
  apply in_bounds_inb in Hb.
  rewrite (nd_get_in obs cur) by done. simpl.
  destruct (_ =? 0); simpl; [|by eexists _, _].
  rewrite (nd_get_in dist cur) by (done || by rewrite EHd, EWd). simpl.
  destruct (_ >=? _); [by eexists _, _|].
  destruct (intend_loop_total obs dist cur (at_ dist cur) obs_wf Hdwf)
    as ([intend best] & Hloop); [done|].
  rewrite Hloop. simpl. apply intend_loop_inb in Hloop. simpl in Hloop.
  case_bool_decide as Hic; simpl; [by eexists _, _|].
  case_bool_decide; simpl; [|by eexists _, _].
  destruct Hloop as [?|Hin]; [done|].
  destruct (nd_incr_in c intend Hwf) as (c' & Hincr & Hwf' & [EH' EW'] & _);
    [by rewrite EH, EW|].
  rewrite Hincr. simpl. exists c', (tb + 1). split_and!; congruence.
Qed.

Lemma wc_body_total reach cache t i st :
  build_dist_cache obs goals = Ok cache → length reach = N →
  (S t < length paths)%nat → (i < N)%nat → maps_wf H W st →
  ∃ st', wc_body paths goals reach cache obs H W t i st = Ok st' ∧ maps_wf H W st'.
Proof.
  intros Hcache Hlen Ht Hi Hst. destruct st as [[[w c] tw] tb].
  destruct Hst as (Hw & EHw & EWw & Hc & EHc & EWc). simpl in *.
  unfold wc_body.
  destruct (lookup_lt_is_Some_2 reach i) as [r ->]; [lia|]. simpl.
  destruct (_ >=? r); [by eexists|].
  destruct (position_total t i ltac:(lia) Hi) as (row & cur & -> & Hcur).
  destruct (position_total (S t) i Ht Hi) as (row' & nxt & -> & Hnxt).
  simpl. rewrite Hcur. simpl. rewrite Hnxt. simpl.
  assert (∀ w' tw', nd_wf w' → nd_H w' = H → nd_W w' = W →
            ∃ st', pressure_part goals cache obs H W i cur nxt (w', c, tw', tb)
                   = Ok st' ∧ maps_wf H W st') as Hpress.
  { intros w' tw' ? ? ?.
    destruct (pressure_part_total cache i cur nxt w' c tw' tb Hcache Hi Hc EHc EWc)
      as (c' & tb' & -> & ? & ? & ?).
    eexists. split; [done|]. unfold maps_wf. simpl. done. }
  case_bool_decide as Hstay; simpl; [|by apply Hpress].
  destruct (in_bounds H W cur) eqn:Hb; simpl; [|by apply Hpress].
  apply in_bounds_inb in Hb.
  destruct (nd_incr_in w cur Hw) as (w' & -> & Hwf' & [EH' EW'] & _);
    [by rewrite EHw, EWw|].
  simpl. apply Hpress; congruence.
Qed.

Lemma compute_returns :
  ∃ w c o d,
    compute_wait_collision_heatmaps paths goals H W (Some obs) = Ok (w, c, o, d).
Proof.
  pose proof obs_wf as (HH & HW & _).
  unfold compute_wait_collision_heatmaps.
  destruct (decide (length paths = 0%nat)); [lia|].
  destruct (decide (length goals ≠ N)); [done|].
  destruct (first_reach_times_total paths goals paths_rect) as [reach Hreach];
    [lia|].
  rewrite Hreach. simpl.
  pose proof (first_reach_times_spec _ _ _ Hreach) as (Hlen & _ & _).
  destruct (np_full_wf H W 0 HH HW) as (z & Hz & Hzwf & EHz & EWz & _).
  unfold np_zeros. rewrite Hz. simpl.
  destruct (build_dist_cache_total obs goals obs_wf) as [cache Hcache].
  rewrite Hcache. simpl.
  destruct (for_range_total
              (λ _ occ, nd_wf occ ∧ nd_H occ = H ∧ nd_W occ = W)
              (λ t occ, for_each (occ_body paths reach H W t) (range N) occ)
              (length paths) z) as (o & -> & _); [done | |].
  { intros t occ Ht Hocc.
    destruct (for_range_total
                (λ _ occ, nd_wf occ ∧ nd_H occ = H ∧ nd_W occ = W)
                (occ_body paths reach H W t) N occ) as (o & Ho & ?); [done | |].
    - intros i occ0 Hi (? & ? & ?). by apply occ_body_total.
    - by exists o. }
  simpl.
  destruct (for_range_total (λ _ st, maps_wf H W st)
              (λ t st, for_each (wc_body paths goals reach cache obs H W t)
                         (range N) st)
              (length paths - 1) (z, z, 0, 0)) as ([[[w c] tw] tb] & -> & _).
  { unfold maps_wf. simpl. done. }
  { intros t st Ht Hst.
    destruct (for_range_total (λ _ st, maps_wf H W st)
                (wc_body paths goals reach cache obs H W t) N st)
      as (st' & Hst' & ?); [done | |].
    - intros i st0 Hi Hst0. apply wc_body_total; try done. lia.
    - by exists st'. }
  simpl. by eexists _, _, _, _.
Qed.
End returns.

(** ** [parse_output_txt] *)

Import ParsePaths.

Lemma for_each_Raise {A S} (body : A → S → result S) xs st e :
  for_each body xs st = Raise e → ∃ x st0, x ∈ xs ∧ body x st0 = Raise e.
Proof.
  revert st. induction xs as [|x xs IH]; intros st Hrun; simpl in Hrun; [done|].
  destruct (body x st) as [st'|e'] eqn:Hb; simpl in Hrun.
  - destruct (IH _ Hrun) as (x' & st0 & ? & ?). exists x', st0. set_solver.
  - injection Hrun as ->. exists x, st. set_solver.
Qed.

Lemma int_group_Ok g : digits_ok g = true → int_group g = Ok g.1.
Proof.
  unfold digits_ok, int_group. intros Hg.
  destruct (Z.ltb_spec max_str_digits (Z.of_nat g.2)); [lia | done].
Qed.

Lemma int_group_Raise g :
  digits_ok g = false → int_group g = Raise ValueError_IntMaxStrDigits.
Proof.
  unfold digits_ok, int_group. intros Hg.
  destruct (Z.ltb_spec max_str_digits (Z.of_nat g.2)); [done | lia].
Qed.

Lemma int_pairs_Ok pairs :
  forallb (λ p : group * group, digits_ok p.1 && digits_ok p.2) pairs = true →
  int_pairs pairs = Ok ((λ p : group * group, (p.1.1, p.2.1)) <$> pairs).
Proof.
  induction pairs as [|[a b] pairs IH]; [done|]. cbn [forallb fst snd].
  intros [[Ha Hb]%andb_true_iff Hrest]%andb_true_iff. cbn [int_pairs].
  rewrite (int_group_Ok a Ha), (int_group_Ok b Hb). simpl.
  by rewrite (IH Hrest).
Qed.

Lemma int_pairs_Raise pairs :
  forallb (λ p : group * group, digits_ok p.1 && digits_ok p.2) pairs = false →
  int_pairs pairs = Raise ValueError_IntMaxStrDigits.
Proof.
  induction pairs as [|[a b] pairs IH]; [done|]. cbn [forallb fst snd int_pairs].
  destruct (digits_ok a) eqn:Ha; [|by rewrite (int_group_Raise a Ha)].
  rewrite (int_group_Ok a Ha). simpl.
  destruct (digits_ok b) eqn:Hb; [|by rewrite (int_group_Raise b Hb)].
  rewrite (int_group_Ok b Hb). simpl. intros Hrest. by rewrite (IH Hrest).
Qed.

(** The body of the line loop: a literal of more than 4300 digits makes
    [int] raise; otherwise the line is skipped or read as a solution
    line, and its count is checked. *)
Lemma line_body_spec expected ln st :
  line_body expected ln st
  = if literals_ok ln then
      match solution_line ln with
      | None => Ok st
      | Some (t, xy) =>
        match expected with
        | Some n =>
          if decide (Z.of_nat (length xy) ≠ n)
          then Raise (ValueError_AgentCountMismatch t (Z.of_nat (length xy)) n
                        (String.substring 0 120 ln))
          else Ok (st.1 ++ [t], st.2 ++ [xy])
        | None => Ok (st.1 ++ [t], st.2 ++ [xy])
        end
      end
    else Raise ValueError_IntMaxStrDigits.
Proof.
  unfold line_body, literals_ok, solution_line. destruct st as [ts ps].
  destruct (tline_match ln) as [[g rest]|]; [|done]. cbn [mbind option_bind fst snd].
  destruct (digits_ok g) eqn:Hg; [|by rewrite (int_group_Raise g Hg)].
  rewrite (int_group_Ok g Hg). cbn [andb].
  destruct (forallb _ (findall rest)) eqn:Hall.
  - rewrite (int_pairs_Ok _ Hall). simpl. by destruct (decide _).
  - by rewrite (int_pairs_Raise _ Hall).
Qed.

Lemma line_body_Raise expected ln st e :
  line_body expected ln st = Raise e →
  (literals_ok ln = false ∧ e = ValueError_IntMaxStrDigits)
  ∨ (literals_ok ln = true
     ∧ ∃ n t xy, expected = Some n ∧ solution_line ln = Some (t, xy)
                 ∧ Z.of_nat (length xy) ≠ n
                 ∧ e = ValueError_AgentCountMismatch t (Z.of_nat (length xy)) n
                         (String.substring 0 120 ln)).
Proof.
  rewrite line_body_spec. destruct (literals_ok ln); [|intros [= <-]; by left].
  intros Hb. right. split; [done|].
  destruct (solution_line ln) as [[t xy]|]; [|done].
  destruct expected as [n|]; [|done].
  destruct (decide _) as [Hne|]; [|done].
  injection Hb as <-. by exists n, t, xy.
Qed.

Lemma line_body_accepts n ln st :
  literals_ok ln = true →
  (∀ t xy, solution_line ln = Some (t, xy) → Z.of_nat (length xy) = n) →
  ∃ st', line_body (Some n) ln st = Ok st'.
Proof.
  intros Hlit Hok. rewrite line_body_spec, Hlit.
  destruct (solution_line ln) as [[t xy]|]; [|by eexists].
  destruct (decide _) as [Hne|]; [|by eexists].
  destruct Hne. by apply (Hok t).
Qed.

Lemma lines_accepted n l1 : ∀ st,
  (∀ l, l ∈ l1 → literals_ok l = true) →
  (∀ l t xy, l ∈ l1 → solution_line l = Some (t, xy) → Z.of_nat (length xy) = n) →
  ∃ st', for_each (line_body (Some n)) l1 st = Ok st'.
Proof.
  induction l1 as [|l l1 IH]; intros st Hlit Hok; simpl; [by eexists|].
  destruct (line_body_accepts n l st) as [st1 ->].
  { apply Hlit. set_solver. }
  { intros t xy. apply Hok. set_solver. }
  simpl. apply IH.
  - intros l' Hl'. apply Hlit. set_solver.
  - intros l' t xy Hl'. apply Hok. set_solver.
Qed.

Lemma check_increasing_Raise ts e :
  check_increasing ts = Raise e → ∃ a b, e = ValueError_NonIncreasing a b ∧ b ≤ a.
Proof.
  induction ts as [|a ts IH]; [done|]. destruct ts as [|b ts]; [done|].
  cbn [check_increasing]. destruct (Z.leb_spec b a).
  - intros [= <-]. by exists a, b.
  - apply IH.
Qed.

Lemma transpose_body_Raise num xy ps e :
  transpose_body num xy ps = Raise e →
  e = ValueError_InconsistentAgentCount num (Z.of_nat (length xy)).
Proof. unfold transpose_body. destruct (decide _); [|done]. by intros [= <-]. Qed.

(** C7, as the code has it.  With an expected agent count [n], the count
    check runs line by line while the text is read, before the ordering
    check: the first solution line whose number of pairs is not [n] raises
    the agent-count mismatch, reporting that line's timestep, whatever the
    order of the timesteps, provided [int] converts the literals of the
    lines up to it (none has more than 4300 digits); a line with a longer
    literal that comes first makes [int] raise instead; and an agent-count
    mismatch, when raised, always reports the timestep of a solution line
    with a wrong count. *)
Theorem count_mismatch_raised_first (lines : list string) (n : Z) :
  (∀ l1 ln l2 t xy,
     lines = l1 ++ ln :: l2 →
     (∀ l, l ∈ l1 → literals_ok l = true) →
     (∀ l t' xy', l ∈ l1 → solution_line l = Some (t', xy') →
                  Z.of_nat (length xy') = n) →
     literals_ok ln = true →
     solution_line ln = Some (t, xy) → Z.of_nat (length xy) ≠ n →
     parse_output_txt lines (Some n)
     = Raise (ValueError_AgentCountMismatch t (Z.of_nat (length xy)) n
                (String.substring 0 120 ln)))
  ∧ (∀ l1 ln l2,
       lines = l1 ++ ln :: l2 →
       (∀ l, l ∈ l1 → literals_ok l = true) →
       (∀ l t' xy', l ∈ l1 → solution_line l = Some (t', xy') →
                    Z.of_nat (length xy') = n) →
       literals_ok ln = false →
       parse_output_txt lines (Some n) = Raise ValueError_IntMaxStrDigits)
  ∧ (∀ t got expected line,
       parse_output_txt lines (Some n)
       = Raise (ValueError_AgentCountMismatch t got expected line) →
       expected = n ∧ got ≠ n
       ∧ ∃ ln xy, ln ∈ lines ∧ literals_ok ln = true
                  ∧ solution_line ln = Some (t, xy)
                  ∧ got = Z.of_nat (length xy)).
Proof.
  split_and!.
  - intros l1 ln l2 t xy -> Hlit Hok Hlitn Hln Hne. unfold parse_output_txt.
    rewrite for_each_app.
    destruct (lines_accepted n l1 ([], []) Hlit Hok) as [[ts ps] ->].
    rewrite bind_Ok_l. cbn [for_each].
    rewrite line_body_spec, Hlitn, Hln.
    destruct (decide _) as [_|]; [done|]. done.
  - intros l1 ln l2 -> Hlit Hok Hlitn. unfold parse_output_txt.
    rewrite for_each_app.
    destruct (lines_accepted n l1 ([], []) Hlit Hok) as [[ts ps] ->].
    rewrite bind_Ok_l. cbn [for_each].
    by rewrite line_body_spec, Hlitn.
  - intros t got expected line Hrun. unfold parse_output_txt in Hrun.
    destruct (for_each (line_body (Some n)) lines ([], [])) as [[ts ps]|e] eqn:Hloop;
      simpl in Hrun.
    + destruct (decide (ts = [])); [done|].
      destruct (check_increasing ts) as [[]|e] eqn:Hinc; simpl in Hrun.
      * destruct (for_each _ ps _) as [p|e] eqn:Htr; simpl in Hrun; [done|].
        apply for_each_Raise in Htr as (xy & st0 & _ & Hb).
        apply transpose_body_Raise in Hb. congruence.
      * apply check_increasing_Raise in Hinc as (a & b & -> & _). done.
    + injection Hrun as ->.
      apply for_each_Raise in Hloop as (ln & st0 & Hin & Hb).
      apply line_body_Raise in Hb
        as [[_ [=]]|(Hlit & n' & t' & xy & [= <-] & Hsol & Hne & [= -> -> -> ->])].
      split_and!; try done. by exists ln, xy.
Qed.

Lemma count_mismatch_raised_first_witness :
  parse_output_txt ["1:(0,0)"; "0:(0,0)"; "2:(0,0),(1,1)"]%string (Some 1)
  = Raise (ValueError_AgentCountMismatch 2 2 1 "2:(0,0),(1,1)").
Proof.
  apply (proj1 (count_mismatch_raised_first
                  ["1:(0,0)"; "0:(0,0)"; "2:(0,0),(1,1)"]%string 1)
           ["1:(0,0)"; "0:(0,0)"]%string "2:(0,0),(1,1)"%string []
           2 [(0, 0); (1, 1)]).
  - reflexivity.
  - intros l Hl.
    apply elem_of_cons in Hl as [->|Hl];
      [|apply elem_of_cons in Hl as [->|Hl]; [|by apply elem_of_nil in Hl]];
      vm_compute; reflexivity.
  - intros l t' xy' Hl Hsol.
    apply elem_of_cons in Hl as [->|Hl];
      [|apply elem_of_cons in Hl as [->|Hl]; [|by apply elem_of_nil in Hl]];
      vm_compute in Hsol; injection Hsol as <- <-; reflexivity.
  - vm_compute. reflexivity.
  - vm_compute. reflexivity.
  - vm_compute. discriminate.
Defined.

(** C7 as stated fails: the text below has a non-increasing pair of
    timesteps ([1] then [0]) before a line with two pairs where one is
    expected, and the error raised is the agent-count mismatch. *)
Lemma validation_order_counterexample :
  has_order_violation ["1:(0,0)"; "0:(0,0)"; "2:(0,0),(1,1)"]%string
  ∧ has_count_mismatch ["1:(0,0)"; "0:(0,0)"; "2:(0,0),(1,1)"]%string 1
  ∧ parse_output_txt ["1:(0,0)"; "0:(0,0)"; "2:(0,0),(1,1)"]%string (Some 1)
    = Raise (ValueError_AgentCountMismatch 2 2 1 "2:(0,0),(1,1)")
  ∧ ∀ a b, parse_output_txt ["1:(0,0)"; "0:(0,0)"; "2:(0,0),(1,1)"]%string (Some 1)
           ≠ Raise (ValueError_NonIncreasing a b).
Proof.
  assert (parse_output_txt ["1:(0,0)"; "0:(0,0)"; "2:(0,0),(1,1)"]%string (Some 1)
          = Raise (ValueError_AgentCountMismatch 2 2 1 "2:(0,0),(1,1)")) as Hrun
    by (vm_compute; reflexivity).
  split_and!.
  - exists 0%nat, (1, [(0, 0)]), (0, [(0, 0)]). split_and!; [done | done |].
    simpl. lia.
  - exists (2, [(0, 0); (1, 1)]). split; [|simpl; lia].
    change (solution_lines ["1:(0,0)"; "0:(0,0)"; "2:(0,0),(1,1)"]%string)
      with [(1, [(0, 0)]); (0, [(0, 0)]); (2, [(0, 0); (1, 1)])].
    set_solver.
  - exact Hrun.
  - intros a b. rewrite Hrun. discriminate.
Qed.

(** ** [export_one] *)

Import ExportBin.

Lemma testbit_above b k n :
  0 ≤ b < 2 ^ k → 0 ≤ k ≤ n → Z.testbit b n = false.
Proof.
  intros Hb Hn. rewrite <- (Z.mod_small b (2 ^ k)) by lia.
  apply Z.mod_pow2_bits_high. lia.
Qed.

Lemma byte_bit0 b n :
  0 ≤ n → Z.testbit (Z.land b 255) n = (n <? 8) && Z.testbit b n.
Proof.
  intros Hn. change 255 with (Z.ones 8). rewrite Z.land_ones by lia.
  destruct (Z.ltb_spec n 8); simpl.
  - apply Z.mod_pow2_bits_low. lia.
  - apply Z.mod_pow2_bits_high. lia.
Qed.

Lemma byte_bit b k n :
  0 ≤ n → 0 ≤ k →
  Z.testbit (Z.shiftl (Z.land (Z.shiftr b k) 255) k) n
  = (k <=? n) && (n <? k + 8) && Z.testbit b n.
Proof.
  intros Hn Hk. rewrite Z.shiftl_spec by lia.
  destruct (Z.leb_spec k n); simpl.
  - rewrite byte_bit0 by lia. rewrite Z.shiftr_spec by lia.
    replace (n - k + k) with n by lia.
    destruct (Z.ltb_spec (n - k) 8), (Z.ltb_spec n (k + 8)); try lia; done.
  - apply Z.testbit_neg_r. lia.
Qed.

Lemma le_bytes_roundtrip b rest :
  0 ≤ b < 2 ^ 32 → fromfile_f4 (le_bytes b ++ rest) = b :: fromfile_f4 rest.
Proof.
  intros Hb. unfold le_bytes. cbn [app fromfile_f4]. f_equal.
  apply Z.bits_inj'. intros n Hn.
  rewrite !Z.lor_spec, byte_bit0, !byte_bit by lia.
  destruct (Z.ltb_spec n 8), (Z.leb_spec 8 n), (Z.ltb_spec n (8 + 8)),
    (Z.leb_spec 16 n), (Z.ltb_spec n (16 + 8)), (Z.leb_spec 24 n),
    (Z.ltb_spec n (24 + 8)); try lia; simpl;
    rewrite ?orb_false_r; try done.
  symmetry. apply (testbit_above b 32); lia.
Qed.

Lemma tobytes_roundtrip bits :
  bits_wf bits → fromfile_f4 (tobytes bits) = bits.
Proof.
  unfold tobytes. induction 1 as [|b bits Hb _ IH]; [done|].
  cbn [map concat]. rewrite le_bytes_roundtrip by done. by rewrite IH.
Qed.

Lemma tobytes_length bits :
  Z.of_nat (length (tobytes bits)) = Z.of_nat (length bits) * 4.
Proof.
  unfold tobytes. induction bits as [|b bits IH]; [done|].
  cbn [map concat]. rewrite length_app. simpl length. lia.
Qed.

Lemma allclose0_refl bits : finite_valued bits → allclose0 bits bits = true.
Proof.
  induction 1 as [|b bits Hb _ IH]; [done|]. cbn [allclose0]. rewrite IH.
  unfold close0, is_nan. unfold is_finite in Hb. apply Z.ltb_lt in Hb.
  destruct (Z.gtb_spec (Z.land b 2147483647) 2139095040); [lia|].
  rewrite Z.eqb_refl. done.
Qed.

Lemma bin_meta_paths_differ (out_dir : path) :
  child out_dir "heatmap.meta.json" ≠ child out_dir "heatmap.f32.bin".
Proof. unfold child. intros Heq. apply app_inv_head in Heq. discriminate. Qed.

(** *** The file system *)

Lemma stat_Regular σ p f : stat σ p = Regular f ↔ files σ !! p = Some f.
Proof.
  unfold stat. destruct (files σ !! p) as [f'|].
  - split; by intros [= ->].
  - destruct (bool_decide _); split; done.
Qed.

Lemma stat_same_files σ σ' p :
  files σ' = files σ → (p ∈ dirs σ' ↔ p ∈ dirs σ) → stat σ' p = stat σ p.
Proof.
  unfold stat. intros -> Hd. destruct (files σ !! p); [done|].
  rewrite (bool_decide_ext (p = [] ∨ p ∈ dirs σ') (p = [] ∨ p ∈ dirs σ));
    [done | naive_solver].
Qed.

Lemma stat_write_ne σ p q f :
  q ≠ p → stat (Fs (<[p := f]> (files σ)) (dirs σ)) q = stat σ q.
Proof. intros Hne. unfold stat. cbn [files dirs]. by rewrite lookup_insert_ne. Qed.

Lemma mkdir_from_spec todo : ∀ base σ σ',
  mkdir_from base todo σ = Ok σ' →
  files σ' = files σ
  ∧ ∀ q, q ∈ dirs σ' ↔
         q ∈ dirs σ
         ∨ ∃ k, (0 < k ≤ length todo)%nat ∧ q = base ++ take k todo
                ∧ files σ !! q = None.
Proof.
  induction todo as [|c todo IH]; intros base σ σ' Hrun.
  - injection Hrun as <-. split; [done|]. intros q. split; [by left|].
    intros [Hq|(k & Hk & _)]; [done | simpl in Hk; lia].
  - cbn [mkdir_from] in Hrun.
    assert (∀ k, base ++ take (S k) (c :: todo) = (base ++ [c]) ++ take k todo)
      as Htake by (intros k; by rewrite <- app_assoc).
    destruct (stat σ (base ++ [c])) as [| |f] eqn:Hst.
    + apply IH in Hrun as [Hf Hd]. cbn [files dirs] in Hf, Hd.
      split; [done|]. intros q. rewrite Hd. clear Hd.
      assert (files σ !! (base ++ [c]) = None) as Hnone.
      { unfold stat in Hst. by destruct (files σ !! (base ++ [c])). }
      split.
      * intros [[->%elem_of_singleton|Hq]%elem_of_union|(k & Hk & -> & Hq)].
        -- right. exists 1%nat. simpl. split; [simpl in *; lia | split; done].
        -- by left.
        -- right. exists (S k). rewrite Htake. simpl. split; [simpl in *; lia | split; done].
      * intros [Hq|(k & Hk & -> & Hq)]; [left; set_solver|].
        destruct k as [|k]; [lia|]. rewrite Htake in *.
        destruct k as [|k].
        -- left. rewrite take_0, app_nil_r. set_solver.
        -- right. exists (S k). simpl in Hk. split; [simpl in *; lia | split; done].
    + apply IH in Hrun as [Hf Hd]. split; [done|]. intros q. rewrite Hd. clear Hd.
      assert (files σ !! (base ++ [c]) = None ∧ base ++ [c] ∈ dirs σ)
        as [Hnone Hdir].
      { unfold stat in Hst. destruct (files σ !! (base ++ [c])); [done|].
        destruct (bool_decide_reflect (base ++ [c] = [] ∨ base ++ [c] ∈ dirs σ))
          as [[Hnil|Hin]|]; [|done|done].
        by destruct base. }
      split.
      * intros [Hq|(k & Hk & -> & Hq)]; [by left|].
        right. exists (S k). rewrite Htake. simpl. split; [simpl in *; lia | split; done].
      * intros [Hq|(k & Hk & -> & Hq)]; [by left|].
        destruct k as [|k]; [lia|]. rewrite Htake in *.
        destruct k as [|k].
        -- left. by rewrite take_0, app_nil_r.
        -- right. exists (S k). simpl in Hk. split; [simpl in *; lia | split; done].
    + by destruct todo.
Qed.

Lemma mkdir_parents_files p σ σ' :
  mkdir_parents p σ = Ok σ' → files σ' = files σ.
Proof. intros Hrun. by apply mkdir_from_spec in Hrun as [? _]. Qed.

Lemma mkdir_parents_Raise p σ e :
  mkdir_parents p σ = Raise e → e = FileExistsError ∨ e = NotADirectoryError.
Proof.
  unfold mkdir_parents. generalize (@nil string) as base. revert σ.
  induction p as [|c todo IH]; intros σ base Hrun; [done|].
  cbn [mkdir_from] in Hrun.
  destruct (stat σ (base ++ [c])) as [| |f]; try by eapply IH.
  destruct todo; injection Hrun as <-; auto.
Qed.

Lemma parse_dims_same_files σ σ' mp :
  files σ' = files σ →
  parse_movingai_map_dims mp σ' = parse_movingai_map_dims mp σ.
Proof.
  intros Hf. unfold parse_movingai_map_dims, stat. rewrite Hf.
  destruct (files σ !! mp); [done|]. by do 2 destruct (bool_decide _).
Qed.

Lemma np_load_Ok p σ a : np_load p σ = Ok a ↔ files σ !! p = Some (NpyFile a).
Proof.
  unfold np_load. rewrite <- stat_Regular.
  destruct (stat σ p) as [| |[]]; split; intros Hr; try done;
    by injection Hr as ->.
Qed.

Lemma np_load_Raise p σ e :
  np_load p σ = Raise e →
  (∃ s, e = FileNotFoundError s) ∨ e = IsADirectoryError
  ∨ e = ValueError_CannotLoad.
Proof.
  unfold np_load. destruct (stat σ p) as [| |[]]; intros [= <-]; eauto.
Qed.

Lemma read_json_Raise p σ e :
  read_json_if_exists p σ = Raise e →
  e = IsADirectoryError ∨ e = ValueError_JSONDecode.
Proof.
  unfold read_json_if_exists.
  destruct (stat σ p) as [| |[]]; intros [= <-]; eauto.
Qed.

Lemma write_file_Ok p f σ :
  stat σ p ≠ Directory →
  write_file p f σ = Ok (Fs (<[p := f]> (files σ)) (dirs σ)).
Proof. unfold write_file. by destruct (stat σ p). Qed.

Lemma write_file_Raise p f σ :
  stat σ p = Directory → write_file p f σ = Raise IsADirectoryError.
Proof. unfold write_file. by intros ->. Qed.

(** *** [export_one], step by step *)

Lemma early_not_verification e : early_error e → ¬ verification_error e.
Proof.
  unfold early_error, verification_error. intros He Hv.
  destruct Hv as [->|(got & expected & ->)]; naive_solver.
Qed.

Lemma export_one_run (npy_path : path) (map_path : option path)
    (out_dir : path) (variant : string) (σ σ0 : fs) (p : f32array) (H W : Z)
    (agg : option json) :
  files σ !! npy_path = Some (NpyFile p) → f_shape p = [H; W] →
  map_dims_agree map_path σ H W →
  mkdir_parents out_dir σ = Ok σ0 →
  read_json_if_exists (child (parent npy_path) "aggregate_meta.json") σ0
  = Ok agg →
  stat σ0 (child out_dir "heatmap.f32.bin") ≠ Directory →
  export_one npy_path map_path out_dir variant σ
  = let σ1 :=
      Fs (<[child out_dir "heatmap.f32.bin" := BinFile (tobytes (f_bits p))]>
            (files σ)) (dirs σ0) in
    if H * W =? 0 then (Raise ValueError_ZeroSize, σ1)
    else
      match stat σ0 (child out_dir "heatmap.meta.json") with
      | Directory => (Raise IsADirectoryError, σ1)
      | _ =>
        (if negb (Z.of_nat (length (fromfile_f4 (tobytes (f_bits p)))) =? H * W)
         then Raise (RuntimeError_SizeMismatch
                       (Z.of_nat (length (fromfile_f4 (tobytes (f_bits p)))))
                       (H * W))
         else if negb (allclose0 (f_bits p) (fromfile_f4 (tobytes (f_bits p))))
         then Raise RuntimeError_Roundtrip
         else Ok tt,
         Fs (<[child out_dir "heatmap.meta.json" :=
                 MetaFile (meta_for npy_path map_path variant H W σ agg)]>
               (files σ1)) (dirs σ0))
      end.
Proof.
  intros Hnpy Hshape Hdims Hmk Hagg Hbin.
  pose proof (mkdir_parents_files _ _ _ Hmk) as Hfiles.
  unfold export_one.
  assert (path_exists σ npy_path = true) as ->.
  { unfold path_exists. by rewrite (proj2 (stat_Regular _ _ _) Hnpy). }
  cbn [negb]. rewrite Hmk.
  rewrite (proj2 (np_load_Ok npy_path σ0 p)) by (by rewrite Hfiles).
  rewrite Hshape.
  assert (match map_path with
          | Some mp => parse_movingai_map_dims mp σ0
          | None => None
          end
          = match map_path with
            | Some mp => parse_movingai_map_dims mp σ
            | None => None
            end) as ->.
  { destruct map_path as [mp|]; [|done]. by apply parse_dims_same_files. }
  assert (match match map_path with
                | Some mp => parse_movingai_map_dims mp σ
                | None => None
                end with
          | Some (h, w) => negb (h =? H) || negb (w =? W)
          | None => false
          end = false) as ->.
  { destruct map_path as [mp|]; [|done].
    destruct (parse_movingai_map_dims mp σ) as [[h w]|] eqn:Hd; [|done].
    destruct (Hdims mp h w eq_refl Hd) as [-> ->]. by rewrite !Z.eqb_refl. }
  rewrite Hagg, (write_file_Ok _ _ _ Hbin), Hfiles. cbv zeta.
  destruct (H * W =? 0); [done|].
  set (σ1 := Fs (<[child out_dir "heatmap.f32.bin" := BinFile (tobytes (f_bits p))]>
                   (files σ)) (dirs σ0)).
  assert (stat σ1 (child out_dir "heatmap.meta.json")
          = stat σ0 (child out_dir "heatmap.meta.json")) as Hst.
  { unfold σ1. rewrite <- Hfiles. apply stat_write_ne, bin_meta_paths_differ. }
  unfold write_file. rewrite Hst.
  assert (∀ m, np_fromfile (child out_dir "heatmap.f32.bin")
                 (Fs (<[child out_dir "heatmap.meta.json" := MetaFile m]>
                        (files σ1)) (dirs σ1))
               = Ok (fromfile_f4 (tobytes (f_bits p)))) as Hread.
  { intros m. unfold np_fromfile.
    rewrite (proj2 (stat_Regular _ _ (BinFile (tobytes (f_bits p))))); [done|].
    cbn [files]. rewrite lookup_insert_ne by apply bin_meta_paths_differ.
    unfold σ1. cbn [files]. apply lookup_insert_eq. }
  unfold meta_for.
  destruct (stat σ0 (child out_dir "heatmap.meta.json")); [|done|];
    rewrite Hread; cbn [dirs σ1];
    destruct (negb (_ =? _)); try done;
    destruct (negb (allclose0 _ _)); done.
Qed.

(** Every call stops at an early error, the files being as they were, or
    gets to its writes. *)
Lemma export_one_cases (npy_path : path) (map_path : option path)
    (out_dir : path) (variant : string) (σ : fs) :
  (∃ e σ', early_error e
           ∧ export_one npy_path map_path out_dir variant σ = (Raise e, σ')
           ∧ files σ' = files σ
           ∧ (σ' = σ ∨ mkdir_parents out_dir σ = Ok σ'))
  ∨ ∃ p H W σ0 agg,
      files σ !! npy_path = Some (NpyFile p) ∧ f_shape p = [H; W]
      ∧ map_dims_agree map_path σ H W
      ∧ mkdir_parents out_dir σ = Ok σ0
      ∧ read_json_if_exists (child (parent npy_path) "aggregate_meta.json") σ0
        = Ok agg
      ∧ stat σ0 (child out_dir "heatmap.f32.bin") ≠ Directory.
Proof.
  unfold export_one.
  destruct (path_exists σ npy_path);
    [|left; eexists _, _; split_and!; [|reflexivity|done|by left];
      unfold early_error; eauto 15].
  cbn [negb].
  destruct (mkdir_parents out_dir σ) as [σ0|e] eqn:Hmk.
  2:{ left. eexists _, _. split_and!; [|reflexivity|done|by left].
      apply mkdir_parents_Raise in Hmk as [->| ->]; unfold early_error; eauto 15. }
  pose proof (mkdir_parents_files _ _ _ Hmk) as Hfiles.
  destruct (np_load npy_path σ0) as [p|e] eqn:Hload.
  2:{ left. eexists _, _. split_and!; [|reflexivity|done|by right].
      apply np_load_Raise in Hload as [[s ->]|[->| ->]];
        unfold early_error; eauto 15. }
  apply np_load_Ok in Hload. rewrite Hfiles in Hload.
  destruct (f_shape p) as [|H [|W [|]]] eqn:Hshape;
    try (left; eexists _, _; split_and!; [|reflexivity|done|by right];
         unfold early_error; eauto 15).
  assert (match map_path with
          | Some mp => parse_movingai_map_dims mp σ0
          | None => None
          end
          = match map_path with
            | Some mp => parse_movingai_map_dims mp σ
            | None => None
            end) as ->.
  { destruct map_path as [mp|]; [|done]. by apply parse_dims_same_files. }
  destruct (match match map_path with
                  | Some mp => parse_movingai_map_dims mp σ
                  | None => None
                  end with
            | Some (h, w) => negb (h =? H) || negb (w =? W)
            | None => false
            end) eqn:Hmis.
  { left. eexists _, _. split_and!; [|reflexivity|done|by right].
    unfold early_error. eauto 15. }
  assert (map_dims_agree map_path σ H W) as Hdims.
  { intros mp h w -> Hd. rewrite Hd in Hmis.
    apply orb_false_iff in Hmis as [Hh Hw].
    apply negb_false_iff in Hh, Hw. lia. }
  destruct (read_json_if_exists _ σ0) as [agg|e] eqn:Hagg.
  2:{ left. eexists _, _. split_and!; [|reflexivity|done|by right].
      apply read_json_Raise in Hagg as [->| ->]; unfold early_error; eauto 15. }
  destruct (stat σ0 (child out_dir "heatmap.f32.bin")) as [| |f] eqn:Hbin.
  - right. exists p, H, W, σ0, agg. rewrite Hbin. done.
  - left. rewrite (write_file_Raise _ _ _ Hbin).
    eexists _, _. split_and!; [|reflexivity|done|by right].
    unfold early_error. eauto 15.
  - right. exists p, H, W, σ0, agg. rewrite Hbin. done.
Qed.

(** C5.  For a 2-D [float32] array of shape [H x W], the bytes
    [export_one] writes (little-endian, row-major) have length
    [H * W * 4], and reading them back as [<f4] gives the very same bit
    patterns.  When the call gets to its writes (the output directory can
    be made, the sidecar [aggregate_meta.json], if there is one, is read,
    and no directory is in the place of the binary file), the file holding
    these bytes is at [heatmap.f32.bin] after the call; for a finite-valued
    array that is not empty, with no directory in the place of the
    metadata file, the verification passes and the call returns; for an
    empty array the call raises the [ValueError] of [np.min] instead. *)
Theorem export_roundtrip (H W : Z) (bits : list Z) (npy_path : path)
    (map_path : option path) (out_dir : path) (variant : string)
    (σ σ0 : fs) (agg : option json) :
  bits_wf bits → Z.of_nat (length bits) = H * W →
  files σ !! npy_path = Some (NpyFile (F32Array [H; W] bits)) →
  map_dims_agree map_path σ H W →
  mkdir_parents out_dir σ = Ok σ0 →
  read_json_if_exists (child (parent npy_path) "aggregate_meta.json") σ0
  = Ok agg →
  stat σ0 (child out_dir "heatmap.f32.bin") ≠ Directory →
  Z.of_nat (length (tobytes bits)) = H * W * 4
  ∧ fromfile_f4 (tobytes bits) = bits
  ∧ files (export_one npy_path map_path out_dir variant σ).2
      !! child out_dir "heatmap.f32.bin" = Some (BinFile (tobytes bits))
  ∧ (finite_valued bits → 0 < H * W →
     stat σ0 (child out_dir "heatmap.meta.json") ≠ Directory →
     (export_one npy_path map_path out_dir variant σ).1 = Ok tt)
  ∧ (H * W = 0 →
     (export_one npy_path map_path out_dir variant σ).1
     = Raise ValueError_ZeroSize).
Proof.
  intros Hwf Hlen Hnpy Hdims Hmk Hagg Hbin.
  pose proof (tobytes_roundtrip bits Hwf) as Hrt.
  split; [rewrite tobytes_length; lia|]. split; [done|].
  rewrite (export_one_run npy_path map_path out_dir variant σ σ0 _ H W agg
             Hnpy eq_refl Hdims Hmk Hagg Hbin).
  cbv zeta. cbn [f_bits]. rewrite Hrt.
  destruct (Z.eqb_spec (Z.of_nat (length bits)) (H * W)) as [_|]; [|done].
  cbn [negb]. split_and!.
  - destruct (H * W =? 0); [cbn [snd files]; apply lookup_insert_eq|].
    destruct (stat σ0 (child out_dir "heatmap.meta.json"));
      cbn [snd files];
      try (rewrite lookup_insert_ne by apply bin_meta_paths_differ);
      apply lookup_insert_eq.
  - intros Hfin Hpos Hmeta.
    destruct (Z.eqb_spec (H * W) 0) as [|_]; [lia|].
    rewrite (allclose0_refl _ Hfin).
    by destruct (stat σ0 (child out_dir "heatmap.meta.json")).
  - intros ->. done.
Qed.

Lemma export_roundtrip_witness :
  let σ := Fs {[ ["out"; "m.map"; "p_raw.npy"]%string
                 := NpyFile (F32Array [1; 2] [1065353216; 3221225472]) ]}
              {[ ["out"]%string; ["out"; "m.map"]%string ]} in
  let r := export_one ["out"; "m.map"; "p_raw.npy"]%string None
             ["out"; "m.map"]%string "v"%string σ in
  fromfile_f4 (tobytes [1065353216; 3221225472]) = [1065353216; 3221225472]
  ∧ files r.2 !! ["out"; "m.map"; "heatmap.f32.bin"]%string
    = Some (BinFile [0; 0; 128; 63; 0; 0; 0; 192])
  ∧ r.1 = Ok tt.
Proof.
  cbv zeta.
  destruct (export_roundtrip 1 2 [1065353216; 3221225472]
              ["out"; "m.map"; "p_raw.npy"]%string None ["out"; "m.map"]%string
              "v"%string
              (Fs {[ ["out"; "m.map"; "p_raw.npy"]%string
                     := NpyFile (F32Array [1; 2] [1065353216; 3221225472]) ]}
                  {[ ["out"]%string; ["out"; "m.map"]%string ]})
              (Fs {[ ["out"; "m.map"; "p_raw.npy"]%string
                     := NpyFile (F32Array [1; 2] [1065353216; 3221225472]) ]}
                  {[ ["out"]%string; ["out"; "m.map"]%string ]})
              None)
    as (_ & Hrt & Hbin & Hok & _).
  - repeat constructor; lia.
  - reflexivity.
  - apply lookup_singleton_eq.
  - intros mp h w Hmp. discriminate Hmp.
  - vm_compute. reflexivity.
  - vm_compute. reflexivity.
  - vm_compute. discriminate.
  - split_and!; [exact Hrt | exact Hbin |].
    apply Hok; [repeat constructor | lia | vm_compute; discriminate].
Defined.

(** C6, as the code has it.  Both files are written at their destination
    before the verification: when the verification fails, [export_one]
    raises a [RuntimeError] and [heatmap.f32.bin] (with the bytes just
    written) and [heatmap.meta.json] are still there. *)
Theorem export_failure_leaves_files (npy_path : path) (map_path : option path)
    (out_dir : path) (variant : string) (σ σ' : fs) (e : exn) :
  export_one npy_path map_path out_dir variant σ = (Raise e, σ') →
  verification_error e →
  (∃ p, files σ !! npy_path = Some (NpyFile p)
        ∧ files σ' !! child out_dir "heatmap.f32.bin"
          = Some (BinFile (tobytes (f_bits p))))
  ∧ ∃ m, files σ' !! child out_dir "heatmap.meta.json" = Some (MetaFile m).
Proof.
  intros Hrun Hver.
  destruct (export_one_cases npy_path map_path out_dir variant σ)
    as [(e' & σ1 & Hearly & He & _)
       |(p & H & W & σ0 & agg & Hnpy & Hshape & Hdims & Hmk & Hagg & Hbin)].
  { rewrite Hrun in He. injection He as -> ->.
    by apply early_not_verification in Hearly. }
  rewrite (export_one_run _ _ _ _ _ _ _ _ _ _ Hnpy Hshape Hdims Hmk Hagg Hbin)
    in Hrun.
  cbv zeta in Hrun.
  destruct (H * W =? 0).
  { injection Hrun as <- _. destruct Hver as [?|(? & ? & ?)]; done. }
  destruct (stat σ0 (child out_dir "heatmap.meta.json")) eqn:Hmeta;
    [|injection Hrun as <- _; destruct Hver as [?|(? & ? & ?)]; done|];
    injection Hrun as _ <-; cbn [files];
    (split;
     [exists p; split; [done|];
      rewrite lookup_insert_ne by apply bin_meta_paths_differ;
      apply lookup_insert_eq
     |eexists; apply lookup_insert_eq]).
Qed.

(** [export_one] without a map to compare with, in a directory that
    exists and holds the array, with no sidecar and no directory in the
    place of the outputs, on a non-empty array whose size matches its
    shape: both files are written, and the outcome is that of the
    read-back comparison. *)
Lemma export_one_no_map (H W : Z) (bits : list Z) (npy_path out_dir : path)
    (variant : string) (σ : fs) :
  bits_wf bits → Z.of_nat (length bits) = H * W → 0 < H * W →
  files σ !! npy_path = Some (NpyFile (F32Array [H; W] bits)) →
  mkdir_parents out_dir σ = Ok σ →
  stat σ (child (parent npy_path) "aggregate_meta.json") = Missing →
  stat σ (child out_dir "heatmap.f32.bin") = Missing →
  stat σ (child out_dir "heatmap.meta.json") = Missing →
  ∃ m,
    export_one npy_path None out_dir variant σ
    = (if allclose0 bits bits then Ok tt else Raise RuntimeError_Roundtrip,
       Fs (<[child out_dir "heatmap.meta.json" := MetaFile m]>
             (<[child out_dir "heatmap.f32.bin" := BinFile (tobytes bits)]>
                (files σ))) (dirs σ)).
Proof.
  intros Hwf Hlen Hpos Hnpy Hmk Hagg Hbin Hmeta.
  rewrite (export_one_run npy_path None out_dir variant σ σ _ H W None
             Hnpy eq_refl); try done.
  - cbv zeta. cbn [f_bits]. rewrite Hmeta, (tobytes_roundtrip bits Hwf).
    destruct (Z.eqb_spec (H * W) 0) as [|_]; [lia|].
    destruct (Z.eqb_spec (Z.of_nat (length bits)) (H * W)) as [_|]; [|done].
    cbn [negb]. eexists. destruct (allclose0 bits bits); reflexivity.
  - unfold read_json_if_exists. by rewrite Hagg.
  - by rewrite Hbin.
Qed.

Lemma export_failure_leaves_files_witness :
  ∃ σ', export_one ["out"; "m.map"; "p_raw.npy"]%string None
          ["out"; "m.map"]%string "v"%string
          (Fs {[ ["out"; "m.map"; "p_raw.npy"]%string
                 := NpyFile (F32Array [1; 2] [1065353216; 2143289344]) ]}
              {[ ["out"]%string; ["out"; "m.map"]%string ]})
        = (Raise RuntimeError_Roundtrip, σ')
    ∧ ∃ m, files σ' !! ["out"; "m.map"; "heatmap.meta.json"]%string
           = Some (MetaFile m).
Proof.
  destruct (export_one_no_map 1 2 [1065353216; 2143289344]
              ["out"; "m.map"; "p_raw.npy"]%string ["out"; "m.map"]%string
              "v"%string
              (Fs {[ ["out"; "m.map"; "p_raw.npy"]%string
                     := NpyFile (F32Array [1; 2] [1065353216; 2143289344]) ]}
                  {[ ["out"]%string; ["out"; "m.map"]%string ]}))
    as (m & Hrun).
  - repeat constructor; lia.
  - reflexivity.
  - lia.
  - apply lookup_singleton_eq.
  - vm_compute. reflexivity.
  - vm_compute. reflexivity.
  - vm_compute. reflexivity.
  - vm_compute. reflexivity.
  - change (allclose0 [1065353216; 2143289344] [1065353216; 2143289344])
      with false in Hrun.
    eexists. split; [exact Hrun|].
    exact (proj2 (export_failure_leaves_files _ _ _ _ _ _ _ Hrun
                    (or_introl eq_refl))).
Defined.

(** C6 as stated fails: a NaN cell makes the read-back comparison fail;
    the call raises, and the two files it wrote into a directory that held
    neither are left in place. *)
Lemma export_failure_counterexample :
  let σ := Fs {[ ["out"; "m.map"; "p_raw.npy"]%string
                 := NpyFile (F32Array [1; 2] [1065353216; 2143289344]) ]}
              {[ ["out"]%string; ["out"; "m.map"]%string ]} in
  let r := export_one ["out"; "m.map"; "p_raw.npy"]%string None
             ["out"; "m.map"]%string "v"%string σ in
  files σ !! ["out"; "m.map"; "heatmap.f32.bin"]%string = None
  ∧ files σ !! ["out"; "m.map"; "heatmap.meta.json"]%string = None
  ∧ r.1 = Raise RuntimeError_Roundtrip
  ∧ files r.2 !! ["out"; "m.map"; "heatmap.f32.bin"]%string
    = Some (BinFile [0; 0; 128; 63; 0; 0; 192; 127])
  ∧ is_Some (files r.2 !! ["out"; "m.map"; "heatmap.meta.json"]%string).
Proof.
  cbv zeta.
  destruct (export_one_no_map 1 2 [1065353216; 2143289344]
              ["out"; "m.map"; "p_raw.npy"]%string ["out"; "m.map"]%string
              "v"%string
              (Fs {[ ["out"; "m.map"; "p_raw.npy"]%string
                     := NpyFile (F32Array [1; 2] [1065353216; 2143289344]) ]}
                  {[ ["out"]%string; ["out"; "m.map"]%string ]}))
    as (m & Hrun).
  { repeat constructor; lia. }
  { reflexivity. }
  { lia. }
  { apply lookup_singleton_eq. }
  { vm_compute. reflexivity. }
  { vm_compute. reflexivity. }
  { vm_compute. reflexivity. }
  { vm_compute. reflexivity. }
  change (allclose0 [1065353216; 2143289344] [1065353216; 2143289344])
    with false in Hrun.
  rewrite Hrun. cbn [fst snd files]. split_and!.
  - apply lookup_singleton_ne. intros Heq. discriminate Heq.
  - apply lookup_singleton_ne. intros Heq. discriminate Heq.
  - reflexivity.
  - rewrite lookup_insert_ne by apply bin_meta_paths_differ.
    apply lookup_insert_eq.
  - eexists. apply lookup_insert_eq.
Qed.

(** ** Aggregation *)

Lemma wrap64_range v : - 2 ^ 63 ≤ wrap64 v < 2 ^ 63.
Proof.
  unfold wrap64. pose proof (Z.mod_pos_bound (v + 2 ^ 63) (2 ^ 64)). lia.
Qed.

Lemma wrap64_id v : - 2 ^ 63 ≤ v < 2 ^ 63 → wrap64 v = v.
Proof. intros Hv. unfold wrap64. rewrite Z.mod_small; lia. Qed.

Lemma wrap64_add_l a b : wrap64 (wrap64 a + b) = wrap64 (a + b).
Proof.
  unfold wrap64. f_equal.
  replace ((a + 2 ^ 63) mod 2 ^ 64 - 2 ^ 63 + b + 2 ^ 63)
    with ((a + 2 ^ 63) mod 2 ^ 64 + b) by lia.
  rewrite Zplus_mod_idemp_l. f_equal. lia.
Qed.

Lemma wrap64_add_r a b : wrap64 (a + wrap64 b) = wrap64 (a + b).
Proof. rewrite (Z.add_comm a), wrap64_add_l. f_equal. lia. Qed.

Lemma add64_comm a b : add64 a b = add64 b a.
Proof.
  unfold add64. revert b. induction a as [|u a IH]; intros [|v b]; simpl; try done.
  rewrite IH. do 2 f_equal. lia.
Qed.

Lemma add64_assoc a b c : add64 (add64 a b) c = add64 a (add64 b c).
Proof.
  unfold add64. revert b c.
  induction a as [|u a IH]; intros [|v b] [|w c]; simpl; try done.
  rewrite IH, wrap64_add_l, wrap64_add_r. do 2 f_equal. lia.
Qed.

Lemma add64_swap acc x y : add64 (add64 acc x) y = add64 (add64 acc y) x.
Proof. by rewrite !add64_assoc, (add64_comm x y). Qed.

Lemma add64_length a b n :
  length a = n → length b = n → length (add64 a b) = n.
Proof. intros Ha Hb. unfold add64. rewrite length_zip_with. lia. Qed.

Lemma add64_range a b : Forall (λ v, - 2 ^ 63 ≤ v < 2 ^ 63) (add64 a b).
Proof.
  unfold add64. revert b. induction a as [|u a IH]; intros [|v b]; simpl;
    constructor; auto using wrap64_range.
Qed.

Lemma add64_zero_r a :
  Forall (λ v, - 2 ^ 63 ≤ v < 2 ^ 63) a → add64 a (replicate (length a) 0) = a.
Proof.
  unfold add64. induction 1 as [|u a Hu _ IH]; simpl; [done|].
  rewrite IH, Z.add_0_r, wrap64_id by done. done.
Qed.

Lemma foldl_add64_perm (l l' : list (list Z)) :
  Permutation l l' → ∀ acc, foldl add64 acc l = foldl add64 acc l'.
Proof.
  induction 1 as [|x l l' _ IH|x y l|l l' l'' _ IH1 _ IH2]; intros acc; simpl.
  - done.
  - apply IH.
  - by rewrite add64_swap.
  - by rewrite IH1.
Qed.

Lemma foldl_add64_shift (ls : list (list Z)) : ∀ a z,
  foldl add64 (add64 a z) ls = add64 a (foldl add64 z ls).
Proof.
  induction ls as [|x ls IH]; intros a z; simpl; [done|].
  by rewrite add64_assoc, IH.
Qed.

Lemma foldl_add64_length n (ls : list (list Z)) : ∀ acc,
  length acc = n → Forall (λ x, length x = n) ls →
  length (foldl add64 acc ls) = n.
Proof.
  induction ls as [|x ls IH]; intros acc Hacc Hls; simpl; [done|].
  apply Forall_cons in Hls as [Hx Hls]. apply IH; [|done].
  by apply add64_length.
Qed.

Lemma foldl_add64_range (ls : list (list Z)) : ∀ acc,
  Forall (λ v, - 2 ^ 63 ≤ v < 2 ^ 63) acc →
  Forall (λ v, - 2 ^ 63 ≤ v < 2 ^ 63) (foldl add64 acc ls).
Proof.
  induction ls as [|x ls IH]; intros acc Hacc; simpl; [done|].
  apply IH, add64_range.
Qed.

(** A partitioned reduction: the two partial sums, added, are the sum. *)
Lemma foldl_add64_split n (ls1 ls2 : list (list Z)) :
  Forall (λ x, length x = n) ls1 →
  foldl add64 (replicate n 0) (ls1 ++ ls2)
  = add64 (foldl add64 (replicate n 0) ls1) (foldl add64 (replicate n 0) ls2).
Proof.
  intros Hls1. rewrite foldl_app, <- foldl_add64_shift. f_equal.
  pose proof (foldl_add64_length n ls1 (replicate n 0)
                (length_replicate _ _) Hls1) as Hlen.
  pose proof (add64_zero_r (foldl add64 (replicate n 0) ls1)) as Hz.
  rewrite Hlen in Hz. symmetry. apply Hz, foldl_add64_range.
  apply Forall_replicate. lia.
Qed.

Lemma filter_perm {A} (p : A → bool) (l l' : list A) :
  Permutation l l' → Permutation (List.filter p l) (List.filter p l').
Proof.
  induction 1 as [|x l l' _ IH|x y l|l l' l'' _ IH1 _ IH2]; simpl.
  - done.
  - destruct (p x); [by constructor | done].
  - destruct (p x), (p y); try done. apply perm_swap.
  - by etrans.
Qed.

Lemma nd_iadd64_ok H0 W0 a b :
  arr_ok H0 W0 a → arr_ok H0 W0 b →
  Aggregate.nd_iadd64 a b = Ok (NdArray H0 W0 (add64 (nd_data a) (nd_data b)))
  ∧ arr_ok H0 W0 (NdArray H0 W0 (add64 (nd_data a) (nd_data b))).
Proof.
  intros (Ha1 & Ha2 & Ha3) (Hb1 & Hb2 & Hb3). unfold Aggregate.nd_iadd64.
  destruct (decide _) as [_|Hn].
  - rewrite Ha1, Ha2. split; [done|]. unfold arr_ok. simpl.
    split_and!; try done. by apply add64_length.
  - destruct Hn. split_and!; congruence.
Qed.

Lemma arr_ok_eq H0 W0 a data :
  arr_ok H0 W0 a → nd_data a = data → a = NdArray H0 W0 data.
Proof. destruct a. intros (? & ? & _) ?. simpl in *. by subst. Qed.

Lemma fold_body_spec only_solved H0 W0 f st :
  acc_ok H0 W0 st → run_ok H0 W0 f →
  ∃ st', Aggregate.fold_body only_solved H0 W0 f st = Ok st'
    ∧ acc_ok H0 W0 st'
    ∧ Aggregate.solved_cnt st'
      = Aggregate.solved_cnt st + (if counted_solved f then 1 else 0)
    ∧ if accepted only_solved f
      then nd_data (Aggregate.wait_sum st')
           = add64 (nd_data (Aggregate.wait_sum st))
               (nd_data (Aggregate.wait (Aggregate.content f)))
           ∧ nd_data (Aggregate.pressure_sum st')
             = add64 (nd_data (Aggregate.pressure_sum st))
                 (nd_data (Aggregate.pressure (Aggregate.content f)))
           ∧ nd_data (Aggregate.occ_sum st')
             = add64 (nd_data (Aggregate.occ_sum st))
                 (nd_data (Aggregate.occ (Aggregate.content f)))
           ∧ Aggregate.used st' = Aggregate.used st ++ [Aggregate.name f]
      else Aggregate.wait_sum st' = Aggregate.wait_sum st
           ∧ Aggregate.pressure_sum st' = Aggregate.pressure_sum st
           ∧ Aggregate.occ_sum st' = Aggregate.occ_sum st
           ∧ Aggregate.used st' = Aggregate.used st.
Proof.
  intros (Hw & Hp & Ho) (EH & EW & Hfw & Hfp & Hfo).
  unfold Aggregate.fold_body, accepted, counted_solved.
  assert (∃ st', (if negb (Aggregate.H (Aggregate.content f) =? H0)
                     || negb (Aggregate.W (Aggregate.content f) =? W0)
                  then Raise (ValueError_ShapeMismatch
                                (Aggregate.H (Aggregate.content f))
                                (Aggregate.W (Aggregate.content f)) H0 W0)
                  else
                    ws ← Aggregate.nd_iadd64 (Aggregate.wait_sum st)
                           (Aggregate.wait (Aggregate.content f));
                    ps ← Aggregate.nd_iadd64 (Aggregate.pressure_sum st)
                           (Aggregate.pressure (Aggregate.content f));
                    os ← Aggregate.nd_iadd64 (Aggregate.occ_sum st)
                           (Aggregate.occ (Aggregate.content f));
                    Ok (Aggregate.Acc ws ps os
                          (Aggregate.makespans st
                             ++ [Aggregate.makespan (Aggregate.content f)])
                          (Aggregate.used st ++ [Aggregate.name f])
                          match Aggregate.meta_solved f with
                          | Some solved =>
                            if solved =? 1 then Aggregate.solved_cnt st + 1
                            else Aggregate.solved_cnt st
                          | None => Aggregate.solved_cnt st
                          end)) = Ok st'
            ∧ acc_ok H0 W0 st'
            ∧ Aggregate.solved_cnt st'
              = match Aggregate.meta_solved f with
                | Some solved =>
                  if solved =? 1 then Aggregate.solved_cnt st + 1
                  else Aggregate.solved_cnt st
                | None => Aggregate.solved_cnt st
                end
            ∧ nd_data (Aggregate.wait_sum st')
              = add64 (nd_data (Aggregate.wait_sum st))
                  (nd_data (Aggregate.wait (Aggregate.content f)))
            ∧ nd_data (Aggregate.pressure_sum st')
              = add64 (nd_data (Aggregate.pressure_sum st))
                  (nd_data (Aggregate.pressure (Aggregate.content f)))
            ∧ nd_data (Aggregate.occ_sum st')
              = add64 (nd_data (Aggregate.occ_sum st))
                  (nd_data (Aggregate.occ (Aggregate.content f)))
            ∧ Aggregate.used st' = Aggregate.used st ++ [Aggregate.name f])
    as (st' & Hadd & Hok' & Hcnt & Hws & Hps & Hos & Hused).
  { rewrite EH, EW, !Z.eqb_refl. simpl.
    destruct (nd_iadd64_ok H0 W0 _ _ Hw Hfw) as [-> ?].
    destruct (nd_iadd64_ok H0 W0 _ _ Hp Hfp) as [-> ?].
    destruct (nd_iadd64_ok H0 W0 _ _ Ho Hfo) as [-> ?]. simpl.
    eexists. split; [done|]. unfold acc_ok. simpl. done. }
  destruct (Aggregate.meta_solved f) as [solved|] eqn:Hmeta.
  - destruct only_solved; simpl.
    + destruct (solved =? 1); simpl.
      * exists st'. split_and!; done.
      * eexists. split; [done|]. unfold acc_ok. simpl.
        split_and!; try done; lia.
    + exists st'. split_and!; try done.
      rewrite Hcnt. destruct (solved =? 1); lia.
  - simpl. exists st'. split_and!; try done; lia.
Qed.

Lemma count_of_cons {A} (p : A → bool) x l :
  count_of p (x :: l) = (if p x then 1 else 0) + count_of p l.
Proof. unfold count_of. simpl. destruct (p x); simpl; lia. Qed.

Lemma fold_runs_spec only_solved H0 W0 runs : ∀ st,
  acc_ok H0 W0 st → (∀ f, f ∈ runs → run_ok H0 W0 f) →
  ∃ st', for_each (Aggregate.fold_body only_solved H0 W0) runs st = Ok st'
    ∧ acc_ok H0 W0 st'
    ∧ Aggregate.solved_cnt st'
      = Aggregate.solved_cnt st + count_of counted_solved runs
    ∧ nd_data (Aggregate.wait_sum st')
      = foldl add64 (nd_data (Aggregate.wait_sum st))
          (map (λ f, nd_data (Aggregate.wait (Aggregate.content f)))
             (List.filter (accepted only_solved) runs))
    ∧ nd_data (Aggregate.pressure_sum st')
      = foldl add64 (nd_data (Aggregate.pressure_sum st))
          (map (λ f, nd_data (Aggregate.pressure (Aggregate.content f)))
             (List.filter (accepted only_solved) runs))
    ∧ nd_data (Aggregate.occ_sum st')
      = foldl add64 (nd_data (Aggregate.occ_sum st))
          (map (λ f, nd_data (Aggregate.occ (Aggregate.content f)))
             (List.filter (accepted only_solved) runs))
    ∧ Aggregate.used st'
      = Aggregate.used st
        ++ map Aggregate.name (List.filter (accepted only_solved) runs).
Proof.
  induction runs as [|f runs IH]; intros st Hst Hruns.
  - exists st. simpl. unfold count_of. simpl.
    split_and!; try done; [lia | by rewrite app_nil_r].
  - destruct (fold_body_spec only_solved H0 W0 f st Hst) as (st1 & Hb & Hst1 & Hc1 & Hsel);
      [apply Hruns; set_solver|].
    destruct (IH st1 Hst1) as (st' & Hrun & Hst' & Hc & Hw & Hp & Ho & Hu);
      [intros; apply Hruns; set_solver|].
    exists st'. cbn [for_each]. rewrite Hb. simpl.
    rewrite count_of_cons. cbn [List.filter].
    destruct (accepted only_solved f).
    + destruct Hsel as (Hw1 & Hp1 & Ho1 & Hu1).
      rewrite Hw1 in Hw. rewrite Hp1 in Hp. rewrite Ho1 in Ho. rewrite Hu1 in Hu.
      cbn [map foldl]. rewrite <- app_assoc in Hu.
      split_and!; try done. lia.
    + destruct Hsel as (Hw1 & Hp1 & Ho1 & Hu1).
      rewrite Hw1 in Hw. rewrite Hp1 in Hp. rewrite Ho1 in Ho. rewrite Hu1 in Hu.
      split_and!; try done. lia.
Qed.

(** What [main] returns on runs of one declared and actual shape. *)
Lemma main_spec only_solved H0 W0 runs :
  0 ≤ H0 → 0 ≤ W0 → runs ≠ [] → (∀ f, f ∈ runs → run_ok H0 W0 f) →
  ∃ st stats, Aggregate.main only_solved runs = Ok (st, stats)
    ∧ Aggregate.wait_sum st = agg_total H0 W0 Aggregate.wait only_solved runs
    ∧ Aggregate.pressure_sum st
      = agg_total H0 W0 Aggregate.pressure only_solved runs
    ∧ Aggregate.occ_sum st = agg_total H0 W0 Aggregate.occ only_solved runs
    ∧ Aggregate.solved_cnt st = count_of counted_solved runs
    ∧ Aggregate.used st
      = map Aggregate.name (List.filter (accepted only_solved) runs)
    ∧ Aggregate.solved_rate stats
      = Qmake (count_of counted_solved runs)
          (Z.to_pos (Z.of_nat (length runs)))
    ∧ Aggregate.num_instances_total stats = Z.of_nat (length runs).
Proof.
  intros HH HW Hne Hruns. destruct runs as [|first rest]; [done|].
  unfold Aggregate.main.
  destruct (Hruns first) as (EH & EW & _); [set_solver|]. rewrite EH, EW.
  destruct (np_full_wf H0 W0 0 HH HW) as (z & Hz & _ & EHz & EWz & Hdz).
  unfold np_zeros. rewrite Hz, !bind_Ok_l.
  assert (arr_ok H0 W0 z) as Hzok.
  { unfold arr_ok. rewrite Hdz, length_replicate. done. }
  destruct (fold_runs_spec only_solved H0 W0 (first :: rest)
              (Aggregate.Acc z z z [] [] 0))
    as (st & -> & (Hw & Hp & Ho) & Hc & Hwd & Hpd & Hod & Hu); [done | done |].
  simpl in *. rewrite Hdz in Hwd, Hpd, Hod.
  eexists _, _. split; [done|]. simpl.
  split_and!; try done; try (by apply arr_ok_eq); rewrite Hc; f_equal; lia.
Qed.

Lemma agg_total_ok H0 W0 sel only_solved runs :
  (∀ f, f ∈ runs → arr_ok H0 W0 (sel (Aggregate.content f))) →
  arr_ok H0 W0 (agg_total H0 W0 sel only_solved runs).
Proof.
  intros Hruns. unfold arr_ok, agg_total. simpl. split_and!; try done.
  apply foldl_add64_length; [apply length_replicate|].
  apply Forall_forall. intros x Hx. apply list_elem_of_In in Hx.
  apply in_map_iff in Hx as (f & <- & Hf). apply filter_In in Hf as [Hf _].
  apply Hruns. by apply list_elem_of_In.
Qed.

Lemma agg_total_perm H0 W0 sel only_solved runs runs' :
  Permutation runs runs' →
  agg_total H0 W0 sel only_solved runs = agg_total H0 W0 sel only_solved runs'.
Proof.
  intros Hperm. unfold agg_total. f_equal.
  apply foldl_add64_perm, Permutation_map, filter_perm, Hperm.
Qed.

Lemma agg_total_app H0 W0 sel only_solved l1 l2 :
  (∀ f, f ∈ l1 ++ l2 → arr_ok H0 W0 (sel (Aggregate.content f))) →
  Aggregate.nd_iadd64 (agg_total H0 W0 sel only_solved l1)
    (agg_total H0 W0 sel only_solved l2)
  = Ok (agg_total H0 W0 sel only_solved (l1 ++ l2)).
Proof.
  intros Hruns.
  destruct (nd_iadd64_ok H0 W0 (agg_total H0 W0 sel only_solved l1)
              (agg_total H0 W0 sel only_solved l2)) as [-> _].
  { apply agg_total_ok. intros; apply Hruns. set_solver. }
  { apply agg_total_ok. intros; apply Hruns. set_solver. }
  f_equal. unfold agg_total. simpl.
  rewrite List.filter_app, map_app, foldl_add64_split; [done|].
  apply Forall_forall. intros x Hx. apply list_elem_of_In in Hx.
  apply in_map_iff in Hx as (f & <- & Hf). apply filter_In in Hf as [Hf _].
  apply Hruns. apply elem_of_app. left. by apply list_elem_of_In.
Qed.

(** C9.  On runs of one shape, [main] returns, and folding the runs in
    any other order gives the same [wait_sum], [pressure_sum] and
    [occ_sum]; folding two parts of the runs separately and adding the
    partial sums cell by cell (in [int64]) gives them as well. *)
Theorem aggregation_order_independent (only_solved : bool) (H0 W0 : Z)
    (runs runs' : list Aggregate.instance) :
  0 ≤ H0 → 0 ≤ W0 → runs ≠ [] →
  (∀ f, f ∈ runs → run_ok H0 W0 f) →
  Permutation runs runs' →
  ∃ st stats st' stats',
    Aggregate.main only_solved runs = Ok (st, stats)
    ∧ Aggregate.main only_solved runs' = Ok (st', stats')
    ∧ Aggregate.wait_sum st = Aggregate.wait_sum st'
    ∧ Aggregate.pressure_sum st = Aggregate.pressure_sum st'
    ∧ Aggregate.occ_sum st = Aggregate.occ_sum st'
    ∧ ∀ l1 l2, runs = l1 ++ l2 → l1 ≠ [] → l2 ≠ [] →
        ∃ st1 stats1 st2 stats2,
          Aggregate.main only_solved l1 = Ok (st1, stats1)
          ∧ Aggregate.main only_solved l2 = Ok (st2, stats2)
          ∧ Aggregate.nd_iadd64 (Aggregate.wait_sum st1) (Aggregate.wait_sum st2)
            = Ok (Aggregate.wait_sum st)
          ∧ Aggregate.nd_iadd64 (Aggregate.pressure_sum st1)
              (Aggregate.pressure_sum st2)
            = Ok (Aggregate.pressure_sum st)
          ∧ Aggregate.nd_iadd64 (Aggregate.occ_sum st1) (Aggregate.occ_sum st2)
            = Ok (Aggregate.occ_sum st).
Proof.
  intros HH HW Hne Hruns Hperm.
  destruct (main_spec only_solved H0 W0 runs HH HW Hne Hruns)
    as (st & stats & Hmain & Hw & Hp & Ho & _).
  destruct (main_spec only_solved H0 W0 runs' HH HW)
    as (st' & stats' & Hmain' & Hw' & Hp' & Ho' & _).
  { intros ->. apply Permutation_nil_r in Hperm. done. }
  { intros f Hf. apply Hruns. by rewrite Hperm. }
  exists st, stats, st', stats'. split_and!; try done.
  - rewrite Hw, Hw'. by apply agg_total_perm.
  - rewrite Hp, Hp'. by apply agg_total_perm.
  - rewrite Ho, Ho'. by apply agg_total_perm.
  - intros l1 l2 -> Hl1 Hl2.
    destruct (main_spec only_solved H0 W0 l1 HH HW Hl1)
      as (st1 & stats1 & Hmain1 & Hw1 & Hp1 & Ho1 & _).
    { intros f Hf. apply Hruns. set_solver. }
    destruct (main_spec only_solved H0 W0 l2 HH HW Hl2)
      as (st2 & stats2 & Hmain2 & Hw2 & Hp2 & Ho2 & _).
    { intros f Hf. apply Hruns. set_solver. }
    exists st1, stats1, st2, stats2. split_and!; try done.
    + rewrite Hw, Hw1, Hw2. apply agg_total_app.
      intros f Hf. apply (Hruns f Hf).
    + rewrite Hp, Hp1, Hp2. apply agg_total_app.
      intros f Hf. apply (Hruns f Hf).
    + rewrite Ho, Ho1, Ho2. apply agg_total_app.
      intros f Hf. apply (Hruns f Hf).
Qed.

Lemma aggregation_order_independent_witness :
  let r1 := Aggregate.Instance "instance_0.npz"
              (Aggregate.Npz (NdArray 1 2 [1; 0]) (NdArray 1 2 [0; 2])
                 (NdArray 1 2 [3; 1]) (NdArray 1 2 [0; 0]) 1 2 4) (Some 1) in
  let r2 := Aggregate.Instance "instance_1.npz"
              (Aggregate.Npz (NdArray 1 2 [5; 1]) (NdArray 1 2 [1; 1])
                 (NdArray 1 2 [2; 2]) (NdArray 1 2 [0; 0]) 1 2 3) None in
  ∃ st stats st' stats',
    Aggregate.main true [r1; r2] = Ok (st, stats)
    ∧ Aggregate.main true [r2; r1] = Ok (st', stats')
    ∧ Aggregate.wait_sum st = Aggregate.wait_sum st'
    ∧ Aggregate.wait_sum st = NdArray 1 2 [6; 1].
Proof.
  intros r1 r2.
  destruct (aggregation_order_independent true 1 2 [r1; r2] [r2; r1])
    as (st & stats & st' & stats' & Hm & Hm' & Hw & _).
  - lia.
  - lia.
  - discriminate.
  - intros f Hf.
    apply elem_of_cons in Hf as [->|Hf];
      [|apply elem_of_cons in Hf as [->|Hf]; [|by apply elem_of_nil in Hf]];
      unfold run_ok, arr_ok; simpl; split_and!; reflexivity.
  - apply perm_swap.
  - exists st, stats, st', stats'. split_and!; try done.
    vm_compute in Hm. injection Hm as <- _. reflexivity.
Defined.

Lemma fold_body_cnt only_solved H0 W0 f st st' :
  Aggregate.fold_body only_solved H0 W0 f st = Ok st' →
  Aggregate.solved_cnt st'
  = Aggregate.solved_cnt st + (if counted_solved f then 1 else 0).
Proof.
  unfold Aggregate.fold_body, counted_solved. intros Hrun.
  assert (∀ z, (if negb (Aggregate.H (Aggregate.content f) =? H0)
                   || negb (Aggregate.W (Aggregate.content f) =? W0)
                then Raise (ValueError_ShapeMismatch
                              (Aggregate.H (Aggregate.content f))
                              (Aggregate.W (Aggregate.content f)) H0 W0)
                else
                  ws ← Aggregate.nd_iadd64 (Aggregate.wait_sum st)
                         (Aggregate.wait (Aggregate.content f));
                  ps ← Aggregate.nd_iadd64 (Aggregate.pressure_sum st)
                         (Aggregate.pressure (Aggregate.content f));
                  os ← Aggregate.nd_iadd64 (Aggregate.occ_sum st)
                         (Aggregate.occ (Aggregate.content f));
                  Ok (Aggregate.Acc ws ps os
                        (Aggregate.makespans st
                           ++ [Aggregate.makespan (Aggregate.content f)])
                        (Aggregate.used st ++ [Aggregate.name f]) z)) = Ok st' →
               Aggregate.solved_cnt st' = z) as Hadd.
  { intros z Hz. destruct (_ || _); [done|].
    apply bind_Ok in Hz as (ws & _ & Hz). apply bind_Ok in Hz as (ps & _ & Hz).
    apply bind_Ok in Hz as (os & _ & Hz). by injection Hz as <-. }
  destruct (Aggregate.meta_solved f) as [solved|].
  - destruct (only_solved && negb (solved =? 1)).
    + injection Hrun as <-. simpl. destruct (solved =? 1); lia.
    + apply Hadd in Hrun. rewrite Hrun. destruct (solved =? 1); lia.
  - simpl in Hrun. apply Hadd in Hrun. lia.
Qed.

Lemma fold_runs_cnt only_solved H0 W0 runs : ∀ st st',
  for_each (Aggregate.fold_body only_solved H0 W0) runs st = Ok st' →
  Aggregate.solved_cnt st'
  = Aggregate.solved_cnt st + count_of counted_solved runs.
Proof.
  induction runs as [|f runs IH]; intros st st' Hrun; simpl in Hrun.
  - injection Hrun as <-. unfold count_of. simpl. lia.
  - apply bind_Ok in Hrun as (st1 & Hb & Hrun).
    rewrite (IH _ _ Hrun), (fold_body_cnt _ _ _ _ _ _ Hb), count_of_cons. lia.
Qed.

Lemma main_cnt only_solved runs st stats :
  Aggregate.main only_solved runs = Ok (st, stats) →
  Aggregate.solved_cnt st = count_of counted_solved runs
  ∧ Aggregate.solved_rate stats
    = Qmake (Aggregate.solved_cnt st) (Z.to_pos (Z.of_nat (length runs)))
  ∧ Aggregate.num_instances_total stats = Z.of_nat (length runs).
Proof.
  unfold Aggregate.main. destruct runs as [|first rest]; [done|]. intros Hrun.
  apply bind_Ok in Hrun as (w0 & _ & Hrun).
  apply bind_Ok in Hrun as (p0 & _ & Hrun).
  apply bind_Ok in Hrun as (o0 & _ & Hrun).
  apply bind_Ok in Hrun as (st0 & Hloop & Hrun).
  injection Hrun as <- <-. apply fold_runs_cnt in Hloop. simpl in *.
  split_and!; try done; lia.
Qed.

Lemma counted_le_truly (truly_solved : Aggregate.instance → bool) runs :
  (∀ f s, f ∈ runs → Aggregate.meta_solved f = Some s →
          truly_solved f = (s =? 1)) →
  count_of counted_solved runs ≤ count_of truly_solved runs
  ∧ ((∃ f, f ∈ runs ∧ Aggregate.meta_solved f = None ∧ truly_solved f = true) →
     count_of counted_solved runs < count_of truly_solved runs).
Proof.
  induction runs as [|f runs IH]; intros Hcons.
  - split; [done|]. intros (f & Hf & _). by apply elem_of_nil in Hf.
  - destruct IH as [IH1 IH2]; [intros; eapply Hcons; [set_solver | done]|].
    rewrite !count_of_cons.
    assert ((if counted_solved f then 1 else 0)
            ≤ (if truly_solved f then 1 else 0)) as Hle.
    { unfold counted_solved.
      destruct (Aggregate.meta_solved f) as [s|] eqn:Hm.
      - rewrite (Hcons f s) by (done || set_solver). destruct (s =? 1); lia.
      - destruct (truly_solved f); lia. }
    split; [lia|]. intros (g & Hg & Hnone & Htrue).
    apply elem_of_cons in Hg as [->|Hg].
    + unfold counted_solved in *. rewrite Hnone, Htrue in *. lia.
    + assert (count_of counted_solved runs < count_of truly_solved runs); [|lia].
      apply IH2. by exists g.
Qed.

(** * Further properties of the code *)

(** ** [_bfs_dist]: exact distances *)

Lemma walk_goal obstacles goal k c :
  walk obstacles goal k c →
  inb (nd_H obstacles) (nd_W obstacles) goal ∧ free obstacles goal.
Proof. induction 1; auto. Qed.

Lemma inv_walk_exists obstacles goal lo dist :
  bfs_inv obstacles goal lo [] dist [] →
  inb (nd_H obstacles) (nd_W obstacles) goal → free obstacles goal →
  ∀ (k : nat) c, inb (nd_H obstacles) (nd_W obstacles) c →
    at_ dist c = Z.of_nat k → at_ dist c < INF → walk obstacles goal k c.
Proof.
  intros I Hg Hf. induction k as [|k IH]; intros c Hc Hk Hfin.
  - destruct (decide (c = goal)) as [->|Hne]; [by constructor|].
    destruct (inv_parent _ _ _ _ _ _ I c Hc Hfin Hne) as (n & _ & Hn & Hval).
    pose proof (inv_range _ _ _ _ _ _ I n Hn). lia.
  - destruct (decide (c = goal)) as [->|Hne].
    { rewrite (inv_goal _ _ _ _ _ _ I) in Hk. lia. }
    destruct (inv_parent _ _ _ _ _ _ I c Hc Hfin Hne) as (n & Hadj & Hn & Hval).
    apply (walk_step _ _ k n); [|by apply adj4_sym | done |].
    + apply IH; [done | lia | lia].
    + by destruct (reachable_inb_free _ _ _ (inv_reach _ _ _ _ _ _ I c Hc Hfin)).
Qed.

Lemma inv_walk_bound obstacles goal lo dist k c :
  bfs_inv obstacles goal lo [] dist [] →
  walk obstacles goal k c → at_ dist c ≤ Z.of_nat k.
Proof.
  intros I. induction 1 as [Hg Hf|k c n Hw IH Hadj Hn Hf].
  - rewrite (inv_goal _ _ _ _ _ _ I). lia.
  - pose proof (inv_range _ _ _ _ _ _ I n Hn) as Hrn.
    destruct (decide (at_ dist c < INF)) as [Hfin|Hinf]; [|lia].
    assert (inb (nd_H obstacles) (nd_W obstacles) c) as Hc.
    { destruct Hw; [done|done]. }
    destruct (inv_closed _ _ _ _ _ _ I c Hc Hfin) as [Hq|[Hq|Hcl]];
      [by apply elem_of_nil in Hq | by apply elem_of_nil in Hq |].
    specialize (Hcl n Hadj Hn Hf). lia.
Qed.

(** X1.  The field of [_bfs_dist] holds exact shortest-walk lengths: a
    cell with a distance [k] below [INF] is joined to the goal by a walk of
    exactly [k] steps through free cells, and no walk to a cell is shorter
    than the distance the cell holds. *)
Theorem bfs_dist_shortest (obstacles : ndarray) (goal : XY) (dist : ndarray) :
  nd_wf obstacles → _bfs_dist obstacles goal = Ok dist →
  (∀ c, inb (nd_H obstacles) (nd_W obstacles) c → at_ dist c < INF →
        ∃ k : nat, at_ dist c = Z.of_nat k ∧ walk obstacles goal k c)
  ∧ (∀ k c, walk obstacles goal k c → at_ dist c ≤ Z.of_nat k).
Proof.
  intros Hwf Hrun.
  destruct (bfs_dist_cases obstacles goal Hwf)
    as (dist' & Hrun' & _ & _ & [(Hg & Hf & lo & I)|(Hbad & Hall)]);
    rewrite Hrun in Hrun'; injection Hrun' as <-.
  - split.
    + intros c Hc Hfin. pose proof (inv_range _ _ _ _ _ _ I c Hc) as Hr.
      exists (Z.to_nat (at_ dist c)). split; [lia|].
      apply (inv_walk_exists obstacles goal lo dist I Hg Hf); [done | lia | done].
    + intros k c Hw. by apply (inv_walk_bound obstacles goal lo).
  - split.
    + intros c Hc Hfin. rewrite Hall in Hfin by done. lia.
    + intros k c Hw. destruct Hbad. by apply (walk_goal _ _ k c).
Qed.

Lemma bfs_dist_shortest_witness :
  nd_wf (NdArray 2 3 [0; 1; 0; 0; 0; 0])
  ∧ _bfs_dist (NdArray 2 3 [0; 1; 0; 0; 0; 0]) (0, 0)
    = Ok (NdArray 2 3 [0; INF; 4; 1; 2; 3])
  ∧ ∀ k, walk (NdArray 2 3 [0; 1; 0; 0; 0; 0]) (0, 0) k (2, 0) → (4 ≤ k)%nat.
Proof.
  assert (nd_wf (NdArray 2 3 [0; 1; 0; 0; 0; 0])) as Hwf.
  { unfold nd_wf. simpl. lia. }
  assert (_bfs_dist (NdArray 2 3 [0; 1; 0; 0; 0; 0]) (0, 0)
          = Ok (NdArray 2 3 [0; INF; 4; 1; 2; 3])) as Hrun
    by (vm_compute; reflexivity).
  split; [exact Hwf|]. split; [exact Hrun|].
  intros k Hw.
  pose proof (proj2 (bfs_dist_shortest _ _ _ Hwf Hrun) k (2, 0) Hw) as Hle.
  change (at_ (NdArray 2 3 [0; INF; 4; 1; 2; 3]) (2, 0)) with 4 in Hle. lia.
Defined.

(** X2.  Every cell of the field of [_bfs_dist] is between 0 and [INF],
    the field has the shape of the mask, and a cell holding an obstacle
    keeps [INF]. *)
Theorem bfs_dist_range (obstacles : ndarray) (goal : XY) (dist : ndarray) :
  nd_wf obstacles → _bfs_dist obstacles goal = Ok dist →
  nd_wf dist ∧ same_shape dist obstacles
  ∧ ∀ c, inb (nd_H obstacles) (nd_W obstacles) c →
         0 ≤ at_ dist c ≤ INF ∧ (at_ obstacles c ≠ 0 → at_ dist c = INF).
Proof.
  intros Hwf Hrun.
  destruct (bfs_dist_cases obstacles goal Hwf)
    as (dist' & Hrun' & Hdwf & Hsh & [(Hg & Hf & lo & I)|(Hbad & Hall)]);
    rewrite Hrun in Hrun'; injection Hrun' as <-.
  - split_and!; try done. intros c Hc.
    pose proof (inv_range _ _ _ _ _ _ I c Hc) as Hr. split; [done|].
    intros Hobs. destruct (decide (at_ dist c < INF)) as [Hfin|]; [|lia].
    destruct (reachable_inb_free _ _ _ (inv_reach _ _ _ _ _ _ I c Hc Hfin)).
    done.
  - split_and!; try done. intros c Hc. rewrite Hall by done.
    unfold INF. split; [lia | done].
Qed.

Lemma bfs_dist_range_witness :
  nd_wf (NdArray 2 3 [0; 1; 0; 0; 0; 0])
  ∧ ∃ dist, _bfs_dist (NdArray 2 3 [0; 1; 0; 0; 0; 0]) (0, 0) = Ok dist
            ∧ at_ dist (1, 0) = INF.
Proof.
  assert (nd_wf (NdArray 2 3 [0; 1; 0; 0; 0; 0])) as Hwf.
  { unfold nd_wf. simpl. lia. }
  split; [exact Hwf|].
  destruct (bfs_dist_cases (NdArray 2 3 [0; 1; 0; 0; 0; 0]) (0, 0) Hwf)
    as (dist & Hrun & _).
  exists dist. split; [exact Hrun|].
  destruct (bfs_dist_range _ _ _ Hwf Hrun) as (_ & _ & Hcells).
  apply (Hcells (1, 0)).
  - unfold inb. simpl. lia.
  - vm_compute. discriminate.
Defined.

(** ** Counting loops *)

Lemma range_S n : range (S n) = range n ++ [n].
Proof. unfold range. by rewrite seq_S. Qed.

Lemma hit_row_S hit t n c :
  hit_row hit t (S n) c
  = hit_row hit t n c + (if bool_decide (hit t n = Some c) then 1 else 0).
Proof. unfold hit_row. rewrite range_S, map_app, sumZ_app. simpl. lia. Qed.

Lemma hit_count_S hit T N c :
  hit_count hit (S T) N c = hit_count hit T N c + hit_row hit T N c.
Proof. unfold hit_count. rewrite range_S, map_app, sumZ_app. simpl. lia. Qed.

Lemma hit_row_bounds hit t n c : 0 ≤ hit_row hit t n c ≤ Z.of_nat n.
Proof.
  induction n as [|n IH]; [done|]. rewrite hit_row_S.
  case_bool_decide; lia.
Qed.

Lemma hit_count_bounds hit T N c :
  0 ≤ hit_count hit T N c ≤ Z.of_nat T * Z.of_nat N.
Proof.
  induction T as [|T IH]; [unfold hit_count; simpl; lia|].
  rewrite hit_count_S. pose proof (hit_row_bounds hit T N c). nia.
Qed.

Lemma ind_row_S ind t n : ind_row ind t (S n) = ind_row ind t n + ind t n.
Proof. unfold ind_row. rewrite range_S, map_app, sumZ_app. simpl. lia. Qed.

Lemma ind_count_S ind T N :
  ind_count ind (S T) N = ind_count ind T N + ind_row ind T N.
Proof. unfold ind_count. rewrite range_S, map_app, sumZ_app. simpl. lia. Qed.

Lemma cells_inv_ext H W a f g :
  (∀ c, f c = g c) → cells_inv H W a f → cells_inv H W a g.
Proof.
  intros Hfg (? & ? & ? & Hc). split_and!; try done.
  intros c Hin. rewrite <- Hfg. by apply Hc.
Qed.

Lemma cells_inv_zeros H W a : np_zeros H W = Ok a → cells_inv H W a (λ _, 0).
Proof.
  intros Hz. destruct (counts_ok_zeros _ _ _ Hz) as (Hwf & EH & EW & _).
  split_and!; try done. intros c Hc.
  unfold np_zeros, np_full in Hz. destruct (_ || _); [done|].
  injection Hz as <-. by apply at_replicate.
Qed.

Lemma cells_inv_incr H W a f p a' :
  cells_inv H W a f → inb H W p → 0 ≤ f p → f p + 1 < 2 ^ 31 →
  nd_incr a p.2 p.1 = Ok a' →
  cells_inv H W a'
    (λ c, f c + (if bool_decide (Some p = Some c) then 1 else 0)).
Proof.
  intros (Hwf & EH & EW & Hcells) Hp H0 Hsmall Hincr.
  destruct (nd_incr_in a p Hwf) as (a'' & Hincr' & Hwf' & [EH' EW'] & _ & Hat & Hoth);
    [by rewrite EH, EW|].
  rewrite Hincr in Hincr'. injection Hincr' as <-.
  rewrite EH, EW in Hoth. split_and!; try congruence.
  intros c Hc. case_bool_decide as Hpc.
  - injection Hpc as <-. rewrite Hat, Hcells by done. apply wrap32_id. lia.
  - rewrite Hoth, Hcells; [lia | done | done | congruence].
Qed.

(** A double loop whose body increments one projection [π] of the state
    at the cell [hit t i], when there is one: that projection ends up
    holding, in each cell, the number of iterations that hit the cell. *)
Section counting.
Context {S : Type}.
Variable π : S → ndarray.
Variables H W : Z.
Variable hit : nat → nat → option XY.
Variable body : nat → nat → S → result S.
Variables T N : nat.
Hypothesis small : Z.of_nat T * Z.of_nat N < 2 ^ 31.
Hypothesis body_hit : ∀ t i s s',
  (t < T)%nat → (i < N)%nat → body t i s = Ok s' →
  nd_wf (π s) → nd_H (π s) = H → nd_W (π s) = W →
  match hit t i with
  | Some p => inb H W p ∧ nd_incr (π s) p.2 p.1 = Ok (π s')
  | None => π s' = π s
  end.

Lemma counting_loop s0 s' :
  cells_inv H W (π s0) (λ _, 0) →
  for_each (λ t s, for_each (body t) (range N) s) (range T) s0 = Ok s' →
  cells_inv H W (π s') (hit_count hit T N).
Proof.
  intros H0 Hrun.
  apply (for_range_inv
           (λ t s, cells_inv H W (π s) (hit_count hit t N))) in Hrun;
    [done | by apply (cells_inv_ext H W _ (λ _, 0)) |].
  intros t s s1 Ht Hs Hinner.
  apply (for_range_inv
           (λ i s, cells_inv H W (π s)
                     (λ c, hit_count hit t N c + hit_row hit t i c)))
    in Hinner.
  - apply (cells_inv_ext H W _ _ _ (λ c, eq_sym (hit_count_S hit t N c))).
    exact Hinner.
  - apply (cells_inv_ext H W _ (hit_count hit t N)); [|done].
    intros c. unfold hit_row. simpl. lia.
  - intros i o o' Hi Ho Hb. pose proof Ho as (Hwf & EH & EW & _).
    specialize (body_hit t i o o' Ht Hi Hb Hwf EH EW).
    destruct (hit t i) as [p|] eqn:Hhit.
    + destruct body_hit as [Hp Hincr].
      eapply cells_inv_ext; [|eapply (cells_inv_incr H W (π o)); eauto].
      * intros c. simpl. rewrite hit_row_S, Hhit. lia.
      * pose proof (hit_count_bounds hit t N p).
        pose proof (hit_row_bounds hit t i p). lia.
      * pose proof (hit_count_bounds hit t N p).
        pose proof (hit_row_bounds hit t i p). nia.
    + rewrite body_hit. eapply cells_inv_ext; [|exact Ho].
      intros c. simpl. rewrite hit_row_S, Hhit.
      rewrite bool_decide_eq_false_2 by done. lia.
Qed.
End counting.

(** The same for a number [ρ] of the state to which the body adds
    [ind t i]. *)
Section adding.
Context {S : Type}.
Variable ρ : S → Z.
Variable ind : nat → nat → Z.
Variable body : nat → nat → S → result S.
Variables T N : nat.
Hypothesis body_ind : ∀ t i s s',
  (t < T)%nat → (i < N)%nat → body t i s = Ok s' → ρ s' = ρ s + ind t i.

Lemma adding_loop s0 s' :
  for_each (λ t s, for_each (body t) (range N) s) (range T) s0 = Ok s' →
  ρ s' = ρ s0 + ind_count ind T N.
Proof.
  intros Hrun.
  apply (for_range_inv (λ t s, ρ s = ρ s0 + ind_count ind t N)) in Hrun;
    [done | unfold ind_count; simpl; lia |].
  intros t s s1 Ht Hs Hinner.
  apply (for_range_inv
           (λ i s, ρ s = ρ s0 + ind_count ind t N + ind_row ind t i))
    in Hinner.
  - rewrite ind_count_S. lia.
  - unfold ind_row. simpl. lia.
  - intros i o o' Hi Ho Hb. rewrite (body_ind t i o o' Ht Hi Hb), ind_row_S. lia.
Qed.
End adding.

(** ** What each loop body does, cell by cell *)

Lemma occ_body_hit paths reach H W t i occ occ' :
  occ_body paths reach H W t i occ = Ok occ' →
  match occ_hit paths reach H W t i with
  | Some p => inb H W p ∧ nd_incr occ p.2 p.1 = Ok occ'
  | None => occ' = occ
  end.
Proof.
  unfold occ_body, occ_hit, position. intros Hrun.
  apply bind_Ok in Hrun as (r & Hr%of_option_Ok & Hrun). rewrite Hr. simpl.
  destruct (Z.gtb_spec (Z.of_nat t) r) as [Hgt|Hle].
  - injection Hrun as <-.
    destruct (paths !! t ≫= (.!! i)) as [p|]; simpl; [|done].
    destruct (Z.leb_spec (Z.of_nat t) r); [lia|]. done.
  - apply bind_Ok in Hrun as (row & Hrow%of_option_Ok & Hrun).
    apply bind_Ok in Hrun as (p & Hp%of_option_Ok & Hrun).
    rewrite Hrow. simpl. rewrite Hp. simpl.
    destruct (Z.leb_spec (Z.of_nat t) r); [|lia]. simpl.
    destruct (in_bounds H W p) eqn:Hb.
    + split; [by apply in_bounds_inb | done].
    + by injection Hrun as <-.
Qed.

Lemma build_dist_cache_sound obstacles goals cache g dist :
  build_dist_cache obstacles goals = Ok cache → cache !! g = Some dist →
  _bfs_dist obstacles g = Ok dist.
Proof.
  intros Hrun Hg. apply dist_cache_loop in Hrun as [H1 _]; [|done].
  by apply H1.
Qed.

(** The pressure part of the body: it leaves the wait counters alone, and
    what it does to [collision_map] and [total_blocked] is decided by the
    first strictly closer neighbour. *)
Lemma pressure_part_effect goals cache obstacles i cur nxt w c tw tb st' :
  nd_wf obstacles → build_dist_cache obstacles goals = Ok cache →
  pressure_part goals cache obstacles (nd_H obstacles) (nd_W obstacles)
    i cur nxt (w, c, tw, tb) = Ok st' →
  ∃ g dist c' tb',
    goals !! i = Some g ∧ _bfs_dist obstacles g = Ok dist
    ∧ st' = (w, c', tw, tb')
    ∧ match (if bool_decide (nxt = cur)
                && in_bounds (nd_H obstacles) (nd_W obstacles) cur
                && (at_ obstacles cur =? 0) && (at_ dist cur <? INF)
             then first_closer dist (nd_H obstacles) (nd_W obstacles) cur
             else None) with
      | Some p => inb (nd_H obstacles) (nd_W obstacles) p
                  ∧ nd_incr c p.2 p.1 = Ok c' ∧ tb' = tb + 1
      | None => c' = c ∧ tb' = tb
      end.
Proof.
  intros Hwf Hcache Hrun. unfold pressure_part in Hrun.
  apply bind_Ok in Hrun as (g & Hg%of_option_Ok & Hrun).
  apply bind_Ok in Hrun as (dist & Hd%of_option_Ok & Hrun).
  pose proof (build_dist_cache_sound _ _ _ _ _ Hcache Hd) as Hdist.
  destruct (bfs_dist_shape _ _ _ Hwf Hdist) as [Hdwf [EHd EWd]].
  exists g, dist.
  destruct (in_bounds (nd_H obstacles) (nd_W obstacles) cur) eqn:Hb;
    simpl in Hrun.
  2:{ injection Hrun as <-. exists c, tb. rewrite andb_false_r. done. }
  pose proof Hb as Hin. apply in_bounds_inb in Hin.
  rewrite (nd_get_in obstacles cur) in Hrun by done. simpl in Hrun.
  destruct (Z.eqb_spec (at_ obstacles cur) 0) as [Hfree|Hobs]; simpl in Hrun.
  2:{ injection Hrun as <-. exists c, tb. rewrite andb_false_r. done. }
  rewrite (nd_get_in dist cur) in Hrun by (done || by rewrite EHd, EWd).
  simpl in Hrun.
  destruct (Z.geb_spec (at_ dist cur) (10 ^ 9)) as [Hge|Hlt].
  { injection Hrun as <-. exists c, tb.
    destruct (Z.ltb_spec (at_ dist cur) INF); [unfold INF in *; lia|].
    rewrite andb_false_r. done. }
  assert (at_ dist cur < INF) as Hfin by (unfold INF; lia).
  destruct (Z.ltb_spec (at_ dist cur) INF); [|lia]. rewrite !andb_true_r.
  destruct (intend_loop_spec obstacles g dist cur Hwf Hdist Hin Hfree Hfin)
    as (best & Hloop).
  rewrite Hloop in Hrun. simpl in Hrun.
  destruct (first_closer dist (nd_H obstacles) (nd_W obstacles) cur)
    as [n|] eqn:Hfc; simpl in Hrun.
  - destruct (first_closer_Some obstacles dist cur n Hfc) as (Hne & _ & Hn & _).
    rewrite bool_decide_eq_false_2 in Hrun by done. simpl in Hrun.
    destruct (bool_decide (nxt = cur)); simpl in Hrun.
    + apply bind_Ok in Hrun as (c' & Hincr & Hrun). injection Hrun as <-.
      exists c', (tb + 1). done.
    + injection Hrun as <-. exists c, tb. done.
  - rewrite bool_decide_eq_true_2 in Hrun by done. simpl in Hrun.
    injection Hrun as <-. exists c, tb. by destruct (bool_decide (nxt = cur)).
Qed.

(** The whole body of the wait / blocking-pressure loop. *)
Lemma wc_body_effect paths goals reach cache obstacles t i w c tw tb st' :
  nd_wf obstacles → build_dist_cache obstacles goals = Ok cache →
  wc_body paths goals reach cache obstacles (nd_H obstacles) (nd_W obstacles)
    t i (w, c, tw, tb) = Ok st' →
  ∃ w' c' tb',
    st' = (w', c', tw + (if stays paths reach t i then 1 else 0), tb')
    ∧ match wait_hit paths reach (nd_H obstacles) (nd_W obstacles) t i with
      | Some p => inb (nd_H obstacles) (nd_W obstacles) p
                  ∧ nd_incr w p.2 p.1 = Ok w'
      | None => w' = w
      end
    ∧ match blocked_hit paths goals reach obstacles t i with
      | Some p => inb (nd_H obstacles) (nd_W obstacles) p
                  ∧ nd_incr c p.2 p.1 = Ok c' ∧ tb' = tb + 1
      | None => c' = c ∧ tb' = tb
      end.
Proof.
  intros Hwf Hcache Hrun. unfold wc_body in Hrun.
  unfold wait_hit, blocked_hit, stays.
  apply bind_Ok in Hrun as (r & Hr%of_option_Ok & Hrun). rewrite Hr.
  destruct (Z.geb_spec (Z.of_nat t) r) as [Hge|Hlt].
  { injection Hrun as <-. exists w, c, tb.
    destruct (Z.ltb_spec (Z.of_nat t) r); [lia|].
    destruct (position paths t i) as [cur|]; simpl.
    - destruct (position paths (S t) i); simpl.
      + rewrite Z.add_0_r. split_and!; try done.
        destruct (goals !! i) as [g|]; simpl; [|done].
        by destruct (_bfs_dist obstacles g).
      + rewrite Z.add_0_r. split_and!; try done.
        destruct (goals !! i) as [g|]; simpl; [|done].
        by destruct (_bfs_dist obstacles g).
    - rewrite Z.add_0_r. done. }
  apply bind_Ok in Hrun as (row & Hrow%of_option_Ok & Hrun).
  apply bind_Ok in Hrun as (cur & Hcur%of_option_Ok & Hrun).
  apply bind_Ok in Hrun as (row' & Hrow'%of_option_Ok & Hrun).
  apply bind_Ok in Hrun as (nxt & Hnxt%of_option_Ok & Hrun).
  apply bind_Ok in Hrun as ([[[w1 c1] tw1] tb1] & Hst1 & Hrun).
  assert (position paths t i = Some cur) as Hpc
    by (unfold position; rewrite Hrow; done).
  assert (position paths (S t) i = Some nxt) as Hpn
    by (unfold position; rewrite Hrow'; done).
  rewrite Hpc, Hpn. simpl.
  destruct (Z.ltb_spec (Z.of_nat t) r); [|lia]. simpl.
  apply (pressure_part_effect _ _ _ _ _ _ _ _ _ _ _ Hwf Hcache) in Hrun
    as (g & dist & c' & tb' & Hg & Hdist & -> & Hpress).
  rewrite Hg. simpl. rewrite Hdist.
  exists w1, c', tb'.
  assert (c1 = c ∧ tb1 = tb
          ∧ tw1 = tw + (if bool_decide (nxt = cur) then 1 else 0)
          ∧ match (if bool_decide (nxt = cur)
                      && in_bounds (nd_H obstacles) (nd_W obstacles) cur
                   then Some cur else None) with
            | Some p => inb (nd_H obstacles) (nd_W obstacles) p
                        ∧ nd_incr w p.2 p.1 = Ok w1
            | None => w1 = w
            end) as (-> & -> & -> & Hwait).
  { case_bool_decide as Hstay; simpl.
    - apply bind_Ok in Hst1 as (w' & Hw' & Hst1).
      injection Hst1 as <- <- <- <-. split_and!; try done.
      destruct (in_bounds _ _ cur) eqn:Hb.
      + split; [by apply in_bounds_inb | done].
      + by injection Hw' as <-.
    - injection Hst1 as <- <- <- <-. split_and!; try done. lia. }
  split_and!; [done | done |].
  destruct (bool_decide (nxt = cur)); simpl in *; done.
Qed.

(** ** The three heat maps, cell by cell *)

(** X3.  In a run that [compute_wait_collision_heatmaps] processes (fewer
    than 2^31 agent-steps), [occupancy_map] has shape [H x W] and each of
    its cells holds the number of pairs [(t, i)] with [t <= reach_t[i]]
    whose position [paths[t][i]] is that cell; positions outside the grid
    are counted nowhere. *)
Theorem occupancy_cells (paths : list (list XY)) (goals : list XY)
    (H W : Z) (obstacles : option ndarray)
    (wait_map collision_map occupancy_map : ndarray) (d : details) :
  compute_wait_collision_heatmaps paths goals H W obstacles
  = Ok (wait_map, collision_map, occupancy_map, d) →
  Z.of_nat (length paths) * Z.of_nat (num_agents_of paths) < 2 ^ 31 →
  cells_inv H W occupancy_map
    (hit_count (occ_hit paths (d_reach_t d) H W)
       (length paths) (num_agents_of paths)).
Proof.
  intros Hrun Hsmall.
  apply compute_inv in Hrun
    as (obs & reach & cache & w0 & c0 & o0 & tw & tb & -> & HT & Hg & Hreach
        & Hw0 & Hc0 & Ho0 & Hcache & Hocc & Hwc & ->).
  simpl.
  apply (counting_loop (λ a : ndarray, a) H W (occ_hit paths reach H W)
           (occ_body paths reach H W) (length paths) (num_agents_of paths)
           Hsmall) in Hocc; [done | | by apply cells_inv_zeros].
  intros t i s s' _ _ Hb _ _ _. by apply occ_body_hit.
Qed.

Lemma occupancy_cells_witness :
  compute_wait_collision_heatmaps [[(0, 0)]; [(0, 0)]; [(1, 0)]] [(1, 0)] 1 2
    (Some (NdArray 1 2 [0; 0]))
  = Ok (NdArray 1 2 [1; 0], NdArray 1 2 [0; 1], NdArray 1 2 [2; 1],
        Details 3 1 [2] 1 1)
  ∧ hit_count (occ_hit [[(0, 0)]; [(0, 0)]; [(1, 0)]] [2] 1 2) 3 1 (0, 0) = 2.
Proof.
  assert (compute_wait_collision_heatmaps [[(0, 0)]; [(0, 0)]; [(1, 0)]]
            [(1, 0)] 1 2 (Some (NdArray 1 2 [0; 0]))
          = Ok (NdArray 1 2 [1; 0], NdArray 1 2 [0; 1], NdArray 1 2 [2; 1],
                Details 3 1 [2] 1 1)) as Hrun by (vm_compute; reflexivity).
  split; [exact Hrun|].
  assert (Z.of_nat (length [[(0, 0)]; [(0, 0)]; [(1, 0)]])
          * Z.of_nat (num_agents_of [[(0, 0)]; [(0, 0)]; [(1, 0)]]) < 2 ^ 31)
    as Hsmall by (simpl; lia).
  destruct (occupancy_cells _ _ _ _ _ _ _ _ _ Hrun Hsmall) as (_ & _ & _ & Hc).
  symmetry. apply (Hc (0, 0)). unfold inb. simpl. lia.
Defined.

Lemma compute_inv_grid paths goals obs w c o d :
  compute_wait_collision_heatmaps paths goals (nd_H obs) (nd_W obs) (Some obs)
  = Ok (w, c, o, d) →
  ∃ cache w0 c0,
    build_dist_cache obs goals = Ok cache
    ∧ np_zeros (nd_H obs) (nd_W obs) = Ok w0
    ∧ np_zeros (nd_H obs) (nd_W obs) = Ok c0
    ∧ for_each (λ t st,
          for_each (wc_body paths goals (d_reach_t d) cache obs
                      (nd_H obs) (nd_W obs) t)
            (range (num_agents_of paths)) st)
        (range (length paths - 1)) (w0, c0, 0, 0)
      = Ok (w, c, d_total_wait d, d_total_blocked d).
Proof.
  intros Hrun.
  apply compute_inv in Hrun
    as (obs' & reach & cache & w0 & c0 & o0 & tw & tb & [= <-] & HT & Hg & Hreach
        & Hw0 & Hc0 & Ho0 & Hcache & Hocc & Hwc & ->).
  exists cache, w0, c0. done.
Qed.

(** X4.  On a grid whose mask has the shape [H x W], [wait_map] holds in
    each cell the number of pairs [(t, i)], [t] before the reach time of
    agent [i], at which the agent is on that cell and stays there at
    [t + 1]; [total_wait] is the number of all such pairs, those outside
    the grid included. *)
Theorem wait_map_cells (paths : list (list XY)) (goals : list XY)
    (obs : ndarray) (wait_map collision_map occupancy_map : ndarray)
    (d : details) :
  nd_wf obs →
  compute_wait_collision_heatmaps paths goals (nd_H obs) (nd_W obs) (Some obs)
  = Ok (wait_map, collision_map, occupancy_map, d) →
  Z.of_nat (length paths) * Z.of_nat (num_agents_of paths) < 2 ^ 31 →
  cells_inv (nd_H obs) (nd_W obs) wait_map
    (hit_count (wait_hit paths (d_reach_t d) (nd_H obs) (nd_W obs))
       (length paths - 1) (num_agents_of paths))
  ∧ d_total_wait d
    = ind_count (λ t i, if stays paths (d_reach_t d) t i then 1 else 0)
        (length paths - 1) (num_agents_of paths).
Proof.
  intros Hwf Hrun Hsmall.
  apply compute_inv_grid in Hrun as (cache & w0 & c0 & Hcache & Hw0 & Hc0 & Hwc).
  split.
  - apply (counting_loop (λ st : wc_state, st.1.1.1) (nd_H obs) (nd_W obs)
             (wait_hit paths (d_reach_t d) (nd_H obs) (nd_W obs))
             (wc_body paths goals (d_reach_t d) cache obs (nd_H obs) (nd_W obs))
             (length paths - 1) (num_agents_of paths)) in Hwc.
    + exact Hwc.
    + nia.
    + intros t i [[[w c] tw] tb] s' _ _ Hb _ _ _.
      apply (wc_body_effect _ _ _ _ _ _ _ _ _ _ _ _ Hwf Hcache) in Hb
        as (w' & c' & tb' & -> & Hwait & _).
      exact Hwait.
    + by apply cells_inv_zeros.
  - apply (adding_loop (λ st : wc_state, st.1.2)
             (λ t i, if stays paths (d_reach_t d) t i then 1 else 0)
             (wc_body paths goals (d_reach_t d) cache obs (nd_H obs) (nd_W obs))
             (length paths - 1) (num_agents_of paths)) in Hwc.
    + simpl in Hwc. lia.
    + intros t i [[[w c] tw] tb] s' _ _ Hb.
      apply (wc_body_effect _ _ _ _ _ _ _ _ _ _ _ _ Hwf Hcache) in Hb
        as (w' & c' & tb' & -> & _). done.
Qed.

Lemma wait_map_cells_witness :
  nd_wf (NdArray 1 2 [0; 0])
  ∧ compute_wait_collision_heatmaps [[(0, 0)]; [(0, 0)]; [(1, 0)]] [(1, 0)] 1 2
      (Some (NdArray 1 2 [0; 0]))
    = Ok (NdArray 1 2 [1; 0], NdArray 1 2 [0; 1], NdArray 1 2 [2; 1],
          Details 3 1 [2] 1 1)
  ∧ ind_count (λ t i, if stays [[(0, 0)]; [(0, 0)]; [(1, 0)]] [2] t i
                      then 1 else 0) 2 1 = 1.
Proof.
  assert (nd_wf (NdArray 1 2 [0; 0])) as Hwf by (unfold nd_wf; simpl; lia).
  assert (compute_wait_collision_heatmaps [[(0, 0)]; [(0, 0)]; [(1, 0)]]
            [(1, 0)] (nd_H (NdArray 1 2 [0; 0])) (nd_W (NdArray 1 2 [0; 0]))
            (Some (NdArray 1 2 [0; 0]))
          = Ok (NdArray 1 2 [1; 0], NdArray 1 2 [0; 1], NdArray 1 2 [2; 1],
                Details 3 1 [2] 1 1)) as Hrun by (vm_compute; reflexivity).
  split; [exact Hwf|]. split; [exact Hrun|].
  assert (Z.of_nat (length [[(0, 0)]; [(0, 0)]; [(1, 0)]])
          * Z.of_nat (num_agents_of [[(0, 0)]; [(0, 0)]; [(1, 0)]]) < 2 ^ 31)
    as Hsmall by (simpl; lia).
  destruct (wait_map_cells _ _ _ _ _ _ _ Hwf Hrun Hsmall) as [_ Htotal].
  symmetry. exact Htotal.
Defined.

(** C2.  In a run of [compute_wait_collision_heatmaps] on a grid whose
    mask has the shape [H x W] (fewer than 2^31 agent-steps).  For every
    agent [i] at every timestep [t] of the loop before its reach time
    whose current cell is inside the grid, free and at a distance below
    [INF] in the field of its goal: the cell the loop over the neighbours
    selects is the first neighbour, in the order (+1,0), (-1,0), (0,+1),
    (0,-1), whose distance is strictly less than the current cell's, and
    the current cell itself when there is none; the cell of
    [collision_map] incremented at [(t, i)] is that neighbour when the
    agent is on the same cell at [t + 1], and there is no increment
    otherwise; the neighbour is adjacent to the current cell and is not
    the current cell.  Each cell of the [collision_map] returned holds the
    number of pairs [(t, i)] at which it is incremented, and
    [total_blocked] is the number of pairs at which some cell is. *)
Theorem intended_cell_and_pressure (paths : list (list XY)) (goals : list XY)
    (obs : ndarray) (wait_map collision_map occupancy_map : ndarray)
    (d : details) :
  nd_wf obs →
  compute_wait_collision_heatmaps paths goals (nd_H obs) (nd_W obs) (Some obs)
  = Ok (wait_map, collision_map, occupancy_map, d) →
  Z.of_nat (length paths) * Z.of_nat (num_agents_of paths) < 2 ^ 31 →
  (∀ t i cur g r,
     (t < length paths - 1)%nat → (i < num_agents_of paths)%nat →
     position paths t i = Some cur → goals !! i = Some g →
     d_reach_t d !! i = Some r → Z.of_nat t < r →
     inb (nd_H obs) (nd_W obs) cur → free obs cur →
     ∃ dist, _bfs_dist obs g = Ok dist
       ∧ (at_ dist cur < INF →
          (∃ best,
             intend_loop obs dist (nd_H obs) (nd_W obs) cur (at_ dist cur)
             = Ok (default cur (first_closer dist (nd_H obs) (nd_W obs) cur),
                   best))
          ∧ blocked_hit paths goals (d_reach_t d) obs t i
            = (if bool_decide (position paths (S t) i = Some cur)
               then first_closer dist (nd_H obs) (nd_W obs) cur
               else None)
          ∧ ∀ n, first_closer dist (nd_H obs) (nd_W obs) cur = Some n →
                 n ≠ cur ∧ adj4 cur n ∧ inb (nd_H obs) (nd_W obs) n
                 ∧ at_ dist n < at_ dist cur))
  ∧ cells_inv (nd_H obs) (nd_W obs) collision_map
      (hit_count (blocked_hit paths goals (d_reach_t d) obs)
         (length paths - 1) (num_agents_of paths))
  ∧ d_total_blocked d
    = ind_count (λ t i, if blocked_hit paths goals (d_reach_t d) obs t i
                        then 1 else 0)
        (length paths - 1) (num_agents_of paths).
Proof.
  intros Hwf Hrun Hsmall.
  apply compute_inv_grid in Hrun as (cache & w0 & c0 & Hcache & Hw0 & Hc0 & Hwc).
  split_and!.
  - intros t i cur g r Ht Hi Hcur Hg Hr Htr Hin Hfree.
    destruct (build_dist_cache_lookup _ _ _ g Hcache) as (dist & _ & Hdist).
    { by eapply list_elem_of_lookup_2. }
    exists dist. split; [done|]. intros Hfin. split_and!.
    + apply (intend_loop_spec obs g dist cur Hwf Hdist Hin Hfree Hfin).
    + unfold blocked_hit, stays. rewrite Hcur, Hg, Hr. cbn [mbind option_bind].
      rewrite Hdist.
      assert (in_bounds (nd_H obs) (nd_W obs) cur = true) as ->
        by (by apply in_bounds_inb).
      unfold free in Hfree. rewrite Hfree, Z.eqb_refl.
      destruct (Z.ltb_spec (at_ dist cur) INF); [|lia].
      destruct (Z.ltb_spec (Z.of_nat t) r); [|lia].
      destruct (position paths (S t) i) as [nxt|]; cbn [andb].
      * rewrite !andb_true_r.
        destruct (decide (nxt = cur)) as [->|Hne].
        -- by rewrite !bool_decide_eq_true_2.
        -- rewrite !bool_decide_eq_false_2; [done | congruence | done].
      * by rewrite bool_decide_eq_false_2.
    + intros n Hfc. by apply (first_closer_Some obs dist cur n).
  - apply (counting_loop (λ st : wc_state, st.1.1.2) (nd_H obs) (nd_W obs)
             (blocked_hit paths goals (d_reach_t d) obs)
             (wc_body paths goals (d_reach_t d) cache obs (nd_H obs) (nd_W obs))
             (length paths - 1) (num_agents_of paths)) in Hwc.
    + exact Hwc.
    + nia.
    + intros t i [[[w c] tw] tb] s' _ _ Hb _ _ _.
      apply (wc_body_effect _ _ _ _ _ _ _ _ _ _ _ _ Hwf Hcache) in Hb
        as (w' & c' & tb' & -> & _ & Hpress). simpl.
      destruct (blocked_hit paths goals (d_reach_t d) obs t i); [|tauto].
      tauto.
    + by apply cells_inv_zeros.
  - apply (adding_loop (λ st : wc_state, st.2)
             (λ t i, if blocked_hit paths goals (d_reach_t d) obs t i
                     then 1 else 0)
             (wc_body paths goals (d_reach_t d) cache obs (nd_H obs) (nd_W obs))
             (length paths - 1) (num_agents_of paths)) in Hwc.
    + simpl in Hwc. lia.
    + intros t i [[[w c] tw] tb] s' _ _ Hb.
      apply (wc_body_effect _ _ _ _ _ _ _ _ _ _ _ _ Hwf Hcache) in Hb
        as (w' & c' & tb' & -> & _ & Hpress). simpl.
      destruct (blocked_hit paths goals (d_reach_t d) obs t i); lia.
Qed.

Lemma intended_cell_and_pressure_witness :
  compute_wait_collision_heatmaps [[(0, 2)]; [(0, 2)]; [(0, 1)]; [(0, 0)]]
    [(0, 0)] 3 3 (Some (NdArray 3 3 [0;0;0; 0;0;0; 0;0;0]))
  = Ok (NdArray 3 3 [0;0;0; 0;0;0; 1;0;0], NdArray 3 3 [0;0;0; 1;0;0; 0;0;0],
        NdArray 3 3 [1;0;0; 1;0;0; 2;0;0], Details 4 1 [3] 1 1)
  ∧ first_closer (NdArray 3 3 [0;1;2; 1;2;3; 2;3;4]) 3 3 (0, 2) = Some (0, 1)
  ∧ blocked_hit [[(0, 2)]; [(0, 2)]; [(0, 1)]; [(0, 0)]] [(0, 0)] [3]
      (NdArray 3 3 [0;0;0; 0;0;0; 0;0;0]) 0 0 = Some (0, 1)
  ∧ at_ (NdArray 3 3 [0;0;0; 1;0;0; 0;0;0]) (0, 1)
    = hit_count (blocked_hit [[(0, 2)]; [(0, 2)]; [(0, 1)]; [(0, 0)]] [(0, 0)]
                   [3] (NdArray 3 3 [0;0;0; 0;0;0; 0;0;0])) 3 1 (0, 1)
  ∧ ind_count (λ t i, if blocked_hit [[(0, 2)]; [(0, 2)]; [(0, 1)]; [(0, 0)]]
                            [(0, 0)] [3] (NdArray 3 3 [0;0;0; 0;0;0; 0;0;0]) t i
                      then 1 else 0) 3 1 = 1.
Proof.
  assert (nd_wf (NdArray 3 3 [0;0;0; 0;0;0; 0;0;0])) as Hwf
    by (unfold nd_wf; simpl; lia).
  assert (compute_wait_collision_heatmaps
            [[(0, 2)]; [(0, 2)]; [(0, 1)]; [(0, 0)]] [(0, 0)]
            (nd_H (NdArray 3 3 [0;0;0; 0;0;0; 0;0;0]))
            (nd_W (NdArray 3 3 [0;0;0; 0;0;0; 0;0;0]))
            (Some (NdArray 3 3 [0;0;0; 0;0;0; 0;0;0]))
          = Ok (NdArray 3 3 [0;0;0; 0;0;0; 1;0;0],
                NdArray 3 3 [0;0;0; 1;0;0; 0;0;0],
                NdArray 3 3 [1;0;0; 1;0;0; 2;0;0], Details 4 1 [3] 1 1))
    as Hrun by (vm_compute; reflexivity).
  assert (Z.of_nat (length [[(0, 2)]; [(0, 2)]; [(0, 1)]; [(0, 0)]])
          * Z.of_nat (num_agents_of [[(0, 2)]; [(0, 2)]; [(0, 1)]; [(0, 0)]])
          < 2 ^ 31) as Hsmall by (simpl; lia).
  destruct (intended_cell_and_pressure _ _ _ _ _ _ _ Hwf Hrun Hsmall)
    as (Hstep & (_ & _ & _ & Hcells) & Htotal).
  split; [exact Hrun|].
  destruct (Hstep 0%nat 0%nat (0, 2) (0, 0) 3) as (dist & Hdist & Hint).
  { simpl. lia. }
  { simpl. lia. }
  { reflexivity. }
  { reflexivity. }
  { reflexivity. }
  { lia. }
  { unfold inb. simpl. lia. }
  { reflexivity. }
  vm_compute in Hdist. injection Hdist as <-.
  destruct Hint as (_ & Hhit & Hfc).
  { unfold INF. vm_compute. reflexivity. }
  assert (first_closer (NdArray 3 3 [0;1;2; 1;2;3; 2;3;4]) 3 3 (0, 2)
          = Some (0, 1)) as Hfirst by (vm_compute; reflexivity).
  split; [exact Hfirst|]. split.
  { etrans; [exact Hhit|]. exact Hfirst. }
  split.
  - apply (Hcells (0, 1)). unfold inb. simpl. lia.
  - symmetry. exact Htotal.
Defined.

(** X5.  On a grid whose mask has the shape [H x W], [collision_map]
    holds in each cell the number of pairs [(t, i)], [t] before the reach
    time of agent [i], at which the agent stays on a free cell of the grid
    with a finite distance to its goal and that cell is the first strictly
    closer neighbour of the agent's cell; [total_blocked] is the number of
    pairs that have such a neighbour. *)
Theorem pressure_map_cells (paths : list (list XY)) (goals : list XY)
    (obs : ndarray) (wait_map collision_map occupancy_map : ndarray)
    (d : details) :
  nd_wf obs →
  compute_wait_collision_heatmaps paths goals (nd_H obs) (nd_W obs) (Some obs)
  = Ok (wait_map, collision_map, occupancy_map, d) →
  Z.of_nat (length paths) * Z.of_nat (num_agents_of paths) < 2 ^ 31 →
  cells_inv (nd_H obs) (nd_W obs) collision_map
    (hit_count (blocked_hit paths goals (d_reach_t d) obs)
       (length paths - 1) (num_agents_of paths))
  ∧ d_total_blocked d
    = ind_count (λ t i, if blocked_hit paths goals (d_reach_t d) obs t i
                        then 1 else 0)
        (length paths - 1) (num_agents_of paths).
Proof.
  intros Hwf Hrun Hsmall.
  apply compute_inv_grid in Hrun as (cache & w0 & c0 & Hcache & Hw0 & Hc0 & Hwc).
  split.
  - apply (counting_loop (λ st : wc_state, st.1.1.2) (nd_H obs) (nd_W obs)
             (blocked_hit paths goals (d_reach_t d) obs)
             (wc_body paths goals (d_reach_t d) cache obs (nd_H obs) (nd_W obs))
             (length paths - 1) (num_agents_of paths)) in Hwc.
    + exact Hwc.
    + nia.
    + intros t i [[[w c] tw] tb] s' _ _ Hb _ _ _.
      apply (wc_body_effect _ _ _ _ _ _ _ _ _ _ _ _ Hwf Hcache) in Hb
        as (w' & c' & tb' & -> & _ & Hpress). simpl.
      destruct (blocked_hit paths goals (d_reach_t d) obs t i); [|tauto].
      tauto.
    + by apply cells_inv_zeros.
  - apply (adding_loop (λ st : wc_state, st.2)
             (λ t i, if blocked_hit paths goals (d_reach_t d) obs t i
                     then 1 else 0)
             (wc_body paths goals (d_reach_t d) cache obs (nd_H obs) (nd_W obs))
             (length paths - 1) (num_agents_of paths)) in Hwc.
    + simpl in Hwc. lia.
    + intros t i [[[w c] tw] tb] s' _ _ Hb.
      apply (wc_body_effect _ _ _ _ _ _ _ _ _ _ _ _ Hwf Hcache) in Hb
        as (w' & c' & tb' & -> & _ & Hpress). simpl.
      destruct (blocked_hit paths goals (d_reach_t d) obs t i); lia.
Qed.

Lemma pressure_map_cells_witness :
  nd_wf (NdArray 1 2 [0; 0])
  ∧ compute_wait_collision_heatmaps [[(0, 0)]; [(0, 0)]; [(1, 0)]] [(1, 0)] 1 2
      (Some (NdArray 1 2 [0; 0]))
    = Ok (NdArray 1 2 [1; 0], NdArray 1 2 [0; 1], NdArray 1 2 [2; 1],
          Details 3 1 [2] 1 1)
  ∧ hit_count (blocked_hit [[(0, 0)]; [(0, 0)]; [(1, 0)]] [(1, 0)] [2]
                 (NdArray 1 2 [0; 0])) 2 1 (1, 0) = 1.
Proof.
  assert (nd_wf (NdArray 1 2 [0; 0])) as Hwf by (unfold nd_wf; simpl; lia).
  assert (compute_wait_collision_heatmaps [[(0, 0)]; [(0, 0)]; [(1, 0)]]
            [(1, 0)] (nd_H (NdArray 1 2 [0; 0])) (nd_W (NdArray 1 2 [0; 0]))
            (Some (NdArray 1 2 [0; 0]))
          = Ok (NdArray 1 2 [1; 0], NdArray 1 2 [0; 1], NdArray 1 2 [2; 1],
                Details 3 1 [2] 1 1)) as Hrun by (vm_compute; reflexivity).
  split; [exact Hwf|]. split; [exact Hrun|].
  assert (Z.of_nat (length [[(0, 0)]; [(0, 0)]; [(1, 0)]])
          * Z.of_nat (num_agents_of [[(0, 0)]; [(0, 0)]; [(1, 0)]]) < 2 ^ 31)
    as Hsmall by (simpl; lia).
  destruct (pressure_map_cells _ _ _ _ _ _ _ Hwf Hrun Hsmall)
    as [(_ & _ & _ & Hc) _].
  symmetry. apply (Hc (1, 0)). unfold inb. simpl. lia.
Defined.

(** ** [_first_reach_times] and its callers *)

(** X6.  When [_first_reach_times] returns, it returns one entry per
    agent; the entry of an agent is the sentinel 10^9 when the agent is
    never on its goal, and otherwise the first timestep at which it is. *)
Theorem first_reach_times_meaning (paths : list (list XY)) (goals : list XY)
    (reach : list Z) :
  _first_reach_times paths goals = Ok reach →
  length reach = num_agents_of paths
  ∧ ∀ i r, reach !! i = Some r →
      (r = 10 ^ 9 ∧ ∀ t, ¬ reaches_at paths goals i t)
      ∨ (∃ t : nat, r = Z.of_nat t ∧ (t < length paths)%nat
                    ∧ first_reaches_at paths goals i t).
Proof.
  intros Hrun. split.
  - by destruct (first_reach_times_spec _ _ _ Hrun).
  - intros i r Hr. exact (reach_entry _ _ _ _ _ Hrun Hr).
Qed.

Lemma first_reach_times_meaning_witness :
  _first_reach_times [[(0, 0); (3, 3)]; [(1, 0); (3, 3)]] [(1, 0); (0, 0)]
  = Ok [1; 10 ^ 9]
  ∧ first_reaches_at [[(0, 0); (3, 3)]; [(1, 0); (3, 3)]] [(1, 0); (0, 0)] 0 1.
Proof.
  assert (_first_reach_times [[(0, 0); (3, 3)]; [(1, 0); (3, 3)]]
            [(1, 0); (0, 0)] = Ok [1; 10 ^ 9]) as Hrun
    by (vm_compute; reflexivity).
  split; [exact Hrun|].
  destruct (proj2 (first_reach_times_meaning _ _ _ Hrun) 0%nat 1 eq_refl)
    as [[Hbad _]|(t & Ht & _ & Hfirst)]; [discriminate Hbad|].
  assert (t = 1%nat) as -> by lia. exact Hfirst.
Defined.

Lemma first_reach_scan_Raise rows gi i t0 e :
  first_reach_scan rows gi i t0 = Raise e → e = IndexError.
Proof.
  revert t0. induction rows as [|row rows IH]; intros t0 Hrun; simpl in Hrun;
    [done|].
  destruct (row !! i) as [p|]; simpl in Hrun; [|by injection Hrun as <-].
  case_bool_decide; [done|]. by eapply IH.
Qed.

Lemma first_reach_times_Raise paths goals e :
  _first_reach_times paths goals = Raise e → e = IndexError.
Proof.
  unfold _first_reach_times. intros Hrun.
  apply for_each_Raise in Hrun as (i & reach & _ & Hb).
  destruct (goals !! i) as [gi|]; simpl in Hb; [|by injection Hb as <-].
  destruct (first_reach_scan paths gi i 0) as [r|e'] eqn:Hscan; simpl in Hb.
  - by destruct r.
  - injection Hb as <-. by eapply first_reach_scan_Raise.
Qed.

(** X7.  With fewer goals than agents, [_first_reach_times] raises
    [IndexError], and so does [summarize_run_metrics], which calls it
    without checking the number of goals. *)
Theorem short_goals_raise {F : Type} (paths : list (list XY)) (goals : list XY)
    (wait_map collision_map : ndarray) (runtime_s : F) (solver_rc : Z) :
  (length goals < num_agents_of paths)%nat →
  _first_reach_times paths goals = Raise IndexError
  ∧ summarize_run_metrics paths goals wait_map collision_map runtime_s solver_rc
    = Raise IndexError.
Proof.
  intros Hshort.
  assert (_first_reach_times paths goals = Raise IndexError) as Hraise.
  { destruct (_first_reach_times paths goals) as [reach|e] eqn:Hrun.
    - destruct (first_reach_times_spec _ _ _ Hrun) as (_ & Hdone & _).
      destruct (Hdone (length goals) Hshort) as (gi & _ & Hg & _).
      apply lookup_lt_Some in Hg. lia.
    - by rewrite (first_reach_times_Raise _ _ _ Hrun). }
  split; [done|]. unfold summarize_run_metrics. by rewrite Hraise.
Qed.

Lemma short_goals_raise_witness :
  (length [(0, 0)%Z] < num_agents_of [[(0, 0); (1, 1)]%Z])%nat
  ∧ _first_reach_times [[(0, 0); (1, 1)]] [(0, 0)] = Raise IndexError.
Proof.
  assert (length [(0, 0)%Z] < num_agents_of [[(0, 0); (1, 1)]%Z])%nat as Hshort
    by (simpl; lia).
  split; [exact Hshort|].
  exact (proj1 (short_goals_raise [[(0, 0); (1, 1)]] [(0, 0)]
                  (NdArray 0 0 []) (NdArray 0 0 []) tt 0 Hshort)).
Defined.

(** X8.  [compute_wait_collision_heatmaps] raises nothing on a
    well-formed run: a non-empty trajectory whose rows all have the length
    of the first, as many goals as agents, and a mask that is an array of
    the shape [H x W] it is called with.  The details it returns hold the
    number of timesteps, the number of agents and one reach time per
    agent. *)
Theorem compute_never_raises (paths : list (list XY)) (goals : list XY)
    (obs : ndarray) :
  nd_wf obs → (0 < length paths)%nat →
  (∀ row, row ∈ paths → length row = num_agents_of paths) →
  length goals = num_agents_of paths →
  ∃ wait_map collision_map occupancy_map d,
    compute_wait_collision_heatmaps paths goals (nd_H obs) (nd_W obs) (Some obs)
    = Ok (wait_map, collision_map, occupancy_map, d)
    ∧ d_T d = Z.of_nat (length paths)
    ∧ d_N d = Z.of_nat (num_agents_of paths)
    ∧ length (d_reach_t d) = num_agents_of paths.
Proof.
  intros Hwf Hpos Hrect Hgoals.
  destruct (compute_returns paths goals obs Hwf Hpos Hrect Hgoals)
    as (w & c & o & d & Hrun).
  exists w, c, o, d. split; [done|].
  apply compute_inv in Hrun
    as (obs' & reach & cache & w0 & c0 & o0 & tw & tb & _ & _ & _ & Hreach
        & _ & _ & _ & _ & _ & _ & ->).
  apply first_reach_times_spec in Hreach as (Hlen & _ & _). done.
Qed.

Lemma compute_never_raises_witness :
  nd_wf (NdArray 1 2 [0; 0])
  ∧ ∃ wait_map collision_map occupancy_map d,
      compute_wait_collision_heatmaps [[(0, 0)]; [(0, 0)]; [(1, 0)]] [(1, 0)]
        1 2 (Some (NdArray 1 2 [0; 0]))
      = Ok (wait_map, collision_map, occupancy_map, d)
      ∧ d_T d = 3.
Proof.
  assert (nd_wf (NdArray 1 2 [0; 0])) as Hwf by (unfold nd_wf; simpl; lia).
  split; [exact Hwf|].
  destruct (compute_never_raises [[(0, 0)]; [(0, 0)]; [(1, 0)]] [(1, 0)]
              (NdArray 1 2 [0; 0]) Hwf)
    as (w & c & o & d & Hrun & HT & _).
  - simpl. lia.
  - intros row Hrow.
    apply elem_of_cons in Hrow as [->|Hrow]; [reflexivity|].
    apply elem_of_cons in Hrow as [->|Hrow]; [reflexivity|].
    apply elem_of_cons in Hrow as [->|Hrow]; [reflexivity|].
    by apply elem_of_nil in Hrow.
  - reflexivity.
  - exists w, c, o, d. split; [exact Hrun | exact HT].
Defined.

(** ** [parse_output_txt]: what a successful parse guarantees *)

Lemma solution_lines_cons ln lines :
  solution_lines (ln :: lines)
  = match solution_line ln with
    | Some s => s :: solution_lines lines
    | None => solution_lines lines
    end.
Proof. reflexivity. Qed.

Lemma lines_loop expected lines : ∀ ts0 ps0 ts ps,
  for_each (line_body expected) lines (ts0, ps0) = Ok (ts, ps) →
  ts = ts0 ++ (fst <$> solution_lines lines)
  ∧ ps = ps0 ++ (snd <$> solution_lines lines)
  ∧ (∀ n s, expected = Some n → s ∈ solution_lines lines →
            Z.of_nat (length s.2) = n)
  ∧ ∀ l, l ∈ lines → literals_ok l = true.
Proof.
  induction lines as [|ln lines IH]; intros ts0 ps0 ts ps Hrun.
  - injection Hrun as <- <-. rewrite !app_nil_r. split_and!; try done.
    + intros n s _ Hs. by apply elem_of_nil in Hs.
    + intros l Hl. by apply elem_of_nil in Hl.
  - cbn [for_each] in Hrun. apply bind_Ok in Hrun as ([ts1 ps1] & Hb & Hrun).
    apply IH in Hrun as (-> & -> & Hcnt & Hlit). rewrite solution_lines_cons.
    rewrite line_body_spec in Hb. cbn [fst snd] in Hb.
    destruct (literals_ok ln) eqn:Hlitn; [|done].
    assert (∀ l, l ∈ ln :: lines → literals_ok l = true) as Hlit'.
    { intros l [->|Hl]%elem_of_cons; auto. }
    destruct (solution_line ln) as [[t xy]|]; [|by injection Hb as <- <-].
    assert ((ts1, ps1) = (ts0 ++ [t], ps0 ++ [xy])
            ∧ ∀ n, expected = Some n → Z.of_nat (length xy) = n) as [[= -> ->] Hxy].
    { destruct expected as [n|].
      - destruct (decide _) as [|Heq%dec_stable]; [done|].
        injection Hb as <- <-. split; [done|]. by intros ? [= <-].
      - injection Hb as <- <-. done. }
    rewrite !fmap_cons, <- !app_assoc. simpl. split_and!; try done.
    intros n s Hn [->|Hs]%elem_of_cons; [by apply Hxy | by eapply Hcnt].
Qed.

Lemma lines_loop_total expected lines : ∀ ts0 ps0,
  (∀ l, l ∈ lines → literals_ok l = true) →
  (∀ n s, expected = Some n → s ∈ solution_lines lines →
          Z.of_nat (length s.2) = n) →
  for_each (line_body expected) lines (ts0, ps0)
  = Ok (ts0 ++ (fst <$> solution_lines lines),
        ps0 ++ (snd <$> solution_lines lines)).
Proof.
  induction lines as [|ln lines IH]; intros ts0 ps0 Hlit Hcnt.
  - simpl. by rewrite !app_nil_r.
  - cbn [for_each]. pose proof (solution_lines_cons ln lines) as Hsl.
    assert (literals_ok ln = true) as Hlitn by (apply Hlit; set_solver).
    assert (∀ l, l ∈ lines → literals_ok l = true) as Hlit'.
    { intros l Hl. apply Hlit. set_solver. }
    destruct (solution_line ln) as [[t xy]|] eqn:Hsol; rewrite Hsl in *.
    + assert (line_body expected ln (ts0, ps0)
              = Ok (ts0 ++ [t], ps0 ++ [xy])) as ->.
      { rewrite line_body_spec, Hlitn, Hsol. destruct expected as [n|]; [|done].
        destruct (decide _) as [Hne|]; [|done]. destruct Hne.
        apply (Hcnt n (t, xy)); [done | set_solver]. }
      rewrite bind_Ok_l, IH, !fmap_cons, <- !app_assoc; [done | done |].
      intros n s Hn Hs. apply Hcnt; [done | set_solver].
    + assert (line_body expected ln (ts0, ps0) = Ok (ts0, ps0)) as ->.
      { by rewrite line_body_spec, Hlitn, Hsol. }
      rewrite bind_Ok_l. apply IH; done.
Qed.

(** The line loop stops at the first line with a literal of more than
    4300 digits, when the lines before it pass the count check. *)
Lemma lines_loop_limit expected l1 ln l2 : ∀ st,
  (∀ l, l ∈ l1 → literals_ok l = true) →
  (∀ n s, expected = Some n → s ∈ solution_lines l1 →
          Z.of_nat (length s.2) = n) →
  literals_ok ln = false →
  for_each (line_body expected) (l1 ++ ln :: l2) st
  = Raise ValueError_IntMaxStrDigits.
Proof.
  intros [ts0 ps0] Hlit Hcnt Hlitn.
  rewrite for_each_app, lines_loop_total, bind_Ok_l by done.
  cbn [for_each]. by rewrite line_body_spec, Hlitn.
Qed.

Lemma check_increasing_Ok ts :
  check_increasing ts = Ok tt →
  ∀ k a b, ts !! k = Some a → ts !! S k = Some b → a < b.
Proof.
  induction ts as [|x ts IH]; [done|]. destruct ts as [|y ts].
  - intros _ [|k] a b Ha Hb; done.
  - cbn [check_increasing]. destruct (Z.leb_spec y x); [done|].
    intros Hrun [|k] a b Ha Hb.
    + simpl in Ha, Hb. injection Ha as <-. injection Hb as <-. done.
    + by apply (IH Hrun k).
Qed.

Lemma check_increasing_violation ts :
  (∃ k a b, ts !! k = Some a ∧ ts !! S k = Some b ∧ b ≤ a) →
  ∃ a b, check_increasing ts = Raise (ValueError_NonIncreasing a b) ∧ b ≤ a.
Proof.
  intros (k & a & b & Ha & Hb & Hle).
  destruct (check_increasing ts) as [[]|e] eqn:Hrun.
  - pose proof (check_increasing_Ok ts Hrun k a b Ha Hb). lia.
  - apply check_increasing_Raise in Hrun as (a' & b' & -> & ?). by exists a', b'.
Qed.

Lemma transpose_loop n rows : ∀ paths0 paths',
  for_each (transpose_body n) rows paths0 = Ok paths' →
  length paths0 = Z.to_nat n →
  (∀ row, row ∈ rows → Z.of_nat (length row) = n)
  ∧ length paths' = Z.to_nat n
  ∧ ∀ a, paths' !! a = (λ p0, p0 ++ omap (.!! a) rows) <$> paths0 !! a.
Proof.
  induction rows as [|xy rows IH]; intros paths0 paths' Hrun Hlen.
  - injection Hrun as <-. split_and!; try done.
    + intros row Hrow. by apply elem_of_nil in Hrow.
    + intros a. simpl. destruct (paths0 !! a); simpl; [|done].
      by rewrite app_nil_r.
  - cbn [for_each] in Hrun. apply bind_Ok in Hrun as (paths1 & Hb & Hrun).
    unfold transpose_body in Hb.
    destruct (decide _) as [|Hxy%dec_stable]; [done|]. injection Hb as <-.
    apply IH in Hrun as (Hrows & Hlen' & Hcol).
    2:{ rewrite length_zip_with. lia. }
    split_and!; try done.
    + intros row [->|Hrow]%elem_of_cons; auto.
    + intros a. rewrite Hcol, lookup_zip_with.
      destruct (paths0 !! a) as [p0|] eqn:Hp0; simpl; [|done].
      destruct (lookup_lt_is_Some_2 xy a) as [y Hy].
      { apply lookup_lt_Some in Hp0. lia. }
      rewrite Hy. simpl. by rewrite <- app_assoc.
Qed.

Lemma column_lookup (rows : list (list XY)) a k :
  (∀ row, row ∈ rows → is_Some (row !! a)) →
  omap (.!! a) rows !! k = rows !! k ≫= (.!! a).
Proof.
  revert k. induction rows as [|row rows IH]; intros k Hrows; [done|].
  destruct (Hrows row) as [p Hp]; [set_solver|]. simpl. rewrite Hp.
  destruct k as [|k]; simpl; [done|]. apply IH. intros; apply Hrows. set_solver.
Qed.

Lemma parse_inv lines expected p :
  parse_output_txt lines expected = Ok p →
  timesteps p = fst <$> solution_lines lines
  ∧ positions_by_t p = snd <$> solution_lines lines
  ∧ timesteps p ≠ []
  ∧ check_increasing (timesteps p) = Ok tt
  ∧ num_agents p
    = match expected with
      | Some n => n
      | None => Z.of_nat (length (default [] (head (positions_by_t p))))
      end
  ∧ for_each (transpose_body (num_agents p)) (positions_by_t p)
      (replicate (Z.to_nat (num_agents p)) []) = Ok (paths p)
  ∧ makespan p = default 0 (last (timesteps p))
  ∧ (∀ n s, expected = Some n → s ∈ solution_lines lines →
            Z.of_nat (length s.2) = n)
  ∧ ∀ l, l ∈ lines → literals_ok l = true.
Proof.
  unfold parse_output_txt. intros Hrun.
  apply bind_Ok in Hrun as ([ts ps] & Hloop & Hrun).
  apply lines_loop in Hloop as (-> & -> & Hcnt & Hlit). simpl in Hrun.
  destruct (decide _) as [|Hne]; [done|].
  apply bind_Ok in Hrun as ([] & Hinc & Hrun).
  apply bind_Ok in Hrun as (pa & Htr & Hrun). injection Hrun as <-. simpl.
  split_and!; done.
Qed.

(** X9.  A successful parse returns exactly the solution lines of the
    text, in order: at least one, with strictly increasing timesteps and
    with [num_agents] pairs each ([num_agents] being the expected count
    when one is given); [paths] is the transpose of [positions_by_t],
    [paths[a][k] = positions_by_t[k][a]], and [makespan] is the last
    timestep. *)
Theorem parse_ok_invariants (lines : list string) (expected : option Z)
    (p : parsed) :
  parse_output_txt lines expected = Ok p →
  timesteps p = fst <$> solution_lines lines
  ∧ positions_by_t p = snd <$> solution_lines lines
  ∧ timesteps p ≠ []
  ∧ (∀ k a b, timesteps p !! k = Some a → timesteps p !! S k = Some b → a < b)
  ∧ (∀ row, row ∈ positions_by_t p → Z.of_nat (length row) = num_agents p)
  ∧ (∀ n, expected = Some n → num_agents p = n)
  ∧ length (paths p) = Z.to_nat (num_agents p)
  ∧ (∀ a k, paths p !! a ≫= (.!! k) = positions_by_t p !! k ≫= (.!! a))
  ∧ last (timesteps p) = Some (makespan p).
Proof.
  intros Hrun.
  apply parse_inv in Hrun as (Hts & Hps & Hne & Hinc & Hnum & Htr & Hmk & Hcnt & _).
  apply transpose_loop in Htr as (Hrows & Hlen & Hcol);
    [|by rewrite length_replicate].
  split_and!; try done.
  - by apply check_increasing_Ok.
  - intros n ->. done.
  - intros a k. rewrite Hcol.
    destruct (decide (a < Z.to_nat (num_agents p))%nat) as [Ha|Ha].
    + rewrite lookup_replicate_2 by done. simpl. apply column_lookup.
      intros row Hrow. apply lookup_lt_is_Some_2.
      specialize (Hrows row Hrow). lia.
    + assert (replicate (Z.to_nat (num_agents p)) ([] : list XY) !! a = None)
        as -> by (apply lookup_replicate_None; lia).
      simpl.
      destruct (positions_by_t p !! k) as [row|] eqn:Hrow; simpl; [|done].
      symmetry. apply lookup_ge_None_2.
      assert (row ∈ positions_by_t p) as Hin by (by eapply list_elem_of_lookup_2).
      specialize (Hrows row Hin). lia.
  - rewrite Hmk. destruct (last (timesteps p)) eqn:Hl; [done|].
    apply last_None in Hl. done.
Qed.

Lemma parse_ok_invariants_witness :
  parse_output_txt
    ["0:(5,16),(21,29)"; "junk"; " 1 : ( 5 , -17 ),(21,28)"]%string (Some 2)
  = Ok (Parsed [0; 1] [[(5, 16); (21, 29)]; [(5, -17); (21, 28)]]
          [[(5, 16); (5, -17)]; [(21, 29); (21, 28)]] 2 1)
  ∧ ∀ a k,
      [[(5, 16); (5, -17)]; [(21, 29); (21, 28)]] !! a ≫= (.!! k)
      = [[(5, 16); (21, 29)]; [(5, -17); (21, 28)]] !! k ≫= (.!! a).
Proof.
  assert (parse_output_txt
            ["0:(5,16),(21,29)"; "junk"; " 1 : ( 5 , -17 ),(21,28)"]%string
            (Some 2)
          = Ok (Parsed [0; 1] [[(5, 16); (21, 29)]; [(5, -17); (21, 28)]]
                  [[(5, 16); (5, -17)]; [(21, 29); (21, 28)]] 2 1)) as Hrun
    by (vm_compute; reflexivity).
  split; [exact Hrun|].
  destruct (parse_ok_invariants _ _ _ Hrun)
    as (_ & _ & _ & _ & _ & _ & _ & Htr & _).
  exact Htr.
Defined.

(** ** [parse_output_txt]: when it returns and what it raises *)

Lemma check_increasing_total ts :
  strictly_increasing ts → check_increasing ts = Ok tt.
Proof.
  induction ts as [|a ts IH]; [done|]. destruct ts as [|b ts]; [done|].
  intros Hinc. cbn [check_increasing].
  destruct (Z.leb_spec b a) as [Hle|_].
  - specialize (Hinc 0%nat a b eq_refl eq_refl). lia.
  - apply IH. intros k x y Hx Hy. by apply (Hinc (S k)).
Qed.

(** The pair [check_increasing] reports is the first one out of order. *)
Lemma check_increasing_first ts a b :
  check_increasing ts = Raise (ValueError_NonIncreasing a b) →
  ∃ k, ts !! k = Some a ∧ ts !! S k = Some b ∧ b ≤ a
       ∧ strictly_increasing (take (S k) ts).
Proof.
  induction ts as [|x ts IH]; [done|]. destruct ts as [|y ts]; [done|].
  cbn [check_increasing]. destruct (Z.leb_spec y x) as [Hle|Hlt].
  - intros [= <- <-]. exists 0%nat. split_and!; done.
  - intros Hrun. destruct (IH Hrun) as (k & Ha & Hb & Hle & Hinc).
    exists (S k). split_and!; try done.
    intros [|j] u v Hu Hv.
    + simpl in Hu, Hv. injection Hu as <-. injection Hv as <-. done.
    + apply (Hinc j); done.
Qed.

Lemma transpose_body_Ok n xy paths :
  Z.of_nat (length xy) = n →
  transpose_body n xy paths = Ok (zip_with (λ path p, path ++ [p]) paths xy).
Proof.
  intros Hxy. unfold transpose_body. destruct (decide _) as [Hne|_]; done.
Qed.

Lemma transpose_loop_total n rows : ∀ paths0,
  (∀ row, row ∈ rows → Z.of_nat (length row) = n) →
  ∃ paths', for_each (transpose_body n) rows paths0 = Ok paths'.
Proof.
  induction rows as [|xy rows IH]; intros paths0 Hrows; [by eexists|].
  cbn [for_each]. rewrite transpose_body_Ok by (apply Hrows; set_solver).
  rewrite bind_Ok_l. apply IH. intros row Hrow. apply Hrows. set_solver.
Qed.

(** The transposition stops at the first row that has not [n] entries. *)
Lemma transpose_loop_Raise n r1 xy r2 : ∀ paths0,
  (∀ row, row ∈ r1 → Z.of_nat (length row) = n) →
  Z.of_nat (length xy) ≠ n →
  for_each (transpose_body n) (r1 ++ xy :: r2) paths0
  = Raise (ValueError_InconsistentAgentCount n (Z.of_nat (length xy))).
Proof.
  induction r1 as [|row r1 IH]; intros paths0 Hrows Hxy.
  - cbn [app for_each]. unfold transpose_body.
    destruct (decide _) as [_|Heq]; [done|]. by destruct Heq.
  - cbn [app for_each]. rewrite transpose_body_Ok by (apply Hrows; set_solver).
    rewrite bind_Ok_l. apply IH; [|done].
    intros row' Hrow'. apply Hrows. set_solver.
Qed.

Lemma solution_lines_fst_nil lines :
  fst <$> solution_lines lines = [] ↔ solution_lines lines = [].
Proof. split; [apply fmap_nil_inv | by intros ->]. Qed.

(** X10.  [parse_output_txt] returns exactly when [int] converts every
    literal of the text (none has more than 4300 digits), the text has at
    least one solution line, the timesteps of its solution lines increase
    strictly, and every solution line has the required number of pairs
    (the expected count, or without one the count of the first solution
    line). *)
Theorem parse_succeeds_iff (lines : list string) (expected : option Z) :
  (∃ p, parse_output_txt lines expected = Ok p)
  ↔ literals_convert lines
    ∧ solution_lines lines ≠ []
    ∧ strictly_increasing (fst <$> solution_lines lines)
    ∧ uniform_count lines (required_count lines expected).
Proof.
  split.
  - intros [p Hrun].
    apply parse_inv in Hrun as (Hts & Hps & Hne & Hinc & Hnum & Htr & _ & _ & Hlit).
    apply transpose_loop in Htr as (Hrows & _); [|by rewrite length_replicate].
    rewrite Hts in Hne, Hinc. split_and!.
    + done.
    + by rewrite <- solution_lines_fst_nil.
    + intros k a b. by apply check_increasing_Ok.
    + intros s Hs. unfold required_count. rewrite <- Hps, <- Hnum.
      apply Hrows. rewrite Hps. apply list_elem_of_fmap. by exists s.
  - intros (Hlit & Hne & Hinc & Hcnt). unfold parse_output_txt.
    rewrite lines_loop_total; [|done|].
    2:{ intros n s -> Hs. by apply Hcnt. }
    rewrite bind_Ok_l. cbn [app].
    destruct (decide _) as [Hnil|_]; [by apply solution_lines_fst_nil in Hnil|].
    rewrite (check_increasing_total _ Hinc), bind_Ok_l.
    destruct (transpose_loop_total (required_count lines expected)
                (snd <$> solution_lines lines)
                (replicate (Z.to_nat (required_count lines expected)) []))
      as [paths' Htr].
    { intros row (s & -> & Hs)%list_elem_of_fmap. by apply Hcnt. }
    unfold required_count in Htr. rewrite Htr, bind_Ok_l. by eexists.
Qed.

Lemma parse_succeeds_iff_witness :
  (∃ p, parse_output_txt ["0:(1,1),(2,2)"; "3:(1,2),(2,2)"]%string None = Ok p)
  ∧ ¬ (∃ p, parse_output_txt ["0:(1,1),(2,2)"; "3:(1,2)"]%string None = Ok p).
Proof.
  split.
  - apply (proj2 (parse_succeeds_iff
                    ["0:(1,1),(2,2)"; "3:(1,2),(2,2)"]%string None)).
    change (solution_lines ["0:(1,1),(2,2)"; "3:(1,2),(2,2)"]%string)
      with [(0, [(1, 1); (2, 2)]); (3, [(1, 2); (2, 2)])].
    split_and!.
    + intros l Hl.
      apply elem_of_cons in Hl as [->|Hl]; [reflexivity|].
      apply elem_of_cons in Hl as [->|Hl]; [reflexivity|].
      by apply elem_of_nil in Hl.
    + discriminate.
    + intros [|[|k]] a b Ha Hb; simpl in Ha, Hb; try discriminate.
      injection Ha as <-. injection Hb as <-. lia.
    + intros s Hs. unfold required_count.
      change (solution_lines ["0:(1,1),(2,2)"; "3:(1,2),(2,2)"]%string)
        with [(0, [(1, 1); (2, 2)]); (3, [(1, 2); (2, 2)])].
      apply elem_of_cons in Hs as [->|Hs]; [reflexivity|].
      apply elem_of_cons in Hs as [->|Hs]; [reflexivity|].
      by apply elem_of_nil in Hs.
  - intros Hok.
    apply (proj1 (parse_succeeds_iff
                    ["0:(1,1),(2,2)"; "3:(1,2)"]%string None)) in Hok
      as (_ & _ & _ & Hcnt).
    specialize (Hcnt (3, [(1, 2)])).
    change (solution_lines ["0:(1,1),(2,2)"; "3:(1,2)"]%string)
      with [(0, [(1, 1); (2, 2)]); (3, [(1, 2)])] in Hcnt.
    unfold required_count in Hcnt.
    change (solution_lines ["0:(1,1),(2,2)"; "3:(1,2)"]%string)
      with [(0, [(1, 1); (2, 2)]); (3, [(1, 2)])] in Hcnt.
    assert ((3, [(1, 2)]) ∈ [(0, [(1, 1); (2, 2)]); (3, [(1, 2)])]) as Hin.
    { apply elem_of_cons. right. apply elem_of_cons. by left. }
    specialize (Hcnt Hin). simpl in Hcnt. lia.
Defined.

(** X11.  "No solution lines" is raised exactly when [int] converts
    every literal of the text (none has more than 4300 digits) and no
    line of the text is a solution line: a timestep, a colon and at least
    one pair. *)
Theorem no_solution_lines_iff (lines : list string) (expected : option Z) :
  parse_output_txt lines expected = Raise ValueError_NoSolutionLines
  ↔ literals_convert lines ∧ solution_lines lines = [].
Proof.
  split.
  - unfold parse_output_txt. intros Hrun.
    destruct (for_each (line_body expected) lines ([], [])) as [[ts ps]|e] eqn:Hloop.
    + apply lines_loop in Hloop as (-> & _ & _ & Hlit). rewrite bind_Ok_l in Hrun.
      cbn [app] in Hrun. split; [done|].
      destruct (decide _) as [Hnil|_]; [by apply solution_lines_fst_nil|].
      destruct (check_increasing _) as [[]|e] eqn:Hinc.
      * rewrite bind_Ok_l in Hrun.
        destruct (for_each _ _ _) as [pa|e] eqn:Htr; [done|].
        apply for_each_Raise in Htr as (xy & st0 & _ & Hb).
        apply transpose_body_Raise in Hb. simpl in Hrun. congruence.
      * apply check_increasing_Raise in Hinc as (a & b & -> & _). done.
    + apply for_each_Raise in Hloop as (ln & st0 & _ & Hb).
      apply line_body_Raise in Hb as [[_ ->]|(_ & n & t & xy & _ & _ & _ & ->)];
        done.
  - intros [Hlit Hnil]. unfold parse_output_txt. rewrite lines_loop_total.
    + rewrite Hnil. done.
    + done.
    + intros n s _ Hs. rewrite Hnil in Hs. by apply elem_of_nil in Hs.
Qed.

Lemma no_solution_lines_iff_witness :
  parse_output_txt ["type octile"; "12:"; ":(1,2)"; "x 3:(1,2)"]%string None
  = Raise ValueError_NoSolutionLines.
Proof.
  apply (proj2 (no_solution_lines_iff
                  ["type octile"; "12:"; ":(1,2)"; "x 3:(1,2)"]%string None)).
  split; [|reflexivity].
  intros l Hl.
  repeat (apply elem_of_cons in Hl as [->|Hl]; [reflexivity|]).
  by apply elem_of_nil in Hl.
Defined.

(** X12.  When [int] converts every literal of the text, every solution
    line has the expected number of pairs (or no count is expected) and
    the timesteps of two consecutive solution lines do not increase,
    [parse_output_txt] raises the ordering error and reports the first
    such pair of timesteps. *)
Theorem order_violation_raises (lines : list string) (expected : option Z) :
  literals_convert lines →
  (∀ n, expected = Some n → uniform_count lines n) →
  has_order_violation lines →
  ∃ k a b,
    solution_lines lines !! k = Some a
    ∧ solution_lines lines !! S k = Some b
    ∧ b.1 ≤ a.1
    ∧ strictly_increasing (fst <$> take (S k) (solution_lines lines))
    ∧ parse_output_txt lines expected
      = Raise (ValueError_NonIncreasing a.1 b.1).
Proof.
  intros Hlit Hcnt (k & a & b & Ha & Hb & Hle).
  destruct (check_increasing_violation (fst <$> solution_lines lines))
    as (x & y & Hrun & _).
  { exists k, a.1, b.1. rewrite !list_lookup_fmap, Ha, Hb. done. }
  destruct (check_increasing_first _ _ _ Hrun) as (j & Hx & Hy & Hyx & Hinc).
  rewrite list_lookup_fmap in Hx, Hy.
  destruct (solution_lines lines !! j) as [a'|] eqn:Ha'; [|done].
  destruct (solution_lines lines !! S j) as [b'|] eqn:Hb'; [|done].
  injection Hx as <-. injection Hy as <-.
  exists j, a', b'. split_and!; try done.
  - by rewrite fmap_take.
  - unfold parse_output_txt. rewrite lines_loop_total; [|done|].
    2:{ intros n s Hn Hs. by apply (Hcnt n). }
    rewrite bind_Ok_l. cbn [app].
    destruct (decide _) as [Hnil|_].
    + apply solution_lines_fst_nil in Hnil. by rewrite Hnil in Ha.
    + by rewrite Hrun.
Qed.

Lemma order_violation_raises_witness :
  ∃ k a b,
    solution_lines ["0:(0,0)"; "2:(0,1)"; "2:(0,2)"; "1:(0,3)"]%string !! k
    = Some a
    ∧ solution_lines ["0:(0,0)"; "2:(0,1)"; "2:(0,2)"; "1:(0,3)"]%string !! S k
      = Some b
    ∧ b.1 ≤ a.1
    ∧ strictly_increasing
        (fst <$> take (S k)
           (solution_lines ["0:(0,0)"; "2:(0,1)"; "2:(0,2)"; "1:(0,3)"]%string))
    ∧ parse_output_txt ["0:(0,0)"; "2:(0,1)"; "2:(0,2)"; "1:(0,3)"]%string
        (Some 1)
      = Raise (ValueError_NonIncreasing a.1 b.1).
Proof.
  apply (order_violation_raises
           ["0:(0,0)"; "2:(0,1)"; "2:(0,2)"; "1:(0,3)"]%string (Some 1)).
  - intros l Hl.
    repeat (apply elem_of_cons in Hl as [->|Hl]; [reflexivity|]).
    by apply elem_of_nil in Hl.
  - intros n [= <-] s Hs.
    change (solution_lines ["0:(0,0)"; "2:(0,1)"; "2:(0,2)"; "1:(0,3)"]%string)
      with [(0, [(0, 0)]); (2, [(0, 1)]); (2, [(0, 2)]); (1, [(0, 3)])] in Hs.
    repeat (apply elem_of_cons in Hs as [->|Hs]; [reflexivity|]).
    by apply elem_of_nil in Hs.
  - exists 2%nat, (2, [(0, 2)]), (1, [(0, 3)]).
    split_and!; [reflexivity | reflexivity | simpl; lia].
Defined.

(** X13.  Without an expected count, the count of the first solution
    line is the reference: when [int] converts every literal of the text
    and the timesteps increase strictly, the first solution line with
    another number of pairs makes [parse_output_txt] raise the
    inconsistency error, with the reference count and the count of that
    line. *)
Theorem inconsistent_count_raises (lines : list string)
    (l1 l2 : list (Z * list XY)) (s0 s : Z * list XY) :
  literals_convert lines →
  solution_lines lines = s0 :: l1 ++ s :: l2 →
  strictly_increasing (fst <$> solution_lines lines) →
  (∀ s', s' ∈ l1 → length s'.2 = length s0.2) →
  length s.2 ≠ length s0.2 →
  parse_output_txt lines None
  = Raise (ValueError_InconsistentAgentCount (Z.of_nat (length s0.2))
             (Z.of_nat (length s.2))).
Proof.
  intros Hlit Hsl Hinc Hl1 Hs. unfold parse_output_txt.
  rewrite lines_loop_total by done. rewrite bind_Ok_l. cbn [app].
  destruct (decide _) as [Hnil|_].
  { apply solution_lines_fst_nil in Hnil. by rewrite Hnil in Hsl. }
  rewrite (check_increasing_total _ Hinc), bind_Ok_l.
  assert (snd <$> solution_lines lines
          = (s0.2 :: (snd <$> l1)) ++ s.2 :: (snd <$> l2)) as ->.
  { by rewrite Hsl, fmap_cons, fmap_app, fmap_cons. }
  cbn [app head default].
  change (s0.2 :: (snd <$> l1) ++ s.2 :: (snd <$> l2))
    with ((s0.2 :: (snd <$> l1)) ++ s.2 :: (snd <$> l2)).
  rewrite transpose_loop_Raise.
  - done.
  - intros row [->|(s' & -> & Hs')%list_elem_of_fmap]%elem_of_cons; [done|].
    f_equal. by apply Hl1.
  - unfold id. lia.
Qed.

Lemma inconsistent_count_raises_witness :
  parse_output_txt ["0:(0,0),(1,1)"; "1:(0,1),(1,1)"; "2:(0,2)"]%string None
  = Raise (ValueError_InconsistentAgentCount 2 1).
Proof.
  apply (inconsistent_count_raises
           ["0:(0,0),(1,1)"; "1:(0,1),(1,1)"; "2:(0,2)"]%string
           [(1, [(0, 1); (1, 1)])] [] (0, [(0, 0); (1, 1)]) (2, [(0, 2)])).
  - intros l Hl.
    repeat (apply elem_of_cons in Hl as [->|Hl]; [reflexivity|]).
    by apply elem_of_nil in Hl.
  - reflexivity.
  - change (solution_lines
              ["0:(0,0),(1,1)"; "1:(0,1),(1,1)"; "2:(0,2)"]%string)
      with [(0, [(0, 0); (1, 1)]); (1, [(0, 1); (1, 1)]); (2, [(0, 2)])].
    intros [|[|[|k]]] a b Ha Hb; simpl in Ha, Hb; try discriminate;
      injection Ha as <-; injection Hb as <-; lia.
  - intros s' Hs'. apply elem_of_cons in Hs' as [->|Hs']; [reflexivity|].
    by apply elem_of_nil in Hs'.
  - simpl. lia.
Defined.

(** ** [export_one]: outcomes and the file system *)

Lemma fromfile_tobytes_length bits :
  length (fromfile_f4 (tobytes bits)) = length bits.
Proof.
  unfold tobytes. induction bits as [|b bits IH]; [done|].
  cbn [map concat]. unfold le_bytes at 1. cbn [app fromfile_f4 length].
  by rewrite IH.
Qed.

Lemma allclose0_no_nan p : ∀ p2,
  length p2 = length p → allclose0 p p2 = true → no_nan p.
Proof.
  induction p as [|a p IH]; intros [|b p2] Hlen Hc; try done.
  - constructor.
  - cbn [allclose0] in Hc. apply andb_true_iff in Hc as [Hab Hc].
    constructor; [|apply (IH p2); [by injection Hlen | done]].
    unfold close0 in Hab. destruct (is_nan a); done.
Qed.

Lemma allclose0_refl_iff bits : allclose0 bits bits = true ↔ no_nan bits.
Proof.
  split; [by apply allclose0_no_nan|].
  induction 1 as [|b bits Hb _ IH]; [done|]. cbn [allclose0].
  rewrite IH. unfold close0. rewrite Hb, Z.eqb_refl. done.
Qed.

(** X14.  When [export_one] returns, the source was a 2-D array of some
    shape [H x W] with [H * W] cells, none of them a NaN; the binary file
    holds its [4 * H * W] bytes and the metadata file records the shape,
    the variant and the name of the array's folder; a map header, when
    recorded, has the same dimensions; and every other file is as it
    was.  The array is not empty, and the directories are those that were
    there with those [mkdir] made for the output directory. *)
Theorem export_success (npy_path : path) (map_path : option path)
    (out_dir : path) (variant : string) (σ σ' : fs) :
  export_one npy_path map_path out_dir variant σ = (Ok tt, σ') →
  ∃ p H W m,
    files σ !! npy_path = Some (NpyFile p) ∧ f_shape p = [H; W]
    ∧ Z.of_nat (length (f_bits p)) = H * W ∧ no_nan (f_bits p)
    ∧ files σ' !! child out_dir "heatmap.f32.bin"
      = Some (BinFile (tobytes (f_bits p)))
    ∧ Z.of_nat (length (tobytes (f_bits p))) = H * W * 4
    ∧ files σ' !! child out_dir "heatmap.meta.json" = Some (MetaFile m)
    ∧ shape_height m = H ∧ shape_width m = W
    ∧ ExportBin.variant m = variant ∧ map_name m = name (parent npy_path)
    ∧ (∀ h w, map_header m = Some (h, w) → h = H ∧ w = W)
    ∧ (∀ q, q ≠ child out_dir "heatmap.f32.bin" →
            q ≠ child out_dir "heatmap.meta.json" →
            files σ' !! q = files σ !! q)
    ∧ 0 < H * W
    ∧ ∃ σ0, mkdir_parents out_dir σ = Ok σ0 ∧ dirs σ' = dirs σ0.
Proof.
  intros Hrun.
  destruct (export_one_cases npy_path map_path out_dir variant σ)
    as [(e & σ1 & _ & He & _)
       |(p & H & W & σ0 & agg & Hnpy & Hshape & Hdims & Hmk & Hagg & Hbin)];
    [congruence|].
  rewrite (export_one_run _ _ _ _ _ _ _ _ _ _ Hnpy Hshape Hdims Hmk Hagg Hbin)
    in Hrun.
  cbv zeta in Hrun. rewrite fromfile_tobytes_length in Hrun.
  destruct (Z.eqb_spec (H * W) 0) as [|Hne]; [done|].
  assert ((if negb (Z.of_nat (length (f_bits p)) =? H * W)
           then Raise (RuntimeError_SizeMismatch
                         (Z.of_nat (length (f_bits p))) (H * W))
           else if negb (allclose0 (f_bits p) (fromfile_f4 (tobytes (f_bits p))))
           then Raise RuntimeError_Roundtrip
           else Ok tt) = Ok tt
          ∧ σ' = Fs (<[child out_dir "heatmap.meta.json" :=
                         MetaFile (meta_for npy_path map_path variant H W σ agg)]>
                       (<[child out_dir "heatmap.f32.bin" :=
                            BinFile (tobytes (f_bits p))]> (files σ)))
                    (dirs σ0)) as [Hver ->].
  { destruct (stat σ0 (child out_dir "heatmap.meta.json")); [|done|];
      by injection Hrun as -> <-. }
  destruct (Z.eqb_spec (Z.of_nat (length (f_bits p))) (H * W)) as [Hlen|];
    [|done]. cbn [negb] in Hver.
  destruct (allclose0 _ _) eqn:Hclose; [|done].
  exists p, H, W, (meta_for npy_path map_path variant H W σ agg).
  cbn [files dirs]. split_and!; try done.
  - apply (allclose0_no_nan _ _ (fromfile_tobytes_length _) Hclose).
  - rewrite lookup_insert_ne by apply bin_meta_paths_differ.
    apply lookup_insert_eq.
  - rewrite tobytes_length. lia.
  - apply lookup_insert_eq.
  - intros h w Hm. cbn [meta_for map_header] in Hm.
    destruct map_path as [mp|]; [|done]. by apply (Hdims mp).
  - intros q Hq1 Hq2. by rewrite !lookup_insert_ne.
  - lia.
  - by exists σ0.
Qed.

Lemma export_success_witness :
  ∃ σ', export_one ["out"; "m.map"; "p_raw.npy"]%string None
          ["out"; "m.map"]%string "v"%string
          (Fs {[ ["out"; "m.map"; "p_raw.npy"]%string
                 := NpyFile (F32Array [1; 2] [1065353216; 3221225472]) ]}
              {[ ["out"]%string; ["out"; "m.map"]%string ]})
        = (Ok tt, σ')
    ∧ files σ' !! ["out"; "m.map"; "heatmap.f32.bin"]%string
      = Some (BinFile [0; 0; 128; 63; 0; 0; 0; 192]).
Proof.
  destruct (export_one_no_map 1 2 [1065353216; 3221225472]
              ["out"; "m.map"; "p_raw.npy"]%string ["out"; "m.map"]%string
              "v"%string
              (Fs {[ ["out"; "m.map"; "p_raw.npy"]%string
                     := NpyFile (F32Array [1; 2] [1065353216; 3221225472]) ]}
                  {[ ["out"]%string; ["out"; "m.map"]%string ]}))
    as (m & Hrun).
  - repeat constructor; lia.
  - reflexivity.
  - lia.
  - apply lookup_singleton_eq.
  - vm_compute. reflexivity.
  - vm_compute. reflexivity.
  - vm_compute. reflexivity.
  - vm_compute. reflexivity.
  - change (allclose0 [1065353216; 3221225472] [1065353216; 3221225472])
      with true in Hrun.
    eexists. split; [exact Hrun|].
    destruct (export_success _ _ _ _ _ _ Hrun)
      as (p & H & W & m' & Hnpy & _ & _ & _ & Hbin & _).
    cbn [files] in Hnpy.
    rewrite lookup_singleton_eq in Hnpy. injection Hnpy as <-.
    etrans; [exact Hbin|]. reflexivity.
Defined.

(** X15.  The files after an error of [export_one] that does not come
    from the read-back verification.  An error raised before the writes
    (a missing or unloadable source, an output directory that cannot be
    made, an array that is not 2-D, a shape that disagrees with the map
    header, a sidecar that is not JSON, a directory in the place of the
    binary file) leaves every file as it was; the file system is unchanged
    or has the directories [mkdir] made.  Two errors are raised after the
    binary file is written and before the metadata file is: the
    [ValueError] of [np.min] on an empty array, and a directory in the
    place of the metadata file; then [heatmap.f32.bin] holds the bytes of
    the array and no other file has changed. *)
Theorem export_error_files (npy_path : path)
    (map_path : option path) (out_dir : path) (variant : string)
    (σ σ' : fs) (e : exn) :
  export_one npy_path map_path out_dir variant σ = (Raise e, σ') →
  ¬ verification_error e →
  (early_error e ∧ files σ' = files σ
   ∧ (σ' = σ ∨ mkdir_parents out_dir σ = Ok σ'))
  ∨ (∃ p H W σ0,
       files σ !! npy_path = Some (NpyFile p) ∧ f_shape p = [H; W]
       ∧ mkdir_parents out_dir σ = Ok σ0
       ∧ σ' = Fs (<[child out_dir "heatmap.f32.bin" :=
                      BinFile (tobytes (f_bits p))]> (files σ)) (dirs σ0)
       ∧ ((e = ValueError_ZeroSize ∧ H * W = 0)
          ∨ (e = IsADirectoryError ∧ H * W ≠ 0
             ∧ stat σ0 (child out_dir "heatmap.meta.json") = Directory))).
Proof.
  intros Hrun Hnv.
  destruct (export_one_cases npy_path map_path out_dir variant σ)
    as [(e' & σ1 & Hearly & He & Hfiles & Hdirs)
       |(p & H & W & σ0 & agg & Hnpy & Hshape & Hdims & Hmk & Hagg & Hbin)].
  { rewrite Hrun in He. injection He as -> ->. by left. }
  rewrite (export_one_run _ _ _ _ _ _ _ _ _ _ Hnpy Hshape Hdims Hmk Hagg Hbin)
    in Hrun.
  cbv zeta in Hrun. right. exists p, H, W, σ0.
  destruct (Z.eqb_spec (H * W) 0) as [Hz|Hnz].
  { injection Hrun as <- <-. split_and!; try done. by left. }
  destruct (stat σ0 (child out_dir "heatmap.meta.json")) eqn:Hmeta.
  2:{ injection Hrun as <- <-. split_and!; try done. by right. }
  all: destruct Hnv;
    destruct (negb (_ =? _));
    [injection Hrun as <- _; right; by eexists _, _|];
    destruct (negb (allclose0 _ _)); [|done];
    injection Hrun as <- _; by left.
Qed.

Lemma export_error_files_witness :
  export_one ["out"; "m.map"; "p_raw.npy"]%string None
    ["out"; "bin"]%string "v"%string
    (Fs {[ ["out"; "m.map"; "p_raw.npy"]%string := NpyFile (F32Array [0; 3] []) ]}
        {[ ["out"]%string; ["out"; "m.map"]%string ]})
  = (Raise ValueError_ZeroSize,
     Fs (<[ ["out"; "bin"; "heatmap.f32.bin"]%string := BinFile [] ]>
           {[ ["out"; "m.map"; "p_raw.npy"]%string
              := NpyFile (F32Array [0; 3] []) ]})
        {[ ["out"; "bin"]%string; ["out"]%string; ["out"; "m.map"]%string ]}).
Proof.
  destruct (export_one ["out"; "m.map"; "p_raw.npy"]%string None
              ["out"; "bin"]%string "v"%string
              (Fs {[ ["out"; "m.map"; "p_raw.npy"]%string
                     := NpyFile (F32Array [0; 3] []) ]}
                  {[ ["out"]%string; ["out"; "m.map"]%string ]}))
    as [r σ'] eqn:Hrun.
  assert (r = Raise ValueError_ZeroSize) as ->.
  { apply (f_equal fst) in Hrun. vm_compute in Hrun. symmetry. exact Hrun. }
  destruct (export_error_files _ _ _ _ _ _ _ Hrun)
    as [(Hearly & _)|(p & H & W & σ0 & Hnpy & Hshape & Hmk & -> & _)].
  - intros [Hbad|(got & expected & Hbad)]; discriminate Hbad.
  - unfold early_error in Hearly. naive_solver.
  - cbn [files] in Hnpy. rewrite lookup_singleton_eq in Hnpy.
    injection Hnpy as <-.
    assert (σ0 = Fs {[ ["out"; "m.map"; "p_raw.npy"]%string
                       := NpyFile (F32Array [0; 3] []) ]}
                    ({[ ["out"; "bin"]%string ]}
                     ∪ {[ ["out"]%string; ["out"; "m.map"]%string ]})) as ->.
    { assert (Ok σ0
              = Ok (Fs {[ ["out"; "m.map"; "p_raw.npy"]%string
                          := NpyFile (F32Array [0; 3] []) ]}
                       ({[ ["out"; "bin"]%string ]}
                        ∪ {[ ["out"]%string; ["out"; "m.map"]%string ]})))
        as Heq; [|by injection Heq].
      rewrite <- Hmk. unfold mkdir_parents. cbn [mkdir_from app].
      assert (stat (Fs {[ ["out"; "m.map"; "p_raw.npy"]%string
                          := NpyFile (F32Array [0; 3] []) ]}
                       {[ ["out"]%string; ["out"; "m.map"]%string ]})
                ["out"]%string = Directory) as -> by (vm_compute; reflexivity).
      assert (stat (Fs {[ ["out"; "m.map"; "p_raw.npy"]%string
                          := NpyFile (F32Array [0; 3] []) ]}
                       {[ ["out"]%string; ["out"; "m.map"]%string ]})
                ["out"; "bin"]%string = Missing) as -> by (vm_compute; reflexivity).
      reflexivity. }
    reflexivity.
Defined.

(** X16.  For a [float32] array that is not empty, whose size matches
    its shape and whose shape agrees with the map header, when the call
    gets to its writes (the output directory can be made, the sidecar, if
    there is one, is read, and no directory is in the place of either
    output file), the outcome of [export_one] is decided by the NaN cells
    alone: without any the call returns (infinite cells pass the
    verification), and with one it raises the round-trip error. *)
Theorem export_succeeds_iff_no_nan (H W : Z) (bits : list Z) (npy_path : path)
    (map_path : option path) (out_dir : path) (variant : string)
    (σ σ0 : fs) (agg : option json) :
  bits_wf bits → Z.of_nat (length bits) = H * W → 0 < H * W →
  files σ !! npy_path = Some (NpyFile (F32Array [H; W] bits)) →
  map_dims_agree map_path σ H W →
  mkdir_parents out_dir σ = Ok σ0 →
  read_json_if_exists (child (parent npy_path) "aggregate_meta.json") σ0
  = Ok agg →
  stat σ0 (child out_dir "heatmap.f32.bin") ≠ Directory →
  stat σ0 (child out_dir "heatmap.meta.json") ≠ Directory →
  ((export_one npy_path map_path out_dir variant σ).1 = Ok tt ↔ no_nan bits)
  ∧ (¬ no_nan bits →
     (export_one npy_path map_path out_dir variant σ).1
     = Raise RuntimeError_Roundtrip).
Proof.
  intros Hwf Hlen Hpos Hnpy Hdims Hmk Hagg Hbin Hmeta.
  rewrite (export_one_run npy_path map_path out_dir variant σ σ0 _ H W agg
             Hnpy eq_refl Hdims Hmk Hagg Hbin).
  cbv zeta. cbn [f_bits]. rewrite (tobytes_roundtrip bits Hwf).
  destruct (Z.eqb_spec (H * W) 0) as [|_]; [lia|].
  destruct (Z.eqb_spec (Z.of_nat (length bits)) (H * W)) as [_|]; [|done].
  cbn [negb]. pose proof (allclose0_refl_iff bits) as Hiff.
  destruct (stat σ0 (child out_dir "heatmap.meta.json")); [|done|];
    (destruct (allclose0 bits bits); cbn [negb fst];
     [split; [|intros Hn; destruct Hn; by apply Hiff]; split; [|done];
      intros _; by apply Hiff
     |split; [|done]; split; [done|]; intros Hn; by apply Hiff in Hn]).
Qed.

Lemma export_succeeds_iff_no_nan_witness :
  bits_wf [2139095040; 4286578688]
  ∧ (export_one ["out"; "m.map"; "p_raw.npy"]%string None
       ["out"; "m.map"]%string "v"%string
       (Fs {[ ["out"; "m.map"; "p_raw.npy"]%string
              := NpyFile (F32Array [1; 2] [2139095040; 4286578688]) ]}
           {[ ["out"]%string; ["out"; "m.map"]%string ]})).1 = Ok tt.
Proof.
  assert (bits_wf [2139095040; 4286578688]) as Hwf.
  { repeat constructor; lia. }
  split; [exact Hwf|].
  apply (export_succeeds_iff_no_nan 1 2 [2139095040; 4286578688]
           ["out"; "m.map"; "p_raw.npy"]%string None ["out"; "m.map"]%string
           "v"%string _
           (Fs {[ ["out"; "m.map"; "p_raw.npy"]%string
                  := NpyFile (F32Array [1; 2] [2139095040; 4286578688]) ]}
               {[ ["out"]%string; ["out"; "m.map"]%string ]})
           None Hwf).
  - reflexivity.
  - lia.
  - apply lookup_singleton_eq.
  - intros mp h w Hmp. discriminate Hmp.
  - vm_compute. reflexivity.
  - vm_compute. reflexivity.
  - vm_compute. discriminate.
  - vm_compute. discriminate.
  - repeat constructor.
Defined.

(** ** The aggregation loop: skipped runs, statistics and errors *)

(** The body of the loop on a run that is skipped and on one that is
    folded in. *)
Lemma fold_body_skip only_solved H0 W0 f st :
  accepted only_solved f = false →
  Aggregate.fold_body only_solved H0 W0 f st
  = Ok (Aggregate.Acc (Aggregate.wait_sum st) (Aggregate.pressure_sum st)
          (Aggregate.occ_sum st) (Aggregate.makespans st) (Aggregate.used st)
          (Aggregate.solved_cnt st)).
Proof.
  unfold accepted, Aggregate.fold_body.
  destruct (Aggregate.meta_solved f) as [solved|]; [|done].
  destruct only_solved; [|done]. destruct (solved =? 1); done.
Qed.

Lemma fold_body_accept only_solved H0 W0 f st :
  accepted only_solved f = true →
  Aggregate.fold_body only_solved H0 W0 f st
  = if negb (Aggregate.H (Aggregate.content f) =? H0)
       || negb (Aggregate.W (Aggregate.content f) =? W0)
    then Raise (ValueError_ShapeMismatch (Aggregate.H (Aggregate.content f))
                  (Aggregate.W (Aggregate.content f)) H0 W0)
    else
      ws ← Aggregate.nd_iadd64 (Aggregate.wait_sum st)
             (Aggregate.wait (Aggregate.content f));
      ps ← Aggregate.nd_iadd64 (Aggregate.pressure_sum st)
             (Aggregate.pressure (Aggregate.content f));
      os ← Aggregate.nd_iadd64 (Aggregate.occ_sum st)
             (Aggregate.occ (Aggregate.content f));
      Ok (Aggregate.Acc ws ps os
            (Aggregate.makespans st ++ [Aggregate.makespan (Aggregate.content f)])
            (Aggregate.used st ++ [Aggregate.name f])
            (Aggregate.solved_cnt st + (if counted_solved f then 1 else 0))).
Proof.
  unfold accepted, counted_solved, Aggregate.fold_body.
  destruct (Aggregate.meta_solved f) as [solved|].
  - destruct only_solved, (solved =? 1); simpl; try done;
      intros _; destruct (_ || _); try done; by rewrite ?Z.add_0_r.
  - intros _. destruct (_ || _); [done|]. by rewrite Z.add_0_r.
Qed.

(** What the loop has done when it returns, whatever the runs are. *)
Lemma fold_runs_Ok only_solved H0 W0 runs : ∀ st st',
  for_each (Aggregate.fold_body only_solved H0 W0) runs st = Ok st' →
  Aggregate.makespans st'
  = Aggregate.makespans st ++ accepted_makespans only_solved runs
  ∧ Aggregate.used st' = Aggregate.used st ++ accepted_names only_solved runs
  ∧ ∀ f, f ∈ runs → accepted only_solved f = true →
         Aggregate.H (Aggregate.content f) = H0
         ∧ Aggregate.W (Aggregate.content f) = W0.
Proof.
  unfold accepted_makespans, accepted_names.
  induction runs as [|f runs IH]; intros st st' Hrun.
  - injection Hrun as <-. rewrite !app_nil_r. split_and!; try done.
    intros f Hf. by apply elem_of_nil in Hf.
  - cbn [for_each] in Hrun. apply bind_Ok in Hrun as (st1 & Hb & Hrun).
    apply IH in Hrun as (Hms & Hus & Hsh). cbn [List.filter].
    destruct (accepted only_solved f) eqn:Hacc.
    + rewrite fold_body_accept in Hb by done.
      destruct (_ || _) eqn:Hmis; [done|].
      apply bind_Ok in Hb as (ws & _ & Hb).
      apply bind_Ok in Hb as (ps & _ & Hb).
      apply bind_Ok in Hb as (os & _ & Hb). injection Hb as <-.
      simpl in Hms, Hus. rewrite <- !app_assoc in Hms, Hus.
      split_and!; try done.
      intros g [->|Hg]%elem_of_cons Hg'; [|by apply Hsh].
      apply orb_false_iff in Hmis as [Hh Hw].
      apply negb_false_iff in Hh, Hw. lia.
    + rewrite fold_body_skip in Hb by done. injection Hb as <-.
      split_and!; try done.
      intros g [->|Hg]%elem_of_cons Hg'; [congruence | by apply Hsh].
Qed.

(** The loop returns as soon as the runs it folds in have the shape of
    the accumulator; the others are not looked at. *)
Lemma fold_runs_accepted only_solved H0 W0 runs : ∀ st,
  acc_ok H0 W0 st →
  (∀ f, f ∈ runs → accepted only_solved f = true → run_ok H0 W0 f) →
  ∃ st', for_each (Aggregate.fold_body only_solved H0 W0) runs st = Ok st'
    ∧ acc_ok H0 W0 st'
    ∧ nd_data (Aggregate.wait_sum st')
      = foldl add64 (nd_data (Aggregate.wait_sum st))
          (map (λ f, nd_data (Aggregate.wait (Aggregate.content f)))
             (List.filter (accepted only_solved) runs))
    ∧ nd_data (Aggregate.pressure_sum st')
      = foldl add64 (nd_data (Aggregate.pressure_sum st))
          (map (λ f, nd_data (Aggregate.pressure (Aggregate.content f)))
             (List.filter (accepted only_solved) runs))
    ∧ nd_data (Aggregate.occ_sum st')
      = foldl add64 (nd_data (Aggregate.occ_sum st))
          (map (λ f, nd_data (Aggregate.occ (Aggregate.content f)))
             (List.filter (accepted only_solved) runs)).
Proof.
  induction runs as [|f runs IH]; intros st Hst Hruns.
  - exists st. split_and!; done.
  - cbn [for_each List.filter].
    destruct (accepted only_solved f) eqn:Hacc.
    + destruct (fold_body_spec only_solved H0 W0 f st Hst)
        as (st1 & -> & Hst1 & _ & Hsel); [apply Hruns; [set_solver | done]|].
      rewrite Hacc in Hsel. destruct Hsel as (Hw1 & Hp1 & Ho1 & _).
      destruct (IH st1 Hst1) as (st' & Hrun & Hst' & Hw & Hp & Ho).
      { intros g Hg. apply Hruns. set_solver. }
      exists st'. rewrite bind_Ok_l. cbn [map foldl].
      rewrite <- Hw1, <- Hp1, <- Ho1. split_and!; done.
    + rewrite fold_body_skip by done. rewrite bind_Ok_l.
      apply (IH (Aggregate.Acc _ _ _ _ _ _)); [done|].
      intros g Hg. apply Hruns. set_solver.
Qed.

(** [main] when the runs it folds in have the shape the first file
    declares. *)
Lemma main_accepted only_solved H0 W0 first rest :
  0 ≤ H0 → 0 ≤ W0 →
  Aggregate.H (Aggregate.content first) = H0 →
  Aggregate.W (Aggregate.content first) = W0 →
  (∀ f, f ∈ first :: rest → accepted only_solved f = true → run_ok H0 W0 f) →
  ∃ st stats, Aggregate.main only_solved (first :: rest) = Ok (st, stats)
    ∧ Aggregate.wait_sum st
      = agg_total H0 W0 Aggregate.wait only_solved (first :: rest)
    ∧ Aggregate.pressure_sum st
      = agg_total H0 W0 Aggregate.pressure only_solved (first :: rest)
    ∧ Aggregate.occ_sum st
      = agg_total H0 W0 Aggregate.occ only_solved (first :: rest)
    ∧ Aggregate.sum_wait_total stats = wrap64 (nd_sum (Aggregate.wait_sum st))
    ∧ Aggregate.sum_pressure_total stats
      = wrap64 (nd_sum (Aggregate.pressure_sum st))
    ∧ Aggregate.sum_occ_total stats = wrap64 (nd_sum (Aggregate.occ_sum st)).
Proof.
  intros HH HW EH EW Hruns. unfold Aggregate.main. rewrite EH, EW.
  destruct (np_full_wf H0 W0 0 HH HW) as (z & Hz & _ & EHz & EWz & Hdz).
  unfold np_zeros. rewrite Hz, !bind_Ok_l.
  assert (arr_ok H0 W0 z) as Hzok.
  { unfold arr_ok. rewrite Hdz, length_replicate. done. }
  destruct (fold_runs_accepted only_solved H0 W0 (first :: rest)
              (Aggregate.Acc z z z [] [] 0))
    as (st & -> & (Hw & Hp & Ho) & Hwd & Hpd & Hod); [done | done |].
  simpl in Hwd, Hpd, Hod. rewrite Hdz in Hwd, Hpd, Hod.
  eexists _, _. split; [done|]. cbn.
  split_and!; try done; by apply arr_ok_eq.
Qed.

Lemma sumZ_add64 a : ∀ b,
  length a = length b →
  wrap64 (sumZ (add64 a b)) = wrap64 (sumZ a + sumZ b).
Proof.
  unfold add64, sumZ. induction a as [|u a IH]; intros [|v b] Hlen; try done.
  cbn [zip_with foldr]. injection Hlen as Hlen.
  rewrite wrap64_add_l, <- wrap64_add_r, (IH b Hlen), wrap64_add_r.
  f_equal. lia.
Qed.

Lemma sumZ_foldl_add64 n (ls : list (list Z)) : ∀ acc,
  length acc = n → Forall (λ x, length x = n) ls →
  wrap64 (sumZ (foldl add64 acc ls)) = wrap64 (sumZ acc + sumZ (map sumZ ls)).
Proof.
  induction ls as [|x ls IH]; intros acc Hacc Hls; cbn [foldl map].
  - f_equal. unfold sumZ at 3. simpl. lia.
  - apply Forall_cons in Hls as [Hx Hls].
    rewrite IH by (done || by apply add64_length).
    rewrite <- wrap64_add_l, sumZ_add64, wrap64_add_l by congruence.
    f_equal. unfold sumZ at 6. cbn [foldr]. fold (sumZ (map sumZ ls)). lia.
Qed.

Lemma sumZ_replicate_0 n : sumZ (replicate n 0) = 0.
Proof. induction n as [|n IH]; [done|]. unfold sumZ in *. simpl. lia. Qed.

Lemma agg_total_sum H0 W0 sel only_solved runs :
  (∀ f, f ∈ runs → accepted only_solved f = true →
        arr_ok H0 W0 (sel (Aggregate.content f))) →
  wrap64 (nd_sum (agg_total H0 W0 sel only_solved runs))
  = wrap64 (run_total sel only_solved runs).
Proof.
  intros Hruns. unfold agg_total, run_total, nd_sum. cbn [nd_data].
  fold (sumZ (foldl add64 (replicate (Z.to_nat (H0 * W0)) 0)
                (map (λ f, nd_data (sel (Aggregate.content f)))
                   (List.filter (accepted only_solved) runs)))).
  rewrite (sumZ_foldl_add64 (Z.to_nat (H0 * W0))).
  - rewrite sumZ_replicate_0, map_map. done.
  - apply length_replicate.
  - apply List.Forall_forall. intros x Hx.
    apply in_map_iff in Hx as (f & <- & Hf). apply filter_In in Hf as [Hf Hacc].
    apply Hruns; [by apply list_elem_of_In | done].
Qed.

(** ** Runs without sidecar *)

Lemma nd_iadd64_added a b a' :
  Aggregate.nd_iadd64 a b = Ok a' → added_to a b a'.
Proof.
  unfold Aggregate.nd_iadd64, added_to.
  destruct (decide _) as [(HH & HW & Hlen)|]; [|done].
  intros [= <-]. cbn [nd_H nd_W nd_data]. split_and!; try done.
  - rewrite length_zip_with. lia.
  - intros k u v Hu Hv. rewrite lookup_zip_with, Hu. simpl. by rewrite Hv.
Qed.

Lemma nd_iadd64_data a b a' :
  Aggregate.nd_iadd64 a b = Ok a' →
  a' = NdArray (nd_H a) (nd_W a) (add64 (nd_data a) (nd_data b)).
Proof.
  unfold Aggregate.nd_iadd64. destruct (decide _); [|done]. by intros [= <-].
Qed.

(** The sums when the loop returns: the arrays of the accepted runs,
    added from the left to the sums the loop started with. *)
Lemma fold_runs_sums only_solved H0 W0 runs : ∀ st st',
  for_each (Aggregate.fold_body only_solved H0 W0) runs st = Ok st' →
  Aggregate.wait_sum st'
  = NdArray (nd_H (Aggregate.wait_sum st)) (nd_W (Aggregate.wait_sum st))
      (foldl add64 (nd_data (Aggregate.wait_sum st))
         (map (λ f, nd_data (Aggregate.wait (Aggregate.content f)))
            (List.filter (accepted only_solved) runs)))
  ∧ Aggregate.pressure_sum st'
    = NdArray (nd_H (Aggregate.pressure_sum st))
        (nd_W (Aggregate.pressure_sum st))
        (foldl add64 (nd_data (Aggregate.pressure_sum st))
           (map (λ f, nd_data (Aggregate.pressure (Aggregate.content f)))
              (List.filter (accepted only_solved) runs)))
  ∧ Aggregate.occ_sum st'
    = NdArray (nd_H (Aggregate.occ_sum st)) (nd_W (Aggregate.occ_sum st))
        (foldl add64 (nd_data (Aggregate.occ_sum st))
           (map (λ f, nd_data (Aggregate.occ (Aggregate.content f)))
              (List.filter (accepted only_solved) runs))).
Proof.
  induction runs as [|f runs IH]; intros st st' Hrun.
  - injection Hrun as <-. cbn [List.filter map foldl].
    by destruct (Aggregate.wait_sum st), (Aggregate.pressure_sum st),
         (Aggregate.occ_sum st).
  - cbn [for_each] in Hrun. apply bind_Ok in Hrun as (st1 & Hb & Hrun).
    apply IH in Hrun as (-> & -> & ->). cbn [List.filter].
    destruct (accepted only_solved f) eqn:Hacc.
    + rewrite fold_body_accept in Hb by done.
      destruct (_ || _); [done|].
      apply bind_Ok in Hb as (ws & Hws%nd_iadd64_data & Hb).
      apply bind_Ok in Hb as (ps & Hps%nd_iadd64_data & Hb).
      apply bind_Ok in Hb as (os & Hos%nd_iadd64_data & Hb).
      injection Hb as <-. subst ws ps os. done.
    + rewrite fold_body_skip in Hb by done. by injection Hb as <-.
Qed.

Lemma main_sums only_solved first rest st stats :
  Aggregate.main only_solved (first :: rest) = Ok (st, stats) →
  Aggregate.wait_sum st
  = agg_total (Aggregate.H (Aggregate.content first))
      (Aggregate.W (Aggregate.content first)) Aggregate.wait only_solved
      (first :: rest)
  ∧ Aggregate.pressure_sum st
    = agg_total (Aggregate.H (Aggregate.content first))
        (Aggregate.W (Aggregate.content first)) Aggregate.pressure only_solved
        (first :: rest)
  ∧ Aggregate.occ_sum st
    = agg_total (Aggregate.H (Aggregate.content first))
        (Aggregate.W (Aggregate.content first)) Aggregate.occ only_solved
        (first :: rest).
Proof.
  unfold Aggregate.main. intros Hrun.
  assert (∀ a, np_zeros (Aggregate.H (Aggregate.content first))
                 (Aggregate.W (Aggregate.content first)) = Ok a →
               a = NdArray (Aggregate.H (Aggregate.content first))
                     (Aggregate.W (Aggregate.content first))
                     (replicate
                        (Z.to_nat (Aggregate.H (Aggregate.content first)
                                   * Aggregate.W (Aggregate.content first))) 0))
    as Hzeros.
  { intros a. unfold np_zeros, np_full. destruct (_ || _); [done|].
    by intros [= <-]. }
  apply bind_Ok in Hrun as (w0 & ->%Hzeros & Hrun).
  apply bind_Ok in Hrun as (p0 & ->%Hzeros & Hrun).
  apply bind_Ok in Hrun as (o0 & ->%Hzeros & Hrun).
  apply bind_Ok in Hrun as (st0 & Hloop & Hrun).
  injection Hrun as <- _. apply fold_runs_sums in Hloop as (-> & -> & ->).
  done.
Qed.

(** C10.  A run without sidecar ([meta_solved = None]) goes through the
    body of the loop as if [only_solved] were off: when the body returns,
    each cell of the run's three arrays has been added (in [int64]) to the
    cell of the sums, its name is in [used], its makespan in [makespans]
    and [solved_cnt] is unchanged; and the body does return on arrays of
    the accumulator's shape.  When [main] returns, the sums are those of
    the accepted runs, the runs without sidecar among them whatever
    [only_solved] is; [solved_cnt] counts only the runs whose sidecar
    exists and says solved, and [solved_rate] is strictly below the true
    rate as soon as one solved run has no sidecar. *)
Theorem missing_sidecar_folded_uncounted (only_solved : bool) (H0 W0 : Z) :
  (∀ f st, Aggregate.meta_solved f = None →
     accepted only_solved f = true
     ∧ Aggregate.fold_body only_solved H0 W0 f st
       = Aggregate.fold_body false H0 W0 f st
     ∧ (∀ st', Aggregate.fold_body only_solved H0 W0 f st = Ok st' →
          Aggregate.solved_cnt st' = Aggregate.solved_cnt st
          ∧ Aggregate.used st' = Aggregate.used st ++ [Aggregate.name f]
          ∧ Aggregate.makespans st'
            = Aggregate.makespans st
              ++ [Aggregate.makespan (Aggregate.content f)]
          ∧ added_to (Aggregate.wait_sum st)
              (Aggregate.wait (Aggregate.content f)) (Aggregate.wait_sum st')
          ∧ added_to (Aggregate.pressure_sum st)
              (Aggregate.pressure (Aggregate.content f))
              (Aggregate.pressure_sum st')
          ∧ added_to (Aggregate.occ_sum st)
              (Aggregate.occ (Aggregate.content f)) (Aggregate.occ_sum st'))
     ∧ (acc_ok H0 W0 st → run_ok H0 W0 f →
        ∃ st', Aggregate.fold_body only_solved H0 W0 f st = Ok st'))
  ∧ (∀ first rest (truly_solved : Aggregate.instance → bool) st stats,
       (∀ f s, f ∈ first :: rest → Aggregate.meta_solved f = Some s →
               truly_solved f = (s =? 1)) →
       Aggregate.main only_solved (first :: rest) = Ok (st, stats) →
       Aggregate.wait_sum st
       = agg_total (Aggregate.H (Aggregate.content first))
           (Aggregate.W (Aggregate.content first)) Aggregate.wait only_solved
           (first :: rest)
       ∧ Aggregate.pressure_sum st
         = agg_total (Aggregate.H (Aggregate.content first))
             (Aggregate.W (Aggregate.content first)) Aggregate.pressure
             only_solved (first :: rest)
       ∧ Aggregate.occ_sum st
         = agg_total (Aggregate.H (Aggregate.content first))
             (Aggregate.W (Aggregate.content first)) Aggregate.occ only_solved
             (first :: rest)
       ∧ Aggregate.used st = accepted_names only_solved (first :: rest)
       ∧ Aggregate.solved_cnt st = count_of counted_solved (first :: rest)
       ∧ Aggregate.solved_cnt st ≤ count_of truly_solved (first :: rest)
       ∧ ((∃ f, f ∈ first :: rest ∧ Aggregate.meta_solved f = None
                ∧ truly_solved f = true) →
          Qlt (Aggregate.solved_rate stats)
            (Qmake (count_of truly_solved (first :: rest))
               (Z.to_pos (Aggregate.num_instances_total stats))))).
Proof.
  split.
  - intros f st Hnone. split_and!.
    + unfold accepted. by rewrite Hnone.
    + unfold Aggregate.fold_body. by rewrite Hnone.
    + intros st' Hrun. unfold Aggregate.fold_body in Hrun.
      rewrite Hnone in Hrun. simpl in Hrun.
      destruct (_ || _); [done|].
      apply bind_Ok in Hrun as (ws & Hws%nd_iadd64_added & Hrun).
      apply bind_Ok in Hrun as (ps & Hps%nd_iadd64_added & Hrun).
      apply bind_Ok in Hrun as (os & Hos%nd_iadd64_added & Hrun).
      injection Hrun as <-. simpl. done.
    + intros Hst Hf.
      destruct (fold_body_spec only_solved H0 W0 f st Hst Hf) as (st' & ? & _).
      by exists st'.
  - intros first rest truly_solved st stats Hcons Hmain.
    pose proof (main_sums _ _ _ _ _ Hmain) as (Hw & Hp & Ho).
    assert (Aggregate.used st = accepted_names only_solved (first :: rest))
      as Hused.
    { pose proof Hmain as Hm. unfold Aggregate.main in Hm.
      apply bind_Ok in Hm as (w0 & _ & Hm).
      apply bind_Ok in Hm as (p0 & _ & Hm).
      apply bind_Ok in Hm as (o0 & _ & Hm).
      apply bind_Ok in Hm as (st0 & Hloop & Hm). injection Hm as <- _.
      by apply fold_runs_Ok in Hloop as (_ & -> & _). }
    apply main_cnt in Hmain as (Hcnt & Hrate & Htotal).
    destruct (counted_le_truly truly_solved (first :: rest) Hcons) as [Hle Hlt].
    split_and!; [done | done | done | done | done | lia |].
    intros Hmissing. specialize (Hlt Hmissing).
    rewrite Hrate, Htotal, Hcnt. unfold Qlt. simpl.
    apply Z.mul_lt_mono_pos_r; [lia | done].
Qed.

Lemma missing_sidecar_folded_uncounted_witness :
  let r1 := Aggregate.Instance "instance_0.npz"
              (Aggregate.Npz (NdArray 1 2 [1; 0]) (NdArray 1 2 [0; 2])
                 (NdArray 1 2 [3; 1]) (NdArray 1 2 [0; 0]) 1 2 4) (Some 1) in
  let r2 := Aggregate.Instance "instance_1.npz"
              (Aggregate.Npz (NdArray 1 2 [5; 1]) (NdArray 1 2 [1; 1])
                 (NdArray 1 2 [2; 2]) (NdArray 1 2 [0; 0]) 1 2 3) None in
  let r3 := Aggregate.Instance "instance_2.npz"
              (Aggregate.Npz (NdArray 1 2 [7; 7]) (NdArray 1 2 [7; 7])
                 (NdArray 1 2 [7; 7]) (NdArray 1 2 [0; 0]) 1 2 9) (Some 0) in
  ∃ st stats,
    Aggregate.main true [r1; r2; r3] = Ok (st, stats)
    ∧ Aggregate.wait_sum st = NdArray 1 2 [6; 1]
    ∧ Aggregate.pressure_sum st = NdArray 1 2 [1; 3]
    ∧ Aggregate.occ_sum st = NdArray 1 2 [5; 3]
    ∧ Aggregate.used st = ["instance_0.npz"; "instance_1.npz"]%string
    ∧ Aggregate.solved_cnt st = 1
    ∧ Qlt (Aggregate.solved_rate stats) (Qmake 2 3).
Proof.
  intros r1 r2 r3.
  assert (∃ st stats, Aggregate.main true [r1; r2; r3] = Ok (st, stats)
                      ∧ Aggregate.num_instances_total stats = 3)
    as (st & stats & Hmain & Htot).
  { eexists _, _. split; [vm_compute; reflexivity|]. done. }
  exists st, stats.
  destruct (proj2 (missing_sidecar_folded_uncounted true 1 2)
              r1 [r2; r3]
              (λ f, match Aggregate.meta_solved f with
                    | Some s => s =? 1
                    | None => true
                    end) st stats)
    as (Hw & Hp & Ho & Hused & Hcnt & _ & Hlt).
  - intros f s Hf Hs. by rewrite Hs.
  - exact Hmain.
  - split_and!; [exact Hmain | exact Hw | exact Hp | exact Ho | exact Hused
                 | exact Hcnt |].
    rewrite Htot in Hlt. apply Hlt. exists r2. split_and!; [|done..].
    apply elem_of_cons. right. apply elem_of_cons. by left.
Defined.





(** X18.  The totals written to the statistics are the sums, over the
    runs folded in, of the cells of their arrays, reduced to [int64];
    they are these sums themselves when they fit in 64 bits. *)
Theorem aggregate_totals (only_solved : bool) (H0 W0 : Z)
    (first : Aggregate.instance) (rest : list Aggregate.instance) :
  0 ≤ H0 → 0 ≤ W0 →
  Aggregate.H (Aggregate.content first) = H0 →
  Aggregate.W (Aggregate.content first) = W0 →
  (∀ f, f ∈ first :: rest → accepted only_solved f = true → run_ok H0 W0 f) →
  ∃ st stats, Aggregate.main only_solved (first :: rest) = Ok (st, stats)
    ∧ Aggregate.sum_wait_total stats
      = wrap64 (run_total Aggregate.wait only_solved (first :: rest))
    ∧ Aggregate.sum_pressure_total stats
      = wrap64 (run_total Aggregate.pressure only_solved (first :: rest))
    ∧ Aggregate.sum_occ_total stats
      = wrap64 (run_total Aggregate.occ only_solved (first :: rest))
    ∧ (- 2 ^ 63 ≤ run_total Aggregate.wait only_solved (first :: rest) < 2 ^ 63 →
       Aggregate.sum_wait_total stats
       = run_total Aggregate.wait only_solved (first :: rest))
    ∧ (- 2 ^ 63 ≤ run_total Aggregate.pressure only_solved (first :: rest)
         < 2 ^ 63 →
       Aggregate.sum_pressure_total stats
       = run_total Aggregate.pressure only_solved (first :: rest))
    ∧ (- 2 ^ 63 ≤ run_total Aggregate.occ only_solved (first :: rest) < 2 ^ 63 →
       Aggregate.sum_occ_total stats
       = run_total Aggregate.occ only_solved (first :: rest)).
Proof.
  intros HH HW EH EW Hruns.
  destruct (main_accepted only_solved H0 W0 first rest HH HW EH EW Hruns)
    as (st & stats & Hmain & Hw & Hp & Ho & Hsw & Hsp & Hso).
  exists st, stats. split; [done|].
  rewrite Hw in Hsw. rewrite Hp in Hsp. rewrite Ho in Hso.
  rewrite agg_total_sum in Hsw, Hsp, Hso
    by (intros f Hf Hacc; destruct (Hruns f Hf Hacc) as (_ & _ & ? & ? & ?); done).
  split_and!; try done; intros Hfit; by rewrite <- (wrap64_id _ Hfit).
Qed.

Lemma aggregate_totals_witness :
  let r1 := Aggregate.Instance "instance_0.npz"
              (Aggregate.Npz (NdArray 1 2 [1; 0]) (NdArray 1 2 [0; 2])
                 (NdArray 1 2 [3; 1]) (NdArray 1 2 [0; 0]) 1 2 4) (Some 1) in
  let r2 := Aggregate.Instance "instance_1.npz"
              (Aggregate.Npz (NdArray 1 2 [5; 1]) (NdArray 1 2 [1; 1])
                 (NdArray 1 2 [2; 2]) (NdArray 1 2 [0; 0]) 1 2 3) None in
  ∃ st stats,
    Aggregate.main true [r1; r2] = Ok (st, stats)
    ∧ Aggregate.sum_wait_total stats = 7.
Proof.
  intros r1 r2.
  destruct (aggregate_totals true 1 2 r1 [r2])
    as (st & stats & Hmain & _ & _ & _ & Hw & _).
  - lia.
  - lia.
  - reflexivity.
  - reflexivity.
  - intros f Hf _.
    apply elem_of_cons in Hf as [->|Hf];
      [|apply elem_of_cons in Hf as [->|Hf]; [|by apply elem_of_nil in Hf]];
      unfold run_ok, arr_ok; simpl; split_and!; reflexivity.
  - exists st, stats. split; [exact Hmain|].
    change (run_total Aggregate.wait true [r1; r2]) with 7 in Hw.
    apply Hw. lia.
Defined.

(** X19.  The first run folded in whose declared height or width is not
    that of the first file makes [main] raise the shape error, naming the
    two shapes; the runs before it may have been skipped or folded in. *)
Theorem aggregate_shape_mismatch (only_solved : bool) (H0 W0 : Z)
    (first f : Aggregate.instance) (l1 l2 : list Aggregate.instance) :
  0 ≤ H0 → 0 ≤ W0 →
  Aggregate.H (Aggregate.content first) = H0 →
  Aggregate.W (Aggregate.content first) = W0 →
  (∀ g, g ∈ first :: l1 → accepted only_solved g = true → run_ok H0 W0 g) →
  accepted only_solved f = true →
  Aggregate.H (Aggregate.content f) ≠ H0
  ∨ Aggregate.W (Aggregate.content f) ≠ W0 →
  Aggregate.main only_solved (first :: l1 ++ f :: l2)
  = Raise (ValueError_ShapeMismatch (Aggregate.H (Aggregate.content f))
             (Aggregate.W (Aggregate.content f)) H0 W0).
Proof.
  intros HH HW EH EW Hruns Hacc Hmis. unfold Aggregate.main. rewrite EH, EW.
  destruct (np_full_wf H0 W0 0 HH HW) as (z & Hz & _ & EHz & EWz & Hdz).
  unfold np_zeros. rewrite Hz, !bind_Ok_l.
  assert (arr_ok H0 W0 z) as Hzok.
  { unfold arr_ok. rewrite Hdz, length_replicate. done. }
  change (first :: l1 ++ f :: l2) with ((first :: l1) ++ f :: l2).
  rewrite for_each_app.
  destruct (fold_runs_accepted only_solved H0 W0 (first :: l1)
              (Aggregate.Acc z z z [] [] 0)) as (st & -> & _); [done | done |].
  rewrite bind_Ok_l. cbn [for_each]. rewrite fold_body_accept by done.
  assert (negb (Aggregate.H (Aggregate.content f) =? H0)
          || negb (Aggregate.W (Aggregate.content f) =? W0) = true) as ->.
  { apply orb_true_iff. rewrite !negb_true_iff, !Z.eqb_neq. done. }
  done.
Qed.

Lemma aggregate_shape_mismatch_witness :
  let r1 := Aggregate.Instance "instance_0.npz"
              (Aggregate.Npz (NdArray 1 2 [1; 0]) (NdArray 1 2 [0; 2])
                 (NdArray 1 2 [3; 1]) (NdArray 1 2 [0; 0]) 1 2 4) (Some 1) in
  let r2 := Aggregate.Instance "instance_1.npz"
              (Aggregate.Npz (NdArray 2 2 [5; 1; 0; 0]) (NdArray 2 2 [1; 1; 0; 0])
                 (NdArray 2 2 [2; 2; 0; 0]) (NdArray 2 2 [0; 0; 0; 0]) 2 2 3)
              None in
  Aggregate.main true [r1; r2] = Raise (ValueError_ShapeMismatch 2 2 1 2).
Proof.
  intros r1 r2.
  apply (aggregate_shape_mismatch true 1 2 r1 r2 [] []).
  - lia.
  - lia.
  - reflexivity.
  - reflexivity.
  - intros g Hg _.
    apply elem_of_cons in Hg as [->|Hg]; [|by apply elem_of_nil in Hg].
    unfold run_ok, arr_ok; simpl; split_and!; reflexivity.
  - reflexivity.
  - left. simpl. lia.
Defined.

Lemma count_of_nonneg {A} (p : A → bool) l : 0 ≤ count_of p l.
Proof. unfold count_of. lia. Qed.

Lemma count_of_le_length {A} (p : A → bool) l :
  count_of p l ≤ Z.of_nat (length l).
Proof.
  unfold count_of. pose proof (List.filter_length_le p l). lia.
Qed.

(** X20.  The statistics of a call of [main] that returns: the total is
    the number of files, the number used is the number of runs folded in
    and is at most the total, all of these have the height and width the
    first file declares, [used_instances] holds their names in order,
    cut at 200, the solved rate lies between 0 and 1, and the average
    makespan is that of the runs folded in, absent when there is none. *)
Theorem aggregate_stats (only_solved : bool) (runs : list Aggregate.instance)
    (st : Aggregate.acc) (stats : Aggregate.stats) :
  Aggregate.main only_solved runs = Ok (st, stats) →
  runs ≠ []
  ∧ Aggregate.num_instances_total stats = Z.of_nat (length runs)
  ∧ Aggregate.num_instances_used stats = count_of (accepted only_solved) runs
  ∧ Aggregate.num_instances_used stats ≤ Aggregate.num_instances_total stats
  ∧ (∀ first f, head runs = Some first → f ∈ runs →
       accepted only_solved f = true →
       Aggregate.H (Aggregate.content f) = Aggregate.H (Aggregate.content first)
       ∧ Aggregate.W (Aggregate.content f)
         = Aggregate.W (Aggregate.content first))
  ∧ Aggregate.used_instances stats = take 200 (accepted_names only_solved runs)
  ∧ Qle 0 (Aggregate.solved_rate stats) ∧ Qle (Aggregate.solved_rate stats) 1
  ∧ Aggregate.avg_makespan_used stats
    = match accepted_makespans only_solved runs with
      | [] => None
      | ms => Some (Qmake (sumZ ms) (Pos.of_nat (length ms)))
      end.
Proof.
  intros Hmain.
  destruct (main_cnt _ _ _ _ Hmain) as (Hcnt & Hrate & Htotal).
  unfold Aggregate.main in Hmain. destruct runs as [|first rest]; [done|].
  apply bind_Ok in Hmain as (w0 & _ & Hmain).
  apply bind_Ok in Hmain as (p0 & _ & Hmain).
  apply bind_Ok in Hmain as (o0 & _ & Hmain).
  apply bind_Ok in Hmain as (st0 & Hloop & Hmain).
  injection Hmain as <- <-.
  apply fold_runs_Ok in Hloop as (Hms & Hus & Hsh). cbn in Hms, Hus.
  cbn [Aggregate.num_instances_total Aggregate.num_instances_used
       Aggregate.used_instances Aggregate.avg_makespan_used
       Aggregate.solved_rate] in *.
  rewrite Hms, Hus. split_and!; try done.
  - unfold accepted_names, count_of. by rewrite length_map.
  - unfold accepted_names. rewrite length_map.
    apply (count_of_le_length (accepted only_solved) (first :: rest)).
  - intros first' f [= <-] Hf Hacc. by apply Hsh.
  - unfold Qle. simpl. rewrite Hcnt.
    pose proof (count_of_nonneg counted_solved (first :: rest)). lia.
  - unfold Qle. simpl. rewrite Hcnt.
    pose proof (count_of_le_length counted_solved (first :: rest)).
    rewrite Z.mul_1_r. simpl length in *. lia.
Qed.

Lemma aggregate_stats_witness :
  let r1 := Aggregate.Instance "instance_0.npz"
              (Aggregate.Npz (NdArray 1 2 [1; 0]) (NdArray 1 2 [0; 2])
                 (NdArray 1 2 [3; 1]) (NdArray 1 2 [0; 0]) 1 2 4) (Some 0) in
  let r2 := Aggregate.Instance "instance_1.npz"
              (Aggregate.Npz (NdArray 1 2 [5; 1]) (NdArray 1 2 [1; 1])
                 (NdArray 1 2 [2; 2]) (NdArray 1 2 [0; 0]) 1 2 3) (Some 1) in
  ∃ st stats,
    Aggregate.main true [r1; r2] = Ok (st, stats)
    ∧ Aggregate.num_instances_used stats = 1
    ∧ Aggregate.used_instances stats = ["instance_1.npz"]%string
    ∧ Aggregate.avg_makespan_used stats = Some (Qmake 3 1).
Proof.
  intros r1 r2.
  assert (∃ st stats, Aggregate.main true [r1; r2] = Ok (st, stats))
    as (st & stats & Hmain).
  { eexists _, _. vm_compute. reflexivity. }
  exists st, stats. split; [exact Hmain|].
  destruct (aggregate_stats true [r1; r2] st stats Hmain)
    as (_ & _ & Hused & _ & _ & Hnames & _ & _ & Havg).
  split_and!; [exact Hused | exact Hnames | exact Havg].
Defined.

(** ** [read_movingai_map] *)

Import MovingAI.

Lemma bind_Returned {A B} (m : outcome A) (f : A → outcome B) (b : B) :
  m ≫= f = Returned b → ∃ a, m = Returned a ∧ f a = Returned b.
Proof. destruct m as [a|e]; simpl; [eauto | discriminate]. Qed.

Lemma bind_Returned_l {A B} (a : A) (f : A → outcome B) :
  Returned a ≫= f = f a.
Proof. reflexivity. Qed.

Lemma lift_Returned {A} (r : result A) a : lift r = Returned a → r = Ok a.
Proof. destruct r; simpl; congruence. Qed.

Lemma for_each_o_app {A S} (body : A → S → outcome S) xs ys st :
  for_each_o body (xs ++ ys) st
  = st' ← for_each_o body xs st; for_each_o body ys st'.
Proof.
  revert st. induction xs as [|x xs IH]; intros st; simpl; [done|].
  destruct (body x st); simpl; [apply IH | done].
Qed.

(** A [for y in range(n)] loop with the exceptions of this module: it
    returns when every iteration does, and then the invariant holds. *)
Lemma for_range_o_total {S} (P : nat → S → Prop) (body : nat → S → outcome S)
    n st :
  P 0%nat st →
  (∀ k s, (k < n)%nat → P k s →
          ∃ s', body k s = Returned s' ∧ P (Datatypes.S k) s') →
  ∃ st', for_each_o body (range n) st = Returned st' ∧ P n st'.
Proof.
  unfold range. induction n as [|n IH]; intros H0 Hstep.
  - exists st. done.
  - destruct IH as (s & Hs & HP); [done | intros k s0 Hk; apply Hstep; lia |].
    destruct (Hstep n s) as (s' & Hb & HP'); [lia | done |].
    exists s'. rewrite seq_S, for_each_o_app, Hs. simpl. rewrite Hb. done.
Qed.

Lemma for_range_o_inv {S} (P : nat → S → Prop) (body : nat → S → outcome S)
    n st st' :
  P 0%nat st →
  (∀ k s s', (k < n)%nat → P k s → body k s = Returned s' →
             P (Datatypes.S k) s') →
  for_each_o body (range n) st = Returned st' → P n st'.
Proof.
  unfold range. revert st'. induction n as [|n IH]; intros st' H0 Hstep Hrun.
  - simpl in Hrun. congruence.
  - rewrite seq_S, for_each_o_app in Hrun. simpl in Hrun.
    apply bind_Returned in Hrun as (s & Hs & Hlast).
    apply bind_Returned in Hlast as (s2 & Hb & Hlast). injection Hlast as <-.
    apply (Hstep n s); [lia | | done].
    apply IH; auto. intros k s0 s0' Hk. apply Hstep. lia.
Qed.

(** *** Strings *)

Lemma get_lt (s : string) : ∀ n,
  (n < String.length s)%nat → ∃ c, String.get n s = Some c.
Proof.
  induction s as [|c s IH]; intros n Hn; simpl in Hn; [lia|].
  destruct n as [|n]; simpl; [by eexists|]. apply IH. lia.
Qed.

Lemma lower_char_space c :
  ParsePaths.is_space (lower_char c) = ParsePaths.is_space c.
Proof. destruct c as [[] [] [] [] [] [] [] []]; reflexivity. Qed.

Lemma split_from_tok tok s : tok ≠ EmptyString → split_from tok s ≠ [].
Proof.
  revert tok. induction s as [|c s IH]; intros tok Htok; simpl.
  - destruct tok; done.
  - destruct (ParsePaths.is_space c).
    + destruct tok; done.
    + apply IH. destruct tok; done.
Qed.

(** A line that begins with a letter has a last token. *)
Lemma split_keyword key c ln :
  ParsePaths.is_space c = false →
  startswith (String c key) (lower ln) = true →
  ∃ token, last (split ln) = Some token.
Proof.
  intros Hc Hpre. destruct ln as [|a ln]; [done|]. cbn [lower startswith] in Hpre.
  apply andb_true_iff in Hpre as [Hca%Ascii.eqb_eq _]. subst c.
  rewrite lower_char_space in Hc.
  destruct (last (split (String a ln))) as [token|] eqn:Hlast; [by eexists|].
  apply last_None in Hlast. unfold split in Hlast. cbn [split_from] in Hlast.
  rewrite Hc in Hlast. by apply split_from_tok in Hlast.
Qed.

Lemma startswith_first c key s :
  startswith (String c key) s = true → ∃ s', s = String c s'.
Proof.
  destruct s as [|b s]; [done|]. cbn [startswith].
  intros [->%Ascii.eqb_eq _]%andb_true_iff. by eexists.
Qed.

Lemma startswith_height_width s :
  startswith "height" s = true → startswith "width" s = false.
Proof. intros [s' ->]%startswith_first. reflexivity. Qed.

Lemma startswith_width_height s :
  startswith "width" s = true → startswith "height" s = false.
Proof. intros [s' ->]%startswith_first. reflexivity. Qed.

Lemma startswith_height_map s :
  startswith "height" s = true → String.eqb s "map" = false.
Proof. intros [s' ->]%startswith_first. reflexivity. Qed.

Lemma startswith_width_map s :
  startswith "width" s = true → String.eqb s "map" = false.
Proof. intros [s' ->]%startswith_first. reflexivity. Qed.

Lemma last_int_keyword key c ln :
  ParsePaths.is_space c = false →
  startswith (String c key) (lower ln) = true →
  ∃ token, last (split ln) = Some token ∧ last_int ln = int token.
Proof.
  intros Hc Hpre. destruct (split_keyword key c ln Hc Hpre) as [token Hlast].
  exists token. split; [done|]. unfold last_int. by rewrite Hlast.
Qed.

(** *** The header loop *)

Lemma first_map_line_cons ln rest k :
  lower ln ≠ "map"%string →
  first_map_line rest k → first_map_line (ln :: rest) (S k).
Proof.
  intros Hln [Hk Hbefore]. split; [done|].
  intros [|j] ln' Hj Hl; simpl in Hl; [by injection Hl as <-|].
  apply (Hbefore j); [lia | done].
Qed.

Lemma first_map_line_uncons ln rest k :
  first_map_line (ln :: rest) (S k) → first_map_line rest k.
Proof.
  intros [Hk Hbefore]. split; [done|].
  intros j ln' Hj Hl. apply (Hbefore (S j)); [lia | done].
Qed.

Lemma header_value_cons key ln rest k v :
  header_value key rest k v → header_value key (ln :: rest) (S k) v.
Proof.
  intros (j & l & Hj & Hl & Hpre & Hint & Hlast).
  exists (S j), l. split_and!; try done; [lia|].
  intros [|j'] l' Hj' Hl'; [lia|]. apply (Hlast j'); [lia | done].
Qed.

Lemma header_value_here key ln rest k v :
  startswith key (lower ln) = true → last_int ln = Returned v →
  (∀ j l, (j < k)%nat → rest !! j = Some l → startswith key (lower l) = false) →
  header_value key (ln :: rest) (S k) v.
Proof.
  intros Hpre Hint Hnone. exists 0%nat, ln. split_and!; try done; [lia|].
  intros [|j'] l' Hj' Hl'; [lia|]. apply (Hnone j'); [lia | done].
Qed.

Lemma header_result_set key ln rest k v res :
  startswith key (lower ln) = true → last_int ln = Returned v →
  ∀ init, header_result key rest k (Some v) res →
          header_result key (ln :: rest) (S k) init res.
Proof.
  intros Hpre Hint init [(u & -> & Hu)|[-> Hnone]]; left.
  - exists u. split; [done|]. by apply header_value_cons.
  - exists v. split; [done|]. by apply header_value_here.
Qed.

Lemma header_result_keep key ln rest k init res :
  startswith key (lower ln) = false →
  header_result key rest k init res →
  header_result key (ln :: rest) (S k) init res.
Proof.
  intros Hpre [(u & -> & Hu)|[-> Hnone]].
  - left. exists u. split; [done|]. by apply header_value_cons.
  - right. split; [done|].
    intros [|j] l Hj Hl; simpl in Hl; [by injection Hl as <-|].
    apply (Hnone j); [lia | done].
Qed.

Lemma header_result_0 key lines init : header_result key lines 0 init init.
Proof. right. split; [done|]. intros j ln Hj. lia. Qed.

(** When the header loop stops at a "map" line, that line is the first
    of its kind and [H], [W] come from the last "height" and "width"
    lines before it. *)
Lemma scan_header_map lines : ∀ i H W H' W' idx,
  scan_header lines i H W = Returned (H', W', Some idx) →
  ∃ k, first_map_line lines k ∧ idx = i + Z.of_nat k + 1
       ∧ header_result "height" lines k H H'
       ∧ header_result "width" lines k W W'.
Proof.
  induction lines as [|ln rest IH]; intros i H W H' W' idx Hrun; [done|].
  cbn [scan_header] in Hrun.
  destruct (startswith "height" (lower ln)) eqn:Hh.
  { apply bind_Returned in Hrun as (h & Hint & Hrun).
    apply IH in Hrun as (k & Hk & -> & HH & HW).
    exists (S k). split_and!.
    - apply first_map_line_cons; [|done].
      intros Hmap. apply startswith_height_map in Hh. by rewrite Hmap in Hh.
    - lia.
    - by apply (header_result_set _ _ _ _ h).
    - apply header_result_keep; [|done]. by apply startswith_height_width. }
  destruct (startswith "width" (lower ln)) eqn:Hw.
  { apply bind_Returned in Hrun as (w & Hint & Hrun).
    apply IH in Hrun as (k & Hk & -> & HH & HW).
    exists (S k). split_and!.
    - apply first_map_line_cons; [|done].
      intros Hmap. apply startswith_width_map in Hw. by rewrite Hmap in Hw.
    - lia.
    - by apply header_result_keep.
    - by apply (header_result_set _ _ _ _ w). }
  destruct (String.eqb_spec (lower ln) "map") as [Hmap|Hmap].
  { injection Hrun as <- <- <-. exists 0%nat. split_and!.
    - split; [by simpl; rewrite Hmap|]. intros j l Hj. lia.
    - lia.
    - apply header_result_0.
    - apply header_result_0. }
  apply IH in Hrun as (k & Hk & -> & HH & HW).
  exists (S k). split_and!.
  - by apply first_map_line_cons.
  - lia.
  - by apply header_result_keep.
  - by apply header_result_keep.
Qed.

(** The header loop reaches the first "map" line when the "height" and
    "width" lines before it end with integers. *)
Lemma scan_header_total lines : ∀ k i H W,
  first_map_line lines k → header_parses lines k →
  ∃ H' W', scan_header lines i H W
           = Returned (H', W', Some (i + Z.of_nat k + 1)).
Proof.
  induction lines as [|ln rest IH]; intros k i H W Hk Hparse.
  { destruct Hk as [Hk _]. by rewrite lookup_nil in Hk. }
  cbn [scan_header]. destruct k as [|k].
  - destruct Hk as [Hk _]. simpl in Hk. injection Hk as Hk.
    rewrite Hk. cbn. eexists _, _. do 3 f_equal. lia.
  - assert (lower ln ≠ "map"%string) as Hln.
    { destruct Hk as [_ Hbefore]. apply (Hbefore 0%nat); [lia | done]. }
    assert (header_parses rest k) as Hparse'.
    { intros j l Hj Hl. apply (Hparse (S j)); [lia | done]. }
    apply first_map_line_uncons in Hk.
    destruct (startswith "height" (lower ln)) eqn:Hh.
    { destruct (Hparse 0%nat ln) as [h ->]; [lia | done | by left |].
      rewrite bind_Returned_l.
      destruct (IH k (i + 1) (Some h) W Hk Hparse') as (H' & W' & ->).
      eexists _, _. do 3 f_equal. lia. }
    destruct (startswith "width" (lower ln)) eqn:Hw.
    { destruct (Hparse 0%nat ln) as [w ->]; [lia | done | by right |].
      rewrite bind_Returned_l.
      destruct (IH k (i + 1) H (Some w) Hk Hparse') as (H' & W' & ->).
      eexists _, _. do 3 f_equal. lia. }
    destruct (String.eqb_spec (lower ln) "map") as [Hmap|_]; [done|].
    destruct (IH k (i + 1) H W Hk Hparse') as (H' & W' & ->).
    eexists _, _. do 3 f_equal. lia.
Qed.

Lemma first_map_line_lt lines k :
  first_map_line lines k → (k < length lines)%nat.
Proof.
  intros [Hk _]. destruct (lines !! k) as [ln|] eqn:Hl; [|done].
  by eapply lookup_lt_Some.
Qed.

Lemma first_map_line_unique lines k k' :
  first_map_line lines k → first_map_line lines k' → k = k'.
Proof.
  intros [Hk Hb] [Hk' Hb'].
  destruct (lines !! k) as [ln|] eqn:Hl; [|done].
  destruct (lines !! k') as [ln'|] eqn:Hl'; [|done].
  simpl in Hk, Hk'. injection Hk as Hk. injection Hk' as Hk'.
  destruct (lt_eq_lt_dec k k') as [[Hlt|Heq]|Hlt]; [|done|].
  - by destruct (Hb' k ln Hlt Hl).
  - by destruct (Hb k' ln' Hlt Hl').
Qed.

Lemma header_value_unique key lines k v v' :
  header_value key lines k v → header_value key lines k v' → v = v'.
Proof.
  intros (j & ln & Hj & Hl & Hpre & Hint & Hlast)
         (j' & ln' & Hj' & Hl' & Hpre' & Hint' & Hlast').
  destruct (lt_eq_lt_dec j j') as [[Hlt|Heq]|Hlt].
  - rewrite (Hlast j' ln') in Hpre' by (done || lia). done.
  - subst j'. rewrite Hl in Hl'. injection Hl' as <-. congruence.
  - rewrite (Hlast' j ln) in Hpre by (done || lia). done.
Qed.

Lemma header_result_value key lines k res v :
  header_result key lines k None res → header_value key lines k v →
  res = Some v.
Proof.
  intros [(u & -> & Hu)|[-> Hnone]] Hv.
  - f_equal. by eapply header_value_unique.
  - destruct Hv as (j & ln & Hj & Hl & Hpre & _).
    rewrite (Hnone j ln Hj Hl) in Hpre. done.
Qed.

Lemma header_result_Some key lines k v :
  header_result key lines k None (Some v) → header_value key lines k v.
Proof. intros [(u & [= <-] & Hu)|[? _]]; done. Qed.

(** *** The body of the map *)

Lemma slice_from {A} (l : list A) (idx H : Z) :
  0 ≤ idx → 0 ≤ H →
  slice l idx (idx + H) = take (Z.to_nat H) (drop (Z.to_nat idx) l).
Proof.
  intros Hidx HH. unfold slice.
  destruct (Z.ltb_spec idx 0), (Z.ltb_spec (idx + H) 0); try lia.
  destruct (Z_le_gt_dec idx (Z.of_nat (length l))) as [Hle|Hgt].
  - rewrite (Z.min_l idx) by done.
    destruct (Z_le_gt_dec (idx + H) (Z.of_nat (length l))).
    + rewrite Z.min_l by done. f_equal. lia.
    + rewrite Z.min_r by lia. rewrite !take_ge; [done | |];
        rewrite length_drop; lia.
  - rewrite (Z.min_r idx) by lia. rewrite !drop_ge by lia. by rewrite !take_nil.
Qed.

Lemma mark_in a c :
  nd_wf a → inb (nd_H a) (nd_W a) c →
  ∃ a', mark a c.2 c.1 = Ok a' ∧ nd_wf a' ∧ same_shape a' a
        ∧ at_ a' c = 1
        ∧ ∀ c', inb (nd_H a) (nd_W a) c' → c' ≠ c → at_ a' c' = at_ a c'.
Proof.
  intros Hwf Hin. pose proof (flat_lt a c Hwf Hin) as Hlt.
  pose proof Hin as [Hx Hy]. unfold mark.
  rewrite !norm_index_in by done. simpl.
  destruct (decide _) as [_|]; [|lia].
  eexists. split; [done|]. unfold nd_wf, same_shape, at_. simpl.
  rewrite length_insert. repeat split; try apply Hwf.
  - by rewrite list_lookup_insert_eq.
  - intros c' Hin' Hne. rewrite list_lookup_insert_ne; [done|].
    intros Heq. apply Hne. symmetry. by apply (flat_inj (nd_H a) (nd_W a)).
Qed.

Lemma mask_upto_next_row grid H W y a :
  mask_upto grid H W y W a → mask_upto grid H W (y + 1) 0 a.
Proof.
  intros (Hwf & EH & EW & Hcells). split_and!; try done.
  intros c Hc. rewrite (Hcells c Hc). destruct Hc as [Hx Hy].
  destruct (Z.ltb_spec c.2 y), (Z.ltb_spec c.2 (y + 1)), (Z.eqb_spec c.2 y),
    (Z.eqb_spec c.2 (y + 1)), (Z.ltb_spec c.1 W), (Z.ltb_spec c.1 0);
    simpl; try lia; done.
Qed.

(** One row of the mask: the loop over the columns returns when the row
    of the grid is long enough. *)
Lemma row_loop grid H W (y : nat) row a :
  grid !! y = Some row → Z.of_nat y < H → 0 ≤ W →
  W ≤ Z.of_nat (String.length row) →
  mask_upto grid H W (Z.of_nat y) 0 a →
  ∃ a', for_each (cell_body row y) (range (Z.to_nat W)) a = Ok a'
        ∧ mask_upto grid H W (Z.of_nat y + 1) 0 a'.
Proof.
  intros Hrow Hy HW Hlen Hinv.
  destruct (for_range_total
              (λ j s, mask_upto grid H W (Z.of_nat y) (Z.of_nat j) s)
              (cell_body row y) (Z.to_nat W) a Hinv) as (a' & Hrun & Ha').
  - intros j s Hj (Hwf & EH & EW & Hcells). unfold cell_body.
    destruct (get_lt row j) as [ch Hch]; [lia|]. rewrite Hch. simpl.
    assert (inb H W (Z.of_nat j, Z.of_nat y)) as Hin.
    { unfold inb. simpl. lia. }
    assert (cell_value grid (Z.of_nat j, Z.of_nat y)
            = if is_obstacle ch then 1 else 0) as Hval.
    { unfold cell_value, grid_char. simpl. rewrite !Nat2Z.id, Hrow. simpl.
      by rewrite Hch. }
    destruct (is_obstacle ch) eqn:Hobs.
    + destruct (mark_in s (Z.of_nat j, Z.of_nat y) Hwf) as
        (s' & Hmark & Hwf' & [EH' EW'] & Hat & Hothers); [by rewrite EH, EW|].
      simpl in Hmark. exists s'. split; [done|].
      split_and!; try congruence.
      intros c Hc. destruct (decide (c = (Z.of_nat j, Z.of_nat y))) as [->|Hne].
      * rewrite Hat, Hval. simpl.
        destruct (Z.ltb_spec (Z.of_nat y) (Z.of_nat y)); [lia|].
        rewrite Z.eqb_refl. simpl.
        destruct (Z.ltb_spec (Z.of_nat j) (Z.of_nat (S j))); [done | lia].
      * rewrite Hothers by (by rewrite ?EH, ?EW). rewrite (Hcells c Hc).
        assert (c.2 = Z.of_nat y → c.1 ≠ Z.of_nat j) as Hne'.
        { intros E1 E2. apply Hne. destruct c; simpl in *. by subst. }
        destruct (Z.ltb_spec c.2 (Z.of_nat y)); [done|]. simpl.
        destruct (Z.eqb_spec c.2 (Z.of_nat y)); [|done]. simpl.
        destruct (Z.ltb_spec c.1 (Z.of_nat j)),
          (Z.ltb_spec c.1 (Z.of_nat (S j))); try done; lia.
    + exists s. split; [done|]. split_and!; try done.
      intros c Hc. rewrite (Hcells c Hc).
      destruct (Z.ltb_spec c.2 (Z.of_nat y)); [done|]. simpl.
      destruct (Z.eqb_spec c.2 (Z.of_nat y)) as [E|]; [|done]. simpl.
      destruct (Z.ltb_spec c.1 (Z.of_nat j)),
        (Z.ltb_spec c.1 (Z.of_nat (S j))); try done; try lia.
      assert (c = (Z.of_nat j, Z.of_nat y)) as ->.
      { destruct c; simpl in *. f_equal; lia. }
      by rewrite Hval.
  - exists a'. split; [done|]. apply mask_upto_next_row.
    by rewrite Z2Nat.id in Ha'.
Qed.

(** The loop over the rows: it returns the finished mask, or it stops at
    the first row that is too short. *)
Lemma fill_cases grid H W a :
  Z.of_nat (length grid) = H → 0 ≤ W → mask_upto grid H W 0 0 a →
  ∀ n, (Z.of_nat n ≤ H) →
    (∃ a', for_each_o (row_body grid W) (range n) a = Returned a'
           ∧ mask_upto grid H W (Z.of_nat n) 0 a'
           ∧ ∀ y, (y < n)%nat → row_long grid W y)
    ∨ (∃ y : nat, (y < n)%nat
         ∧ for_each_o (row_body grid W) (range n) a
           = Raised (ValueError_RowTooShort (Z.of_nat y))
         ∧ ¬ row_long grid W y ∧ ∀ y', (y' < y)%nat → row_long grid W y').
Proof.
  intros Hlen HW Hinv. unfold range.
  induction n as [|n IH]; intros Hn.
  - left. exists a. split_and!; try done. intros y Hy. lia.
  - rewrite seq_S, for_each_o_app. cbn [plus].
    destruct IH as [(a1 & -> & Hinv1 & Hlong)|(y & Hy & -> & Hshort & Hlong)];
      [lia | |].
    + rewrite bind_Returned_l. cbn [for_each_o]. unfold row_body.
      destruct (lookup_lt_is_Some_2 grid n) as [row Hrow]; [lia|].
      rewrite Hrow. cbn [of_option lift]. rewrite bind_Returned_l.
      destruct (Z.ltb_spec (Z.of_nat (String.length row)) W) as [Hlt|Hge].
      * right. exists n. split_and!; [lia | done | | done].
        intros (row' & Hrow' & Hlen'). rewrite Hrow in Hrow'.
        injection Hrow' as <-. lia.
      * destruct (row_loop grid H W n row a1 Hrow) as (a' & -> & Hinv');
          [lia | done | done | done |].
        left. exists a'. split_and!; [done | |].
        -- by rewrite Nat2Z.inj_succ, <- Z.add_1_r.
        -- intros y Hy. destruct (decide (y = n)) as [->|];
             [by exists row | apply Hlong; lia].
    + right. exists y. split_and!; try done. lia.
Qed.

(** *** [read_movingai_map] as a whole *)

Lemma int_Raised token e :
  int token = Raised e → e = ValueError_InvalidLiteral token.
Proof.
  unfold int.
  destruct (match token with
            | String "-" s' =>
              (λ g : Z * nat, (- g.1, g.2)) <$> digits 0 0 false s'
            | String "+" s' => digits 0 0 false s'
            | _ => digits 0 0 false token
            end) as [[v n]|]; [|by intros [= <-]].
  destruct (_ <? _); [|done]. by intros [= <-].
Qed.

Lemma scan_header_Raised lines : ∀ i H W e,
  scan_header lines i H W = Raised e →
  ∃ token, e = ValueError_InvalidLiteral token.
Proof.
  induction lines as [|ln rest IH]; intros i H W e Hrun; [done|].
  cbn [scan_header] in Hrun.
  destruct (startswith "height" (lower ln)) eqn:Hh.
  { destruct (last_int_keyword "eight" "h" ln eq_refl Hh) as (token & _ & Hint).
    rewrite Hint in Hrun. destruct (int token) as [h|e'] eqn:Htok.
    - rewrite bind_Returned_l in Hrun. by eapply IH.
    - injection Hrun as <-. exists token. by apply int_Raised. }
  destruct (startswith "width" (lower ln)) eqn:Hw.
  { destruct (last_int_keyword "idth" "w" ln eq_refl Hw) as (token & _ & Hint).
    rewrite Hint in Hrun. destruct (int token) as [w|e'] eqn:Htok.
    - rewrite bind_Returned_l in Hrun. by eapply IH.
    - injection Hrun as <-. exists token. by apply int_Raised. }
  destruct (String.eqb (lower ln) "map"); [done|]. by eapply IH.
Qed.

Lemma scan_header_ok lines k H W :
  first_map_line lines k → header_parses lines k →
  header_value "height" lines k H → header_value "width" lines k W →
  scan_header lines 0 None None
  = Returned (Some H, Some W, Some (Z.of_nat k + 1)).
Proof.
  intros Hk Hparse HH HW.
  destruct (scan_header_total lines k 0 None None Hk Hparse) as (H' & W' & Hrun).
  rewrite Hrun.
  apply scan_header_map in Hrun as (k' & Hk' & _ & HH' & HW').
  rewrite <- (first_map_line_unique _ _ _ Hk Hk') in HH', HW'.
  rewrite (header_result_value _ _ _ _ _ HH' HH).
  rewrite (header_result_value _ _ _ _ _ HW' HW). done.
Qed.

Lemma mask_upto_zeros grid H W :
  0 ≤ H → 0 ≤ W →
  mask_upto grid H W 0 0 (NdArray H W (replicate (Z.to_nat (H * W)) 0)).
Proof.
  intros HH HW. unfold mask_upto, nd_wf. simpl. rewrite length_replicate.
  split_and!; try done; [nia|].
  intros c Hc. rewrite at_replicate by done. destruct Hc as [Hx Hy].
  destruct (Z.ltb_spec c.2 0), (Z.eqb_spec c.2 0), (Z.ltb_spec c.1 0);
    simpl; try lia; done.
Qed.

(** What the call does after the header, for a body of [H] lines. *)
Lemma read_body lines (k : nat) H W :
  scan_header lines 0 None None
  = Returned (Some H, Some W, Some (Z.of_nat k + 1)) →
  0 ≤ H → Z.of_nat (S k) + H ≤ Z.of_nat (length lines) → 0 ≤ W →
  let grid := take (Z.to_nat H) (drop (S k) lines) in
  (∃ obs, read_movingai_map lines = Returned (grid, H, W, obs)
          ∧ mask_upto grid H W H 0 obs
          ∧ ∀ y, (y < Z.to_nat H)%nat → row_long grid W y)
  ∨ (∃ y : nat, (y < Z.to_nat H)%nat
       ∧ read_movingai_map lines = Raised (ValueError_RowTooShort (Z.of_nat y))
       ∧ ¬ row_long grid W y ∧ ∀ y', (y' < y)%nat → row_long grid W y').
Proof.
  intros Hscan HH Hlen HW grid. unfold read_movingai_map.
  rewrite Hscan, bind_Returned_l. cbn iota beta.
  rewrite slice_from by lia.
  replace (Z.to_nat (Z.of_nat k + 1)) with (S k) by lia. fold grid.
  assert (Z.of_nat (length grid) = H) as Hgrid.
  { unfold grid. rewrite length_take, length_drop. lia. }
  destruct (decide _) as [|_]; [done|].
  unfold np_zeros, np_full.
  destruct (Z.ltb_spec H 0), (Z.ltb_spec W 0); try lia.
  cbn [orb lift]. rewrite bind_Returned_l.
  destruct (fill_cases grid H W _ Hgrid HW (mask_upto_zeros grid H W HH HW)
              (Z.to_nat H)) as [(obs & -> & Hinv & Hlong)|(y & Hy & -> & Hs & Hl)];
    [lia | |].
  - left. exists obs. rewrite Z2Nat.id in Hinv by done. done.
  - right. by exists y.
Qed.

Lemma mask_cells grid H W obs :
  mask_upto grid H W H 0 obs →
  (∀ y, (y < Z.to_nat H)%nat → row_long grid W y) →
  ∀ c, inb H W c →
    ∃ ch, grid_char grid c = Some ch
          ∧ at_ obs c = if is_obstacle ch then 1 else 0.
Proof.
  intros (_ & _ & _ & Hcells) Hlong c Hc. pose proof Hc as [Hx Hy].
  destruct (Hlong (Z.to_nat c.2)) as (row & Hrow & Hlen); [lia|].
  destruct (get_lt row (Z.to_nat c.1)) as [ch Hch]; [lia|].
  assert (grid_char grid c = Some ch) as Hgc.
  { unfold grid_char. rewrite Hrow. simpl. done. }
  exists ch. split; [done|]. rewrite (Hcells c Hc).
  destruct (Z.ltb_spec c.2 H); [|lia]. simpl. unfold cell_value.
  by rewrite Hgc.
Qed.

(** What a successful call has done: the header loop stopped at the
    first "map" line, the body has [H] lines and the mask is filled. *)
Lemma read_map_inv (lines grid : list string) (H W : Z) (obs : ndarray) :
  read_movingai_map lines = Returned (grid, H, W, obs) →
  ∃ k, first_map_line lines k
    ∧ header_value "height" lines k H ∧ header_value "width" lines k W
    ∧ 0 ≤ H ∧ 0 ≤ W
    ∧ grid = take (Z.to_nat H) (drop (S k) lines)
    ∧ Z.of_nat (length grid) = H
    ∧ mask_upto grid H W H 0 obs
    ∧ ∀ y, (y < Z.to_nat H)%nat → row_long grid W y.
Proof.
  intros Hrun. pose proof Hrun as Hrun0. unfold read_movingai_map in Hrun.
  apply bind_Returned in Hrun as ([[H0 W0] idx0] & Hscan & Hrun).
  destruct H0 as [H0|], W0 as [W0|], idx0 as [idx|]; try done.
  pose proof Hscan as Hscan0.
  apply scan_header_map in Hscan as (k & Hk & -> & HH & HW).
  apply header_result_Some in HH, HW.
  destruct (decide _) as [|Hlen%dec_stable]; [done|].
  apply bind_Returned in Hrun as (obs0 & Hzeros & Hrun).
  apply bind_Returned in Hrun as (obs1 & Hfill & Hrun).
  injection Hrun as <- <- <- <-.
  assert (0 ≤ H0) as HH0 by lia.
  assert (0 ≤ W0) as HW0.
  { apply lift_Returned in Hzeros. unfold np_zeros, np_full in Hzeros.
    destruct (Z.ltb_spec H0 0), (Z.ltb_spec W0 0); try done; lia. }
  rewrite Z.add_0_l in *. rewrite slice_from in Hlen, Hrun0 |- * by lia.
  replace (Z.to_nat (Z.of_nat k + 1)) with (S k) in * by lia.
  assert (Z.of_nat (S k) + H0 ≤ Z.of_nat (length lines)) as Hfit.
  { pose proof (first_map_line_lt _ _ Hk).
    rewrite length_take, length_drop in Hlen. lia. }
  destruct (read_body lines k H0 W0 Hscan0 HH0 Hfit HW0)
    as [(obs' & Hrun' & Hinv & Hlong)|(y & _ & Hrun' & _)];
    [|by rewrite Hrun0 in Hrun'].
  rewrite Hrun0 in Hrun'. injection Hrun' as ->.
  exists k. split_and!; done.
Qed.

(** X21.  When [read_movingai_map] returns [(grid, H, W, obstacles)]:
    the text has a first line reading "map"; [H] and [W] are the integers
    ending the last "height" and "width" lines before it; [grid] is made
    of the [H] lines that follow it; and [obstacles] is an [H x W] array
    whose cell [(y, x)] is 1 when the character at column [x] of line [y]
    of the grid is one of [@], [T], [O], [W], and 0 otherwise. *)
Theorem read_map_meaning (lines grid : list string) (H W : Z) (obs : ndarray) :
  read_movingai_map lines = Returned (grid, H, W, obs) →
  ∃ k, first_map_line lines k
    ∧ header_value "height" lines k H ∧ header_value "width" lines k W
    ∧ 0 ≤ H ∧ 0 ≤ W
    ∧ grid = take (Z.to_nat H) (drop (S k) lines)
    ∧ Z.of_nat (length grid) = H
    ∧ nd_wf obs ∧ nd_H obs = H ∧ nd_W obs = W
    ∧ ∀ c, inb H W c →
        ∃ ch, grid_char grid c = Some ch
              ∧ at_ obs c = if is_obstacle ch then 1 else 0.
Proof.
  intros Hrun.
  destruct (read_map_inv _ _ _ _ _ Hrun)
    as (k & Hk & HH & HW & HH0 & HW0 & Hgrid & Hlen & Hinv & Hlong).
  exists k. split_and!; try done; try apply Hinv.
  by apply (mask_cells _ _ _ _ Hinv).
Qed.

Lemma read_map_meaning_witness :
  read_movingai_map
    ["type octile"; "height 2"; "width 3"; "map"; ".@."; "T.W"]%string
  = Returned ([".@."; "T.W"]%string, 2, 3, NdArray 2 3 [0; 1; 0; 1; 0; 1])
  ∧ header_value "height"
      ["type octile"; "height 2"; "width 3"; "map"; ".@."; "T.W"]%string 3 2.
Proof.
  assert (read_movingai_map
            ["type octile"; "height 2"; "width 3"; "map"; ".@."; "T.W"]%string
          = Returned ([".@."; "T.W"]%string, 2, 3,
                      NdArray 2 3 [0; 1; 0; 1; 0; 1])) as Hrun
    by (vm_compute; reflexivity).
  split; [exact Hrun|].
  destruct (read_map_meaning _ _ _ _ _ Hrun) as (k & Hk & HH & _).
  assert (k = 3%nat) as ->; [|exact HH].
  destruct Hk as [Hk Hbefore].
  destruct k as [|[|[|[|k]]]]; try (vm_compute in Hk; discriminate Hk).
  - reflexivity.
  - exfalso. by apply (Hbefore 3%nat "map"%string); [lia | |].
Defined.

Lemma row_long_take (l : list string) n W y :
  (y < n)%nat → row_long (take n l) W y ↔ row_long l W y.
Proof. intros Hy. unfold row_long. by rewrite lookup_take_lt. Qed.

(** X22.  [read_movingai_map] returns on a well-formed text: a first
    "map" line, before it "height" and "width" lines that end with
    integers, the last ones giving [H >= 0] and [W >= 0], and after it at
    least [H] lines, the first [H] of which have at least [W] characters.
    The grid returned is made of these [H] lines. *)
Theorem read_map_returns (lines : list string) (k : nat) (H W : Z) :
  first_map_line lines k → header_parses lines k →
  header_value "height" lines k H → header_value "width" lines k W →
  0 ≤ H → 0 ≤ W → Z.of_nat (S k) + H ≤ Z.of_nat (length lines) →
  (∀ y, (y < Z.to_nat H)%nat → row_long (drop (S k) lines) W y) →
  ∃ obs, read_movingai_map lines
         = Returned (take (Z.to_nat H) (drop (S k) lines), H, W, obs).
Proof.
  intros Hk Hparse HH HW HH0 HW0 Hfit Hrows.
  destruct (read_body lines k H W (scan_header_ok _ _ _ _ Hk Hparse HH HW)
              HH0 Hfit HW0)
    as [(obs & Hrun & _)|(y & Hy & _ & Hshort & _)]; [by exists obs|].
  destruct Hshort. apply row_long_take; [done|]. by apply Hrows.
Qed.

Lemma read_map_returns_witness :
  ∃ obs,
    read_movingai_map ["Height 1"; "WIDTH 2"; "Map"; "@.."; "rest"]%string
    = Returned (["@.."]%string, 1, 2, obs).
Proof.
  apply (read_map_returns
           ["Height 1"; "WIDTH 2"; "Map"; "@.."; "rest"]%string 2 1 2).
  - split; [reflexivity|].
    intros [|[|j]] ln Hj Hl; [| |lia]; injection Hl as <-; discriminate.
  - intros [|[|j]] ln Hj Hl _; [| |lia]; injection Hl as <-;
      eexists; reflexivity.
  - exists 0%nat, "Height 1"%string.
    split_and!; [lia | reflexivity | reflexivity | reflexivity |].
    intros [|[|j']] ln' Hj' Hl'; [lia | | lia]. injection Hl' as <-.
    reflexivity.
  - exists 1%nat, "WIDTH 2"%string.
    split_and!; [lia | reflexivity | reflexivity | reflexivity |].
    intros j' ln' Hj'. lia.
  - lia.
  - lia.
  - simpl. lia.
  - intros [|y] Hy; [|simpl in Hy; lia].
    exists "@.."%string. split; [reflexivity | simpl; lia].
Defined.

(** X23.  After a well-formed header, [read_movingai_map] rejects a
    negative height or a body of fewer than [H] lines, then a negative
    width, then the first line of the grid that has fewer than [W]
    characters, each with its own error. *)
Theorem read_map_rejects (lines : list string) (k : nat) (H W : Z) :
  first_map_line lines k → header_parses lines k →
  header_value "height" lines k H → header_value "width" lines k W →
  (H < 0 ∨ Z.of_nat (length lines) < Z.of_nat (S k) + H →
   read_movingai_map lines = Raised (ValueError_InvalidBody H))
  ∧ (0 ≤ H → Z.of_nat (S k) + H ≤ Z.of_nat (length lines) → W < 0 →
     read_movingai_map lines = Raised (Builtin ValueError_NegativeDims))
  ∧ (0 ≤ H → Z.of_nat (S k) + H ≤ Z.of_nat (length lines) → 0 ≤ W →
     ∀ y, (y < Z.to_nat H)%nat → ¬ row_long (drop (S k) lines) W y →
          (∀ y', (y' < y)%nat → row_long (drop (S k) lines) W y') →
          read_movingai_map lines
          = Raised (ValueError_RowTooShort (Z.of_nat y))).
Proof.
  intros Hk Hparse HH HW.
  pose proof (scan_header_ok _ _ _ _ Hk Hparse HH HW) as Hscan.
  pose proof (first_map_line_lt _ _ Hk) as Hlt.
  split_and!.
  - intros Hbad. unfold read_movingai_map.
    rewrite Hscan, bind_Returned_l. cbn iota beta.
    destruct (decide _) as [|Hlen%dec_stable]; [done|].
    destruct Hbad as [Hneg|Hshort]; [lia|].
    assert (0 ≤ H) as HH0 by lia.
    rewrite slice_from in Hlen by lia.
    rewrite length_take, length_drop in Hlen. lia.
  - intros HH0 Hfit HW0. unfold read_movingai_map.
    rewrite Hscan, bind_Returned_l. cbn iota beta.
    rewrite slice_from by lia.
    destruct (decide _) as [Hne|_].
    { destruct Hne. rewrite length_take, length_drop. lia. }
    unfold np_zeros, np_full.
    destruct (Z.ltb_spec H 0), (Z.ltb_spec W 0); try lia. done.
  - intros HH0 Hfit HW0 y Hy Hshort Hlong.
    destruct (read_body lines k H W Hscan HH0 Hfit HW0)
      as [(obs & _ & _ & Hrows)|(y' & Hy' & Hrun & Hshort' & Hlong')].
    + destruct Hshort. apply (row_long_take _ (Z.to_nat H)); [done|].
      by apply Hrows.
    + rewrite row_long_take in Hshort' by done.
      destruct (lt_eq_lt_dec y y') as [[Hlt' | ->] | Hlt']; [| done |].
      * destruct Hshort.
        apply (row_long_take _ (Z.to_nat H)); [done|]. by apply Hlong'.
      * destruct Hshort'. by apply Hlong.
Qed.

Lemma read_map_rejects_witness :
  read_movingai_map ["height 2"; "width 3"; "map"; "@.."; ".."]%string
  = Raised (ValueError_RowTooShort 1).
Proof.
  assert (first_map_line ["height 2"; "width 3"; "map"; "@.."; ".."]%string 2)
    as Hk.
  { split; [reflexivity|].
    intros [|[|j]] ln Hj Hl; [| |lia]; injection Hl as <-; discriminate. }
  assert (header_parses ["height 2"; "width 3"; "map"; "@.."; ".."]%string 2)
    as Hparse.
  { intros [|[|j]] ln Hj Hl _; [| |lia]; injection Hl as <-;
      eexists; reflexivity. }
  assert (header_value "height"
            ["height 2"; "width 3"; "map"; "@.."; ".."]%string 2 2) as HH.
  { exists 0%nat, "height 2"%string.
    split_and!; [lia | reflexivity | reflexivity | reflexivity |].
    intros [|[|j']] ln' Hj' Hl'; [lia | | lia]. injection Hl' as <-.
    reflexivity. }
  assert (header_value "width"
            ["height 2"; "width 3"; "map"; "@.."; ".."]%string 2 3) as HW.
  { exists 1%nat, "width 3"%string.
    split_and!; [lia | reflexivity | reflexivity | reflexivity |].
    intros j' ln' Hj'. lia. }
  apply (proj2 (proj2 (read_map_rejects _ 2 2 3 Hk Hparse HH HW))
           ltac:(lia) ltac:(simpl; lia) ltac:(lia) 1%nat).
  - simpl. lia.
  - intros (row & Hrow & Hlen). injection Hrow as <-. simpl in Hlen. lia.
  - intros [|y'] Hy'; [|lia].
    exists "@.."%string. split; [reflexivity | simpl; lia].
Defined.

Lemma scan_header_none lines : ∀ i H W H' W',
  scan_header lines i H W = Returned (H', W', None) →
  ∀ k, ¬ first_map_line lines k.
Proof.
  induction lines as [|ln rest IH]; intros i H W H' W' Hrun k Hk.
  { destruct Hk as [Hk _]. by rewrite lookup_nil in Hk. }
  cbn [scan_header] in Hrun.
  assert (String.eqb (lower ln) "map" = false →
          ∃ k', k = S k' ∧ first_map_line rest k') as Hnext.
  { intros Hne. destruct k as [|k].
    - destruct Hk as [Hk _]. simpl in Hk. injection Hk as Hk.
      by rewrite Hk in Hne.
    - exists k. split; [done|]. by eapply first_map_line_uncons. }
  destruct (startswith "height" (lower ln)) eqn:Hh.
  { apply bind_Returned in Hrun as (h & _ & Hrun).
    destruct Hnext as (k' & -> & Hk'); [by apply startswith_height_map|].
    by eapply IH. }
  destruct (startswith "width" (lower ln)) eqn:Hw.
  { apply bind_Returned in Hrun as (w & _ & Hrun).
    destruct Hnext as (k' & -> & Hk'); [by apply startswith_width_map|].
    by eapply IH. }
  destruct (String.eqb (lower ln) "map") eqn:Hmap; [done|].
  destruct Hnext as (k' & -> & Hk'); [done|]. by eapply IH.
Qed.

(** X24.  The errors of [read_movingai_map]: the [ValueError] of [int]
    on a token of the header (not an integer literal, or one of more than
    4300 digits); an invalid header, and then the text has no "map" line
    with both a "height" and a "width" line before it; a body of the
    wrong length; a row that is too short; or numpy's refusal of a
    negative width.  It never raises an [IndexError]. *)
Theorem read_map_errors (lines : list string) (e : error) :
  read_movingai_map lines = Raised e →
  (e = ValueError_InvalidHeader
   ∧ ¬ ∃ k H W, first_map_line lines k ∧ header_value "height" lines k H
                ∧ header_value "width" lines k W)
  ∨ (∃ token, e = ValueError_InvalidLiteral token)
  ∨ (∃ H, e = ValueError_InvalidBody H)
  ∨ (∃ y, e = ValueError_RowTooShort y)
  ∨ e = Builtin ValueError_NegativeDims.
Proof.
  intros Hrun. pose proof Hrun as Hrun0. unfold read_movingai_map in Hrun.
  destruct (scan_header lines 0 None None) as [[[H0 W0] idx0]|e'] eqn:Hscan.
  2:{ injection Hrun as <-. right. left. by eapply scan_header_Raised. }
  rewrite bind_Returned_l in Hrun.
  assert (H0 = None ∨ W0 = None ∨ idx0 = None →
          ¬ ∃ k H W, first_map_line lines k ∧ header_value "height" lines k H
                     ∧ header_value "width" lines k W) as Hnone.
  { intros Hcase (k & H & W & Hk & HH & HW).
    destruct idx0 as [idx|]; [|by eapply scan_header_none].
    apply scan_header_map in Hscan as (k' & Hk' & _ & HH' & HW').
    rewrite <- (first_map_line_unique _ _ _ Hk Hk') in HH', HW'.
    rewrite (header_result_value _ _ _ _ _ HH' HH) in Hcase.
    rewrite (header_result_value _ _ _ _ _ HW' HW) in Hcase.
    naive_solver. }
  destruct H0 as [H0|]; [|injection Hrun as <-; left; split; [done|]; auto].
  destruct W0 as [W0|]; [|injection Hrun as <-; left; split; [done|]; auto].
  destruct idx0 as [idx|]; [|injection Hrun as <-; left; split; [done|]; auto].
  clear Hnone. right. right.
  destruct (decide _) as [|Hlen%dec_stable];
    [injection Hrun as <-; left; by eexists|].
  right. pose proof Hscan as Hscan0.
  apply scan_header_map in Hscan as (k & Hk & -> & _).
  pose proof (first_map_line_lt _ _ Hk) as Hlt.
  rewrite Z.add_0_l in *.
  assert (0 ≤ H0) as HH0 by lia.
  rewrite slice_from in Hlen by lia.
  rewrite length_take, length_drop in Hlen.
  destruct (np_zeros H0 W0) as [obs0|e0] eqn:Hzeros.
  2:{ unfold np_zeros, np_full in Hzeros.
      destruct (_ || _); [|done]. injection Hzeros as <-.
      injection Hrun as <-. by right. }
  assert (0 ≤ W0) as HW0.
  { unfold np_zeros, np_full in Hzeros.
    destruct (Z.ltb_spec H0 0), (Z.ltb_spec W0 0); try done; lia. }
  destruct (read_body lines k H0 W0 Hscan0 HH0 ltac:(lia) HW0)
    as [(obs & Hrun' & _)|(y & _ & Hrun' & _)];
    rewrite Hrun0 in Hrun'; [done|].
  injection Hrun' as ->. left. by eexists.
Qed.

Lemma read_map_errors_witness :
  read_movingai_map ["height 2"; "map"; "@.."; "..."]%string
  = Raised ValueError_InvalidHeader
  ∧ ¬ ∃ k H W,
        first_map_line ["height 2"; "map"; "@.."; "..."]%string k
        ∧ header_value "height" ["height 2"; "map"; "@.."; "..."]%string k H
        ∧ header_value "width" ["height 2"; "map"; "@.."; "..."]%string k W.
Proof.
  assert (read_movingai_map ["height 2"; "map"; "@.."; "..."]%string
          = Raised ValueError_InvalidHeader) as Hrun
    by (vm_compute; reflexivity).
  split; [exact Hrun|].
  destruct (read_map_errors _ _ Hrun)
    as [[_ Hno]|[[t Hbad]|[[h Hbad]|[[y Hbad]|Hbad]]]];
    [exact Hno | discriminate Hbad..].
Defined.

(** ** [compute_metrics] of the phase-2 summary and the run metrics *)

Lemma reaches_at_take paths goals i t :
  (i < num_agents_of paths)%nat →
  reaches_at paths (take (num_agents_of paths) goals) i t
  ↔ reaches_at paths goals i t.
Proof. intros Hi. unfold reaches_at. by rewrite lookup_take_lt. Qed.

Lemma position_lookup paths t i row p :
  paths !! t = Some row → row !! i = Some p → position paths t i = Some p.
Proof. intros Hrow Hp. unfold position. by rewrite Hrow. Qed.

(** The loop that fills [reached_time]. *)
Lemma reached_time_loop paths goals N T rt :
  for_each (λ t rt,
      for_each (Phase2.reached_time_body paths goals t) (range N) rt)
    (range T) (replicate N None) = Ok rt →
  length rt = N
  ∧ ∀ j e, rt !! j = Some e → reached_time_ok paths goals T j e.
Proof.
  intros Hrun.
  apply (for_range_inv
           (λ t rt, length rt = N
                    ∧ ∀ j e, rt !! j = Some e → reached_time_ok paths goals t j e))
    in Hrun; [done | |].
  { split; [apply length_replicate|].
    intros j e [-> _]%lookup_replicate. left. split; [done|]. lia. }
  intros t s s' Ht [Hlen Hinv] Hinner.
  apply (for_range_inv
           (λ i rt, length rt = N
                    ∧ ∀ j e, rt !! j = Some e →
                        reached_time_ok paths goals
                          (if decide (j < i)%nat then S t else t) j e))
    in Hinner.
  - destruct Hinner as [Hlen' Hinv']. split; [done|].
    intros j e Hj. specialize (Hinv' j e Hj).
    destruct (decide (j < N)%nat) as [|Hge]; [done|].
    apply lookup_lt_Some in Hj. lia.
  - split; [done|]. intros j e Hj.
    destruct (decide (j < 0)%nat); [lia|]. by apply Hinv.
  - clear s s' Hlen Hinv Hinner.
    intros i s s' Hi [Hlen Hinv] Hb. unfold Phase2.reached_time_body in Hb.
    apply bind_Ok in Hb as (cur & Hcur%of_option_Ok & Hb).
    assert (∀ j e, j ≠ i → s !! j = Some e →
              reached_time_ok paths goals
                (if decide (j < S i)%nat then S t else t) j e) as Hother.
    { intros j e Hne Hj. specialize (Hinv j e Hj).
      destruct (decide (j < i)%nat), (decide (j < S i)%nat); try done; lia. }
    assert (∀ e, reached_time_ok paths goals t i e →
                 (∀ t0, e = Some t0 → True) →
                 e ≠ None → reached_time_ok paths goals (S t) i e) as Hkeep.
    { intros e [[-> _]|(t0 & Ht0 & -> & Hfirst)] _ Hne; [done|].
      right. exists t0. split_and!; try done. lia. }
    pose proof (Hinv i cur Hcur) as Hi0.
    destruct (decide (i < i)%nat); [lia|].
    destruct cur as [r|].
    + injection Hb as <-. split; [done|]. intros j e Hj.
      destruct (decide (j = i)) as [->|Hne]; [|by apply Hother].
      rewrite Hcur in Hj. injection Hj as <-.
      destruct (decide (i < S i)%nat); [|lia]. by apply Hkeep.
    + apply bind_Ok in Hb as (row & Hrow%of_option_Ok & Hb).
      apply bind_Ok in Hb as (p & Hp%of_option_Ok & Hb).
      apply bind_Ok in Hb as (g & Hg%of_option_Ok & Hb).
      pose proof (position_lookup _ _ _ _ _ Hrow Hp) as Hpos.
      destruct Hi0 as [[_ Hnever]|(t0 & _ & [=] & _)].
      case_bool_decide as Hpg; injection Hb as <-.
      * subst p. split; [by rewrite length_insert|]. intros j e Hj.
        destruct (decide (j = i)) as [->|Hne].
        -- rewrite list_lookup_insert_eq in Hj by (by eapply lookup_lt_Some).
           injection Hj as <-. destruct (decide (i < S i)%nat); [|lia].
           right. exists t. split_and!; [lia | done |].
           split; [by exists g | done].
        -- rewrite list_lookup_insert_ne in Hj by done. by apply Hother.
      * split; [done|]. intros j e Hj.
        destruct (decide (j = i)) as [->|Hne]; [|by apply Hother].
        rewrite Hcur in Hj. injection Hj as <-.
        destruct (decide (i < S i)%nat); [|lia].
        left. split; [done|]. intros t' Ht' Hreach.
        destruct (decide (t' = t)) as [->|]; [|apply (Hnever t'); [lia | done]].
        destruct Hreach as (g' & Hg' & Hpos'). congruence.
Qed.

Lemma first_reaches_at_unique paths goals i t t' :
  first_reaches_at paths goals i t → first_reaches_at paths goals i t' → t = t'.
Proof.
  intros [Hr Hb] [Hr' Hb'].
  destruct (lt_eq_lt_dec t t') as [[Hlt|Heq]|Hlt]; [|done|].
  - by destruct (Hb' t Hlt).
  - by destruct (Hb t' Hlt).
Qed.

(** [reached_time] and [reach_t] record the same first-reach times, with
    [None] for the sentinel. *)
Lemma reached_time_reach paths goals reach i e r :
  _first_reach_times paths goals = Ok reach →
  reached_time_ok paths goals (length paths) i e →
  reach !! i = Some r →
  r = default INF e.
Proof.
  intros Hreach He Hr.
  destruct (reach_entry _ _ _ _ _ Hreach Hr) as [[-> Hnever]|(t & -> & Ht & Hfirst)];
    destruct He as [[-> Hnone]|(t0 & Ht0 & -> & Hfirst0)]; simpl.
  - done.
  - destruct Hfirst0 as [Hr0 _]. by destruct (Hnever t0).
  - destruct Hfirst as [Hrt _]. by destruct (Hnone t Ht).
  - f_equal. by eapply first_reaches_at_unique.
Qed.

Lemma wait_body_effect paths goals reach rt t i tw tw' :
  _first_reach_times paths goals = Ok reach →
  (∀ j e, rt !! j = Some e → reached_time_ok paths goals (length paths) j e) →
  Z.of_nat (length paths) ≤ 10 ^ 9 →
  (S t < length paths)%nat → (i < num_agents_of paths)%nat →
  Phase2.wait_body paths rt t i tw = Ok tw' →
  tw' = tw + (if stays paths reach t i then 1 else 0).
Proof.
  intros Hreach Hrt HT Ht Hi Hb. unfold Phase2.wait_body in Hb.
  apply bind_Ok in Hb as (e & He%of_option_Ok & Hb).
  pose proof (first_reach_times_spec _ _ _ Hreach) as (Hlen & _ & _).
  destruct (lookup_lt_is_Some_2 reach i) as [r Hr]; [lia|].
  pose proof (reached_time_reach _ _ _ _ _ _ Hreach (Hrt i e He) Hr) as ->.
  unfold stays. rewrite Hr.
  destruct (match e with
            | Some r => Z.of_nat t >=? r
            | None => false
            end) eqn:Hskip.
  - injection Hb as <-. destruct e as [r|]; [|done]. simpl.
    apply Z.geb_le in Hskip.
    destruct (position paths t i); [|lia].
    destruct (position paths (S t) i); [|lia].
    destruct (Z.ltb_spec (Z.of_nat t) r); [lia|]. simpl. lia.
  - apply bind_Ok in Hb as (row' & Hrow'%of_option_Ok & Hb).
    apply bind_Ok in Hb as (nxt & Hnxt%of_option_Ok & Hb).
    apply bind_Ok in Hb as (row & Hrow%of_option_Ok & Hb).
    apply bind_Ok in Hb as (cur & Hcur%of_option_Ok & Hb).
    injection Hb as <-.
    rewrite (position_lookup _ _ _ _ _ Hrow Hcur),
      (position_lookup _ _ _ _ _ Hrow' Hnxt).
    assert ((Z.of_nat t <? default INF e) = true) as ->.
    { apply Z.ltb_lt. destruct e as [r|]; simpl.
      - destruct (Z.geb_spec (Z.of_nat t) r); [done | lia].
      - unfold INF. lia. }
    simpl. destruct (bool_decide (nxt = cur)); lia.
Qed.

(** X25.  The two implementations of the wait count agree: on a run that
    both [compute_wait_collision_heatmaps] and the phase-2
    [compute_metrics] process (at most 10^9 timesteps), the [total_wait]
    of [compute_metrics] is the [total_wait] of the heat-map details, its
    [num_agents] is their [N] and its [makespan] is their [T - 1]. *)
Theorem phase2_total_wait_agrees (paths : list (list XY)) (goals : list XY)
    (obs : ndarray) (wait_map collision_map occupancy_map : ndarray)
    (d : details) (m : Phase2.metrics) :
  nd_wf obs →
  compute_wait_collision_heatmaps paths goals (nd_H obs) (nd_W obs) (Some obs)
  = Ok (wait_map, collision_map, occupancy_map, d) →
  Phase2.compute_metrics paths goals = Ok (Some m) →
  Z.of_nat (length paths) ≤ 10 ^ 9 →
  Phase2.total_wait m = d_total_wait d
  ∧ Phase2.num_agents m = d_N d
  ∧ Phase2.makespan m = d_T d - 1.
Proof.
  intros Hwf Hrun Hm HT.
  pose proof (compute_inv_grid _ _ _ _ _ _ _ Hrun)
    as (cache & w0 & c0 & Hcache & _ & _ & Hwc).
  apply compute_inv in Hrun
    as (obs' & reach & cache' & w0' & c0' & o0 & tw & tb & _ & HT0 & Hg & Hreach
        & _ & _ & _ & _ & _ & _ & ->).
  cbn [d_reach_t d_total_wait d_total_blocked d_N d_T] in *.
  apply (adding_loop (λ st : wc_state, st.1.2)
           (λ t i, if stays paths reach t i then 1 else 0)
           (wc_body paths goals reach cache obs (nd_H obs) (nd_W obs))
           (length paths - 1) (num_agents_of paths)) in Hwc.
  2:{ intros t i [[[w c] tw0] tb0] s' _ _ Hb.
      apply (wc_body_effect _ _ _ _ _ _ _ _ _ _ _ _ Hwf Hcache) in Hb
        as (w' & c' & tb' & -> & _). done. }
  simpl in Hwc.
  unfold Phase2.compute_metrics in Hm.
  destruct (decide (length paths = 0%nat)); [done|].
  rewrite take_ge in Hm by lia.
  apply bind_Ok in Hm as (last & _ & Hm).
  apply bind_Ok in Hm as (reached & _ & Hm).
  apply bind_Ok in Hm as (rt & Hrt & Hm).
  apply bind_Ok in Hm as (tw2 & Htw & Hm). injection Hm as <-.
  cbn [Phase2.total_wait Phase2.num_agents Phase2.makespan].
  split; [|done].
  apply reached_time_loop in Hrt as [_ Hrt].
  apply (adding_loop (λ tw : Z, tw)
           (λ t i, if stays paths reach t i then 1 else 0)
           (Phase2.wait_body paths rt)
           (length paths - 1) (num_agents_of paths)) in Htw; [lia|].
  intros t i s s' Ht Hi Hb.
  by apply (wait_body_effect paths goals reach rt t i); try lia.
Qed.

Lemma phase2_total_wait_agrees_witness :
  compute_wait_collision_heatmaps [[(0, 0)]; [(0, 0)]; [(1, 0)]; [(1, 0)]]
    [(1, 0)] 1 2 (Some (NdArray 1 2 [0; 0]))
  = Ok (NdArray 1 2 [1; 0], NdArray 1 2 [0; 1], NdArray 1 2 [2; 1],
        Details 4 1 [2] 1 1)
  ∧ Phase2.compute_metrics [[(0, 0)]; [(0, 0)]; [(1, 0)]; [(1, 0)]] [(1, 0)]
    = Ok (Some (Phase2.Metrics 1 3 4 1 1 1))
  ∧ Phase2.total_wait (Phase2.Metrics 1 3 4 1 1 1)
    = d_total_wait (Details 4 1 [2] 1 1).
Proof.
  assert (nd_wf (NdArray 1 2 [0; 0])) as Hwf by (unfold nd_wf; simpl; lia).
  assert (compute_wait_collision_heatmaps
            [[(0, 0)]; [(0, 0)]; [(1, 0)]; [(1, 0)]] [(1, 0)] 1 2
            (Some (NdArray 1 2 [0; 0]))
          = Ok (NdArray 1 2 [1; 0], NdArray 1 2 [0; 1], NdArray 1 2 [2; 1],
                Details 4 1 [2] 1 1)) as Hrun by (vm_compute; reflexivity).
  assert (Phase2.compute_metrics [[(0, 0)]; [(0, 0)]; [(1, 0)]; [(1, 0)]]
            [(1, 0)] = Ok (Some (Phase2.Metrics 1 3 4 1 1 1))) as Hm
    by (vm_compute; reflexivity).
  split_and!; [exact Hrun | exact Hm |].
  apply (phase2_total_wait_agrees
           [[(0, 0)]; [(0, 0)]; [(1, 0)]; [(1, 0)]] [(1, 0)]
           (NdArray 1 2 [0; 0]) _ _ _ _ _ Hwf Hrun Hm).
  simpl. lia.
Defined.

(** The count of the agents that are on their goal at the last step. *)
Lemma reached_loop (lastrow : list XY) goals N reached :
  for_each (Phase2.reached_body lastrow goals) (range N) 0 = Ok reached →
  0 ≤ reached ≤ Z.of_nat N
  ∧ (reached = Z.of_nat N
     ↔ ∀ i, (i < N)%nat → ∃ g, goals !! i = Some g ∧ lastrow !! i = Some g).
Proof.
  intros Hrun.
  apply (for_range_inv
           (λ k cnt, 0 ≤ cnt ≤ Z.of_nat k
                     ∧ (cnt = Z.of_nat k
                        ↔ ∀ i, (i < k)%nat →
                            ∃ g, goals !! i = Some g ∧ lastrow !! i = Some g)))
    in Hrun; [done | |].
  { split; [lia|]. split; [intros _ i Hi; lia | done]. }
  intros k cnt cnt' Hk [Hrange Hall] Hb. unfold Phase2.reached_body in Hb.
  apply bind_Ok in Hb as (p & Hp%of_option_Ok & Hb).
  apply bind_Ok in Hb as (g & Hg%of_option_Ok & Hb). injection Hb as <-.
  case_bool_decide as Hpg.
  - subst p. split; [lia|]. split.
    + intros Hcnt i Hi. destruct (decide (i = k)) as [->|]; [by exists g|].
      apply Hall; lia.
    + intros Hgoal. assert (cnt = Z.of_nat k); [|lia].
      apply Hall. intros i Hi. apply Hgoal. lia.
  - split; [lia|]. split; [lia|].
    intros Hgoal. destruct (Hgoal k) as (g' & Hg' & Hp'); [lia|]. congruence.
Qed.

Lemma last_position paths lastrow i :
  last paths = Some lastrow →
  position paths (length paths - 1) i = lastrow !! i.
Proof.
  intros Hlast. rewrite last_lookup in Hlast. unfold position.
  replace (length paths - 1)%nat with (pred (length paths)) by lia.
  by rewrite Hlast.
Qed.

(** What [compute_metrics] returns, field by field. *)
Lemma phase2_inv paths goals m :
  Phase2.compute_metrics paths goals = Ok (Some m) →
  ∃ lastrow,
    last paths = Some lastrow
    ∧ for_each (Phase2.reached_body lastrow
                  (take (num_agents_of paths) goals))
        (range (num_agents_of paths)) 0 = Ok (Phase2.reached_agents m)
    ∧ Phase2.solved m
      = (if bool_decide (Phase2.reached_agents m
                         = Z.of_nat (num_agents_of paths)) then 1 else 0)
    ∧ Phase2.num_agents m = Z.of_nat (num_agents_of paths)
    ∧ Phase2.num_steps m = Z.of_nat (length paths)
    ∧ Phase2.makespan m = Z.of_nat (length paths) - 1.
Proof.
  unfold Phase2.compute_metrics. intros Hm.
  destruct (decide (length paths = 0%nat)); [done|].
  apply bind_Ok in Hm as (lastrow & Hlast%of_option_Ok & Hm).
  apply bind_Ok in Hm as (reached & Hreached & Hm).
  apply bind_Ok in Hm as (rt & _ & Hm).
  apply bind_Ok in Hm as (tw & _ & Hm). injection Hm as <-.
  exists lastrow. done.
Qed.

Lemma final_positions_last paths goals lastrow :
  last paths = Some lastrow →
  (∀ i, (i < num_agents_of paths)%nat →
        ∃ g, take (num_agents_of paths) goals !! i = Some g
             ∧ lastrow !! i = Some g)
  ↔ final_positions_at_goal paths goals.
Proof.
  intros Hlast. unfold final_positions_at_goal, reaches_at.
  split; intros Hgoal i Hi; destruct (Hgoal i Hi) as (g & Hg & Hp); exists g.
  - rewrite lookup_take_lt in Hg by done.
    by rewrite (last_position _ _ _ Hlast).
  - rewrite lookup_take_lt by done.
    by rewrite (last_position _ _ _ Hlast) in Hp.
Qed.

(** X26.  The phase-2 [compute_metrics] decides [solved] on the last
    timestep: when it returns metrics, [solved] is 0 or 1, it is 1
    exactly when every agent is on its goal at the final timestep,
    [reached_agents] lies between 0 and [num_agents], and [makespan] is
    the number of timesteps minus one. *)
Theorem phase2_solved_iff_final (paths : list (list XY)) (goals : list XY)
    (m : Phase2.metrics) :
  Phase2.compute_metrics paths goals = Ok (Some m) →
  (Phase2.solved m = 1 ∨ Phase2.solved m = 0)
  ∧ (Phase2.solved m = 1 ↔ final_positions_at_goal paths goals)
  ∧ 0 ≤ Phase2.reached_agents m ≤ Phase2.num_agents m
  ∧ Phase2.makespan m = Phase2.num_steps m - 1
  ∧ Phase2.num_steps m = Z.of_nat (length paths).
Proof.
  intros Hm.
  apply phase2_inv in Hm
    as (lastrow & Hlast & Hreached & Hsolved & HN & HT & Hmk).
  apply reached_loop in Hreached as [Hrange Hall].
  rewrite (final_positions_last _ _ _ Hlast) in Hall.
  rewrite Hsolved, HN, HT, Hmk.
  case_bool_decide as Hcnt.
  - split_and!; [by left | | lia | lia | done | done].
    split; [by intros _; apply Hall | done].
  - split_and!; [by right | | lia | lia | done | done].
    split; [done|]. intros Hgoal. by apply Hall in Hgoal.
Qed.

Lemma phase2_solved_iff_final_witness :
  Phase2.compute_metrics [[(0, 0)]; [(1, 0)]; [(0, 0)]] [(1, 0)]
  = Ok (Some (Phase2.Metrics 1 2 3 0 0 0))
  ∧ ¬ final_positions_at_goal [[(0, 0)]; [(1, 0)]; [(0, 0)]] [(1, 0)].
Proof.
  assert (Phase2.compute_metrics [[(0, 0)]; [(1, 0)]; [(0, 0)]] [(1, 0)]
          = Ok (Some (Phase2.Metrics 1 2 3 0 0 0))) as Hm
    by (vm_compute; reflexivity).
  split; [exact Hm|].
  destruct (phase2_solved_iff_final _ _ _ Hm) as (_ & Hiff & _).
  intros Hfinal. apply Hiff in Hfinal. discriminate Hfinal.
Defined.

Lemma reached_count_all paths goals reach :
  _first_reach_times paths goals = Ok reach →
  Z.of_nat (length paths) ≤ 10 ^ 9 →
  Z.of_nat (length (filter (λ t, t < 10 ^ 9) reach))
  = Z.of_nat (num_agents_of paths) ↔ all_agents_reach paths goals.
Proof.
  intros Hreach HT.
  pose proof (first_reach_times_spec _ _ _ Hreach) as (Hlen & _ & _).
  rewrite <- Hlen, Nat2Z.inj_iff, filter_length_all, Forall_lookup. split.
  - intros Hfin i Hi. destruct (lookup_lt_is_Some_2 reach i) as [r Hr]; [lia|].
    specialize (Hfin i r Hr). simpl in Hfin.
    destruct (reach_entry _ _ _ _ _ Hreach Hr) as [[-> _]|(t & -> & _ & [Ht _])].
    + unfold INF in Hfin. lia.
    + by exists t.
  - intros Hreachall i r Hr. simpl.
    assert (i < num_agents_of paths)%nat as Hi.
    { rewrite <- Hlen. by eapply lookup_lt_Some. }
    destruct (reach_entry _ _ _ _ _ Hreach Hr) as [[-> Hnever]|(t & -> & Ht & _)].
    + destruct (Hreachall i Hi) as [t Ht]. by destruct (Hnever t).
    + lia.
Qed.

(** X27.  A run that the phase-2 summary counts as solved is solved for
    [summarize_run_metrics] too, when the solver's return code is 0: the
    first asks for the goals at the last timestep, the second at any
    timestep. *)
Theorem phase2_solved_implies_run_solved {F : Type} (paths : list (list XY))
    (goals : list XY) (wait_map collision_map : ndarray) (runtime_s : F)
    (m : Phase2.metrics) (m' : metrics F) :
  Phase2.compute_metrics paths goals = Ok (Some m) →
  summarize_run_metrics paths goals wait_map collision_map runtime_s 0 = Ok m' →
  Z.of_nat (length paths) ≤ 10 ^ 9 →
  Phase2.solved m = 1 → m_solved m' = 1.
Proof.
  intros Hm Hrun HT Hsolved.
  apply phase2_inv in Hm as (lastrow & Hlast & Hreached & Hs & _).
  apply reached_loop in Hreached as [_ Hall].
  rewrite (final_positions_last _ _ _ Hlast) in Hall.
  rewrite Hs in Hsolved. case_bool_decide as Hcnt; [|done].
  apply Hall in Hcnt.
  unfold summarize_run_metrics in Hrun.
  apply bind_Ok in Hrun as (reach & Hreach & Hrun). injection Hrun as <-.
  cbn [m_solved].
  assert (all_agents_reach paths goals) as Hreachall.
  { intros i Hi. exists (length paths - 1)%nat. by apply Hcnt. }
  apply (reached_count_all _ _ _ Hreach HT) in Hreachall.
  rewrite bool_decide_eq_true_2 by done. done.
Qed.

Lemma phase2_solved_implies_run_solved_witness :
  Phase2.compute_metrics [[(0, 0)]; [(1, 0)]] [(1, 0)]
  = Ok (Some (Phase2.Metrics 1 1 2 1 1 0))
  ∧ summarize_run_metrics [[(0, 0)]; [(1, 0)]] [(1, 0)]
      (NdArray 1 2 [0; 0]) (NdArray 1 2 [0; 0]) tt 0
    = Ok (Metrics 1 1 1 1 0 0 tt 0).
Proof.
  assert (Phase2.compute_metrics [[(0, 0)]; [(1, 0)]] [(1, 0)]
          = Ok (Some (Phase2.Metrics 1 1 2 1 1 0))) as Hm
    by (vm_compute; reflexivity).
  split; [exact Hm|].
  destruct (summarize_run_metrics [[(0, 0)]; [(1, 0)]] [(1, 0)]
              (NdArray 1 2 [0; 0]) (NdArray 1 2 [0; 0]) tt 0)
    as [m'|e] eqn:Hrun; [|vm_compute in Hrun; discriminate Hrun].
  pose proof (phase2_solved_implies_run_solved _ _ _ _ _ _ _ Hm Hrun
                ltac:(simpl; lia) eq_refl) as Hsolved.
  vm_compute in Hrun. injection Hrun as <-. reflexivity.
Defined.

(** ** Order between the three heat maps *)

Lemma hit_row_mono hit1 hit2 t n c :
  (∀ i, (i < n)%nat → hit1 t i = Some c → hit2 t i = Some c) →
  hit_row hit1 t n c ≤ hit_row hit2 t n c.
Proof.
  induction n as [|n IH]; intros Hsub; [done|]. rewrite !hit_row_S.
  assert (hit_row hit1 t n c ≤ hit_row hit2 t n c) by (apply IH; auto).
  specialize (Hsub n ltac:(lia)).
  destruct (decide (hit1 t n = Some c)) as [Hhit|Hhit].
  - rewrite !bool_decide_eq_true_2 by auto. lia.
  - rewrite (bool_decide_eq_false_2 _ Hhit). case_bool_decide; lia.
Qed.

Lemma hit_count_mono hit1 hit2 T N c :
  (∀ t i, (t < T)%nat → (i < N)%nat → hit1 t i = Some c → hit2 t i = Some c) →
  hit_count hit1 T N c ≤ hit_count hit2 T N c.
Proof.
  induction T as [|T IH]; intros Hsub; [done|]. rewrite !hit_count_S.
  assert (hit_count hit1 T N c ≤ hit_count hit2 T N c) by (apply IH; auto).
  assert (hit_row hit1 T N c ≤ hit_row hit2 T N c); [|lia].
  apply hit_row_mono. intros i Hi. apply Hsub; lia.
Qed.

Lemma hit_count_pred hit T N c :
  hit_count hit (T - 1) N c ≤ hit_count hit T N c.
Proof.
  destruct T as [|T]; [done|]. replace (S T - 1)%nat with T by lia.
  rewrite hit_count_S. pose proof (hit_row_bounds hit T N c). lia.
Qed.

Lemma ind_row_mono (ind1 ind2 : nat → nat → Z) t n :
  (∀ i, (i < n)%nat → ind1 t i ≤ ind2 t i) →
  ind_row ind1 t n ≤ ind_row ind2 t n.
Proof.
  induction n as [|n IH]; intros Hsub; [done|]. rewrite !ind_row_S.
  assert (ind_row ind1 t n ≤ ind_row ind2 t n) by (apply IH; auto).
  specialize (Hsub n ltac:(lia)). lia.
Qed.

Lemma ind_count_mono (ind1 ind2 : nat → nat → Z) T N :
  (∀ t i, (t < T)%nat → (i < N)%nat → ind1 t i ≤ ind2 t i) →
  ind_count ind1 T N ≤ ind_count ind2 T N.
Proof.
  induction T as [|T IH]; intros Hsub; [done|]. rewrite !ind_count_S.
  assert (ind_count ind1 T N ≤ ind_count ind2 T N) by (apply IH; auto).
  assert (ind_row ind1 T N ≤ ind_row ind2 T N); [|lia].
  apply ind_row_mono. intros i Hi. apply Hsub; lia.
Qed.

Lemma ind_count_const v T N :
  ind_count (λ _ _, v) T N = Z.of_nat T * Z.of_nat N * v.
Proof.
  assert (∀ t n, ind_row (λ _ _, v) t n = Z.of_nat n * v) as Hrow.
  { intros t n. induction n as [|n IH]; [done|]. rewrite ind_row_S, IH. lia. }
  induction T as [|T IH]; [done|]. rewrite ind_count_S, IH, Hrow. lia.
Qed.

Lemma wait_hit_occ_hit paths reach H W t i c :
  wait_hit paths reach H W t i = Some c → occ_hit paths reach H W t i = Some c.
Proof.
  unfold wait_hit, occ_hit, stays.
  destruct (position paths t i) as [cur|]; simpl; [|done].
  destruct (reach !! i) as [r|]; simpl; [|done].
  destruct (position paths (S t) i) as [nxt|]; simpl; [|done].
  destruct (Z.ltb_spec (Z.of_nat t) r); simpl; [|done].
  destruct (Z.leb_spec (Z.of_nat t) r); [|lia]. simpl.
  case_bool_decide; simpl; [|done]. done.
Qed.

Lemma blocked_hit_stays paths goals reach obstacles t i c :
  blocked_hit paths goals reach obstacles t i = Some c →
  stays paths reach t i = true.
Proof.
  unfold blocked_hit.
  destruct (position paths t i) as [cur|]; simpl; [|done].
  destruct (goals !! i) as [g|]; simpl; [|done].
  destruct (_bfs_dist obstacles g); [|done].
  destruct (stays paths reach t i); done.
Qed.

(** X28.  Order between the outputs of
    [compute_wait_collision_heatmaps] on a grid whose mask has the shape
    [H x W] (fewer than 2^31 agent-steps): an agent is counted as blocked
    only at a step where it waits, so [total_blocked <= total_wait], and
    there are at most [(T - 1) * N] waits; a wait is counted on a cell
    the agent occupies, so in every cell [wait_map] is at most
    [occupancy_map]. *)
Theorem heatmaps_ordered (paths : list (list XY)) (goals : list XY)
    (obs : ndarray) (wait_map collision_map occupancy_map : ndarray)
    (d : details) :
  nd_wf obs →
  compute_wait_collision_heatmaps paths goals (nd_H obs) (nd_W obs) (Some obs)
  = Ok (wait_map, collision_map, occupancy_map, d) →
  Z.of_nat (length paths) * Z.of_nat (num_agents_of paths) < 2 ^ 31 →
  0 ≤ d_total_blocked d ≤ d_total_wait d
  ∧ d_total_wait d
    ≤ (Z.of_nat (length paths) - 1) * Z.of_nat (num_agents_of paths)
  ∧ ∀ c, inb (nd_H obs) (nd_W obs) c →
         0 ≤ at_ wait_map c ≤ at_ occupancy_map c.
Proof.
  intros Hwf Hrun Hsmall.
  pose proof (compute_inv_grid _ _ _ _ _ _ _ Hrun)
    as (cache & w0 & c0 & Hcache & Hw0 & Hc0 & Hwc).
  apply compute_inv in Hrun
    as (obs' & reach & cache' & w0' & c0' & o0 & tw & tb & _ & HT & Hg & Hreach
        & _ & _ & Ho0 & _ & Hocc & _ & ->).
  cbn [d_reach_t d_total_wait d_total_blocked] in *.
  pose proof Hwc as Hwait. pose proof Hwc as Hblocked. pose proof Hwc as Hcells.
  apply (adding_loop (λ st : wc_state, st.1.2)
           (λ t i, if stays paths reach t i then 1 else 0)
           (wc_body paths goals reach cache obs (nd_H obs) (nd_W obs))
           (length paths - 1) (num_agents_of paths)) in Hwait.
  2:{ intros t i [[[w c] tw0] tb0] s' _ _ Hb.
      apply (wc_body_effect _ _ _ _ _ _ _ _ _ _ _ _ Hwf Hcache) in Hb
        as (w' & c' & tb' & -> & _). done. }
  apply (adding_loop (λ st : wc_state, st.2)
           (λ t i, match blocked_hit paths goals reach obs t i with
                    | Some _ => 1
                    | None => 0
                    end)
           (wc_body paths goals reach cache obs (nd_H obs) (nd_W obs))
           (length paths - 1) (num_agents_of paths)) in Hblocked.
  2:{ intros t i [[[w c] tw0] tb0] s' _ _ Hb.
      apply (wc_body_effect _ _ _ _ _ _ _ _ _ _ _ _ Hwf Hcache) in Hb
        as (w' & c' & tb' & -> & _ & Hb). simpl.
      destruct (blocked_hit paths goals reach obs t i); [lia|].
      destruct Hb as [_ ->]. lia. }
  simpl in Hwait, Hblocked.
  apply (counting_loop (λ st : wc_state, st.1.1.1) (nd_H obs) (nd_W obs)
           (wait_hit paths reach (nd_H obs) (nd_W obs))
           (wc_body paths goals reach cache obs (nd_H obs) (nd_W obs))
           (length paths - 1) (num_agents_of paths)) in Hcells.
  2:{ nia. }
  2:{ intros t i [[[w c] tw0] tb0] s' _ _ Hb _ _ _.
      apply (wc_body_effect _ _ _ _ _ _ _ _ _ _ _ _ Hwf Hcache) in Hb
        as (w' & c' & tb' & -> & Hw' & _). exact Hw'. }
  2:{ by apply cells_inv_zeros. }
  apply (counting_loop (λ a : ndarray, a) (nd_H obs) (nd_W obs)
           (occ_hit paths reach (nd_H obs) (nd_W obs))
           (occ_body paths reach (nd_H obs) (nd_W obs))
           (length paths) (num_agents_of paths) Hsmall) in Hocc.
  2:{ intros t i s s' _ _ Hb _ _ _. by apply occ_body_hit. }
  2:{ by apply cells_inv_zeros. }
  simpl in Hcells. destruct Hcells as (_ & _ & _ & Hwcell).
  destruct Hocc as (_ & _ & _ & Hocell).
  split_and!.
  - rewrite Hblocked.
    pose proof (ind_count_mono (λ _ _, 0)
                  (λ t i, match blocked_hit paths goals reach obs t i with
                    | Some _ => 1
                    | None => 0
                    end)
                  (length paths - 1) (num_agents_of paths)) as Hpos.
    rewrite ind_count_const in Hpos.
    assert (0 ≤ ind_count
                  (λ t i, match blocked_hit paths goals reach obs t i with
                    | Some _ => 1
                    | None => 0
                    end)
                  (length paths - 1) (num_agents_of paths)); [|lia].
    etrans; [|apply Hpos]; [lia|].
    intros t i _ _. destruct (blocked_hit _ _ _ _ _ _); lia.
  - rewrite Hblocked, Hwait. apply ind_count_mono. intros t i _ _.
    destruct (blocked_hit paths goals reach obs t i) as [c|] eqn:Hb.
    + by rewrite (blocked_hit_stays _ _ _ _ _ _ _ Hb).
    + destruct (stays paths reach t i); lia.
  - rewrite Hwait.
    pose proof (ind_count_mono
                  (λ t i, if stays paths reach t i then 1 else 0) (λ _ _, 1)
                  (length paths - 1) (num_agents_of paths)) as Hle.
    rewrite ind_count_const in Hle.
    etrans; [apply Hle|]; [|nia].
    intros t i _ _. destruct (stays paths reach t i); lia.
  - intros c Hc. rewrite (Hwcell c Hc), (Hocell c Hc). split.
    + apply hit_count_bounds.
    + etrans; [|apply hit_count_pred].
      apply hit_count_mono. intros t i _ _. apply wait_hit_occ_hit.
Qed.

Lemma heatmaps_ordered_witness :
  compute_wait_collision_heatmaps [[(0, 0)]; [(0, 0)]; [(1, 0)]] [(1, 0)] 1 2
    (Some (NdArray 1 2 [0; 0]))
  = Ok (NdArray 1 2 [1; 0], NdArray 1 2 [0; 1], NdArray 1 2 [2; 1],
        Details 3 1 [2] 1 1)
  ∧ at_ (NdArray 1 2 [1; 0]) (0, 0) ≤ at_ (NdArray 1 2 [2; 1]) (0, 0).
Proof.
  assert (nd_wf (NdArray 1 2 [0; 0])) as Hwf by (unfold nd_wf; simpl; lia).
  assert (compute_wait_collision_heatmaps [[(0, 0)]; [(0, 0)]; [(1, 0)]]
            [(1, 0)] 1 2 (Some (NdArray 1 2 [0; 0]))
          = Ok (NdArray 1 2 [1; 0], NdArray 1 2 [0; 1], NdArray 1 2 [2; 1],
                Details 3 1 [2] 1 1)) as Hrun by (vm_compute; reflexivity).
  split; [exact Hrun|].
  destruct (heatmaps_ordered [[(0, 0)]; [(0, 0)]; [(1, 0)]] [(1, 0)]
              (NdArray 1 2 [0; 0]) _ _ _ _ Hwf Hrun) as (_ & _ & Hcells).
  - simpl. lia.
  - apply (Hcells (0, 0)). unfold inb. simpl. lia.
Defined.

(** ** From the solver's output to the run metrics
       ([scripts/02_run_pypibt_collect.py]) *)

Lemma take_digits_nonneg s : ∀ acc n,
  0 ≤ acc → 0 ≤ (take_digits acc n s).1.1.
Proof.
  induction s as [|c s IH]; intros acc n Hacc; simpl; [done|].
  destruct (is_digit c) eqn:Hc; [|done]. apply IH.
  unfold is_digit in Hc. apply andb_true_iff in Hc as [Hlo%Nat.leb_le _].
  unfold digit_val. lia.
Qed.

Lemma match_nat_nonneg s g rest : match_nat s = Some (g, rest) → 0 ≤ g.1.
Proof.
  unfold match_nat. pose proof (take_digits_nonneg s 0 0 ltac:(lia)) as Hv.
  destruct (take_digits 0 0 s) as [[v' n] rest']. simpl in Hv.
  destruct (decide _); [done|]. by intros [= <- _].
Qed.

Lemma solution_line_nonneg ln t xy : solution_line ln = Some (t, xy) → 0 ≤ t.
Proof.
  unfold solution_line, tline_match. intros Hsol.
  destruct (match_nat (skip_spaces ln)) as [[g s1]|] eqn:Hnat; [|done].
  apply match_nat_nonneg in Hnat. simpl in Hsol.
  destruct (skip_spaces s1) as [|c s2]; [done|].
  destruct (Ascii.eqb_spec c ":") as [->|Hne].
  - simpl in Hsol. destruct (decide _); [done|]. by injection Hsol as <- _.
  - destruct c as [[] [] [] [] [] [] [] []]; try done.
Qed.

Lemma solution_lines_nonneg lines s : s ∈ solution_lines lines → 0 ≤ s.1.
Proof.
  unfold solution_lines. intros (ln & _ & Hsol)%list_elem_of_omap.
  destruct s as [t xy]. by eapply solution_line_nonneg.
Qed.

Lemma increasing_gap ts : strictly_increasing ts →
  ∀ j k a b, ts !! k = Some a → ts !! (k + j)%nat = Some b →
             a + Z.of_nat j ≤ b.
Proof.
  intros Hinc j. induction j as [|j IH]; intros k a b Ha Hb.
  - rewrite Nat.add_0_r in Hb. rewrite Ha in Hb. injection Hb as <-. lia.
  - destruct (lookup_lt_is_Some_2 ts (k + j)) as [c Hc].
    { apply lookup_lt_Some in Hb. lia. }
    specialize (IH k a c Ha Hc).
    replace (k + S j)%nat with (S (k + j)) in Hb by lia.
    specialize (Hinc (k + j)%nat c b Hc Hb). lia.
Qed.

(** Strictly increasing natural labels: the last one is at least the
    number of lines minus one, with equality only for [0, 1, 2, ...]. *)
Lemma increasing_last ts mk :
  strictly_increasing ts → Forall (λ t, 0 ≤ t) ts → last ts = Some mk →
  Z.of_nat (length ts) - 1 ≤ mk
  ∧ (Z.of_nat (length ts) - 1 = mk ↔ ts = Z.of_nat <$> seq 0 (length ts)).
Proof.
  intros Hinc Hpos Hlast. rewrite last_lookup in Hlast.
  assert (0 < length ts)%nat as Hlen.
  { destruct ts; [done | simpl; lia]. }
  assert (∀ k a, ts !! k = Some a → Z.of_nat k ≤ a) as Hlow.
  { intros k a Ha. destruct (lookup_lt_is_Some_2 ts 0) as [a0 Ha0]; [lia|].
    pose proof (increasing_gap ts Hinc k 0%nat a0 a Ha0 Ha).
    rewrite Forall_lookup in Hpos. specialize (Hpos 0%nat a0 Ha0). simpl in Hpos.
    lia. }
  split; [specialize (Hlow _ _ Hlast); lia|]. split.
  - intros Heq. apply list_eq. intros k.
    rewrite list_lookup_fmap.
    destruct (decide (k < length ts)%nat) as [Hk|Hk].
    + rewrite lookup_seq_lt by done. simpl.
      destruct (lookup_lt_is_Some_2 ts k Hk) as [a Ha]. rewrite Ha. f_equal.
      pose proof (Hlow k a Ha).
      pose proof (increasing_gap ts Hinc (pred (length ts) - k) k a mk Ha) as Hup.
      replace (k + (pred (length ts) - k))%nat with (pred (length ts)) in Hup
        by lia.
      specialize (Hup Hlast). lia.
    + rewrite lookup_ge_None_2 by lia.
      rewrite lookup_seq_ge by lia. done.
  - intros Heq. rewrite Heq in Hlast.
    rewrite list_lookup_fmap, length_fmap, length_seq in Hlast.
    rewrite lookup_seq_lt in Hlast by lia. simpl in Hlast.
    injection Hlast as <-. lia.
Qed.

(** X29.  The chain of the collector: once [parse_output_txt] has
    accepted the solver's output for the expected number of agents and
    [read_movingai_map] has read the map, the heat maps and the run
    metrics are computed without error when there are as many goals as
    agents; [num_agents] is the expected number; the metrics' [makespan]
    is the number of solution lines minus one, which is at most the last
    timestep the parser reports, with equality exactly when the timesteps
    are 0, 1, 2, ...  With another number of goals,
    [compute_wait_collision_heatmaps] raises its goals-size error. *)
Theorem collect_pipeline {F : Type} (lines map_lines : list string)
    (n : nat) (goals : list XY) (p : parsed) (grid : list string) (H W : Z)
    (obs : ndarray) (runtime_s : F) (rc : Z) :
  parse_output_txt lines (Some (Z.of_nat n)) = Ok p →
  read_movingai_map map_lines = Returned (grid, H, W, obs) →
  (length goals = n →
   ∃ wait_map collision_map occupancy_map d m,
     compute_wait_collision_heatmaps (positions_by_t p) goals H W (Some obs)
     = Ok (wait_map, collision_map, occupancy_map, d)
     ∧ summarize_run_metrics (positions_by_t p) goals wait_map collision_map
         runtime_s rc = Ok m
     ∧ d_N d = Z.of_nat n ∧ m_num_agents m = Z.of_nat n
     ∧ d_T d = Z.of_nat (length (timesteps p))
     ∧ m_makespan m = Z.of_nat (length (timesteps p)) - 1
     ∧ m_makespan m ≤ ParsePaths.makespan p
     ∧ (m_makespan m = ParsePaths.makespan p
        ↔ timesteps p = Z.of_nat <$> seq 0 (length (timesteps p))))
  ∧ (length goals ≠ n →
     compute_wait_collision_heatmaps (positions_by_t p) goals H W (Some obs)
     = Raise (ValueError_GoalsSize (Z.of_nat (length goals)) (Z.of_nat n))).
Proof.
  intros Hparse Hmap.
  destruct (read_map_inv _ _ _ _ _ Hmap)
    as (k & _ & _ & _ & _ & _ & _ & _ & (Hwf & EH & EW & _) & _).
  subst H W.
  pose proof (parse_inv _ _ _ Hparse)
    as (Hts & Hps & Hne & Hinc & Hnum & Htr & Hmk & Hcnt & _).
  apply transpose_loop in Htr as (Hrows & _ & _); [|by rewrite length_replicate].
  rewrite Hnum in Hrows.
  assert (length (positions_by_t p) = length (timesteps p)) as Hlen
    by (by rewrite Hts, Hps, !length_fmap).
  assert (0 < length (positions_by_t p))%nat as Hpos.
  { rewrite Hlen. destruct (timesteps p); [done | simpl; lia]. }
  assert (num_agents_of (positions_by_t p) = n) as HN.
  { destruct (positions_by_t p) as [|row0 rows] eqn:Hp; [simpl in Hpos; lia|].
    simpl. specialize (Hrows row0 ltac:(set_solver)). lia. }
  assert (∀ row, row ∈ positions_by_t p →
                 length row = num_agents_of (positions_by_t p)) as Hrect.
  { intros row Hrow. specialize (Hrows row Hrow). lia. }
  split.
  - intros Hgoals.
    destruct (compute_returns (positions_by_t p) goals obs Hwf Hpos Hrect)
      as (w & c & o & d & Hrun); [lia|].
    pose proof (compute_inv _ _ _ _ _ _ _ _ _ Hrun)
      as (obs' & reach & cache & w0 & c0 & o0 & tw & tb & _ & _ & _ & Hreach
          & _ & _ & _ & _ & _ & _ & ->).
    eexists w, c, o, _, _. split; [exact Hrun|].
    unfold summarize_run_metrics. rewrite Hreach, bind_Ok_l.
    split; [reflexivity|]. cbn [d_N d_T m_num_agents m_makespan].
    rewrite HN, Hlen.
    assert (last (timesteps p) = Some (ParsePaths.makespan p)) as Hlast.
    { rewrite Hmk. destruct (last (timesteps p)) eqn:Hl; [done|].
      by apply last_None in Hl. }
    destruct (increasing_last (timesteps p) (ParsePaths.makespan p)) as [Hle Hiff].
    + intros j a b. by apply check_increasing_Ok.
    + rewrite Hts. apply Forall_fmap, Forall_forall.
      intros s Hs. by apply solution_lines_nonneg in Hs.
    + done.
    + split_and!; done.
  - intros Hgoals. unfold compute_wait_collision_heatmaps.
    destruct (decide (length (positions_by_t p) = 0%nat)); [lia|].
    rewrite HN. destruct (decide (length goals ≠ n)); done.
Qed.

Lemma collect_pipeline_witness :
  ∃ wait_map collision_map occupancy_map d m,
    compute_wait_collision_heatmaps [[(0, 0)]; [(0, 0)]; [(1, 0)]] [(1, 0)]
      1 2 (Some (NdArray 1 2 [0; 0]))
    = Ok (wait_map, collision_map, occupancy_map, d)
    ∧ summarize_run_metrics [[(0, 0)]; [(0, 0)]; [(1, 0)]] [(1, 0)]
        wait_map collision_map tt 0 = Ok m
    ∧ m_makespan m = 2.
Proof.
  assert (parse_output_txt ["0:(0,0)"; "1:(0,0)"; "3:(1,0)"]%string
            (Some (Z.of_nat 1))
          = Ok (Parsed [0; 1; 3] [[(0, 0)]; [(0, 0)]; [(1, 0)]]
                  [[(0, 0); (0, 0); (1, 0)]] 1 3)) as Hparse
    by (vm_compute; reflexivity).
  assert (read_movingai_map ["height 1"; "width 2"; "map"; ".."]%string
          = Returned ([".."]%string, 1, 2, NdArray 1 2 [0; 0])) as Hmap
    by (vm_compute; reflexivity).
  destruct (proj1 (collect_pipeline _ _ 1 [(1, 0)] _ _ _ _ _ tt 0 Hparse Hmap)
              eq_refl)
    as (w & c & o & d & m & Hrun & Hm & _ & _ & _ & Hmk & _).
  exists w, c, o, d, m. split_and!; [exact Hrun | exact Hm | exact Hmk].
Defined.

(** X30.  The totals of the run metrics are those of the heat-map
    details: fed with the maps that [compute_wait_collision_heatmaps]
    returned (fewer than 2^31 agent-steps), [summarize_run_metrics]
    reports the [total_blocked] of the details as [total_collision] and,
    when every position is inside the grid, their [total_wait] as
    [total_wait]; its [num_agents] and [makespan] are [N] and [T - 1],
    and [reached_agents] is the number of finite entries of [reach_t],
    between 0 and [num_agents]. *)
Theorem run_metrics_totals {F : Type} (paths : list (list XY))
    (goals : list XY) (H W : Z) (obstacles : option ndarray)
    (wait_map collision_map occupancy_map : ndarray) (d : details)
    (runtime_s : F) (rc : Z) (m : metrics F) :
  compute_wait_collision_heatmaps paths goals H W obstacles
  = Ok (wait_map, collision_map, occupancy_map, d) →
  summarize_run_metrics paths goals wait_map collision_map runtime_s rc = Ok m →
  Z.of_nat (length paths) * Z.of_nat (num_agents_of paths) < 2 ^ 31 →
  m_total_collision m = d_total_blocked d
  ∧ (all_in_bounds paths H W → m_total_wait m = d_total_wait d)
  ∧ m_num_agents m = d_N d ∧ m_makespan m = d_T d - 1
  ∧ m_reached_agents m
    = Z.of_nat (length (filter (λ r, r < 10 ^ 9) (d_reach_t d)))
  ∧ 0 ≤ m_reached_agents m ≤ m_num_agents m.
Proof.
  intros Hrun Hm Hsmall.
  apply compute_inv in Hrun
    as (obs & reach & cache & w0 & c0 & o0 & tw & tb & -> & HT & Hg & Hreach
        & Hw0 & Hc0 & Ho0 & Hcache & Hocc & Hwc & ->).
  unfold summarize_run_metrics in Hm. rewrite Hreach, bind_Ok_l in Hm.
  injection Hm as <-.
  cbn [m_total_collision m_total_wait m_num_agents m_makespan m_reached_agents
       d_total_blocked d_total_wait d_N d_T d_reach_t].
  apply (wc_loop_spec (all_in_bounds paths H W)) in Hwc; [|done|nia|].
  2:{ pose proof (counts_ok_zeros _ _ _ Hw0) as Hw0ok.
      pose proof (counts_ok_zeros _ _ _ Hc0) as Hc0ok.
      unfold wc_inv. split_and!; try done; try apply Hw0ok. }
  destruct Hwc as ((_ & _ & _ & _ & Hcsum) & Htb & _ & _ & _ & Htw & Hw).
  pose proof (first_reach_times_spec _ _ _ Hreach) as (Hlen & _ & _).
  pose proof (length_filter (λ r, r < 10 ^ 9) reach) as Hfil.
  split_and!; try done; try lia.
  - rewrite Hcsum. apply wrap64_id. nia.
  - intros Hin. destruct (Hw Hin) as (_ & _ & _ & _ & ->). apply wrap64_id. nia.
Qed.

Lemma run_metrics_totals_witness :
  compute_wait_collision_heatmaps [[(0, 0)]; [(0, 0)]; [(1, 0)]] [(1, 0)] 1 2
    (Some (NdArray 1 2 [0; 0]))
  = Ok (NdArray 1 2 [1; 0], NdArray 1 2 [0; 1], NdArray 1 2 [2; 1],
        Details 3 1 [2] 1 1)
  ∧ summarize_run_metrics [[(0, 0)]; [(0, 0)]; [(1, 0)]] [(1, 0)]
      (NdArray 1 2 [1; 0]) (NdArray 1 2 [0; 1]) tt 0
    = Ok (Metrics 1 2 1 1 1 1 tt 0)
  ∧ m_total_collision (Metrics 1 2 1 1 1 1 tt 0)
    = d_total_blocked (Details 3 1 [2] 1 1).
Proof.
  assert (compute_wait_collision_heatmaps [[(0, 0)]; [(0, 0)]; [(1, 0)]]
            [(1, 0)] 1 2 (Some (NdArray 1 2 [0; 0]))
          = Ok (NdArray 1 2 [1; 0], NdArray 1 2 [0; 1], NdArray 1 2 [2; 1],
                Details 3 1 [2] 1 1)) as Hrun by (vm_compute; reflexivity).
  assert (summarize_run_metrics [[(0, 0)]; [(0, 0)]; [(1, 0)]] [(1, 0)]
            (NdArray 1 2 [1; 0]) (NdArray 1 2 [0; 1]) tt 0
          = Ok (Metrics 1 2 1 1 1 1 tt 0)) as Hm by (vm_compute; reflexivity).
  split_and!; [exact Hrun | exact Hm |].
  apply (run_metrics_totals _ _ _ _ _ _ _ _ _ _ _ _ Hrun Hm).
  simpl. lia.
Defined.
